(** * mas-website build hooks: a shallow embedding and its properties

    The repository holds four MkDocs hooks, all under [docs/hooks/]:

    - [add-checklists-banner.py]  (module [add_checklists_banner])
    - [resolve_terms.py]          (module [resolve_terms])
    - [fix-serve-watch.py]        (module [fix_serve_watch])
    - [combine-repos.py]          (module [combine_repos])

    Python [str] values are modelled as [string]: a sequence of code
    points below 256.  On that alphabet the library functions used by the
    hooks ([str.strip], [str.lower], [str.replace], [repr], the [re]
    patterns) are written out exactly as CPython computes them. *)

From Stdlib Require Import String Ascii List NArith Lia Bool.
From Stdlib Require Import Sorting.Permutation Sorting.Sorted.
From stdpp Require Import base option list strings gmap.

Local Open Scope string_scope.
Local Open Scope list_scope.

(** stdpp freezes [append] under [simpl]; the proofs below compute with
    string literals, so it is released again for this file. *)
#[local] Arguments String.append !_ _ / : simpl nomatch.

(* ===================================================================== *)
(** * Python string primitives                                            *)
(* ===================================================================== *)

Module Py.

(** The one-character strings the hooks spell with escapes. *)
Definition LF : string := String "010"%char EmptyString.
Definition CR : string := String "013"%char EmptyString.
Definition DQUOTE : string := String "034"%char EmptyString.

(** [str.isspace] for one code point below 256: TAB, LF, VT, FF, CR,
    FS, GS, RS, US, SPACE, NEL (0x85) and NBSP (0xA0). *)
Definition is_space (c : ascii) : bool :=
  let n := N_of_ascii c in
  ((9 <=? n) && (n <=? 13) || (28 <=? n) && (n <=? 32)
   || (n =? 133) || (n =? 160))%N.

(** [s.lstrip()], [s.rstrip()], [s.strip()]. *)
Fixpoint lstrip (s : string) : string :=
  match s with
  | EmptyString => EmptyString
  | String c s' => if is_space c then lstrip s' else s
  end.

Fixpoint rstrip (s : string) : string :=
  match s with
  | EmptyString => EmptyString
  | String c s' =>
      match rstrip s' with
      | EmptyString => if is_space c then EmptyString else String c EmptyString
      | r => String c r
      end
  end.

Definition strip (s : string) : string := rstrip (lstrip s).

(** [s.lower()]: A-Z and the Latin-1 capitals 0xC0-0xDE (without the
    multiplication sign 0xD7) move up by 32. *)
Definition lower_char (c : ascii) : ascii :=
  let n := N_of_ascii c in
  if ((65 <=? n) && (n <=? 90)
      || (192 <=? n) && (n <=? 222) && negb (n =? 215))%N
  then ascii_of_N (n + 32) else c.

Fixpoint lower (s : string) : string :=
  match s with
  | EmptyString => EmptyString
  | String c s' => String (lower_char c) (lower s')
  end.

(** [s.startswith(p)], [s.endswith(p)] and [p in s]. *)
Fixpoint startswith (p s : string) : bool :=
  match p, s with
  | EmptyString, _ => true
  | String a p', String b s' => Ascii.eqb a b && startswith p' s'
  | String _ _, EmptyString => false
  end.

Fixpoint endswith (p s : string) : bool :=
  String.eqb s p ||
  match s with
  | EmptyString => false
  | String _ s' => endswith p s'
  end.

Fixpoint contains (p s : string) : bool :=
  startswith p s ||
  match s with
  | EmptyString => false
  | String _ s' => contains p s'
  end.

(** [sep.join(l)]. *)
Definition join (sep : string) (l : list string) : string :=
  String.concat sep l.

(** [s.replace(old, new)]: occurrences are replaced from the left and
    do not overlap; [skip] counts the characters of a matched occurrence
    that are still to be passed over.  With an empty [old] Python puts
    [new] before every character and at the end. *)
Fixpoint replace_from (old new : string) (skip : nat) (s : string) : string :=
  match s with
  | EmptyString => EmptyString
  | String c s' =>
      match skip with
      | S k => replace_from old new k s'
      | O =>
          if startswith old s
          then new +:+ replace_from old new (String.length old - 1) s'
          else String c (replace_from old new 0 s')
      end
  end.

Fixpoint intersperse (new s : string) : string :=
  match s with
  | EmptyString => new
  | String c s' => new +:+ String c (intersperse new s')
  end.

Definition replace (old new s : string) : string :=
  match old with
  | EmptyString => intersperse new s
  | _ => replace_from old new 0 s
  end.

(** Truth value of a [str] and of an optional [str] ([None] is false,
    and so is the empty string). *)
Definition truthy (s : string) : bool :=
  match s with EmptyString => false | _ => true end.

Definition truthy_opt (o : option string) : bool :=
  match o with Some s => truthy s | None => false end.

(** [o or ""] for an optional [str]. *)
Definition or_empty (o : option string) : string :=
  match o with
  | Some s => if truthy s then s else EmptyString
  | None => EmptyString
  end.

(** [sorted(l, key=key)] with [str] keys: the sort is stable and only
    asks whether one key is smaller than another ([<] on [str] compares
    code points, a proper prefix being smaller).  [insert_sorted x l] puts
    [x], which stood before every element of [l], in front of the first
    element whose key is not smaller than its own. *)
Fixpoint insert_sorted {A} (key : A -> string) (x : A) (l : list A) : list A :=
  match l with
  | [] => [x]
  | y :: l' =>
      if String.ltb (key y) (key x) then y :: insert_sorted key x l'
      else x :: y :: l'
  end.

Fixpoint sorted {A} (key : A -> string) (l : list A) : list A :=
  match l with
  | [] => []
  | x :: l' => insert_sorted key x (sorted key l')
  end.

(** [s.removeprefix(p)] when [s.startswith(p)], else nothing. *)
Fixpoint strip_prefix (p s : string) : option string :=
  match p, s with
  | EmptyString, _ => Some s
  | String a p', String b s' =>
      if Ascii.eqb a b then strip_prefix p' s' else None
  | String _ _, EmptyString => None
  end.

(** [s.rfind(c)] for a single character, [None] standing for -1. *)
Fixpoint rfind (c : ascii) (s : string) : option nat :=
  match s with
  | EmptyString => None
  | String a s' =>
      match rfind c s' with
      | Some i => Some (S i)
      | None => if Ascii.eqb a c then Some 0 else None
      end
  end.

(** [posixpath.basename(p)]: [p[p.rfind('/') + 1:]]. *)
Definition basename (p : string) : string :=
  match rfind "/" p with
  | Some i => substring (S i) (String.length p - S i) p
  | None => p
  end.

(** [posixpath.splitext(p)[0]]: the extension starts at the last dot of
    the last component, unless only dots come before it there. *)
Fixpoint all_dots (s : string) : bool :=
  match s with
  | EmptyString => true
  | String c s' => Ascii.eqb c "." && all_dots s'
  end.

Definition splitext_root (p : string) : string :=
  let filenameIndex := match rfind "/" p with Some i => S i | None => 0 end in
  match rfind "." p with
  | Some dotIndex =>
      if (filenameIndex <=? dotIndex)%nat
         && negb (all_dots (substring filenameIndex (dotIndex - filenameIndex) p))
      then substring 0 dotIndex p
      else p
  | None => p
  end.

(** [\d] on code points below 256: the ten ASCII digits. *)
Definition is_digit (c : ascii) : bool :=
  let n := N_of_ascii c in ((48 <=? n) && (n <=? 57))%N.

End Py.

(* ===================================================================== *)
(** * The shared MkDocs configuration                                     *)
(* ===================================================================== *)

(** A [pathlib] path relative to the working directory: its parts.
    [Path("docs") / "MASTG"] is [["docs"; "MASTG"]], [Path(".") / x] is
    [[x]] and [Path("..") / x] is [[".."; x]]. *)
Definition Path := list string.

(** A Python [dict] with [str] keys, in insertion order. *)
Definition dict (V : Type) := list (string * V).

Fixpoint dict_get {V} (k : string) (d : dict V) : option V :=
  match d with
  | [] => None
  | (k', v) :: d' => if String.eqb k' k then Some v else dict_get k d'
  end.

Definition dict_values {V} (d : dict V) : list V := map snd d.

(** A term record as [get_terms] builds it.  [dict.get] gives [None] for
    a key that is missing and for one bound to [None] alike, so each
    field is an optional [str]. *)
Record Term := {
  url : option string;
  title : option string;
  nist_url : option string;
  cwe_url : option string
}.

(** The part of the MkDocs configuration the hooks touch: the [extra]
    mapping, in which the merger records the three repository locations,
    and the [terms] index ([None] until [on_pre_build] stores it). *)
Record Config := {
  extra : gmap string Path;
  terms : option (dict Term)
}.

(* ===================================================================== *)
(** * docs/hooks/add-checklists-banner.py                                 *)
(* ===================================================================== *)

Module add_checklists_banner.
Import Py.

(** The triple-quoted literal: it opens and closes with a line feed. *)
Definition checklists_banner : string :=
  LF +:+ "!!! info " +:+ DQUOTE +:+ "Checklists Updated (June 2025)" +:+ DQUOTE +:+ LF +:+
  "    The checklists now include **all MASTG tests**, as well as updated mappings to the new [MAS profiles](https://mas.owasp.org/MASTG/0x03b-Testing-Profiles/)." +:+ LF.

(** [on_page_markdown(markdown, page, **kwargs)], with
    [path = page.file.src_uri]. *)
Definition on_page_markdown (markdown path : string) : string :=
  if contains "checklists/MASVS-" path
  then LF +:+ checklists_banner +:+ LF +:+ LF +:+ markdown
  else markdown.

End add_checklists_banner.

(* ===================================================================== *)
(** * docs/hooks/resolve_terms.py                                         *)
(* ===================================================================== *)

Module resolve_terms.
Import Py.

(** [terms/MASTG-TERM-\d{4}.md] at the head of [s]: the dot before [md]
    is unescaped and stands for any character but a line feed. *)
Definition term_page_tail (s : string) : bool :=
  match strip_prefix "terms/MASTG-TERM-" s with
  | Some (String d1 (String d2 (String d3 (String d4
            (String c (String m (String d _))))))) =>
      is_digit d1 && is_digit d2 && is_digit d3 && is_digit d4
      && negb (Ascii.eqb c "010") && Ascii.eqb m "m" && Ascii.eqb d "d"
  | _ => false
  end.

(** [re.compile(r"^.*terms/MASTG-TERM-\d{4}.md").match(path)] as a truth
    value: [.*] passes over any run of characters other than line feeds,
    and nothing anchors the end of the match. *)
Fixpoint term_page_match (s : string) : bool :=
  term_page_tail s ||
  match s with
  | EmptyString => false
  | String c s' => negb (Ascii.eqb c "010") && term_page_match s'
  end.

(** [f"[{term['title']}]({term['url']})"]. *)
Definition link (term : Term) : string :=
  "[" +:+ default EmptyString (title term) +:+ "]("
      +:+ default EmptyString (url term) +:+ ")".

Definition listed (term : Term) : bool :=
  truthy_opt (title term) && truthy_opt (url term).

Definition on_page_markdown (markdown path : string) (config : Config) : string :=
  if endswith "terms/index.md" path then
    let terms := dict_values (default [] (terms config)) in
    let terms_sorted := sorted (fun term => lower (or_empty (title term))) terms in
    let terms_formatted := map link (List.filter listed terms_sorted) in
    markdown +:+ "<br/>" +:+ join "<br/>" terms_formatted
  else if truthy path && term_page_match path then
    let terms := default [] (terms config) in
    let term_id := splitext_root (basename path) in
    match dict_get term_id terms with
    | Some term =>
        let nist_url := nist_url term in
        let cwe_url := cwe_url term in
        if truthy_opt nist_url || truthy_opt cwe_url then
          let references := "## Other Framework References" in
          let references :=
            if truthy_opt nist_url
            then references +:+ LF +:+ LF +:+ "[NIST](" +:+ default EmptyString nist_url +:+ ")"
            else references in
          let references :=
            if truthy_opt cwe_url
            then references +:+ LF +:+ LF +:+ "[CWE](" +:+ default EmptyString cwe_url +:+ ")"
            else references in
          markdown +:+ LF +:+ LF +:+ LF +:+ references
        else markdown
    | None => markdown
    end
  else markdown.

(** The sort key of the glossary: the lower-cased title, a missing
    title counting as the empty string. *)
Definition title_key (term : Term) : string :=
  lower (or_empty (title term)).

(** ** The order of the glossary as the specification words it *)

(** The code of a character without regard to case: a capital letter
    (A to Z, and the Latin-1 capitals 0xC0 to 0xDE but the multiplication
    sign) counts as its small letter, which stands 32 places on. *)
Definition caseless_code (c : ascii) : N :=
  let n := N_of_ascii c in
  if ((65 <=? n) && (n <=? 90)
      || (192 <=? n) && (n <=? 222) && negb (n =? 215))%N
  then (n + 32)%N else n.

(** Two titles compared without regard to case: the first character in
    which they differ up to case decides, and a title that is the
    beginning of another comes first. *)
Fixpoint caseless_compare (s t : string) : comparison :=
  match s, t with
  | EmptyString, EmptyString => Eq
  | EmptyString, String _ _ => Lt
  | String _ _, EmptyString => Gt
  | String a s', String b t' =>
      match (caseless_code a ?= caseless_code b)%N with
      | Eq => caseless_compare s' t'
      | c => c
      end
  end.


Definition caseless_eqb (s t : string) : bool :=
  match caseless_compare s t with Eq => true | _ => false end.

(** Whether the title of [term] is [k] up to case. *)
Definition titled (k : string) (term : Term) : bool :=
  caseless_eqb (default EmptyString (title term)) k.

(** A small index: two complete records and one without a title. *)
Definition glossary_example : Config :=
  {| extra := ∅;
     terms := Some
       [("MASTG-TERM-0002",
         {| url := Some "/MASTG/terms/MASTG-TERM-0002/"; title := Some "beta";
            nist_url := None; cwe_url := None |});
        ("MASTG-TERM-0001",
         {| url := Some "/MASTG/terms/MASTG-TERM-0001/"; title := Some "Alpha";
            nist_url := None; cwe_url := None |});
        ("MASTG-TERM-0003",
         {| url := Some "/MASTG/terms/MASTG-TERM-0003/"; title := None;
            nist_url := None; cwe_url := None |})] |}.


(** An index with two titles that differ in case only. *)
Definition glossary_same_title : Config :=
  {| extra := ∅;
     terms := Some
       [("MASTG-TERM-0003",
         {| url := Some "/MASTG/terms/MASTG-TERM-0003/"; title := Some "beta";
            nist_url := None; cwe_url := None |});
        ("MASTG-TERM-0002",
         {| url := Some "/MASTG/terms/MASTG-TERM-0002/"; title := Some "alpha";
            nist_url := None; cwe_url := None |});
        ("MASTG-TERM-0001",
         {| url := Some "/MASTG/terms/MASTG-TERM-0001/"; title := Some "Alpha";
            nist_url := None; cwe_url := None |})] |}.
End resolve_terms.

(* ===================================================================== *)
(** * docs/hooks/fix-serve-watch.py                                       *)
(* ===================================================================== *)

Module fix_serve_watch.

(** What a call to the live-reload server may raise: the [ValueError]
    that the hook catches, or anything else. *)
Inductive exception := ValueError | OtherError (name : string).

(** [str(path)] of a relative path. *)
Definition str_of_path (p : Path) : string :=
  match p with
  | [] => "."
  | _ => Py.join "/" p
  end.

Section Server.
(** The server is the host's object; the hook only calls its [watch] and
    [unwatch] methods.  [unwatch] gives the server afterwards and the
    exception it raised, if any. *)
Context {Server : Type}.
Variable watch : Path -> Server -> Server.
Variable unwatch : string -> Server -> Server * option exception.

(** One of the three [if config.get('extra', {}).get(key): ...] blocks.
    A recorded location is a [Path] object, which is always true. *)
Definition watch_recorded (config : Config) (label key : string)
    (st : Server * list string) : Server * list string :=
  match extra config !! key with
  | Some repo =>
      (watch repo (fst st),
       snd st ++ ["Watching " +:+ label +:+ " repo at " +:+ str_of_path repo])
  | None => st
  end.

(** [on_serve(server, config, **kwargs)]: the server and the messages
    logged when the hook returns, or the exception that leaves it. *)
Definition on_serve (server : Server) (config : Config)
    : (Server * list string) + exception :=
  let '(server, raised) := unwatch "docs" server in
  match raised with
  | Some (OtherError name) => inr (OtherError name)
  | Some ValueError | None =>
      let st := (server, []) in
      let st := watch_recorded config "MASTG" "mastg_repo" st in
      let st := watch_recorded config "MASVS" "masvs_repo" st in
      let st := watch_recorded config "MASWE" "maswe_repo" st in
      inl st
  end.

End Server.

(** The locations the merger recorded, in the order the hook asks for
    them. *)
Definition recorded (config : Config) : list Path :=
  omap (fun key => extra config !! key) ["mastg_repo"; "masvs_repo"; "maswe_repo"].

(** A server that only remembers the calls made to it; [unwatch] fails
    with [KeyError] for a path that is not watched, as MkDocs' does. *)
Inductive call := Watch (p : Path) | Unwatch (p : string).

Definition trace_watch (p : Path) (calls : list call) : list call :=
  calls ++ [Watch p].

Definition trace_unwatch (watched : bool) (p : string) (calls : list call)
    : list call * option exception :=
  (calls ++ [Unwatch p], if watched then None else Some (OtherError "KeyError")).

End fix_serve_watch.

(* ===================================================================== *)
(** * docs/hooks/combine-repos.py                                         *)
(* ===================================================================== *)

Module combine_repos.
Import Py.

(** ** Exceptions, files and the build state *)

Inductive exception :=
| FileNotFoundError | NotADirectoryError | FileExistsError | IsADirectoryError
| SameFileError | OSError | ShutilError | AttributeError
| Exception (message : string)
| Unsupported.
(** [Unsupported] is not a Python exception: it marks what this model
    leaves undescribed, which is a tree copied into or over itself by
    [shutil.copytree] and the moves named at [move]. *)

(** A file holds its decoded text; a directory is known by its entry, its
    children being the longer locations.  Locations are lists of names
    from the root of the file system. *)
Inductive node := File (content : string) | Dir.

#[global] Instance node_eq_dec : EqDecision node.
Proof. solve_decision. Defined.

Abbreviation tree := (gmap (list string) node).

Inductive level := INFO | WARNING.

Record state := { files : tree; log : list (level * string) }.

Inductive result (A : Type) := Return (a : A) | Raise (e : exception).
Arguments Return {A} a.
Arguments Raise {A} e.

(** Code that reads and changes the build state and may raise. *)
Definition M (A : Type) := state -> result (A * state).

Definition ret {A} (a : A) : M A := fun s => Return (a, s).

Definition bind {A B} (m : M A) (k : A -> M B) : M B :=
  fun s => match m s with
           | Return (a, s') => k a s'
           | Raise e => Raise e
           end.

Definition raise {A} (e : exception) : M A := fun _ => Raise e.

Notation "'do' x <- c ; k" := (bind c (fun x => k))
  (at level 10, x name, c at level 100, k at level 200).
Notation "c ;; k" := (bind c (fun _ => k))
  (at level 100, k at level 200, right associativity).

Definition get_files : M tree := fun s => Return (files s, s).

(** A primitive of the file system: it gives the new tree or raises. *)
Definition fs_update (f : tree -> result tree) : M unit :=
  fun s => match f (files s) with
           | Return t => Return (tt, {| files := t; log := log s |})
           | Raise e => Raise e
           end.

Definition fs_read {A} (f : tree -> result A) : M A :=
  fun s => match f (files s) with
           | Return a => Return (a, s)
           | Raise e => Raise e
           end.

Definition log_record (l : level) (message : string) : M unit :=
  fun s => Return (tt, {| files := files s; log := log s ++ [(l, message)] |}).

(** [for x in l: body(x)]. *)
Fixpoint for_each {A} (l : list A) (body : A -> M unit) : M unit :=
  match l with
  | [] => ret tt
  | x :: l' => body x ;; for_each l' body
  end.

(** ** Paths *)

(** [str(p)], [p.parent], [p.name] and [p.stem] of a relative path. *)
Definition str_of_path (p : Path) : string :=
  match p with
  | [] => "."
  | _ => join "/" p
  end.

Definition parent (p : Path) : Path := removelast p.

Definition name (p : Path) : string := List.last p EmptyString.

Definition stem (p : Path) : string :=
  let name := name p in
  match rfind "." name with
  | Some i =>
      if (0 <? i)%nat && (i <? String.length name - 1)%nat
      then substring 0 i name else name
  | None => name
  end.

(** [repr(s)] of a [str]: double quotes only when [s] holds a single
    quote and no double quote; backslash, the chosen quote, TAB, LF and CR
    are escaped by name, the other characters that are not printable
    (below 0x20, 0x7f-0xa0, 0xad) as [\xhh]. *)
Definition hex_digit (n : N) : ascii :=
  ascii_of_N (if (n <? 10)%N then 48 + n else 87 + n).

Definition repr_char (quote c : ascii) : string :=
  let n := N_of_ascii c in
  if Ascii.eqb c quote || Ascii.eqb c "\" then String "\" (String c EmptyString)
  else if (n =? 9)%N then "\t"
  else if (n =? 10)%N then "\n"
  else if (n =? 13)%N then "\r"
  else if (n <? 32)%N || (127 <=? n)%N && (n <=? 160)%N || (n =? 173)%N
  then String "\" (String "x" (String (hex_digit (n / 16)) (String (hex_digit (n mod 16)) EmptyString)))
  else String c EmptyString.

Fixpoint repr_chars (quote : ascii) (s : string) : string :=
  match s with
  | EmptyString => EmptyString
  | String c s' => repr_char quote c +:+ repr_chars quote s'
  end.

Definition repr (s : string) : string :=
  let quote : ascii :=
    if contains "'" s && negb (contains DQUOTE s) then "034"%char else "'"%char in
  String quote (repr_chars quote s +:+ String quote EmptyString).

(** [str([...])] of a list of [str]. *)
Definition repr_list (l : list string) : string :=
  "[" +:+ join ", " (map repr l) +:+ "]".

(** [s.upper()] on the ASCII letters and the Latin-1 letters whose
    capital is below 256 (the repository names are ASCII). *)
Definition upper_char (c : ascii) : ascii :=
  let n := N_of_ascii c in
  if ((97 <=? n) && (n <=? 122)
      || (224 <=? n) && (n <=? 254) && negb (n =? 247))%N
  then ascii_of_N (n - 32) else c.

Fixpoint upper (s : string) : string :=
  match s with
  | EmptyString => EmptyString
  | String c s' => String (upper_char c) (upper s')
  end.

Definition str_of_bool (b : bool) : string := if b then "True" else "False".

(** ** Text files *)

(** Text read with universal newlines: CR LF and a lone CR become LF. *)
Fixpoint universal_newlines (s : string) : string :=
  match s with
  | EmptyString => EmptyString
  | String c s' =>
      if Ascii.eqb c "013" then
        match s' with
        | String "010" _ => universal_newlines s'
        | _ => String "010" (universal_newlines s')
        end
      else String c (universal_newlines s')
  end.

(** ** The control page template *)

(** [s[:k]] and [s[k:]]. *)
Fixpoint take (k : nat) (s : string) : string :=
  match k, s with
  | S k', String c s' => String c (take k' s')
  | _, _ => EmptyString
  end.

Fixpoint drop (k : nat) (s : string) : string :=
  match k, s with
  | S k', String _ s' => drop k' s'
  | _, _ => s
  end.

(** The length of the longest run of characters other than [#] at the
    head of [s]: what [[^#]*] takes first. *)
Fixpoint run_not_hash (s : string) : nat :=
  match s with
  | String c s' => if Ascii.eqb c "#" then 0 else S (run_not_hash s')
  | EmptyString => 0
  end.

(** The group [[^#]*] followed by two line feeds, at the head of [s]: the
    run is given back character by character, from its full length [k]
    down, until two line feeds follow; the group is what is left of the
    run. *)
Fixpoint backtrack (s : string) (k : nat) : option string :=
  if startswith (LF +:+ LF) (drop k s) then Some (take k s)
  else match k with
       | O => None
       | S k' => backtrack s k'
       end.

Definition match_control (s : string) : option string :=
  match strip_prefix ("## Control" +:+ LF +:+ LF) s with
  | Some rest => backtrack rest (run_not_hash rest)
  | None => None
  end.

(** [re.search(control_regex, content)], the pattern being the heading
    [## Control], two line feeds, the group [[^#]*] and two line feeds:
    group 1 of the match at the leftmost position where it matches. *)
Fixpoint search_control (content : string) : option string :=
  match match_control content with
  | Some group => Some group
  | None =>
      match content with
      | EmptyString => None
      | String _ content' => search_control content'
      end
  end.

(** [.*]: the characters up to the next line feed. *)
Fixpoint first_line (s : string) : string :=
  match s with
  | EmptyString => EmptyString
  | String c s' => if Ascii.eqb c "010" then EmptyString else String c (first_line s')
  end.

(** [re.search(description_regex, content)], the pattern being the
    heading [## Description], two line feeds and the group [.*]:
    group 1 of the leftmost match. *)
Fixpoint search_description (content : string) : option string :=
  match strip_prefix ("## Description" +:+ LF +:+ LF) content with
  | Some rest => Some (first_line rest)
  | None =>
      match content with
      | EmptyString => None
      | String _ content' => search_description content'
      end
  end.

Definition MAS_BLUE : string := "499FFF".

(** The body of the loop over the control pages, from the text read to
    the text written.  [.group(1)] of a failed search raises
    [AttributeError]. *)
Definition control_page (control_id content : string) : result string :=
  match search_control content with
  | None => Raise AttributeError
  | Some group =>
      let control_content := strip group in
      match search_description content with
      | None => Raise AttributeError
      | Some group =>
          let description_content := strip group in
          let content := "# " +:+ control_id +:+ LF +:+ LF in
          let content := content +:+ "<p style=" +:+ DQUOTE +:+ "font-size: 2em" +:+ DQUOTE +:+ ">"
                           +:+ control_content +:+ "</p>" +:+ LF +:+ LF in
          let content := content +:+ "<hr style=" +:+ DQUOTE
                           +:+ "height: 0.2em; background-color: #" +:+ MAS_BLUE +:+ "; border: 0;"
                           +:+ DQUOTE +:+ " />" +:+ LF +:+ LF in
          let content := content +:+ description_content +:+ LF in
          Return content
      end
  end.

(** ** The file system *)

(** The entries at and below [k], under their locations relative to
    [k]. *)
Definition strip_loc (k : list string) (kn : list string * node)
    : option (list string * node) :=
  if bool_decide (k `prefix_of` kn.1)
  then Some (List.skipn (length k) kn.1, kn.2) else None.

Definition subtree (t : tree) (k : list string) : tree :=
  list_to_map (omap (strip_loc k) (map_to_list t)).

(** What the system reports for a location that holds nothing: on the
    way from [done] down to [done ++ rest], [ENOENT] at the first name
    that is missing and [ENOTDIR] at a regular file that is not the last
    name. *)
Fixpoint missing_from (done rest : list string) (t : tree) : exception :=
  match rest with
  | [] => FileNotFoundError
  | part :: rest' =>
      let k := done ++ [part] in
      match t !! k with
      | Some Dir => missing_from k rest' t
      | Some (File _) => NotADirectoryError
      | None => FileNotFoundError
      end
  end.

Definition missing (k : list string) (t : tree) : exception :=
  missing_from [] k t.

(** [shutil.rmtree(k)] removes a directory and all below it.  It raises
    for a regular file, and for the working directory [cwd] or a
    directory above it, which it cannot remove. *)
Definition rmtree (cwd : list string) (k : list string)
    (t : tree) : result tree :=
  match t !! k with
  | None => Raise (missing k t)
  | Some (File _) => Raise NotADirectoryError
  | Some Dir =>
      if bool_decide (k `prefix_of` cwd) then Raise OSError
      else Return (filter (fun kn => ¬ k `prefix_of` kn.1) t)
  end.

(** [mkdir(parents=True, exist_ok=True)] and [os.makedirs(exist_ok=True)]:
    every missing directory from [done] down to [done ++ rest] is made;
    a regular file on the way is an error. *)
Fixpoint mkdir_from (done rest : list string) (t : tree) : result tree :=
  match rest with
  | [] => Return t
  | part :: rest' =>
      let k := done ++ [part] in
      match t !! k with
      | Some Dir => mkdir_from k rest' t
      | Some (File _) =>
          Raise (match rest' with [] => FileExistsError | _ => NotADirectoryError end)
      | None => mkdir_from k rest' (<[k := Dir]> t)
      end
  end.

Definition mkdir_p (k : list string) (t : tree) : result tree :=
  mkdir_from [] k t.

(** [shutil.copy(src, dst)] and [shutil.copy2]: a destination that is a
    directory receives the file under the source's name. *)
Definition copy_target (src dst : list string) (t : tree) : list string :=
  if bool_decide (t !! dst = Some Dir)
  then dst ++ [List.last src EmptyString] else dst.

Definition copy_file (src dst : list string) (t : tree) : result tree :=
  let dst := copy_target src dst t in
  match t !! src with
  | None => Raise (missing src t)
  | Some Dir => Raise IsADirectoryError
  | Some (File content) =>
      if bool_decide (src = dst) then Raise SameFileError
      else match t !! dst with
           | Some Dir => Raise IsADirectoryError
           | _ =>
               match t !! removelast dst with
               | Some Dir => Return (<[dst := File content]> t)
               | Some (File _) => Raise NotADirectoryError
               | None => Raise (missing (removelast dst) t)
               end
           end
  end.

(** Where [copytree] puts the entry at [r] below the source: a file goes
    into the directory that already stands in its place. *)
Definition lands_inside (t : tree) (dst : list string)
    (r : list string) (n : node) : bool :=
  match n with
  | File _ => bool_decide (t !! (dst ++ r) = Some Dir)
  | Dir => false
  end.

Definition inside (dst r : list string) : list string :=
  dst ++ r ++ [List.last r EmptyString].

(** An entry [copytree] cannot place: a directory over a regular file,
    or a file over a directory that holds a directory of its name. *)
Definition blocked (t : tree) (dst : list string)
    (r : list string) (n : node) : Prop :=
  match n with
  | Dir => exists c, t !! (dst ++ r) = Some (File c)
  | File _ => t !! (dst ++ r) = Some Dir /\ t !! inside dst r = Some Dir
  end.

#[local] Instance blocked_dec t dst r n : Decision (blocked t dst r n).
Proof.
  destruct n as [c|]; simpl.
  - apply _.
  - destruct (t !! (dst ++ r)) as [[c|]|].
    + left. now exists c.
    + right. intros [c H]. discriminate.
    + right. intros [c H]. discriminate.
Defined.

(** The entries of a source laid over the destination: those that go
    to their own place and those that go into a directory. *)
Definition copied (t : tree) (dst : list string) (entries : tree) : tree :=
  kmap (app dst) (filter (fun rn => lands_inside t dst rn.1 rn.2 = false) entries)
  ∪ kmap (inside dst) (filter (fun rn => lands_inside t dst rn.1 rn.2 = true) entries).

(** [shutil.copytree(src, dst, dirs_exist_ok=True)] for a source and a
    destination of which neither lies in the other. *)
Definition copytree (src dst : list string) (t : tree) : result tree :=
  match t !! src with
  | None => Raise (missing src t)
  | Some (File _) => Raise NotADirectoryError
  | Some Dir =>
      if bool_decide (src `prefix_of` dst ∨ dst `prefix_of` src)
      then Raise Unsupported
      else
        match mkdir_p dst t with
        | Raise e => Raise e
        | Return t1 =>
            let entries := subtree t src in
            if bool_decide (map_Forall (fun r n => ¬ blocked t1 dst r n) entries)
            then Return (copied t1 dst entries ∪ t1)
            else Raise ShutilError
        end
  end.

(** [read_text(encoding="utf-8")], [write_text(..., encoding="utf-8")]
    and [open(k, "w").write(...)]. *)
Definition read_text (k : list string) (t : tree) : result string :=
  match t !! k with
  | Some (File content) => Return (universal_newlines content)
  | Some Dir => Raise IsADirectoryError
  | None => Raise (missing k t)
  end.

Definition write_text (k : list string) (content : string) (t : tree)
    : result tree :=
  match t !! k with
  | Some Dir => Raise IsADirectoryError
  | _ =>
      match t !! removelast k with
      | Some Dir => Return (<[k := File content]> t)
      | Some (File _) => Raise NotADirectoryError
      | None => Raise (missing (removelast k) t)
      end
  end.

(** The relative locations of the entries strictly below [k]: what
    [rglob("*")] finds. *)
Definition below (k : list string) (t : tree) : list (list string) :=
  List.filter (fun r => negb (bool_decide (r = []))) (map fst (map_to_list (subtree t k))).

(** [name] matches [*.md]; the last two parts of [r] match
    [controls/*.md]; [name] matches [0x0*.md]. *)
Definition is_md (r : list string) : bool :=
  endswith ".md" (List.last r EmptyString).

Definition is_control_md (r : list string) : bool :=
  is_md r && String.eqb (List.last (removelast r) EmptyString) "controls"
  && (2 <=? length r)%nat.

Definition is_chapter_md (r : list string) : bool :=
  (length r =? 1)%nat && startswith "0x0" (List.last r EmptyString) && is_md r.

(** [repo_candidates] of [locate_external_repo]: [Path("repos") / name],
    [Path("..") / name] and [Path(".") / name]. *)
Definition candidates (repo_name : string) : list Path :=
  [["repos"; repo_name]; [".."; repo_name]; [repo_name]].

Section Build.

(** The working directory of the build, as a location. *)
Variable cwd : list string.

(** Where a relative path leads: [..] steps up, any other part down.
    The system looks a name up before it steps up from it; the two agree
    where [..] comes first in a path, if at all, as in every path the
    hook builds from the candidates of a repository. *)
Definition step (k : list string) (part : string) : list string :=
  if String.eqb part ".." then removelast k else k ++ [part].

Definition resolve (p : Path) : list string := fold_left step p cwd.

(** [str(p.absolute())]. *)
Definition absolute (p : Path) : string := "/" +:+ join "/" (cwd ++ p).

Definition exists_ (p : Path) : M bool :=
  fun s => Return (bool_decide (is_Some (files s !! resolve p)), s).

Definition is_dir (p : Path) : M bool :=
  fun s => Return (bool_decide (files s !! resolve p = Some Dir), s).

Definition is_file (p : Path) : M bool :=
  fun s => Return (match files s !! resolve p with Some (File _) => true | _ => false end, s).

Definition mkdir (p : Path) : M unit := fs_update (mkdir_p (resolve p)).

(** [base.rglob(pattern)], [base.glob(pattern)]: the matching paths
    below a directory, none when [base] is not a directory. *)
Definition rglob (select : list string -> bool) (base : Path) : M (list Path) :=
  fun s =>
    match files s !! resolve base with
    | Some Dir =>
        Return (map (app base) (List.filter select (below (resolve base) (files s))), s)
    | _ => Return ([], s)
    end.

(** ** The hook *)

Definition replace_in_file (file_path : Path) (old new : string) : M unit :=
  do content <- fs_read (read_text (resolve file_path));
  fs_update (write_text (resolve file_path) (replace old new content)).

Definition batch_replace (filepaths : list Path)
    (replacements : list (string * string)) : M unit :=
  for_each filepaths (fun file =>
    for_each replacements (fun '(old, new) => replace_in_file file old new)).

Definition find_md_files (base_dir : Path) : M (list Path) :=
  do found <- rglob is_md base_dir;
  ret (List.filter (fun p => negb (contains "/node_modules/" (str_of_path p))
                             && negb (contains "/." (str_of_path p))) found).

Definition clean_and_copy (source destination : Path) : M unit :=
  do present <- exists_ destination;
  (if present then fs_update (rmtree cwd (resolve destination)) else ret tt) ;;
  mkdir (parent destination) ;;
  do present <- exists_ source;
  if negb present then
    log_record WARNING ("Source directory does not exist: " +:+ str_of_path source) ;;
    mkdir destination
  else
    fs_update (copytree (resolve source) (resolve destination)).

Definition locate_external_repo (repo_name : string) : M Path :=
  let repo_candidates := candidates repo_name in
  for_each repo_candidates (fun candidate =>
    do found <- is_dir candidate;
    log_record INFO ("Checking " +:+ repo_name +:+ " at: " +:+ absolute candidate
                     +:+ ", exists: " +:+ str_of_bool found)) ;;
  do t <- get_files;
  let repo_location :=
    List.find (fun p => bool_decide (t !! resolve p = Some Dir)) repo_candidates in
  match repo_location with
  | None =>
      raise (Exception ("Error: Could not find " +:+ repo_name
                        +:+ " repository. Expected in "
                        +:+ repr_list (map absolute repo_candidates)))
  | Some repo_location =>
      log_record INFO ("Using " +:+ upper repo_name +:+ " directory: "
                       +:+ str_of_path repo_location) ;;
      ret repo_location
  end.

Definition structure_maswe (docs_dir : Path) : M Path :=
  do maswe_repo_dir <- locate_external_repo "maswe";
  let maswe_local_dir := docs_dir ++ ["MASWE"] in
  clean_and_copy (maswe_repo_dir ++ ["weaknesses"]) maswe_local_dir ;;
  do files <- find_md_files maswe_local_dir;
  batch_replace files [("Document/", "MASTG/")] ;;
  ret maswe_repo_dir.

(** One control page: read, rebuilt from the two sections, written. *)
Definition prettify_control (md_path : Path) : M unit :=
  let control_id := stem md_path in
  do content <- fs_read (read_text (resolve md_path));
  do content <- fs_read (fun _ => control_page control_id content);
  fs_update (write_text (resolve md_path) content).

Definition structure_masvs (docs_dir : Path) : M Path :=
  do masvs_repo_dir <- locate_external_repo "masvs";
  let masvs_local_dir := docs_dir ++ ["MASVS"] in
  clean_and_copy (masvs_repo_dir ++ ["Document"]) masvs_local_dir ;;
  clean_and_copy (masvs_repo_dir ++ ["controls"]) (masvs_local_dir ++ ["controls"]) ;;
  let masvs_images_dir := docs_dir ++ ["assets"; "MASVS"; "Images"] in
  mkdir masvs_images_dir ;;
  fs_update (copytree (resolve (masvs_local_dir ++ ["images"])) (resolve masvs_images_dir)) ;;
  do pages <- rglob is_md masvs_local_dir;
  for_each pages (fun md_path =>
    if contains "controls" (str_of_path md_path)
    then replace_in_file md_path "images/" "../../../assets/MASVS/Images/"
    else replace_in_file md_path "images/" "../../assets/MASVS/Images/") ;;
  do pages <- rglob is_control_md masvs_local_dir;
  for_each pages prettify_control ;;
  ret masvs_repo_dir.

Definition directories : list string :=
  ["knowledge"; "tests"; "techniques"; "tools"; "apps"; "demos"; "rules";
   "utils"; "best-practices"].

(** The keys of [rel_paths], in the order of the literal; every value is
    the same prefix. *)
Definition rel_paths : list (string * string) :=
  map (fun subdir => (subdir, "../../../../../assets/Images/"))
    ["knowledge"; "tests"; "techniques"; "tools"; "apps"; "best-practices"; "demos"].

Definition minimal_index : string :=
  "# Mobile Application Security Testing Guide" +:+ LF +:+ LF
  +:+ "This is the MASTG index page." +:+ LF.

(** The function ends without a [return]: its value is [None]. *)
Definition structure_mastg (docs_dir : Path) : M unit :=
  do mastg_repo_dir <- locate_external_repo "mastg";
  let mastg_local_dir := docs_dir ++ ["MASTG"] in
  let images_dir := docs_dir ++ ["assets"; "Images"] in
  mkdir mastg_local_dir ;;
  mkdir images_dir ;;
  log_record INFO ("Using MASTG directory: " +:+ str_of_path mastg_repo_dir) ;;
  for_each directories (fun d =>
    clean_and_copy (mastg_repo_dir ++ [d]) (mastg_local_dir ++ [d])) ;;
  let tests_beta_dir := mastg_repo_dir ++ ["tests-beta"] in
  do present <- exists_ tests_beta_dir;
  (if present then
     do found <- rglob (fun _ => true) tests_beta_dir;
     for_each found (fun file =>
       do regular <- is_file file;
       if regular then
         let rel_path := List.skipn (length tests_beta_dir) file in
         let dest_path := mastg_local_dir ++ ["tests"] ++ rel_path in
         mkdir (parent dest_path) ;;
         fs_update (copy_file (resolve file) (resolve dest_path))
       else ret tt)
   else ret tt) ;;
  let document_dir := mastg_repo_dir ++ ["Document"] in
  do present <- exists_ document_dir;
  do document_dir <-
    (if negb present then
       let document_dir := mastg_repo_dir ++ ["docs"] in
       log_record INFO ("Document directory not found, trying: " +:+ str_of_path document_dir) ;;
       ret document_dir
     else ret document_dir);
  do present <- exists_ document_dir;
  do indexed <- exists_ (document_dir ++ ["index.md"]);
  (if negb present || negb indexed then
     log_record WARNING "Document directory or index.md not found, creating minimal structure" ;;
     fs_update (write_text (resolve (mastg_local_dir ++ ["index.md"])) minimal_index)
   else
     fs_update (copy_file (resolve (document_dir ++ ["index.md"]))
                          (resolve (mastg_local_dir ++ ["index.md"])))) ;;
  do present <- exists_ document_dir;
  (if present then
     do chapters <- rglob is_chapter_md document_dir;
     for_each chapters (fun mdfile =>
       fs_update (copy_file (resolve mdfile) (resolve (mastg_local_dir ++ [name mdfile]))))
   else ret tt) ;;
  let images_src := document_dir ++ ["Images"] in
  do present <- exists_ images_src;
  (if present then
     fs_update (copytree (resolve images_src) (resolve images_dir))
   else
     log_record WARNING ("Images directory not found at " +:+ str_of_path images_src) ;;
     mkdir images_dir) ;;
  for_each rel_paths (fun '(subdir, rel_img) =>
    do files <- find_md_files (mastg_local_dir ++ [subdir]);
    batch_replace files [("src=" +:+ DQUOTE +:+ "Images/", "src=" +:+ DQUOTE +:+ rel_img)]) ;;
  do files <- find_md_files mastg_local_dir;
  batch_replace files
    [("src=" +:+ DQUOTE +:+ "Images/", "src=" +:+ DQUOTE +:+ "../../../assets/Images/");
     ("Document/", EmptyString)].

(** [on_pre_build(config)]: the three merges, then what they returned is
    stored in [config['extra']].  Under [mastg_repo] that is the [None]
    of [structure_mastg]; a key bound to [None] and a missing key are the
    same to [dict.get], by which the mapping is read, so the key is
    removed. *)
Definition on_pre_build (config : Config) : M Config :=
  let docs_dir : Path := ["docs"] in
  do mastg_repo <- structure_mastg docs_dir;
  do maswe_repo <- structure_maswe docs_dir;
  do masvs_repo <- structure_masvs docs_dir;
  ret {| extra := <["masvs_repo" := masvs_repo]>
                    (<["maswe_repo" := maswe_repo]>
                       (delete "mastg_repo" (extra config)));
         terms := terms config |}.

End Build.

(** ** Control pages as the specification words them *)

(** The page the specification describes for a control [T] and a
    description [D]: heading, blank line, the styled paragraph with the
    trimmed [T], blank line, the blue rule, blank line, the trimmed [D]
    and a line feed. *)
Definition specified_control_page (control_id T D : string) : string :=
  "# " +:+ control_id +:+ LF +:+ LF
  +:+ "<p style=" +:+ DQUOTE +:+ "font-size: 2em" +:+ DQUOTE +:+ ">" +:+ strip T +:+ "</p>"
  +:+ LF +:+ LF
  +:+ "<hr style=" +:+ DQUOTE +:+ "height: 0.2em; background-color: #499FFF; border: 0;"
  +:+ DQUOTE +:+ " />" +:+ LF +:+ LF
  +:+ strip D +:+ LF.

(** A page with the two sections [T] and [D] after a preamble. *)
Definition sections_page (preamble T D : string) : string :=
  preamble +:+ "## Control" +:+ LF +:+ LF +:+ T +:+ LF +:+ LF
  +:+ "## Description" +:+ LF +:+ LF +:+ D.

(** A control page whose description has two paragraphs. *)
Definition two_paragraphs : string :=
  "Apps handle sensitive data." +:+ LF +:+ LF
  +:+ "This control covers data stored on purpose." +:+ LF.

Definition example_control_page : string :=
  sections_page EmptyString "The app securely stores sensitive data." two_paragraphs.

(** ** Example trees *)

(** A checkout [/site] with the three repositories under [repos/]. *)
Definition example_tree : tree := list_to_map
  [ ([], Dir); (["site"], Dir); (["site"; "repos"], Dir);
    (["site"; "repos"; "mastg"], Dir);
    (["site"; "repos"; "mastg"; "knowledge"], Dir);
    (["site"; "repos"; "mastg"; "knowledge"; "a.md"],
       File ("<img src=" +:+ DQUOTE +:+ "Images/x.png" +:+ DQUOTE +:+ "> Document/0x04.md"));
    (["site"; "repos"; "mastg"; "Document"], Dir);
    (["site"; "repos"; "mastg"; "Document"; "index.md"], File "# MASTG");
    (["site"; "repos"; "mastg"; "Document"; "0x01-Foreword.md"], File "Foreword");
    (["site"; "repos"; "mastg"; "Document"; "Images"], Dir);
    (["site"; "repos"; "mastg"; "Document"; "Images"; "x.png"], File "PNG");
    (["site"; "repos"; "maswe"], Dir);
    (["site"; "repos"; "maswe"; "weaknesses"], Dir);
    (["site"; "repos"; "maswe"; "weaknesses"; "w.md"], File "see Document/tests");
    (["site"; "repos"; "masvs"], Dir);
    (["site"; "repos"; "masvs"; "Document"], Dir);
    (["site"; "repos"; "masvs"; "Document"; "images"], Dir);
    (["site"; "repos"; "masvs"; "Document"; "images"; "l.png"], File "PNG");
    (["site"; "repos"; "masvs"; "Document"; "05-intro.md"], File "![](images/l.png)");
    (["site"; "repos"; "masvs"; "controls"], Dir);
    (["site"; "repos"; "masvs"; "controls"; "MASVS-STORAGE-1.md"],
       File ("## Control" +:+ LF +:+ LF +:+ "The app securely stores sensitive data."
             +:+ LF +:+ LF +:+ "## Description" +:+ LF +:+ LF
             +:+ "Apps handle sensitive data." +:+ LF));
    (["site"; "docs"], Dir);
    (["site"; "docs"; "index.md"], File "# Home") ].

(** The same checkout with a glossary page kept under [docs/MASTG],
    outside the directories the merge replaces. *)
Definition example_tree_terms : tree :=
  <[ ["site"; "docs"; "MASTG"; "terms"; "MASTG-TERM-0001.md"]
       := File "See DocumDocument/ent/0x04." ]>
  (<[ ["site"; "docs"; "MASTG"; "terms"] := Dir ]>
   (<[ ["site"; "docs"; "MASTG"] := Dir ]> example_tree)).

(** A checkout in which [masvs/Document] holds a regular file named
    [controls] and the repository has no [controls] directory; the first
    copy of [structure_masvs] has been made. *)
Definition example_tree_file : tree := list_to_map
  [ ([], Dir); (["site"], Dir); (["site"; "repos"], Dir);
    (["site"; "repos"; "masvs"], Dir);
    (["site"; "repos"; "masvs"; "Document"], Dir);
    (["site"; "repos"; "masvs"; "Document"; "controls"], File "see the controls");
    (["site"; "docs"], Dir);
    (["site"; "docs"; "MASVS"], Dir);
    (["site"; "docs"; "MASVS"; "controls"], File "see the controls") ].

(** A checkout whose [masvs] repository has no [controls] directory,
    while [docs/MASVS/controls] still holds a page of an earlier build. *)
Definition example_tree_stale : tree := list_to_map
  [ ([], Dir); (["site"], Dir); (["site"; "repos"], Dir);
    (["site"; "repos"; "masvs"], Dir);
    (["site"; "repos"; "masvs"; "Document"], Dir);
    (["site"; "docs"], Dir);
    (["site"; "docs"; "MASVS"], Dir);
    (["site"; "docs"; "MASVS"; "controls"], Dir);
    (["site"; "docs"; "MASVS"; "controls"; "MASVS-AUTH-1.md"], File "# MASVS-AUTH-1") ].

(** Checks of a given tree: every entry but the root stands in a
    directory; no location down to [k] is a regular file. *)
Definition check_well_formed (t : tree) : bool :=
  forallb (fun kn : list string * node =>
             match kn.1 with
             | [] => true
             | _ => bool_decide (t !! removelast kn.1 = Some Dir)
             end) (map_to_list t).

Definition check_no_file (t : tree) (k : list string) : bool :=
  forallb (fun n => match t !! List.firstn n k with
                    | Some (File _) => false
                    | _ => true
                    end) (seq 0 (S (length k))).

(** The trees before and after a whole [on_pre_build]. *)
Definition merge (cwd : list string) (t : tree) : result tree :=
  match on_pre_build cwd {| extra := ∅; terms := None |} {| files := t; log := [] |} with
  | Return (_, s) => Return (files s)
  | Raise e => Raise e
  end.

(** A tree is well formed when every entry stands in a directory. *)
Definition well_formed (t : tree) : Prop :=
  forall q n, t !! q = Some n ->
  forall k, k `prefix_of` q -> k <> q -> t !! k = Some Dir.

(** Whether two trees hold the same entries at and below [k]. *)
Definition same_below (k : list string) (t u : tree) : bool :=
  bool_decide (subtree t k = subtree u k).

(** Two runs in a row from [t]: whether the entries below [sources] are
    as before after the first run, and what stands at [page] after the
    first and after the second. *)
Definition merge_twice (cwd sources page : list string) (t : tree)
    : result (bool * option node * option node) :=
  match merge cwd t with
  | Raise e => Raise e
  | Return t1 =>
      match merge cwd t1 with
      | Raise e => Raise e
      | Return t2 => Return (same_below sources t1 t, t1 !! page, t2 !! page)
      end
  end.

(** The directories that [mkdir_from done rest] makes sure of. *)
Definition made (done rest q : list string) : Prop :=
  exists m, q = done ++ m /\ m <> [] /\ m `prefix_of` rest.

(** ** Regions of the file system and relations between trees *)

(** A region is a set of locations: all at or below [k], or the
    directories from the root down to [k] that [mkdir_p k] makes sure of. *)
Definition region := list string -> Prop.

Definition under (k : list string) : region := fun q => k `prefix_of` q.

Definition upto (k : list string) : region := fun q => q `prefix_of` k /\ q <> [].

Definition agree (P : region) (x y : tree) : Prop :=
  forall q, P q -> x !! q = y !! q.

(** Nothing, a regular file or a directory. *)
Inductive kind := Absent | Regular | Directory.

Definition kind_of (o : option node) : kind :=
  match o with
  | None => Absent
  | Some (File _) => Regular
  | Some Dir => Directory
  end.

(** No entry is named [..]. *)
Definition plain_tree (t : tree) : Prop :=
  forall q n, t !! q = Some n -> ".." ∉ q.

Definition sound (t : tree) : Prop :=
  well_formed t /\ plain_tree t /\ t !! [] = Some Dir.

(** What holds of every run of [c] from a sound tree: the locations
    outside [Wr] keep their entry, the entries outside [Rm] stay and keep
    their kind, and the tree stays sound. *)
Definition post (Wr Rm : region) {A} (c : M A) : Prop :=
  forall s a s', sound (files s) -> c s = Return (a, s') ->
    (forall q, ~ Wr q -> files s' !! q = files s !! q)
    /\ (forall q n, ~ Rm q -> files s !! q = Some n ->
          exists n', files s' !! q = Some n' /\ kind_of (Some n') = kind_of (Some n))
    /\ sound (files s').

(** A computation that leaves the files alone. *)
Definition reads {A} (c : M A) : Prop :=
  forall s a s', c s = Return (a, s') -> files s' = files s.

(** [c] looks only at the region [P]: from two sound trees that agree on
    [P] it returns the same value, and the trees still agree on [P]. *)
Definition local (P : region) {A} (c : M A) : Prop :=
  forall x y a x', sound (files x) -> sound (files y) ->
    agree P (files x) (files y) -> c x = Return (a, x') ->
    exists y', c y = Return (a, y') /\ agree P (files x') (files y').

(** ** Relations between a tree and the tree after a step *)

(** [q] lies strictly below [k]. *)
Definition strict (k : list string) : region := fun q => k `prefix_of` q /\ q <> k.

(** Neither location lies at or below the other. *)
Definition apart (a b : list string) : Prop := ~ a `prefix_of` b /\ ~ b `prefix_of` a.

(** The tree [x] with all at and below [D] removed. *)
Definition cleaned (D : list string) (x x' : tree) : Prop :=
  forall q, x' !! q = if decide (D `prefix_of` q) then None else x !! q.

(** What [clean_and_copy] makes of a tree: [D] holds a copy of what is
    below [S], the directories down to [D] exist, the rest is as it was. *)
Definition copy_of (S D : list string) (x x' : tree) : Prop :=
  (forall r, x' !! (D ++ r) = if decide (r = []) then Some Dir else x !! (S ++ r))
  /\ (forall q, upto D q -> x' !! q = Some Dir)
  /\ (forall q, ~ under D q -> ~ upto D q -> x' !! q = x !! q).

(** The tree after the first two statements and the parent's [mkdir]. *)
Definition prepared (D : list string) (x x' : tree) : Prop :=
  forall q, x' !! q = if decide (D `prefix_of` q) then None
                      else if decide (upto (removelast D) q) then Some Dir
                      else x !! q.

(** An entry that stays, with its kind. *)
Definition kept (o o' : option node) : Prop :=
  forall n, o = Some n -> exists n', o' = Some n' /\ kind_of (Some n') = kind_of (Some n).

(** [c] run a second time: from a tree [y] that agrees with the first
    run's [x] on what [c] reads ([P]), and that on [K] already holds
    entries of the kinds the first run leaves, on [C] already the very
    entries it leaves, [c] returns the same and the trees agree on [N]. *)
Definition absorbs (P K C N : region) {A} (c : M A) : Prop :=
  forall x y a x', sound (files x) -> sound (files y) ->
    agree P (files x) (files y) -> c x = Return (a, x') ->
    (forall q, K q -> files x !! q = files y !! q
                      \/ kept (files x' !! q) (files y !! q)) ->
    (forall q, C q -> files x !! q = files y !! q \/ files y !! q = files x' !! q) ->
    exists y', c y = Return (a, y') /\ agree N (files x') (files y').

(** The first run, from [t], has reached [x]; the second, from the
    first's result [t1], has reached [y]: they agree on [W], and outside
    [W] neither has changed yet. *)
Definition rerun (t t1 : tree) (W : region) (x y : tree) : Prop :=
  agree W x y /\ forall q, ~ W q -> x !! q = t !! q /\ y !! q = t1 !! q.

(** Whenever the first run of [c] ends in [t1], so does the second. *)
Definition replays (t t1 : tree) (W : region) {A} (c : M A) : Prop :=
  forall x y a x', sound (files x) -> sound (files y) ->
    rerun t t1 W (files x) (files y) ->
    c x = Return (a, x') -> files x' = t1 ->
    exists y', c y = Return (a, y') /\ files y' = t1.

(** The pages [find_md_files] keeps. *)
Definition visible (p : Path) : bool :=
  negb (contains "/node_modules/" (str_of_path p))
  && negb (contains "/." (str_of_path p)).

(** A page after [batch_replace] with [replacements]. *)
Definition fix_page (replacements : list (string * string)) (content : string) : string :=
  fold_left (fun c '(old, new) => replace old new (universal_newlines c))
    replacements content.

(** All replacements in one page. *)
Definition fix_in (cwd : list string) (p : Path) (replacements : list (string * string)) : M unit :=
  for_each replacements (fun '(old, new) => replace_in_file cwd p old new).

(** The union of the regions [Rs]. *)
Definition stage (Rs : list region) : region := fun q => exists R, R ∈ Rs /\ R q.

(** Outside [docs]: where the repositories are. *)
Definition static (cwd : list string) : region :=
  fun q => ~ (cwd ++ ["docs"]) `prefix_of` q.

Definition repositories : list string := ["mastg"; "maswe"; "masvs"].

(** The directories [clean_and_copy] replaces, and what is removed with
    them. *)
Definition replaced : list Path :=
  map (fun d => ["docs"; "MASTG"; d]) directories
  ++ [["docs"; "MASWE"]; ["docs"; "MASVS"]].

Definition emptied (cwd : list string) : region :=
  fun q => exists D r, D ∈ replaced /\ r <> [] /\ q = cwd ++ D ++ r.

(** A path into a repository. *)
Definition sourced (repo p : Path) : Prop :=
  exists rest, p = repo ++ rest /\ ".." ∉ rest.

(** The index page and, where [index.md] is a directory, the page in it. *)
Definition index_pages (cwd : list string) : region :=
  fun q => q = cwd ++ ["docs"; "MASTG"; "index.md"]
           \/ q = cwd ++ ["docs"; "MASTG"; "index.md"; "index.md"].

(** The chapter [mdfile] in [docs/MASTG]. *)
Definition chapter_pages (cwd : list string) (mdfile : Path) : region :=
  fun q => q = cwd ++ ["docs"; "MASTG"; name mdfile]
           \/ q = cwd ++ ["docs"; "MASTG"; name mdfile; name mdfile].

(** The replacements made in every page of [docs/MASTG], and a page
    after them. *)
Definition generic_replacements : list (string * string) :=
  [("src=" +:+ DQUOTE +:+ "Images/", "src=" +:+ DQUOTE +:+ "../../../assets/Images/");
   ("Document/", EmptyString)].

Definition generic_fix : string -> string := fix_page generic_replacements.

(** Checks of a given tree: no entry is named [..]; the tree is sound. *)
Definition check_plain (t : tree) : bool :=
  forallb (fun kn : list string * node => negb (bool_decide (".." ∈ kn.1)))
    (map_to_list t).

Definition check_sound (t : tree) : bool :=
  check_well_formed t && check_plain t && bool_decide (t !! [] = Some Dir).

(** The checkout with a page of an earlier build in [docs/MASWE]. *)
Definition example_tree_stale_maswe : tree :=
  <[ ["site"; "docs"; "MASWE"; "old.md"] := File "an old page" ]>
  (<[ ["site"; "docs"; "MASWE"] := Dir ]> example_tree).

(** The value a run returned, if it returned. *)
Definition value_of {A} (r : result (A * state)) : option A :=
  match r with
  | Return (a, _) => Some a
  | Raise _ => None
  end.

(** Whether a run returned. *)
Definition returned {A} (r : result A) : bool :=
  match r with
  | Return _ => true
  | Raise _ => false
  end.


(** The checkout with a page of the site's own in [docs/MASTG], which
    the generic fix leaves alone once it has been applied. *)
Definition example_tree_notes : tree :=
  <[ ["site"; "docs"; "MASTG"; "terms"; "MASTG-TERM-0001.md"]
       := File "See Document/0x04." ]>
  (<[ ["site"; "docs"; "MASTG"; "terms"] := Dir ]>
   (<[ ["site"; "docs"; "MASTG"] := Dir ]> example_tree)).

(** Whether every regular file below [k] is stable under the generic
    fix. *)
Definition check_stable (k : list string) (t : tree) : bool :=
  forallb (fun kn : list string * node =>
             match kn.2 with
             | File c => negb (bool_decide (k `prefix_of` kn.1))
                         || String.eqb (generic_fix (generic_fix c)) (generic_fix c)
             | Dir => true
             end) (map_to_list t).

(** What the two copies of [structure_masvs] put at [r] below
    [docs/MASVS]: the entry of the repository's [controls] below
    [controls], the entry of its [Document] elsewhere. *)
Definition masvs_source (cwd : list string) (repo : Path) (t : tree)
    (r : list string) : option node :=
  match r with
  | [] => Some Dir
  | d :: r' =>
      if String.eqb d "controls"
      then match r' with
           | [] => Some Dir
           | _ => t !! (resolve cwd (repo ++ ["controls"]) ++ r')
           end
      else t !! (resolve cwd (repo ++ ["Document"]) ++ r)
  end.

(** What the two loops of [structure_masvs] make of the text [c] of the
    page at [r] below [docs/MASVS]. *)
Definition masvs_page (r : list string) (c : string) : result string :=
  let md_path := ["docs"; "MASVS"] ++ r in
  if is_md r then
    let c := replace "images/"
               (if contains "controls" (str_of_path md_path)
                then "../../../assets/MASVS/Images/"
                else "../../assets/MASVS/Images/")
               (universal_newlines c) in
    if is_control_md r then control_page (stem md_path) (universal_newlines c)
    else Return c
  else Return c.

(** [shutil.move(src, dst)] to a destination that does not stand yet: a
    rename.  A regular file needs the directory it goes to; a directory
    cannot go below itself.  [Unsupported] is no Python exception: it
    marks what this model leaves undescribed, which is a destination that
    stands already (the source would go into it or over it), a directory
    that holds the working directory, and a directory sent where no
    directory stands to receive it (it would be copied there). *)
Definition move (cwd src dst : list string) (t : tree) : result tree :=
  match t !! dst with
  | Some _ => Raise Unsupported
  | None =>
      match t !! src with
      | None => Raise (missing src t)
      | Some (File content) =>
          match t !! removelast dst with
          | Some Dir => Return (<[dst := File content]> (delete src t))
          | Some (File _) => Raise NotADirectoryError
          | None => Raise (missing (removelast dst) t)
          end
      | Some Dir =>
          if bool_decide (src `prefix_of` dst) then Raise ShutilError
          else if bool_decide (src `prefix_of` cwd) then Raise Unsupported
          else match t !! removelast dst with
               | Some Dir =>
                   Return (kmap (app dst) (subtree t src)
                           ∪ filter (fun kn => ¬ src `prefix_of` kn.1) t)
               | _ => Raise Unsupported
               end
      end
  end.

Definition clean_and_move (cwd : list string) (source destination : Path) : M unit :=
  do present <- exists_ cwd destination;
  (if present then fs_update (rmtree cwd (resolve cwd destination)) else ret tt) ;;
  mkdir cwd (parent destination) ;;
  fs_update (move cwd (resolve cwd source) (resolve cwd destination)).

(** What the fixes of [structure_mastg] make of the text [c] of the
    file at [d :: r] below [docs/MASTG]: a page that [find_md_files]
    lists goes through the replacement that [rel_paths] has for [d], when
    it lies below a directory [d], and then through the two generic
    ones. *)
Definition mastg_page (d : string) (r : list string) (c : string) : string :=
  if is_md (d :: r) && visible (["docs"; "MASTG"] ++ d :: r) then
    generic_fix
      (match r with
       | [] => c
       | _ :: _ =>
           match List.find (fun e : string * string => String.eqb (fst e) d) rel_paths with
           | Some (_, rel_img) =>
               fix_page [("src=" +:+ DQUOTE +:+ "Images/", "src=" +:+ DQUOTE +:+ rel_img)] c
           | None => c
           end
       end)
  else c.

(** The directory [structure_mastg] takes the index page, the chapters
    and the images from: [Document], or [docs] where the repository has
    no [Document]. *)
Definition document_dir (cwd : list string) (repo : Path) (t : tree) : Path :=
  if bool_decide (is_Some (t !! resolve cwd (repo ++ ["Document"])))
  then repo ++ ["Document"] else repo ++ ["docs"].

(** The checkout with beta tests: one takes the place of a test, one is
    new. *)
Definition example_tree_beta : tree :=
  <[ ["site"; "repos"; "mastg"; "tests-beta"; "android"; "b.md"] := File "beta b" ]>
  (<[ ["site"; "repos"; "mastg"; "tests-beta"; "android"; "t.md"] := File "beta t" ]>
   (<[ ["site"; "repos"; "mastg"; "tests-beta"; "android"] := Dir ]>
    (<[ ["site"; "repos"; "mastg"; "tests-beta"] := Dir ]>
     (<[ ["site"; "repos"; "mastg"; "tests"; "android"; "t.md"] := File "t" ]>
      (<[ ["site"; "repos"; "mastg"; "tests"; "android"] := Dir ]>
       (<[ ["site"; "repos"; "mastg"; "tests"] := Dir ]> example_tree)))))).

End combine_repos.

(* ===================================================================== *)
(** * Properties                                                          *)
(* ===================================================================== *)

(** ** Strings *)

Lemma string_app_assoc (a b c : string) : (a +:+ b) +:+ c = a +:+ (b +:+ c).
Proof. induction a as [|x a IH]; simpl; [reflexivity | now f_equal]. Qed.

Lemma string_app_nil_r (a : string) : a +:+ EmptyString = a.
Proof. induction a as [|x a IH]; simpl; [reflexivity | now f_equal]. Qed.

Lemma startswith_app (p s : string) : Py.startswith p (p +:+ s) = true.
Proof.
  induction p as [|a p IH]; simpl; [reflexivity |].
  now rewrite Ascii.eqb_refl, IH.
Qed.

Lemma startswith_inv (p s : string) :
  Py.startswith p s = true -> exists r, s = p +:+ r.
Proof.
  revert s. induction p as [|a p IH]; intros s H.
  - now exists s.
  - destruct s as [|b s]; simpl in H; [discriminate |].
    apply andb_true_iff in H as [Hab Hp].
    apply Ascii.eqb_eq in Hab. subst b.
    destruct (IH _ Hp) as [r ->]. now exists r.
Qed.

(** [p in s] holds exactly when [s] splits around a copy of [p]. *)
Lemma contains_iff (p s : string) :
  Py.contains p s = true <-> exists a b, s = a +:+ p +:+ b.
Proof.
  split.
  - induction s as [|c s IH]; simpl; intros H.
    + apply orb_true_iff in H as [H | H]; [| discriminate].
      apply startswith_inv in H as [r Hr]. now exists EmptyString, r.
    + apply orb_true_iff in H as [H | H].
      * apply startswith_inv in H as [r Hr]. now exists EmptyString, r.
      * destruct (IH H) as (a & b & ->). now exists (String c a), b.
  - intros (a & b & ->). induction a as [|c a IH].
    + simpl. destruct (p +:+ b) eqn:E; simpl; rewrite <- E;
        now rewrite startswith_app.
    + cbn [append Py.contains]. rewrite IH. apply orb_true_r.
Qed.

(** ** Banner hook *)

(** C4. A page whose source path contains ["checklists/MASVS-"] comes
    back as the fixed banner block (a line feed and the banner literal),
    two line feeds, and the page's markdown unchanged; every other page
    comes back as it went in. *)
Theorem banner_on_page_markdown_spec (markdown path : string) :
  ((exists a b, path = a +:+ "checklists/MASVS-" +:+ b) ->
     add_checklists_banner.on_page_markdown markdown path
     = (Py.LF +:+ add_checklists_banner.checklists_banner)
         +:+ (Py.LF +:+ Py.LF) +:+ markdown)
  /\ ((~ exists a b, path = a +:+ "checklists/MASVS-" +:+ b) ->
     add_checklists_banner.on_page_markdown markdown path = markdown).
Proof.
  unfold add_checklists_banner.on_page_markdown. split; intros H.
  - apply contains_iff in H. rewrite H.
    now rewrite !string_app_assoc.
  - destruct (Py.contains _ path) eqn:E; [| reflexivity].
    apply contains_iff in E. contradiction.
Qed.

Lemma banner_on_page_markdown_spec_witness :
  add_checklists_banner.on_page_markdown "# Storage" "checklists/MASVS-STORAGE.md"
  = (Py.LF +:+ add_checklists_banner.checklists_banner)
      +:+ (Py.LF +:+ Py.LF) +:+ "# Storage"
  /\ add_checklists_banner.on_page_markdown "# Home" "index.md" = "# Home".
Proof.
  split.
  - apply (proj1 (banner_on_page_markdown_spec "# Storage" "checklists/MASVS-STORAGE.md")).
    exists EmptyString, "STORAGE.md". reflexivity.
  - apply (proj2 (banner_on_page_markdown_spec "# Home" "index.md")).
    intros (a & b & H).
    assert (E : Py.contains "checklists/MASVS-" "index.md" = true)
      by (apply contains_iff; eauto).
    vm_compute in E. discriminate.
Defined.

(** ** Sorting *)

Section Sorted.
Context {A : Type} (key : A -> string).








End Sorted.





(** ** Strings as character lists *)

Lemma chars_app (a b : string) :
  list_ascii_of_string (a +:+ b)
  = list_ascii_of_string a ++ list_ascii_of_string b.
Proof. induction a as [|x a IH]; simpl; [reflexivity | now f_equal]. Qed.

Lemma chars_inj (a b : string) :
  list_ascii_of_string a = list_ascii_of_string b -> a = b.
Proof.
  intros H. rewrite <- (string_of_list_ascii_of_string a),
    <- (string_of_list_ascii_of_string b). now f_equal.
Qed.

Lemma chars_length (a : string) :
  length (list_ascii_of_string a) = String.length a.
Proof. induction a as [|x a IH]; simpl; [reflexivity | now f_equal]. Qed.

Lemma string_length_app (a b : string) :
  String.length (a +:+ b) = String.length a + String.length b.
Proof. induction a as [|x a IH]; simpl; [reflexivity | now f_equal]. Qed.

(** Two splittings of one string with tails of equal length agree. *)
Lemma string_app_inj_tail (a b a' b' : string) :
  a +:+ b = a' +:+ b' -> String.length b = String.length b' ->
  a = a' /\ b = b'.
Proof.
  intros H Hlen. apply (f_equal list_ascii_of_string) in H.
  rewrite !chars_app in H.
  apply app_inj_2 in H as [H1 H2]; [| now rewrite !chars_length].
  split; now apply chars_inj.
Qed.

Lemma endswith_iff (p s : string) :
  Py.endswith p s = true <-> exists a, s = a +:+ p.
Proof.
  split.
  - induction s as [|c s IH]; cbn [Py.endswith]; intros H.
    + apply orb_true_iff in H as [H | H]; [| discriminate].
      apply String.eqb_eq in H. subst p. now exists EmptyString.
    + apply orb_true_iff in H as [H | H].
      * apply String.eqb_eq in H. subst p. now exists EmptyString.
      * destruct (IH H) as [a ->]. now exists (String c a).
  - intros [a ->]. induction a as [|c a IH].
    + cbn [append]. destruct p; cbn [Py.endswith];
        now rewrite String.eqb_refl.
    + cbn [append Py.endswith]. rewrite IH. apply orb_true_r.
Qed.

(** ** The order of titles up to case *)

Section Caseless.
Import Py resolve_terms.

Lemma or_empty_default (o : option string) : or_empty o = default EmptyString o.
Proof. destruct o as [[|c s]|]; reflexivity. Qed.

Lemma lower_char_code (c : ascii) : N_of_ascii (lower_char c) = caseless_code c.
Proof. destruct c as [[] [] [] [] [] [] [] []]; reflexivity. Qed.

Lemma compare_lower (s t : string) :
  String.compare (lower s) (lower t) = caseless_compare s t.
Proof.
  revert t. induction s as [|a s IH]; intros [|b t];
    cbn [lower String.compare caseless_compare]; try reflexivity.
  unfold Ascii.compare. rewrite !lower_char_code, IH. reflexivity.
Qed.


Lemma eqb_lower (s t : string) :
  String.eqb (lower s) (lower t) = caseless_eqb s t.
Proof.
  unfold caseless_eqb. rewrite <- compare_lower.
  destruct (String.eqb_spec (lower s) (lower t)) as [E | E].
  - rewrite E. clear. induction (lower t) as [|c u IH]; cbn [String.compare]; [reflexivity |].
    unfold Ascii.compare. now rewrite N.compare_refl.
  - destruct (String.compare (lower s) (lower t)) eqn:C; try reflexivity.
    apply String.compare_eq_iff in C. contradiction.
Qed.



End Caseless.

(** ** Glossary index page *)

Section GlossaryIndex.
Import resolve_terms.




Example glossary_example_page :
  on_page_markdown "# Terms" "MASTG/terms/index.md" glossary_example
  = "# Terms<br/>[Alpha](/MASTG/terms/MASTG-TERM-0001/)<br/>[beta](/MASTG/terms/MASTG-TERM-0002/)".
Proof. reflexivity. Qed.



End GlossaryIndex.

(** ** Term pages *)

Lemma digit_cases (d : ascii) :
  Py.is_digit d = true ->
  Ascii.eqb d "/" = false /\ Ascii.eqb d "." = false
  /\ Ascii.eqb d "010" = false /\ Ascii.eqb d "x" = false.
Proof.
  destruct d as [[] [] [] [] [] [] [] []]; vm_compute; intros H;
    (discriminate H || auto).
Qed.

Lemma rfind_app_last (c : ascii) (a b : string) :
  Py.rfind c b = None ->
  Py.rfind c (a +:+ String c b) = Some (String.length a).
Proof.
  intros Hb. induction a as [|x a IH]; simpl.
  - now rewrite Hb, Ascii.eqb_refl.
  - now rewrite IH.
Qed.

Lemma substring_app_tail (a b : string) :
  substring (String.length a) (String.length b) (a +:+ b) = b.
Proof.
  induction a as [|x a IH]; simpl; [| exact IH].
  induction b as [|y b IHb]; simpl; [reflexivity | now f_equal].
Qed.

Lemma substring_app_head (a b : string) :
  substring 0 (String.length a) (a +:+ b) = a.
Proof.
  induction a as [|x a IH]; simpl; [now destruct b | now f_equal].
Qed.

Lemma basename_app (a b : string) :
  Py.rfind "/" b = None -> Py.basename (a +:+ String "/" b) = b.
Proof.
  intros Hb. unfold Py.basename. rewrite (rfind_app_last _ _ _ Hb).
  replace (a +:+ String "/" b) with ((a +:+ "/") +:+ b)
    by now rewrite string_app_assoc.
  replace (S (String.length a)) with (String.length (a +:+ "/"))
    by (rewrite string_length_app; simpl; lia).
  replace (String.length ((a +:+ "/") +:+ b) - String.length (a +:+ "/"))
    with (String.length b) by (rewrite (string_length_app (a +:+ "/")); lia).
  apply substring_app_tail.
Qed.

Lemma term_page_match_app (a s : string) :
  Py.contains Py.LF a = false ->
  resolve_terms.term_page_match s = true ->
  resolve_terms.term_page_match (a +:+ s) = true.
Proof.
  intros Ha Hs. induction a as [|c a IH]; [exact Hs |].
  cbn [append resolve_terms.term_page_match].
  cbn [Py.contains Py.LF Py.startswith] in Ha.
  apply orb_false_iff in Ha as [Hc Ha].
  apply andb_false_iff in Hc as [Hc | Hc]; [| destruct a; discriminate].
  rewrite Ascii.eqb_sym in Hc. rewrite Hc, (IH Ha). apply orb_true_r.
Qed.

Section TermPage.
Import resolve_terms.
Variables (dir : string) (d1 d2 d3 d4 : ascii).
Hypothesis dir_one_line : Py.contains Py.LF dir = false.
Hypothesis digit1 : Py.is_digit d1 = true.
Hypothesis digit2 : Py.is_digit d2 = true.
Hypothesis digit3 : Py.is_digit d3 = true.
Hypothesis digit4 : Py.is_digit d4 = true.

Let term_id : string :=
  "MASTG-TERM-" +:+ String d1 (String d2 (String d3 (String d4 EmptyString))).
Let path : string := dir +:+ "terms/" +:+ term_id +:+ ".md".

Local Ltac digits :=
  destruct (digit_cases _ digit1) as (?&?&?&?);
  destruct (digit_cases _ digit2) as (?&?&?&?);
  destruct (digit_cases _ digit3) as (?&?&?&?);
  destruct (digit_cases _ digit4) as (?&?&?&?).

Lemma term_page_not_index : Py.endswith "terms/index.md" path = false.
Proof.
  destruct (Py.endswith _ path) eqn:E; [| reflexivity]. exfalso.
  apply endswith_iff in E as [a E]. subst path term_id.
  change (dir +:+ "terms/" +:+ ("MASTG-TERM-" +:+ String d1 (String d2 (String d3 (String d4 EmptyString)))) +:+ ".md")
    with (dir +:+ "terms/MASTG-TERM-" +:+ String d1 (String d2 (String d3 (String d4 ".md")))) in E.
  replace (dir +:+ "terms/MASTG-TERM-" +:+ String d1 (String d2 (String d3 (String d4 ".md"))))
    with ((dir +:+ "terms/MASTG-TERM-" +:+ String d1 (String d2 (String d3 EmptyString))) +:+ String d4 ".md") in E
    by (now rewrite !string_app_assoc).
  replace (a +:+ "terms/index.md") with ((a +:+ "terms/inde") +:+ "x.md") in E
    by (now rewrite string_app_assoc).
  apply string_app_inj_tail in E as [_ E]; [| reflexivity].
  injection E as E. digits. subst d4. discriminate.
Qed.

Lemma term_page_matches : term_page_match path = true.
Proof.
  subst path. apply term_page_match_app; [exact dir_one_line |].
  digits. subst term_id. cbn.
  unfold Py.is_digit in *.
  rewrite digit1, digit2, digit3, digit4. reflexivity.
Qed.

Lemma term_page_truthy : Py.truthy path = true.
Proof. subst path. destruct dir; reflexivity. Qed.

Lemma term_page_id : Py.splitext_root (Py.basename path) = term_id.
Proof.
  digits. subst path term_id.
  replace (dir +:+ "terms/" +:+ ("MASTG-TERM-" +:+ String d1 (String d2 (String d3 (String d4 EmptyString)))) +:+ ".md")
    with ((dir +:+ "terms") +:+ String "/" ("MASTG-TERM-" +:+ String d1 (String d2 (String d3 (String d4 ".md")))))
    by (now rewrite string_app_assoc).
  rewrite basename_app.
  - unfold Py.splitext_root. cbn.
    repeat match goal with H : Ascii.eqb _ _ = false |- _ => rewrite H; clear H end.
    cbn. reflexivity.
  - cbn.
    repeat match goal with H : Ascii.eqb _ _ = false |- _ => rewrite H; clear H end.
    reflexivity.
Qed.

(** On a term page the hook reduces to the lookup of the page's
    identifier and the two optional reference links. *)
Lemma term_page_unfold (markdown : string) (config : Config) :
  on_page_markdown markdown path config =
  match dict_get term_id (default [] (terms config)) with
  | Some term =>
      if Py.truthy_opt (nist_url term) || Py.truthy_opt (cwe_url term) then
        markdown +:+ Py.LF +:+ Py.LF +:+ Py.LF +:+
          (let r := "## Other Framework References" in
           let r := if Py.truthy_opt (nist_url term)
                    then r +:+ Py.LF +:+ Py.LF +:+ "[NIST](" +:+ default EmptyString (nist_url term) +:+ ")"
                    else r in
           if Py.truthy_opt (cwe_url term)
           then r +:+ Py.LF +:+ Py.LF +:+ "[CWE](" +:+ default EmptyString (cwe_url term) +:+ ")"
           else r)
      else markdown
  | None => markdown
  end.
Proof.
  unfold on_page_markdown.
  rewrite term_page_not_index, term_page_truthy, term_page_matches, term_page_id.
  reflexivity.
Qed.

End TermPage.

(** The pattern of the hook asks for the directory name [terms/] before
    the file name.  C6, as stated, speaks of every page whose file name
    is [MASTG-TERM-dddd.md]: a page of that name outside a [terms/]
    directory comes back unchanged although the index holds its record
    with both URLs. *)
Lemma term_page_outside_terms :
  resolve_terms.on_page_markdown "# TLS" "MASTG-TERM-0042.md"
    {| extra := ∅;
       terms := Some [("MASTG-TERM-0042",
                       {| url := Some "/MASTG/terms/MASTG-TERM-0042/";
                          title := Some "TLS";
                          nist_url := Some "https://csrc.nist.gov/glossary/term/tls";
                          cwe_url := Some "https://cwe.mitre.org/data/definitions/319.html" |})] |}
  = "# TLS".
Proof. reflexivity. Qed.

(** C6, amended. For a page [<dir>terms/MASTG-TERM-dddd.md] (four
    digits, no line feed in [dir]): when the index holds the page's
    identifier with a non-empty NIST URL and a non-empty CWE URL, the hook
    returns the markdown followed by three line feeds, the heading
    ["## Other Framework References"], and the two links, each after a
    blank line, NIST before CWE; when the identifier is not in the index,
    or its record has neither URL, the markdown comes back unchanged. *)
Theorem term_page_references
    (markdown dir : string) (d1 d2 d3 d4 : ascii) (config : Config) :
  Py.contains Py.LF dir = false ->
  Py.is_digit d1 = true -> Py.is_digit d2 = true ->
  Py.is_digit d3 = true -> Py.is_digit d4 = true ->
  let term_id :=
    "MASTG-TERM-" +:+ String d1 (String d2 (String d3 (String d4 EmptyString))) in
  let path := dir +:+ "terms/" +:+ term_id +:+ ".md" in
  let index := default [] (terms config) in
  (forall term nist cwe,
      dict_get term_id index = Some term ->
      nist_url term = Some nist -> cwe_url term = Some cwe ->
      nist <> EmptyString -> cwe <> EmptyString ->
      resolve_terms.on_page_markdown markdown path config
      = markdown +:+ Py.LF +:+ Py.LF +:+ Py.LF
          +:+ "## Other Framework References"
          +:+ Py.LF +:+ Py.LF +:+ "[NIST](" +:+ nist +:+ ")"
          +:+ Py.LF +:+ Py.LF +:+ "[CWE](" +:+ cwe +:+ ")")
  /\ (dict_get term_id index = None ->
      resolve_terms.on_page_markdown markdown path config = markdown)
  /\ (forall term,
      dict_get term_id index = Some term ->
      Py.truthy_opt (nist_url term) = false ->
      Py.truthy_opt (cwe_url term) = false ->
      resolve_terms.on_page_markdown markdown path config = markdown).
Proof.
  intros Hdir H1 H2 H3 H4 term_id path index.
  pose proof (term_page_unfold dir d1 d2 d3 d4 Hdir H1 H2 H3 H4 markdown config) as U.
  cbv zeta in U. fold term_id in U. fold path in U. fold index in U.
  repeat split.
  - intros term nist cwe Hget Hn Hc Hne Hce.
    rewrite U, Hget, Hn, Hc.
    destruct nist; [contradiction |]. destruct cwe; [contradiction |].
    cbn [Py.truthy_opt Py.truthy orb default].
    now rewrite !string_app_assoc.
  - intros Hget. now rewrite U, Hget.
  - intros term Hget Hn Hc. now rewrite U, Hget, Hn, Hc.
Qed.

Lemma term_page_references_witness :
  resolve_terms.on_page_markdown "# TLS" "MASTG/terms/MASTG-TERM-0042.md"
    {| extra := ∅;
       terms := Some [("MASTG-TERM-0042",
                       {| url := Some "/MASTG/terms/MASTG-TERM-0042/";
                          title := Some "TLS";
                          nist_url := Some "https://csrc.nist.gov/glossary/term/tls";
                          cwe_url := Some "https://cwe.mitre.org/data/definitions/319.html" |})] |}
  = "# TLS" +:+ Py.LF +:+ Py.LF +:+ Py.LF
      +:+ "## Other Framework References"
      +:+ Py.LF +:+ Py.LF +:+ "[NIST](" +:+ "https://csrc.nist.gov/glossary/term/tls" +:+ ")"
      +:+ Py.LF +:+ Py.LF +:+ "[CWE](" +:+ "https://cwe.mitre.org/data/definitions/319.html" +:+ ")".
Proof.
  refine (proj1 (term_page_references "# TLS" "MASTG/" "0" "0" "4" "2" _ _ _ _ _ _)
            _ _ _ _ _ _ _ _); try reflexivity; discriminate.
Defined.

(** ** Watch-list hook *)

Section ServeWatch.
Import fix_serve_watch.
Context {Server : Type}.
Variable watch : Path -> Server -> Server.
Variable unwatch : string -> Server -> Server * option exception.

Lemma watch_recorded_fst (config : Config) (label key : string)
    (st : Server * list string) :
  fst (watch_recorded watch config label key st)
  = fold_left (fun s p => watch p s) (omap (fun k => extra config !! k) [key]) (fst st).
Proof.
  unfold watch_recorded. simpl. now destruct (extra config !! key).
Qed.

Lemma recorded_iff (config : Config) (p : Path) :
  In p (recorded config) <->
  exists key, In key ["mastg_repo"; "masvs_repo"; "maswe_repo"]
              /\ extra config !! key = Some p.
Proof.
  unfold recorded. rewrite <- list_elem_of_In, list_elem_of_omap.
  split; intros (key & Hk & Hp); exists key; split; auto;
    now apply list_elem_of_In.
Qed.

(** C9, amended. Unless [unwatch] itself fails with something other
    than the [ValueError] the hook catches, [on_serve] returns normally,
    and the server has then received one [watch] call for each location
    recorded under [mastg_repo], [masvs_repo], [maswe_repo] (in that
    order) and for nothing else; a key that was not recorded adds no
    call, no log line and no error. *)
Theorem on_serve_watches_recorded (server : Server) (config : Config) :
  (forall name, snd (unwatch "docs" server) <> Some (OtherError name)) ->
  (exists messages,
     on_serve watch unwatch server config
     = inl (fold_left (fun s p => watch p s) (recorded config)
              (fst (unwatch "docs" server)), messages)
     /\ length messages = length (recorded config))
  /\ (forall p, In p (recorded config) <->
        exists key, In key ["mastg_repo"; "masvs_repo"; "maswe_repo"]
                    /\ extra config !! key = Some p).
Proof.
  intros Hun. split; [| apply recorded_iff].
  unfold on_serve, recorded.
  destruct (unwatch "docs" server) as [server' raised]. simpl in *.
  assert (Hok : match raised with Some (OtherError _) => False | _ => True end).
  { destruct raised as [[|name]|]; auto. now apply (Hun name). }
  unfold watch_recorded. simpl.
  destruct raised as [[|name]|]; [| contradiction |];
    destruct (extra config !! "mastg_repo"),
             (extra config !! "masvs_repo"),
             (extra config !! "maswe_repo");
    simpl; eexists; split; reflexivity.
Qed.

End ServeWatch.

Lemma on_serve_watches_recorded_witness :
  exists messages,
    fix_serve_watch.on_serve fix_serve_watch.trace_watch
      (fix_serve_watch.trace_unwatch true) []
      {| extra := <["masvs_repo" := ["repos"; "masvs"]]> ∅; terms := None |}
    = inl ([fix_serve_watch.Unwatch "docs";
            fix_serve_watch.Watch ["repos"; "masvs"]], messages).
Proof.
  destruct (on_serve_watches_recorded fix_serve_watch.trace_watch
              (fix_serve_watch.trace_unwatch true) []
              {| extra := <["masvs_repo" := ["repos"; "masvs"]]> ∅; terms := None |})
    as [(messages & H & _) _].
  - intros name. discriminate.
  - exists messages. exact H.
Defined.

(** C9, as stated, fails on a server that does not watch [docs]: its
    [unwatch] raises [KeyError], which the hook does not catch, so
    [on_serve] raises and no [watch] call is made for the location that
    the merger recorded. *)
Lemma on_serve_unwatch_raises :
  fix_serve_watch.recorded
    {| extra := <["masvs_repo" := ["repos"; "masvs"]]> ∅; terms := None |}
  = [["repos"; "masvs"]]
  /\ fix_serve_watch.on_serve fix_serve_watch.trace_watch
       (fix_serve_watch.trace_unwatch false) []
       {| extra := <["masvs_repo" := ["repos"; "masvs"]]> ∅; terms := None |}
     = inr (fix_serve_watch.OtherError "KeyError").
Proof. split; reflexivity. Qed.

(** ** Locating a repository *)

Section Locate.
Import combine_repos.
Variable cwd : list string.

(** The three log lines of the search leave the files alone, and the
    outcome is that of [find] over the candidates. *)
Lemma locate_external_repo_unfold (repo_name : string) (s : state) :
  exists messages,
    locate_external_repo cwd repo_name s =
    match List.find (fun p => bool_decide (files s !! resolve cwd p = Some Dir))
            (candidates repo_name) with
    | None =>
        Raise (Exception ("Error: Could not find " +:+ repo_name
                          +:+ " repository. Expected in "
                          +:+ repr_list (map (absolute cwd) (candidates repo_name))))
    | Some repo_location =>
        Return (repo_location,
                {| files := files s;
                   log := (log s ++ messages) ++
                          [(INFO, "Using " +:+ upper repo_name +:+ " directory: "
                                  +:+ str_of_path repo_location)] |})
    end.
Proof.
  eexists.
  cbv [locate_external_repo bind for_each is_dir log_record get_files ret
       raise candidates files log].
  rewrite <- !(app_assoc (log s)).
  destruct (List.find _ _); reflexivity.
Qed.

End Locate.


Lemma find_none_of {A} (f : A -> bool) (l : list A) :
  (forall x, In x l -> f x = false) -> List.find f l = None.
Proof.
  induction l as [|x l IH]; intros H; simpl; [reflexivity |].
  rewrite (H x (or_introl eq_refl)). apply IH. intros y Hy. apply H. now right.
Qed.

(** C2. When none of the three candidates is a directory,
    [locate_external_repo] raises an exception whose message holds the
    [repr] of the absolute form of each candidate, in the order tried. *)
Theorem locate_external_repo_missing
    (cwd : list string) (repo_name : string) (s : combine_repos.state) :
  Forall (fun c => combine_repos.files s !! combine_repos.resolve cwd c
                   <> Some combine_repos.Dir) (combine_repos.candidates repo_name) ->
  combine_repos.locate_external_repo cwd repo_name s
  = combine_repos.Raise (combine_repos.Exception
      ("Error: Could not find " +:+ repo_name +:+ " repository. Expected in ["
       +:+ combine_repos.repr (combine_repos.absolute cwd ["repos"; repo_name]) +:+ ", "
       +:+ combine_repos.repr (combine_repos.absolute cwd [".."; repo_name]) +:+ ", "
       +:+ combine_repos.repr (combine_repos.absolute cwd [repo_name]) +:+ "]")).
Proof.
  intros Hnone.
  destruct (locate_external_repo_unfold cwd repo_name s) as [messages U].
  rewrite U. clear U.
  rewrite find_none_of.
  - unfold combine_repos.repr_list, combine_repos.candidates, Py.join. cbn [map String.concat].
    now rewrite !string_app_assoc.
  - intros c Hc. rewrite List.Forall_forall in Hnone.
    apply bool_decide_eq_false. now apply Hnone.
Qed.


Lemma locate_external_repo_missing_witness :
  combine_repos.locate_external_repo ["site"] "masvs"
    {| combine_repos.files := ∅; combine_repos.log := [] |}
  = combine_repos.Raise (combine_repos.Exception
      "Error: Could not find masvs repository. Expected in ['/site/repos/masvs', '/site/../masvs', '/site/masvs']").
Proof.
  apply (locate_external_repo_missing ["site"] "masvs"
           {| combine_repos.files := ∅; combine_repos.log := [] |}).
  repeat constructor; vm_compute; discriminate.
Defined.

(** ** Control pages *)

Section ControlPage.
Import combine_repos.

Lemma no_hash_cons (c : ascii) (s : string) :
  Py.contains "#" (String c s) = false ->
  Ascii.eqb c "#" = false /\ Py.contains "#" s = false.
Proof.
  cbn [Py.contains Py.startswith]. intros H.
  apply orb_false_iff in H as [H1 H2]. split; [| exact H2].
  rewrite andb_true_r in H1. now rewrite Ascii.eqb_sym.
Qed.

Lemma no_hash_app (a b : string) :
  Py.contains "#" a = false -> Py.contains "#" b = false ->
  Py.contains "#" (a +:+ b) = false.
Proof.
  intros Ha Hb. induction a as [|c a IH]; [exact Hb |].
  apply no_hash_cons in Ha as [Hc Ha].
  cbn [append Py.contains Py.startswith].
  rewrite (IH Ha), Ascii.eqb_sym, Hc. reflexivity.
Qed.

Lemma run_not_hash_app (a s : string) :
  Py.contains "#" a = false ->
  run_not_hash (a +:+ s) = String.length a + run_not_hash s.
Proof.
  intros Ha. induction a as [|c a IH]; [reflexivity |].
  apply no_hash_cons in Ha as [Hc Ha]. simpl. now rewrite Hc, (IH Ha).
Qed.

Lemma drop_app (a s : string) (j : nat) :
  drop (String.length a + j) (a +:+ s) = drop j s.
Proof. induction a as [|c a IH]; simpl; [reflexivity | exact IH]. Qed.

Lemma take_app (a s : string) : take (String.length a) (a +:+ s) = a.
Proof. induction a as [|c a IH]; simpl; [reflexivity | now f_equal]. Qed.

(** A stretch without [#] holds no match of either pattern. *)
Lemma search_control_skip (a s : string) :
  Py.contains "#" a = false -> search_control (a +:+ s) = search_control s.
Proof.
  intros Ha. induction a as [|c a IH]; [reflexivity |].
  apply no_hash_cons in Ha as [Hc Ha].
  cbn [append search_control]. unfold match_control.
  cbn [Py.strip_prefix append]. rewrite Ascii.eqb_sym, Hc. now apply IH.
Qed.

Lemma search_description_skip (a s : string) :
  Py.contains "#" a = false ->
  search_description (a +:+ s) = search_description s.
Proof.
  intros Ha. induction a as [|c a IH]; [reflexivity |].
  apply no_hash_cons in Ha as [Hc Ha].
  cbn [append search_description Py.strip_prefix].
  rewrite Ascii.eqb_sym, Hc. now apply IH.
Qed.

Lemma backtrack_found (s : string) (k j : nat) :
  Py.startswith (Py.LF +:+ Py.LF) (drop k s) = true ->
  (forall i, k < i -> i <= k + j ->
     Py.startswith (Py.LF +:+ Py.LF) (drop i s) = false) ->
  backtrack s (k + j) = Some (take k s).
Proof.
  intros Hk Hno. induction j as [|j IH].
  - rewrite Nat.add_0_r. destruct k; cbn [backtrack]; now rewrite Hk.
  - replace (k + S j) with (S (k + j)) by lia. cbn [backtrack].
    rewrite (Hno (S (k + j))) by lia.
    apply IH. intros i Hlo Hhi. apply Hno; lia.
Qed.

Lemma search_control_here (s group : string) :
  match_control s = Some group -> search_control s = Some group.
Proof. intros H. destruct s; cbn [search_control]; now rewrite H. Qed.

Lemma search_control_sections (preamble T D : string) :
  Py.contains "#" preamble = false -> Py.contains "#" T = false ->
  search_control (sections_page preamble T D) = Some T.
Proof.
  intros Hp HT. unfold sections_page.
  rewrite (search_control_skip _ _ Hp).
  apply search_control_here. unfold match_control.
  cbn [Py.strip_prefix append Py.LF Ascii.eqb Bool.eqb].
  set (rest := T +:+ _).
  assert (Hrun : run_not_hash rest = String.length T + 2).
  { subst rest. rewrite (run_not_hash_app _ _ HT). reflexivity. }
  rewrite Hrun, backtrack_found.
  - subst rest. now rewrite take_app.
  - subst rest. rewrite <- (Nat.add_0_r (String.length T)), drop_app. reflexivity.
  - intros i Hlo Hhi.
    replace i with (String.length T + (i - String.length T)) by lia.
    subst rest. rewrite drop_app.
    destruct (i - String.length T) as [|[|[|n]]] eqn:E; try lia; reflexivity.
Qed.

Lemma search_description_step (c : ascii) (s : string) :
  Py.strip_prefix ("## Description" +:+ Py.LF +:+ Py.LF) (String c s) = None ->
  search_description (String c s) = search_description s.
Proof. intros H. cbn [search_description]. now rewrite H. Qed.

Lemma search_description_sections (preamble T D : string) :
  Py.contains "#" preamble = false -> Py.contains "#" T = false ->
  search_description (sections_page preamble T D) = Some (first_line D).
Proof.
  intros Hp HT. unfold sections_page.
  rewrite (search_description_skip _ _ Hp).
  replace ("## Control" +:+ Py.LF +:+ Py.LF +:+ T +:+ Py.LF +:+ Py.LF
           +:+ "## Description" +:+ Py.LF +:+ Py.LF +:+ D)
    with (String "#" (String "#"
            (((" Control" +:+ Py.LF +:+ Py.LF) +:+ T +:+ Py.LF +:+ Py.LF)
               +:+ "## Description" +:+ Py.LF +:+ Py.LF +:+ D)))
    by (rewrite !string_app_assoc; reflexivity).
  rewrite search_description_step by reflexivity.
  rewrite search_description_step by reflexivity.
  rewrite search_description_skip.
  - reflexivity.
  - apply no_hash_app; [reflexivity |]. apply no_hash_app; [exact HT | reflexivity].
Qed.

(** What [control_page] makes of a page with the two sections: the
    template with the trimmed control text, and with the trimmed first
    line of the description. *)
Lemma control_page_sections (control_id preamble T D : string) :
  Py.contains "#" preamble = false -> Py.contains "#" T = false ->
  control_page control_id (sections_page preamble T D)
  = Return (specified_control_page control_id T (first_line D)).
Proof.
  intros Hp HT. unfold control_page.
  rewrite (search_control_sections _ _ _ Hp HT),
          (search_description_sections _ _ _ Hp HT).
  unfold specified_control_page, MAS_BLUE.
  rewrite !string_app_assoc. reflexivity.
Qed.

Lemma first_line_one_line (D : string) :
  Py.contains Py.LF D = false -> first_line D = D.
Proof.
  induction D as [|c D IH]; [reflexivity |].
  cbn [Py.contains Py.LF Py.startswith first_line]. intros H.
  apply orb_false_iff in H as [H1 H2]. rewrite andb_true_r in H1.
  rewrite Ascii.eqb_sym, H1. now rewrite (IH H2).
Qed.

(** For a description of one line the page is the specified one. *)
Lemma control_page_one_line (control_id preamble T D : string) :
  Py.contains "#" preamble = false -> Py.contains "#" T = false ->
  Py.contains Py.LF D = false ->
  control_page control_id (sections_page preamble T D)
  = Return (specified_control_page control_id T D).
Proof.
  intros Hp HT HD. rewrite (control_page_sections _ _ _ _ Hp HT).
  now rewrite (first_line_one_line _ HD).
Qed.

End ControlPage.

(** C1, at a page whose description has two paragraphs: the page written
    keeps the first paragraph only, so it is not the specified page, which
    carries the whole description. *)
Theorem control_page_keeps_first_line :
  combine_repos.control_page "MASVS-STORAGE-1" combine_repos.example_control_page
  = combine_repos.Return
      (combine_repos.specified_control_page "MASVS-STORAGE-1"
         "The app securely stores sensitive data." "Apps handle sensitive data.")
  /\ combine_repos.control_page "MASVS-STORAGE-1" combine_repos.example_control_page
     <> combine_repos.Return
          (combine_repos.specified_control_page "MASVS-STORAGE-1"
             "The app securely stores sensitive data." combine_repos.two_paragraphs).
Proof.
  split; [vm_compute; reflexivity |].
  vm_compute. intros H. discriminate H.
Qed.

(** ** File-system primitives *)

Section FileSystem.
Import combine_repos.

Lemma resolve_plain (cwd : list string) (p : Path) :
  ".." ∉ p -> resolve cwd p = cwd ++ p.
Proof.
  unfold resolve. revert cwd. induction p as [|x p IH]; intros cwd Hp; simpl.
  - now rewrite app_nil_r.
  - apply not_elem_of_cons in Hp as [Hx Hp].
    unfold step at 2. destruct (String.eqb_spec x ".."); [congruence |].
    rewrite (IH _ Hp), <- app_assoc. reflexivity.
Qed.

Lemma removelast_prefix (p : list string) : removelast p `prefix_of` p.
Proof.
  destruct (decide (p = [])) as [-> | Hne]; [reflexivity |].
  exists [List.last p EmptyString]. now apply app_removelast_last.
Qed.

Lemma removelast_plain (p : Path) : ".." ∉ p -> ".." ∉ removelast p.
Proof.
  intros Hp Hin. apply Hp. destruct (removelast_prefix p) as [k Hk].
  rewrite Hk. apply elem_of_app. now left.
Qed.

Lemma rmtree_lookup (cwd k : list string) (t t' : tree) :
  rmtree cwd k t = Return t' ->
  forall q, t' !! q = if decide (k `prefix_of` q) then None else t !! q.
Proof.
  unfold rmtree. destruct (t !! k) as [[c|]|]; try discriminate.
  case_bool_decide; [discriminate |]. intros [= <-] q.
  destruct (decide (k `prefix_of` q)) as [Hk | Hk].
  - apply map_lookup_filter_None. right. intros n _. simpl. auto.
  - destruct (t !! q) as [n|] eqn:E.
    + apply map_lookup_filter_Some. split; [exact E | exact Hk].
    + apply map_lookup_filter_None. now left.
Qed.

Lemma made_cons (done : list string) (part : string) (rest q : list string) :
  made done (part :: rest) q <-> q = done ++ [part] \/ made (done ++ [part]) rest q.
Proof.
  unfold made. split.
  - intros (m & -> & Hne & Hpre).
    destruct m as [|x m]; [contradiction |].
    apply prefix_cons_inv_1 in Hpre as Hx. subst x.
    apply prefix_cons_inv_2 in Hpre.
    destruct m as [|y m]; [now left |].
    right. exists (y :: m). rewrite <- app_assoc. repeat split; auto; discriminate.
  - intros [-> | (m & -> & Hne & Hpre)].
    + exists [part]. repeat split; [discriminate |]. apply prefix_cons, prefix_nil.
    + exists (part :: m). rewrite <- app_assoc. repeat split; [discriminate |].
      now apply prefix_cons.
Qed.

Lemma made_longer (done rest q : list string) : made done rest q -> q <> done.
Proof.
  intros (m & -> & Hne & _) H. apply Hne.
  apply (app_inv_head done). now rewrite app_nil_r.
Qed.

(** [mkdir_from] succeeds when no regular file is in its way, and then
    exactly the directories on the way are added. *)
Lemma mkdir_from_spec (done rest : list string) (t : tree) :
  (forall q c, made done rest q -> t !! q <> Some (File c)) ->
  exists t', mkdir_from done rest t = Return t'
             /\ (forall q, made done rest q -> t' !! q = Some Dir)
             /\ (forall q, ~ made done rest q -> t' !! q = t !! q).
Proof.
  revert done t. induction rest as [|part rest IH]; intros done t Hfree.
  - exists t. split; [reflexivity |]. split; [| reflexivity].
    intros q (m & _ & Hne & Hpre). apply prefix_nil_inv in Hpre. contradiction.
  - cbn [mkdir_from]. set (k := done ++ [part]).
    assert (Hk : made done (part :: rest) k) by (apply made_cons; now left).
    destruct (t !! k) as [[c|]|] eqn:E.
    + exfalso. exact (Hfree k c Hk E).
    + destruct (IH k t) as (t' & Hrun & Hmade & Hrest).
      { intros q c Hq. apply Hfree, made_cons. now right. }
      exists t'. split; [exact Hrun |]. split.
      * intros q Hq. apply made_cons in Hq as [-> | Hq]; [| now apply Hmade].
        rewrite Hrest; [exact E |]. intros Hq. now apply made_longer in Hq.
      * intros q Hq. apply Hrest. intros Hq'. apply Hq, made_cons. now right.
    + destruct (IH k (<[k := Dir]> t)) as (t' & Hrun & Hmade & Hrest).
      { intros q c Hq. rewrite lookup_insert_ne.
        - apply Hfree, made_cons. now right.
        - intros <-. now apply made_longer in Hq. }
      exists t'. split; [exact Hrun |]. split.
      * intros q Hq. apply made_cons in Hq as [-> | Hq]; [| now apply Hmade].
        rewrite Hrest; [apply lookup_insert_eq |].
        intros Hq. now apply made_longer in Hq.
      * intros q Hq. rewrite Hrest.
        -- apply lookup_insert_ne. intros <-. apply Hq, made_cons. now left.
        -- intros Hq'. apply Hq, made_cons. now right.
Qed.

Lemma made_root (k q : list string) : made [] k q <-> q <> [] /\ q `prefix_of` k.
Proof.
  unfold made. split.
  - intros (m & -> & Hne & Hpre). auto.
  - intros [Hne Hpre]. exists q. auto.
Qed.

Lemma mkdir_p_spec (k : list string) (t : tree) :
  (forall q c, q `prefix_of` k -> t !! q <> Some (File c)) ->
  exists t', mkdir_p k t = Return t'
             /\ (forall q, q <> [] -> q `prefix_of` k -> t' !! q = Some Dir)
             /\ (forall q, ~ q `prefix_of` k -> t' !! q = t !! q)
             /\ t' !! [] = t !! [].
Proof.
  intros Hfree. destruct (mkdir_from_spec [] k t) as (t' & Hrun & Hmade & Hrest).
  - intros q c Hq. apply made_root in Hq as [_ Hq]. now apply Hfree.
  - exists t'. split; [exact Hrun |]. repeat split.
    + intros q Hne Hq. apply Hmade, made_root. auto.
    + intros q Hq. apply Hrest. intros Hq'. apply made_root in Hq' as [_ Hq']. auto.
    + apply Hrest. intros Hq. apply made_root in Hq as [Hq _]. auto.
Qed.

End FileSystem.

Section Checks.
Import combine_repos.

Lemma check_well_formed_sound (t : tree) :
  check_well_formed t = true -> well_formed t.
Proof.
  intros Hc.
  assert (Hparent : forall q n, t !! q = Some n -> q <> [] ->
                                t !! removelast q = Some Dir).
  { intros q n Hq Hne. unfold check_well_formed in Hc.
    rewrite forallb_forall in Hc.
    specialize (Hc (q, n)). simpl in Hc.
    destruct q as [|x q]; [contradiction |].
    eapply bool_decide_eq_true_1. apply Hc.
    apply list_elem_of_In, elem_of_map_to_list. exact Hq. }
  intros q. induction q as [q IH] using (induction_ltof1 _ (@length string)).
  unfold ltof in IH. intros n Hq k Hk Hkq.
  assert (Hne : q <> []).
  { intros ->. apply prefix_nil_inv in Hk. congruence. }
  pose proof (Hparent q n Hq Hne) as Hp.
  assert (Hkp : k `prefix_of` removelast q).
  { destruct Hk as [m Hm]. destruct (decide (m = [])) as [-> | Hm0].
    - rewrite app_nil_r in Hm. congruence.
    - exists (removelast m). rewrite Hm. now apply removelast_app. }
  destruct (decide (k = removelast q)) as [-> | Hne']; [exact Hp |].
  apply (IH (removelast q)) with (n := Dir); auto.
  rewrite (app_removelast_last EmptyString Hne) at 2.
  rewrite length_app. simpl. lia.
Qed.

Lemma check_no_file_sound (t : tree) (k : list string) :
  check_no_file t k = true ->
  forall q c, q `prefix_of` k -> t !! q <> Some (File c).
Proof.
  unfold check_no_file. rewrite forallb_forall. intros Hc q c [m ->] Hq.
  specialize (Hc (length q)).
  rewrite take_app_length, Hq in Hc.
  assert (In (length q) (seq 0 (S (length (q ++ m))))).
  { apply in_seq. rewrite length_app. lia. }
  specialize (Hc H). discriminate.
Qed.

End Checks.

(** ** Merging one subdirectory *)

(** C3, as stated, fails where the destination is a regular file:
    [masvs/controls] does not exist, [docs/MASVS/controls] is the file
    copied from [masvs/Document/controls], and [shutil.rmtree] raises
    [NotADirectoryError], which aborts the build. *)
Lemma clean_and_copy_destination_file :
  combine_repos.example_tree_file
    !! combine_repos.resolve ["site"] ["repos"; "masvs"; "controls"] = None
  /\ combine_repos.clean_and_copy ["site"]
       ["repos"; "masvs"; "controls"] ["docs"; "MASVS"; "controls"]
       {| combine_repos.files := combine_repos.example_tree_file;
          combine_repos.log := [] |}
     = combine_repos.Raise combine_repos.NotADirectoryError.
Proof. split; vm_compute; reflexivity. Qed.

(** C3, amended. In a well-formed tree, for a destination that is
    given by at least one name and without [..] (so it lies below the
    working directory and is not that directory itself): when nothing
    stands where the source leads (and the source is not a missing
    directory above the destination) and neither the destination nor a
    directory above it is a regular file, [clean_and_copy] returns
    normally: it logs one warning, the destination is then a directory
    with nothing below it, and the locations beside the destination keep
    what they held. *)
Theorem clean_and_copy_missing_source
    (cwd : list string) (source destination : Path) (s : combine_repos.state) :
  combine_repos.well_formed (combine_repos.files s) ->
  destination <> [] -> ".." ∉ destination ->
  combine_repos.files s !! combine_repos.resolve cwd source = None ->
  ~ combine_repos.resolve cwd source `prefix_of` (cwd ++ destination) ->
  (forall q c, q `prefix_of` (cwd ++ destination) ->
               combine_repos.files s !! q <> Some (combine_repos.File c)) ->
  exists t',
    combine_repos.clean_and_copy cwd source destination s
    = combine_repos.Return
        (tt, {| combine_repos.files := t';
                combine_repos.log :=
                  combine_repos.log s ++
                  [(combine_repos.WARNING,
                    "Source directory does not exist: "
                    +:+ combine_repos.str_of_path source)] |})
    /\ t' !! (cwd ++ destination) = Some combine_repos.Dir
    /\ (forall q, (cwd ++ destination) `prefix_of` q -> q <> cwd ++ destination ->
                  t' !! q = None)
    /\ (forall q, ~ q `prefix_of` (cwd ++ destination) ->
                  ~ (cwd ++ destination) `prefix_of` q ->
                  t' !! q = combine_repos.files s !! q).
Proof.
  destruct s as [t0 messages]. cbn [combine_repos.files combine_repos.log].
  intros Hwf Hne Hplain Hsrc Hnotabove Hfree.
  set (dst := cwd ++ destination) in *.
  set (src := combine_repos.resolve cwd source) in *.
  assert (Hdst : combine_repos.resolve cwd destination = dst)
    by now apply resolve_plain.
  assert (Hparent : combine_repos.resolve cwd (combine_repos.parent destination)
                    = removelast dst).
  { unfold combine_repos.parent. rewrite resolve_plain by now apply removelast_plain.
    subst dst. now rewrite removelast_app. }
  assert (Hpp : removelast dst `prefix_of` dst) by apply removelast_prefix.
  assert (Hcwd : ~ dst `prefix_of` cwd).
  { intros [k Hk]. subst dst. rewrite <- app_assoc in Hk.
    rewrite <- (app_nil_r cwd) in Hk at 1. apply app_inv_head in Hk.
    symmetry in Hk. apply app_eq_nil in Hk as [Hk _]. contradiction. }
  (* the tree once the old destination is gone *)
  assert (Hclean : exists t1,
    (if bool_decide (is_Some (t0 !! dst))
     then combine_repos.rmtree cwd dst t0 else combine_repos.Return t0)
    = combine_repos.Return t1
    /\ forall q, t1 !! q = if decide (dst `prefix_of` q) then None else t0 !! q).
  { case_bool_decide as Hex.
    - destruct Hex as [n Hn]. destruct n as [c|]; [now apply Hfree in Hn |].
      assert (Hrm : combine_repos.rmtree cwd dst t0
                    = combine_repos.Return
                        (filter (fun kn => ¬ dst `prefix_of` kn.1) t0)).
      { unfold combine_repos.rmtree. rewrite Hn. now rewrite bool_decide_eq_false_2. }
      eexists. split; [exact Hrm |]. now apply (rmtree_lookup cwd).
    - exists t0. split; [reflexivity |]. intros q.
      destruct (decide (dst `prefix_of` q)) as [Hq | Hq]; [| reflexivity].
      destruct (t0 !! q) as [n|] eqn:E; [| reflexivity].
      exfalso. apply Hex. destruct (decide (dst = q)) as [-> | Hdq]; [eauto |].
      exists combine_repos.Dir. exact (Hwf q n E dst Hq Hdq). }
  destruct Hclean as (t1 & Hrun1 & Ht1).
  (* the parent directories *)
  destruct (mkdir_p_spec (removelast dst) t1) as (t2 & Hrun2 & Hmade2 & Hrest2 & Hroot2).
  { intros q c Hq. rewrite Ht1. destruct (decide (dst `prefix_of` q)); [discriminate |].
    apply Hfree. (etrans; eassumption). }
  assert (Hstrict : ~ dst `prefix_of` removelast dst).
  { intros Hd. assert (E : removelast dst = dst) by (apply (anti_symm prefix); auto).
    assert (Hd0 : dst <> []) by (subst dst; intros Hd0; apply app_eq_nil in Hd0 as [_ ?]; auto).
    apply (f_equal length) in E. rewrite (app_removelast_last EmptyString Hd0) in E at 2.
    rewrite length_app in E. simpl in E. lia. }
  (* the destination itself *)
  destruct (mkdir_p_spec dst t2) as (t3 & Hrun3 & Hmade3 & Hrest3 & _).
  { intros q c Hq. destruct (decide (q `prefix_of` removelast dst)) as [Hq' | Hq'].
    - destruct (decide (q = [])) as [-> | Hq0].
      + rewrite Hroot2, Ht1.
        destruct (decide (dst `prefix_of` [])); [discriminate | now apply Hfree].
      + now rewrite Hmade2.
    - rewrite Hrest2, Ht1 by exact Hq'.
      destruct (decide (dst `prefix_of` q)); [discriminate | now apply Hfree]. }
  assert (Hsrc2 : t2 !! src = None).
  { rewrite Hrest2, Ht1.
    - destruct (decide (dst `prefix_of` src)); [reflexivity | exact Hsrc].
    - intros Hs. apply Hnotabove. (etrans; eassumption). }
  exists t3. split.
  - unfold combine_repos.clean_and_copy, combine_repos.bind, combine_repos.exists_,
      combine_repos.mkdir, combine_repos.fs_update, combine_repos.log_record,
      combine_repos.ret.
    cbn [combine_repos.files combine_repos.log]. rewrite Hdst, Hparent. fold src.
    destruct (bool_decide (is_Some (t0 !! dst)));
      cbn [combine_repos.files combine_repos.log].
    + rewrite Hrun1. cbn [combine_repos.files combine_repos.log].
      rewrite Hrun2. cbn [combine_repos.files combine_repos.log].
      rewrite Hsrc2, bool_decide_eq_false_2 by (intros [? ?]; discriminate).
      cbn [negb combine_repos.files combine_repos.log]. now rewrite Hrun3.
    + injection Hrun1 as ->. rewrite Hrun2. cbn [combine_repos.files combine_repos.log].
      rewrite Hsrc2, bool_decide_eq_false_2 by (intros [? ?]; discriminate).
      cbn [negb combine_repos.files combine_repos.log]. now rewrite Hrun3.
  - split; [| split].
    + apply Hmade3; [| reflexivity].
      subst dst. intros Hd0. apply app_eq_nil in Hd0 as [_ ?]. auto.
    + intros q Hq Hqd.
      assert (Hnp : ~ q `prefix_of` dst).
      { intros Hq'. apply Hqd. now apply (anti_symm prefix). }
      rewrite Hrest3, Hrest2, Ht1; auto.
      * now rewrite decide_True.
      * intros Hq'. apply Hnp. (etrans; eassumption).
    + intros q Hq Hqd. rewrite Hrest3, Hrest2, Ht1; auto.
      * now rewrite decide_False.
      * intros Hq'. apply Hq. (etrans; eassumption).
Qed.

Lemma clean_and_copy_missing_source_witness :
  exists t',
    combine_repos.clean_and_copy ["site"]
      ["repos"; "masvs"; "controls"] ["docs"; "MASVS"; "controls"]
      {| combine_repos.files := combine_repos.example_tree_stale;
         combine_repos.log := [] |}
    = combine_repos.Return
        (tt, {| combine_repos.files := t';
                combine_repos.log :=
                  [(combine_repos.WARNING,
                    "Source directory does not exist: repos/masvs/controls")] |})
    /\ t' !! ["site"; "docs"; "MASVS"; "controls"] = Some combine_repos.Dir
    /\ t' !! ["site"; "docs"; "MASVS"; "controls"; "MASVS-AUTH-1.md"] = None.
Proof.
  destruct (clean_and_copy_missing_source ["site"]
              ["repos"; "masvs"; "controls"] ["docs"; "MASVS"; "controls"]
              {| combine_repos.files := combine_repos.example_tree_stale;
                 combine_repos.log := [] |})
    as (t' & Hrun & Hdir & Hempty & _).
  - apply check_well_formed_sound. vm_compute. reflexivity.
  - discriminate.
  - eapply bool_decide_eq_false_1. vm_compute. reflexivity.
  - vm_compute. reflexivity.
  - eapply bool_decide_eq_false_1. vm_compute. reflexivity.
  - apply check_no_file_sound. vm_compute. reflexivity.
  - exists t'. split; [exact Hrun |]. split; [exact Hdir |].
    apply Hempty; [| discriminate].
    exists ["MASVS-AUTH-1.md"]. reflexivity.
Defined.

(** ** The whole merge *)

(** C8, as stated, fails where [docs/MASTG] holds a page of its own:
    [structure_mastg] does not delete [docs/MASTG], and its last
    replacement, which removes ["Document/"], reaches every markdown file
    below it on every run.  The first run turns
    ["See DocumDocument/ent/0x04."] into ["See Document/0x04."], the second
    into ["See 0x04."], although the three repositories stay as they
    were. *)
Lemma merge_twice_observed :
  combine_repos.merge_twice ["site"] ["site"; "repos"]
    ["site"; "docs"; "MASTG"; "terms"; "MASTG-TERM-0001.md"]
    combine_repos.example_tree_terms
  = combine_repos.Return
      (true, Some (combine_repos.File "See Document/0x04."),
       Some (combine_repos.File "See 0x04.")).
Proof. vm_compute. reflexivity. Qed.

Lemma merge_twice_differs :
  exists t1 t2,
    combine_repos.merge ["site"] combine_repos.example_tree_terms = combine_repos.Return t1
    /\ combine_repos.merge ["site"] t1 = combine_repos.Return t2
    /\ combine_repos.subtree t1 ["site"; "repos"]
       = combine_repos.subtree combine_repos.example_tree_terms ["site"; "repos"]
    /\ t1 !! ["site"; "docs"; "MASTG"; "terms"; "MASTG-TERM-0001.md"]
       = Some (combine_repos.File "See Document/0x04.")
    /\ t2 !! ["site"; "docs"; "MASTG"; "terms"; "MASTG-TERM-0001.md"]
       = Some (combine_repos.File "See 0x04.")
    /\ t1 <> t2.
Proof.
  pose proof merge_twice_observed as H.
  unfold combine_repos.merge_twice in H.
  destruct (combine_repos.merge ["site"] combine_repos.example_tree_terms)
    as [t1|e] eqn:E1; [| discriminate H].
  destruct (combine_repos.merge ["site"] t1) as [t2|e] eqn:E2; [| discriminate H].
  injection H as Hsrc H1 H2. apply bool_decide_eq_true in Hsrc.
  exists t1, t2.
  split; [reflexivity |]. split; [exact E2 |]. split; [exact Hsrc |].
  split; [exact H1 |]. split; [exact H2 |].
  intros ->. rewrite H1 in H2. discriminate H2.
Qed.

(** ** Subtrees *)

Section Subtree.
Import combine_repos.

Lemma strip_loc_Some (k q r : list string) (n m : node) :
  strip_loc k (q, n) = Some (r, m) <-> q = k ++ r /\ m = n.
Proof.
  unfold strip_loc. simpl. case_bool_decide as Hk.
  - destruct Hk as [r' ->]. rewrite drop_app_length. split.
    + intros [= <- <-]. auto.
    + intros [Hq ->]. apply app_inv_head in Hq. now subst.
  - split; [discriminate |]. intros [-> _]. exfalso. apply Hk. now exists r.
Qed.

Lemma strip_loc_keys (k : list string) (l : list (list string * node)) :
  NoDup l.*1 -> NoDup (omap (strip_loc k) l).*1.
Proof.
  induction l as [|[q n] l IH]; intros Hnd; [constructor |].
  apply NoDup_cons in Hnd as [Hq Hnd]. cbn [omap list_omap].
  destruct (strip_loc k (q, n)) as [[r m]|] eqn:E; [| now apply IH].
  apply strip_loc_Some in E as [-> ->].
  cbn [fmap list_fmap fst]. apply NoDup_cons. split; [| now apply IH].
  intros Hr. apply list_elem_of_fmap in Hr as ([r' m'] & Hr & Hin). simpl in Hr. subst r'.
  apply list_elem_of_omap in Hin as ([q' n'] & Hin & E).
  apply strip_loc_Some in E as [-> ->].
  apply Hq. apply list_elem_of_fmap. now exists (k ++ r, n').
Qed.

Lemma lookup_subtree (t : tree) (k r : list string) :
  subtree t k !! r = t !! (k ++ r).
Proof.
  unfold subtree.
  assert (Hnd : NoDup (omap (strip_loc k) (map_to_list t)).*1)
    by apply strip_loc_keys, NoDup_fst_map_to_list.
  destruct (t !! (k ++ r)) as [n|] eqn:E.
  - apply elem_of_list_to_map_1; [exact Hnd |].
    apply list_elem_of_omap. exists (k ++ r, n). split.
    + now apply elem_of_map_to_list.
    + now apply strip_loc_Some.
  - apply not_elem_of_list_to_map_1. intros Hr.
    apply list_elem_of_fmap in Hr as ([r' m] & Hr & Hin). simpl in Hr. subst r'.
    apply list_elem_of_omap in Hin as ([q n] & Hin & E').
    apply strip_loc_Some in E' as [-> ->].
    apply elem_of_map_to_list in Hin. congruence.
Qed.

Lemma subtree_agree (x y : tree) (k : list string) :
  agree (under k) x y -> subtree x k = subtree y k.
Proof.
  intros H. apply map_eq. intros r. rewrite !lookup_subtree.
  apply H. now exists r.
Qed.

Lemma elem_of_below (t : tree) (k r : list string) :
  r ∈ below k t <-> r <> [] /\ is_Some (t !! (k ++ r)).
Proof.
  unfold below. rewrite list_elem_of_In, filter_In, <- list_elem_of_In.
  rewrite negb_true_iff, bool_decide_eq_false.
  rewrite list_elem_of_fmap. split.
  - intros [([r' n] & -> & Hin) Hne]. split; [exact Hne |].
    apply elem_of_map_to_list in Hin. rewrite lookup_subtree in Hin. eauto.
  - intros [Hne [n Hn]]. split; [| exact Hne].
    exists (r, n). split; [reflexivity |].
    apply elem_of_map_to_list. now rewrite lookup_subtree.
Qed.

Lemma NoDup_filter_bool {A} (f : A -> bool) (l : list A) :
  NoDup l -> NoDup (List.filter f l).
Proof.
  induction 1 as [|x l Hx Hl IH]; simpl; [constructor |].
  destruct (f x); [| exact IH]. constructor; [| exact IH].
  rewrite list_elem_of_In, filter_In, <- list_elem_of_In. tauto.
Qed.

Lemma NoDup_below (t : tree) (k : list string) : NoDup (below k t).
Proof. apply NoDup_filter_bool, NoDup_fst_map_to_list. Qed.

End Subtree.

(** ** Reasoning rules for the build monad *)

Section Rules.
Import combine_repos.

Lemma bind_inv {A B} (m : M A) (k : A -> M B) (s : state) (r : B * state) :
  bind m k s = Return r ->
  exists a s1, m s = Return (a, s1) /\ k a s1 = Return r.
Proof.
  unfold bind. destruct (m s) as [[a s1]|e]; [| discriminate]. eauto.
Qed.

Lemma bind_run {A B} (m : M A) (k : A -> M B) (s s1 : state) (a : A) :
  m s = Return (a, s1) -> bind m k s = k a s1.
Proof. unfold bind. now intros ->. Qed.

Lemma fs_update_inv (f : tree -> result tree) (s : state) (u : unit) (s' : state) :
  fs_update f s = Return (u, s') ->
  f (files s) = Return (files s') /\ log s' = log s.
Proof.
  unfold fs_update. destruct (f (files s)); [| discriminate].
  intros [= <- <-]. auto.
Qed.

Lemma fs_update_run (f : tree -> result tree) (s : state) (t' : tree) :
  f (files s) = Return t' ->
  fs_update f s = Return (tt, {| files := t'; log := log s |}).
Proof. unfold fs_update. now intros ->. Qed.

Lemma fs_read_inv {A} (f : tree -> result A) (s : state) (a : A) (s' : state) :
  fs_read f s = Return (a, s') -> f (files s) = Return a /\ s' = s.
Proof.
  unfold fs_read. destruct (f (files s)); [| discriminate].
  intros [= <- <-]. auto.
Qed.

(** *** [post] *)

Lemma post_weaken (Wr Wr' Rm Rm' : region) {A} (c : M A) :
  (forall q, Wr q -> Wr' q) -> (forall q, Rm q -> Rm' q) ->
  post Wr Rm c -> post Wr' Rm' c.
Proof.
  intros HW HR H s a s' Hs Hrun. destruct (H s a s' Hs Hrun) as (Hf & Hk & Hs').
  split; [| split; [| exact Hs']].
  - intros q Hq. apply Hf. auto.
  - intros q n Hq. apply Hk. auto.
Qed.

Lemma post_ret (Wr Rm : region) {A} (a : A) : post Wr Rm (ret a).
Proof.
  intros s b s' Hs [= <- <-].
  split; [| split]; [reflexivity | intros q n _ Hq; eauto | exact Hs].
Qed.

Lemma post_bind (Wr Rm : region) {A B} (m : M A) (k : A -> M B) (Q : A -> Prop) :
  post Wr Rm m ->
  (forall s a s', sound (files s) -> m s = Return (a, s') -> Q a) ->
  (forall a, Q a -> post Wr Rm (k a)) ->
  post Wr Rm (bind m k).
Proof.
  intros Hm HQ Hk s b s' Hs Hrun.
  apply bind_inv in Hrun as (a & s1 & H1 & H2).
  destruct (Hm s a s1 Hs H1) as (Hf1 & Hk1 & Hs1).
  destruct (Hk a (HQ _ _ _ Hs H1) s1 b s' Hs1 H2) as (Hf2 & Hk2 & Hs2).
  split; [| split; [| exact Hs2]].
  - intros q Hq. rewrite Hf2, Hf1; auto.
  - intros q n Hq Hn. destruct (Hk1 q n Hq Hn) as (n1 & Hn1 & Hkind1).
    destruct (Hk2 q n1 Hq Hn1) as (n2 & Hn2 & Hkind2).
    exists n2. split; [exact Hn2 | congruence].
Qed.

Lemma post_seq (Wr Rm : region) {A B} (m : M A) (k : A -> M B) :
  post Wr Rm m -> (forall a, post Wr Rm (k a)) -> post Wr Rm (bind m k).
Proof.
  intros Hm Hk. apply (post_bind Wr Rm m k (fun _ => True)); auto.
Qed.

Lemma post_for_each (Wr Rm : region) {A} (l : list A) (body : A -> M unit) :
  (forall a, a ∈ l -> post Wr Rm (body a)) -> post Wr Rm (for_each l body).
Proof.
  induction l as [|a l IH]; intros H; cbn [for_each].
  - apply post_ret.
  - apply post_seq.
    + apply H. left.
    + intros _. apply IH. intros b Hb. apply H. now right.
Qed.

Lemma post_reads (Wr Rm : region) {A} (c : M A) : reads c -> post Wr Rm c.
Proof.
  intros H s a s' Hs Hrun. rewrite (H s a s' Hrun).
  split; [| split]; [reflexivity | intros q n _ Hq; eauto | exact Hs].
Qed.

Lemma reads_exists (cwd : list string) (p : Path) : reads (exists_ cwd p).
Proof. intros s a s' [= <- <-]. reflexivity. Qed.

Lemma reads_is_dir (cwd : list string) (p : Path) : reads (is_dir cwd p).
Proof. intros s a s' [= <- <-]. reflexivity. Qed.

Lemma reads_is_file (cwd : list string) (p : Path) : reads (is_file cwd p).
Proof. intros s a s' [= <- <-]. reflexivity. Qed.

Lemma reads_log (l : level) (message : string) : reads (log_record l message).
Proof. intros s a s' [= <- <-]. reflexivity. Qed.

Lemma reads_rglob (cwd : list string) (select : list string -> bool) (base : Path) :
  reads (rglob cwd select base).
Proof.
  intros s a s'. unfold rglob.
  destruct (files s !! resolve cwd base) as [[c|]|]; intros [= <- <-]; reflexivity.
Qed.

Lemma reads_fs_read {A} (f : tree -> result A) : reads (fs_read f).
Proof. intros s a s' H. apply fs_read_inv in H as [_ ->]. reflexivity. Qed.

(** *** [local] *)

Lemma local_ret (P : region) {A} (a : A) : local P (ret a).
Proof. intros x y b x' _ _ Hxy [= <- <-]. exists y. split; [reflexivity | exact Hxy]. Qed.

Lemma local_bind (P Wr Rm : region) {A B} (m : M A) (k : A -> M B) (Q : A -> Prop) :
  local P m -> post Wr Rm m ->
  (forall s a s', sound (files s) -> m s = Return (a, s') -> Q a) ->
  (forall a, Q a -> local P (k a)) ->
  local P (bind m k).
Proof.
  intros Hm Hpost HQ Hk x y b x' Hx Hy Hxy Hrun.
  apply bind_inv in Hrun as (a & x1 & H1 & H2).
  destruct (Hm x y a x1 Hx Hy Hxy H1) as (y1 & Hy1 & Hxy1).
  destruct (Hpost x a x1 Hx H1) as (_ & _ & Hx1).
  destruct (Hpost y a y1 Hy Hy1) as (_ & _ & Hy1s).
  destruct (Hk a (HQ _ _ _ Hx H1) x1 y1 b x' Hx1 Hy1s Hxy1 H2) as (y' & Hy' & Hxy').
  exists y'. split; [| exact Hxy']. now rewrite (bind_run _ _ _ _ _ Hy1).
Qed.

Lemma local_seq (P Wr Rm : region) {A B} (m : M A) (k : A -> M B) :
  local P m -> post Wr Rm m -> (forall a, local P (k a)) -> local P (bind m k).
Proof.
  intros Hm Hp Hk. apply (local_bind P Wr Rm m k (fun _ => True)); auto.
Qed.

Lemma local_for_each (P Wr Rm : region) {A} (l : list A) (body : A -> M unit) :
  (forall a, a ∈ l -> local P (body a)) ->
  (forall a, a ∈ l -> post Wr Rm (body a)) ->
  local P (for_each l body).
Proof.
  induction l as [|a l IH]; intros H Hp; cbn [for_each].
  - apply local_ret.
  - apply (local_seq P Wr Rm).
    + apply H. left.
    + apply Hp. left.
    + intros _. apply IH; intros b Hb; [apply H | apply Hp]; now right.
Qed.

End Rules.

(** ** The primitives: what they write, keep and read *)

Section Primitives.
Import combine_repos.

Lemma prefix_app_plain (k r : list string) : ".." ∉ k -> ".." ∉ r -> ".." ∉ k ++ r.
Proof. intros Hk Hr H. apply elem_of_app in H as [H | H]; auto. Qed.

Lemma prefix_plain (k q : list string) : k `prefix_of` q -> ".." ∉ q -> ".." ∉ k.
Proof. intros [r ->] H Hk. apply H, elem_of_app. now left. Qed.

Lemma prefix_removelast (k q : list string) :
  k `prefix_of` q -> k <> q -> k `prefix_of` removelast q.
Proof.
  intros [m ->] Hne. destruct (decide (m = [])) as [-> | Hm].
  - rewrite app_nil_r in Hne. contradiction.
  - exists (removelast m). now apply removelast_app.
Qed.

Lemma removelast_neq (q : list string) : q <> [] -> removelast q <> q.
Proof.
  intros Hne E. apply (f_equal length) in E.
  rewrite (app_removelast_last EmptyString Hne) in E at 2.
  rewrite length_app in E. simpl in E. lia.
Qed.

(** *** [rmtree] *)

Lemma rmtree_inv (cwd k : list string) (t t' : tree) :
  rmtree cwd k t = Return t' ->
  t !! k = Some Dir /\ ~ k `prefix_of` cwd.
Proof.
  unfold rmtree. destruct (t !! k) as [[c|]|]; try discriminate.
  case_bool_decide; [discriminate |]. auto.
Qed.

Lemma rmtree_run (cwd k : list string) (t : tree) :
  t !! k = Some Dir -> ~ k `prefix_of` cwd ->
  exists t', rmtree cwd k t = Return t'.
Proof.
  intros Hk Hc. unfold rmtree. rewrite Hk, bool_decide_eq_false_2 by exact Hc. eauto.
Qed.

Lemma rmtree_sound (cwd k : list string) (t t' : tree) :
  rmtree cwd k t = Return t' -> sound t -> sound t'.
Proof.
  intros Hrun (Hwf & Hplain & Hroot).
  pose proof (rmtree_lookup _ _ _ _ Hrun) as L.
  destruct (rmtree_inv _ _ _ _ Hrun) as [_ Hc].
  split; [| split].
  - intros q n Hq k' Hk' Hne. rewrite L in Hq. rewrite L.
    destruct (decide (k `prefix_of` q)); [discriminate |].
    rewrite decide_False; [now apply (Hwf q n) |].
    intros Hkk. apply n0. (etrans; eassumption).
  - intros q n Hq. rewrite L in Hq.
    destruct (decide (k `prefix_of` q)); [discriminate | now apply (Hplain q n)].
  - rewrite L. rewrite decide_False; [exact Hroot |].
    intros Hk. apply Hc. apply prefix_nil_inv in Hk. subst k. apply prefix_nil.
Qed.

Lemma post_rmtree (Wr Rm : region) (cwd k : list string) :
  (forall q, under k q -> Wr q) -> (forall q, under k q -> Rm q) ->
  post Wr Rm (fs_update (rmtree cwd k)).
Proof.
  intros HW HR s a s' Hs Hrun. apply fs_update_inv in Hrun as [Hrun _].
  pose proof (rmtree_lookup _ _ _ _ Hrun) as L.
  split; [| split].
  - intros q Hq. rewrite L, decide_False; [reflexivity |]. intros Hk. now apply Hq, HW.
  - intros q n Hq Hn. exists n. split; [| reflexivity].
    rewrite L, decide_False; [exact Hn |]. intros Hk. now apply Hq, HR.
  - now apply (rmtree_sound _ _ _ _ Hrun).
Qed.

Lemma local_rmtree (P : region) (cwd k : list string) :
  P k -> local P (fs_update (rmtree cwd k)).
Proof.
  intros Pk x y a x' _ _ Hxy Hrun. apply fs_update_inv in Hrun as [Hrun _].
  destruct (rmtree_inv _ _ _ _ Hrun) as [Hk Hc].
  destruct (rmtree_run cwd k (files y)) as [t' Hy]; [now rewrite <- Hxy | exact Hc |].
  exists {| files := t'; log := log y |}. destruct a.
  split; [now apply fs_update_run |].
  intros q Hq. cbn [files].
  rewrite (rmtree_lookup _ _ _ _ Hrun), (rmtree_lookup _ _ _ _ Hy).
  destruct (decide (k `prefix_of` q)); [reflexivity | now apply Hxy].
Qed.

(** *** [mkdir_p] *)

Lemma mkdir_from_inv (done rest : list string) (t t' : tree) :
  mkdir_from done rest t = Return t' ->
  forall q c, made done rest q -> t !! q <> Some (File c).
Proof.
  revert done t. induction rest as [|part rest IH]; intros done t Hrun q c Hq.
  - destruct Hq as (m & _ & Hne & Hpre). apply prefix_nil_inv in Hpre. contradiction.
  - cbn [mkdir_from] in Hrun. apply made_cons in Hq.
    destruct (t !! (done ++ [part])) as [[c'|]|] eqn:E; [discriminate | |].
    + destruct Hq as [-> | Hq]; [congruence | now apply (IH _ _ Hrun)].
    + destruct Hq as [-> | Hq]; [congruence |].
      pose proof (IH _ _ Hrun q c Hq) as H.
      rewrite lookup_insert_ne in H; [exact H |].
      intros <-. now apply made_longer in Hq.
Qed.

Lemma mkdir_p_inv (k : list string) (t t' : tree) :
  mkdir_p k t = Return t' ->
  (forall q c, upto k q -> t !! q <> Some (File c))
  /\ (forall q, upto k q -> t' !! q = Some Dir)
  /\ (forall q, ~ upto k q -> t' !! q = t !! q).
Proof.
  intros Hrun.
  assert (Hfree : forall q c, made [] k q -> t !! q <> Some (File c))
    by exact (mkdir_from_inv _ _ _ _ Hrun).
  destruct (mkdir_from_spec [] k t Hfree) as (t2 & Hrun2 & Hmade & Hrest).
  unfold mkdir_p in Hrun. rewrite Hrun in Hrun2. injection Hrun2 as <-.
  split; [| split].
  - intros q c [Hq Hne]. apply Hfree, made_root. auto.
  - intros q [Hq Hne]. apply Hmade, made_root. auto.
  - intros q Hq. apply Hrest. intros Hm. apply Hq.
    apply made_root in Hm as [? ?]. split; auto.
Qed.

Lemma mkdir_p_run (k : list string) (t : tree) :
  (forall q c, upto k q -> t !! q <> Some (File c)) ->
  exists t', mkdir_p k t = Return t'.
Proof.
  intros Hfree. destruct (mkdir_from_spec [] k t) as (t' & Hrun & _).
  - intros q c Hq. apply made_root in Hq as [? ?]. apply Hfree. split; auto.
  - now exists t'.
Qed.

Lemma mkdir_p_sound (k : list string) (t t' : tree) :
  mkdir_p k t = Return t' -> ".." ∉ k -> sound t -> sound t'.
Proof.
  intros Hrun Hk (Hwf & Hplain & Hroot).
  destruct (mkdir_p_inv _ _ _ Hrun) as (Hfree & Hmade & Hrest).
  assert (Hdir : forall q, t !! q = Some Dir -> t' !! q = Some Dir).
  { intros q Hq. destruct (decide (q = [])) as [-> | Hne].
    - rewrite Hrest; [exact Hq |]. intros [_ ?]. contradiction.
    - destruct (decide (q `prefix_of` k)) as [Hp | Hp].
      + apply Hmade. split; auto.
      + rewrite Hrest; [exact Hq |]. intros [? _]. contradiction. }
  assert (Hroot' : t' !! [] = Some Dir) by now apply Hdir.
  split; [| split; [| exact Hroot']].
  - intros q n Hq k' Hk' Hne.
    destruct (decide (q `prefix_of` k)) as [Hp | Hp].
    + destruct (decide (k' = [])) as [-> | Hk0]; [exact Hroot' |].
      apply Hmade. split; [| exact Hk0]. (etrans; eassumption).
    + rewrite Hrest in Hq by (intros [? _]; contradiction).
      apply Hdir. now apply (Hwf q n).
  - intros q n Hq. destruct (decide (q `prefix_of` k)) as [Hp | Hp].
    + now apply (prefix_plain q k).
    + rewrite Hrest in Hq by (intros [? _]; contradiction). now apply (Hplain q n).
Qed.

Lemma post_mkdir (Wr Rm : region) (cwd : list string) (p : Path) :
  ".." ∉ cwd -> (forall q, upto (resolve cwd p) q -> Wr q) ->
  post Wr Rm (mkdir cwd p).
Proof.
  intros Hcwd HW s a s' Hs Hrun. apply fs_update_inv in Hrun as [Hrun _].
  destruct (mkdir_p_inv _ _ _ Hrun) as (Hfree & Hmade & Hrest).
  split; [| split].
  - intros q Hq. apply Hrest. intros Hu. now apply Hq, HW.
  - intros q n _ Hn.
    destruct (decide (q `prefix_of` resolve cwd p /\ q <> [])) as [Hu | Hu].
    + exists Dir. split; [now apply Hmade |].
      destruct n as [c|]; [| reflexivity]. now apply Hfree in Hn.
    + exists n. split; [| reflexivity]. now rewrite Hrest.
  - apply (mkdir_p_sound _ _ _ Hrun); [| exact Hs].
    unfold resolve. clear -Hcwd. revert cwd Hcwd.
    induction p as [|x p IH]; intros cwd Hcwd; [exact Hcwd |].
    simpl. apply IH. unfold step. destruct (String.eqb_spec x "..").
    + eapply prefix_plain; [apply removelast_prefix | exact Hcwd].
    + apply prefix_app_plain; [exact Hcwd |].
      intros H. apply list_elem_of_singleton in H. congruence.
Qed.

Lemma local_mkdir (P : region) (cwd : list string) (p : Path) :
  (forall q, upto (resolve cwd p) q -> P q) -> local P (mkdir cwd p).
Proof.
  intros HP x y a x' _ _ Hxy Hrun. apply fs_update_inv in Hrun as [Hrun _].
  destruct (mkdir_p_inv _ _ _ Hrun) as (Hfree & Hmade & Hrest).
  destruct (mkdir_p_run (resolve cwd p) (files y)) as [t' Hy].
  { intros q c Hq. rewrite <- Hxy by now apply HP. now apply Hfree. }
  destruct (mkdir_p_inv _ _ _ Hy) as (_ & Hmade' & Hrest').
  exists {| files := t'; log := log y |}. destruct a.
  split; [now apply fs_update_run |].
  intros q Hq. cbn [files].
  destruct (decide (q `prefix_of` resolve cwd p /\ q <> [])) as [Hu | Hu].
  - now rewrite Hmade, Hmade'.
  - rewrite Hrest, Hrest' by exact Hu. now apply Hxy.
Qed.

End Primitives.

Section TextFiles.
Import combine_repos.

Lemma resolve_no_dotdot (cwd : list string) (p : Path) :
  ".." ∉ cwd -> ".." ∉ resolve cwd p.
Proof.
  unfold resolve. revert cwd. induction p as [|x p IH]; intros cwd Hcwd; [exact Hcwd |].
  simpl. apply IH. unfold step. destruct (String.eqb_spec x "..").
  - eapply prefix_plain; [apply removelast_prefix | exact Hcwd].
  - apply prefix_app_plain; [exact Hcwd |].
    intros H. apply list_elem_of_singleton in H. congruence.
Qed.

Lemma resolve_app (cwd : list string) (p r : Path) :
  ".." ∉ r -> resolve cwd (p ++ r) = resolve cwd p ++ r.
Proof.
  intros Hr. unfold resolve. rewrite fold_left_app.
  now apply (resolve_plain (fold_left step p cwd)).
Qed.

(** Putting a regular file at [k], which stands in a directory and is
    not one itself. *)
Lemma put_file_sound (t : tree) (k : list string) (content : string) :
  sound t -> ".." ∉ k -> t !! removelast k = Some Dir -> t !! k <> Some Dir ->
  sound (<[k := File content]> t).
Proof.
  intros (Hwf & Hplain & Hroot) Hk Hparent Hnd.
  assert (Hne : k <> []) by (intros ->; congruence).
  assert (Hbelow : forall q n, t !! q = Some n -> k `prefix_of` q -> q = k).
  { intros q n Hq Hkq. destruct (decide (q = k)) as [| Hqk]; [assumption |].
    exfalso. apply Hnd. apply (Hwf q n Hq k Hkq). congruence. }
  split; [| split].
  - intros q n Hq k' Hk' Hne'.
    assert (Hk'k : k' <> k).
    { intros ->. destruct (decide (q = k)) as [-> | Hqk]; [contradiction |].
      rewrite lookup_insert_ne in Hq by congruence.
      apply Hqk. now apply (Hbelow q n). }
    rewrite lookup_insert_ne by congruence.
    destruct (decide (q = k)) as [-> | Hqk].
    + destruct (decide (k' = removelast k)) as [-> | Hkp]; [exact Hparent |].
      apply (Hwf (removelast k) Dir Hparent); [| exact Hkp].
      now apply prefix_removelast.
    + rewrite lookup_insert_ne in Hq by congruence. now apply (Hwf q n).
  - intros q n Hq. destruct (decide (q = k)) as [-> | Hqk]; [exact Hk |].
    rewrite lookup_insert_ne in Hq by congruence. now apply (Hplain q n).
  - rewrite lookup_insert_ne by congruence. exact Hroot.
Qed.

Lemma write_text_inv (k : list string) (content : string) (t t' : tree) :
  write_text k content t = Return t' ->
  t !! k <> Some Dir /\ t !! removelast k = Some Dir
  /\ t' = <[k := File content]> t.
Proof.
  unfold write_text.
  destruct (t !! k) as [[c|]|] eqn:E; try discriminate;
    destruct (t !! removelast k) as [[c'|]|]; try discriminate;
    intros [= <-]; repeat split; congruence.
Qed.

Lemma write_text_run (k : list string) (content : string) (t : tree) :
  t !! k <> Some Dir -> t !! removelast k = Some Dir ->
  write_text k content t = Return (<[k := File content]> t).
Proof.
  intros Hk Hp. unfold write_text. rewrite Hp.
  destruct (t !! k) as [[c|]|]; congruence.
Qed.

Lemma post_write_text (Wr Rm : region) (k : list string) (content : string) :
  ".." ∉ k -> Wr k -> post Wr Rm (fs_update (write_text k content)).
Proof.
  intros Hk HW s a s' Hs Hrun. apply fs_update_inv in Hrun as [Hrun _].
  apply write_text_inv in Hrun as (Hnd & Hp & ->).
  split; [| split].
  - intros q Hq. apply lookup_insert_ne. congruence.
  - intros q n _ Hn. destruct (decide (q = k)) as [-> | Hqk].
    + rewrite lookup_insert_eq. eexists. split; [reflexivity |].
      destruct n; [reflexivity | congruence].
    + rewrite lookup_insert_ne by congruence. eauto.
  - now apply put_file_sound.
Qed.

Lemma local_write_text (P : region) (k : list string) (content : string) :
  P k -> P (removelast k) -> local P (fs_update (write_text k content)).
Proof.
  intros Pk Pp x y a x' _ _ Hxy Hrun. apply fs_update_inv in Hrun as [Hrun _].
  apply write_text_inv in Hrun as (Hnd & Hp & ->).
  exists {| files := <[k := File content]> (files y); log := log y |}. destruct a.
  split.
  - apply fs_update_run, write_text_run; rewrite <- Hxy; auto.
  - intros q Hq. cbn [files]. destruct (decide (q = k)) as [-> | Hqk].
    + now rewrite !lookup_insert_eq.
    + rewrite !lookup_insert_ne by congruence. now apply Hxy.
Qed.

Lemma local_read_text (P : region) (k : list string) :
  P k -> local P (fs_read (read_text k)).
Proof.
  intros Pk x y a x' _ _ Hxy Hrun. apply fs_read_inv in Hrun as [Hrun ->].
  exists y. split; [| exact Hxy].
  unfold fs_read, read_text in *. rewrite <- (Hxy k Pk).
  destruct (files x !! k) as [[c|]|]; try discriminate. now injection Hrun as ->.
Qed.

Lemma local_pure {A} (P : region) (r : result A) : local P (fs_read (fun _ => r)).
Proof.
  intros x y a x' _ _ Hxy Hrun. apply fs_read_inv in Hrun as [Hrun ->].
  exists y. split; [| exact Hxy]. unfold fs_read. now rewrite Hrun.
Qed.

(** *** [replace_in_file] and [prettify_control] *)

Lemma post_replace_in_file (Wr Rm : region) (cwd : list string) (p : Path)
    (old new : string) :
  ".." ∉ cwd -> Wr (resolve cwd p) -> post Wr Rm (replace_in_file cwd p old new).
Proof.
  intros Hcwd HW. unfold replace_in_file. apply post_seq.
  - apply post_reads, reads_fs_read.
  - intros content. apply post_write_text; [now apply resolve_no_dotdot | exact HW].
Qed.

Lemma local_replace_in_file (P : region) (cwd : list string) (p : Path)
    (old new : string) :
  P (resolve cwd p) -> P (removelast (resolve cwd p)) ->
  local P (replace_in_file cwd p old new).
Proof.
  intros Pk Pp. unfold replace_in_file.
  apply (local_seq P (fun _ => False) (fun _ => False)).
  - now apply local_read_text.
  - apply post_reads, reads_fs_read.
  - intros content. now apply local_write_text.
Qed.

Lemma post_prettify_control (Wr Rm : region) (cwd : list string) (p : Path) :
  ".." ∉ cwd -> Wr (resolve cwd p) -> post Wr Rm (prettify_control cwd p).
Proof.
  intros Hcwd HW. unfold prettify_control. apply post_seq.
  - apply post_reads, reads_fs_read.
  - intros content. apply post_seq.
    + apply post_reads, reads_fs_read.
    + intros content'. apply post_write_text; [now apply resolve_no_dotdot | exact HW].
Qed.

Lemma local_prettify_control (P : region) (cwd : list string) (p : Path) :
  P (resolve cwd p) -> P (removelast (resolve cwd p)) ->
  local P (prettify_control cwd p).
Proof.
  intros Pk Pp. unfold prettify_control.
  apply (local_seq P (fun _ => False) (fun _ => False)).
  - now apply local_read_text.
  - apply post_reads, reads_fs_read.
  - intros content. apply (local_seq P (fun _ => False) (fun _ => False)).
    + apply local_pure.
    + apply post_reads, reads_fs_read.
    + intros content'. now apply local_write_text.
Qed.

End TextFiles.

Section CopyFile.
Import combine_repos.

Lemma copy_file_inv (src dst : list string) (t t' : tree) :
  copy_file src dst t = Return t' ->
  exists content,
    t !! src = Some (File content)
    /\ src <> copy_target src dst t
    /\ t !! copy_target src dst t <> Some Dir
    /\ t !! removelast (copy_target src dst t) = Some Dir
    /\ t' = <[copy_target src dst t := File content]> t.
Proof.
  unfold copy_file. destruct (t !! src) as [[content|]|]; try discriminate.
  case_bool_decide as Hsame; [discriminate |].
  destruct (t !! copy_target src dst t) as [[c|]|] eqn:E; try discriminate;
    destruct (t !! removelast (copy_target src dst t)) as [[c'|]|]; try discriminate;
    intros [= <-]; exists content; repeat split; congruence.
Qed.

Lemma copy_file_run (src dst : list string) (t : tree) (content : string) :
  t !! src = Some (File content) ->
  src <> copy_target src dst t ->
  t !! copy_target src dst t <> Some Dir ->
  t !! removelast (copy_target src dst t) = Some Dir ->
  copy_file src dst t = Return (<[copy_target src dst t := File content]> t).
Proof.
  intros Hsrc Hne Hnd Hp. unfold copy_file. rewrite Hsrc.
  rewrite bool_decide_eq_false_2 by exact Hne. rewrite Hp.
  destruct (t !! copy_target src dst t) as [[c|]|]; congruence.
Qed.

Lemma copy_target_cases (src dst : list string) (t : tree) :
  (t !! dst = Some Dir /\ copy_target src dst t = dst ++ [List.last src EmptyString])
  \/ (t !! dst <> Some Dir /\ copy_target src dst t = dst).
Proof. unfold copy_target. case_bool_decide; auto. Qed.

Lemma last_plain (q : list string) : ".." ∉ q -> List.last q EmptyString <> "..".
Proof.
  intros Hq E. destruct (decide (q = [])) as [-> | Hne]; [discriminate E |].
  apply Hq. rewrite (app_removelast_last EmptyString Hne), E.
  apply elem_of_app. right. left.
Qed.

Lemma post_copy_file (Wr Rm : region) (src dst : list string) :
  ".." ∉ dst -> Wr dst -> Wr (dst ++ [List.last src EmptyString]) ->
  post Wr Rm (fs_update (copy_file src dst)).
Proof.
  intros Hdst HW HW' s a s' Hs Hrun. apply fs_update_inv in Hrun as [Hrun _].
  apply copy_file_inv in Hrun as (content & Hsrc & Hne & Hnd & Hp & ->).
  set (k := copy_target src dst (files s)) in *.
  assert (Wk : Wr k).
  { subst k. destruct (copy_target_cases src dst (files s)) as [[_ ->] | [_ ->]]; auto. }
  assert (Hk : ".." ∉ k).
  { subst k. destruct (copy_target_cases src dst (files s)) as [[_ ->] | [_ ->]]; auto.
    apply prefix_app_plain; [exact Hdst |].
    intros H. apply list_elem_of_singleton in H. symmetry in H. revert H.
    apply last_plain. destruct Hs as (_ & Hplain & _). now apply (Hplain src (File content)). }
  split; [| split].
  - intros q Hq. apply lookup_insert_ne. congruence.
  - intros q n _ Hn. destruct (decide (q = k)) as [-> | Hqk].
    + rewrite lookup_insert_eq. eexists. split; [reflexivity |].
      destruct n; [reflexivity | congruence].
    + rewrite lookup_insert_ne by congruence. eauto.
  - now apply put_file_sound.
Qed.

Lemma local_copy_file (P : region) (src dst : list string) :
  P src -> P dst -> P (dst ++ [List.last src EmptyString]) -> P (removelast dst) ->
  local P (fs_update (copy_file src dst)).
Proof.
  intros Ps Pd Pi Pp x y a x' _ _ Hxy Hrun. apply fs_update_inv in Hrun as [Hrun _].
  apply copy_file_inv in Hrun as (content & Hsrc & Hne & Hnd & Hp & ->).
  assert (Hk : copy_target src dst (files y) = copy_target src dst (files x)).
  { unfold copy_target. now rewrite (Hxy dst Pd). }
  set (k := copy_target src dst (files x)) in *.
  assert (Pk : P k /\ P (removelast k)).
  { subst k. destruct (copy_target_cases src dst (files x)) as [[_ ->] | [_ ->]].
    - rewrite removelast_last. auto.
    - auto. }
  destruct Pk as [Pk Ppk].
  exists {| files := <[k := File content]> (files y); log := log y |}. destruct a.
  split.
  - apply fs_update_run. rewrite <- Hk. apply copy_file_run; rewrite ?Hk;
      try rewrite <- Hxy; auto.
  - intros q Hq. cbn [files]. destruct (decide (q = k)) as [-> | Hqk].
    + now rewrite !lookup_insert_eq.
    + rewrite !lookup_insert_ne by congruence. now apply Hxy.
Qed.

End CopyFile.

Section CopyTree.
Import combine_repos.

#[local] Instance inside_inj (dst : list string) : Inj (=) (=) (inside dst).
Proof.
  intros r r' H. unfold inside in H. apply app_inv_head in H.
  now apply app_inj_tail in H as [? _].
Qed.

Lemma lookup_copied_Some (t : tree) (dst : list string) (entries : tree)
    (q : list string) (n : node) :
  copied t dst entries !! q = Some n ->
  (exists r, q = dst ++ r /\ entries !! r = Some n /\ lands_inside t dst r n = false)
  \/ (exists r, q = inside dst r /\ entries !! r = Some n /\ lands_inside t dst r n = true).
Proof.
  unfold copied. intros H. apply lookup_union_Some_raw in H as [H | [_ H]];
    apply lookup_kmap_Some in H as (r & -> & H); [| apply _ | | apply _];
    apply map_lookup_filter_Some in H as [H1 H2]; [left | right]; eauto.
Qed.

Lemma lookup_copied_onto (t : tree) (dst : list string) (entries : tree)
    (r : list string) (n : node) :
  entries !! r = Some n -> lands_inside t dst r n = false ->
  copied t dst entries !! (dst ++ r) = Some n.
Proof.
  intros Hr Hl. unfold copied. apply lookup_union_Some_l.
  apply lookup_kmap_Some; [apply _ |]. exists r. split; [reflexivity |].
  now apply map_lookup_filter_Some.
Qed.

Lemma lookup_copied_into (t : tree) (dst : list string) (entries : tree)
    (r : list string) (n : node) :
  entries !! r = Some n -> lands_inside t dst r n = true ->
  entries !! (r ++ [List.last r EmptyString]) = None ->
  copied t dst entries !! inside dst r = Some n.
Proof.
  intros Hr Hl Hnone. unfold copied. apply lookup_union_Some_raw. right. split.
  - apply lookup_kmap_None; [apply _ |]. intros r2 E.
    unfold inside in E. apply app_inv_head in E. subst r2.
    apply map_lookup_filter_None. now left.
  - apply lookup_kmap_Some; [apply _ |]. exists r. split; [reflexivity |].
    now apply map_lookup_filter_Some.
Qed.

Lemma lookup_copied_outside (t : tree) (dst : list string) (entries : tree)
    (q : list string) :
  ~ dst `prefix_of` q -> copied t dst entries !! q = None.
Proof.
  intros Hq. destruct (copied t dst entries !! q) as [n|] eqn:E; [| reflexivity].
  exfalso. apply Hq.
  apply lookup_copied_Some in E as [(r & -> & _) | (r & -> & _)].
  - now exists r.
  - unfold inside. now eexists.
Qed.

Lemma copytree_inv (src dst : list string) (t t' : tree) :
  copytree src dst t = Return t' ->
  t !! src = Some Dir /\ ~ src `prefix_of` dst /\ ~ dst `prefix_of` src
  /\ exists t1, mkdir_p dst t = Return t1
       /\ (forall r n, t !! (src ++ r) = Some n -> ~ blocked t1 dst r n)
       /\ t' = copied t1 dst (subtree t src) ∪ t1.
Proof.
  unfold copytree. destruct (t !! src) as [[c|]|]; try discriminate.
  case_bool_decide as Hrel; [discriminate |].
  destruct (mkdir_p dst t) as [t1|e]; [| discriminate].
  case_bool_decide as Hfree; [| discriminate]. intros [= <-].
  split; [reflexivity |]. split; [tauto |]. split; [tauto |].
  exists t1. split; [reflexivity |]. split; [| reflexivity].
  intros r n Hr. apply (Hfree r n). now rewrite lookup_subtree.
Qed.

Lemma copytree_run (src dst : list string) (t t1 : tree) :
  t !! src = Some Dir -> ~ src `prefix_of` dst -> ~ dst `prefix_of` src ->
  mkdir_p dst t = Return t1 ->
  (forall r n, t !! (src ++ r) = Some n -> ~ blocked t1 dst r n) ->
  copytree src dst t = Return (copied t1 dst (subtree t src) ∪ t1).
Proof.
  intros Hsrc H1 H2 Hmk Hfree. unfold copytree. rewrite Hsrc.
  rewrite bool_decide_eq_false_2 by tauto. rewrite Hmk.
  rewrite bool_decide_eq_true_2; [reflexivity |].
  intros r n Hr. apply Hfree. now rewrite <- lookup_subtree.
Qed.

(** A directory of the destination stays one under the copy. *)
Lemma copied_keeps_dir (t : tree) (dst : list string) (entries : tree) (q : list string) :
  (forall r n, entries !! r = Some n -> ~ blocked t dst r n) ->
  t !! q = Some Dir -> (copied t dst entries ∪ t) !! q = Some Dir.
Proof.
  intros Hfree Hq. apply lookup_union_Some_raw.
  destruct (copied t dst entries !! q) as [m|] eqn:E; [left | now right].
  apply lookup_copied_Some in E as [(r & -> & Hr & Hl) | (r & -> & Hr & Hl)].
  - destruct m as [c|]; [| reflexivity].
    simpl in Hl. apply bool_decide_eq_false in Hl. contradiction.
  - destruct m as [c|]; [| discriminate Hl].
    simpl in Hl. apply bool_decide_eq_true in Hl.
    exfalso. apply (Hfree r (File c) Hr). simpl. auto.
Qed.

Lemma copied_sound (t : tree) (dst : list string) (entries : tree) :
  sound t -> ".." ∉ dst -> t !! dst = Some Dir ->
  (forall r n, entries !! r = Some n -> ~ blocked t dst r n) ->
  (forall r n, entries !! r = Some n -> ".." ∉ r) ->
  (forall r n r', entries !! r = Some n -> r' `prefix_of` r -> r' <> r ->
                  entries !! r' = Some Dir) ->
  sound (copied t dst entries ∪ t).
Proof.
  intros (Hwf & Hplain & Hroot) Hdst Hd Hfree Hnames Hents.
  assert (Hdir : forall q, t !! q = Some Dir -> (copied t dst entries ∪ t) !! q = Some Dir)
    by (intros q; now apply copied_keeps_dir).
  assert (Hent : forall r, entries !! r = Some Dir ->
                           (copied t dst entries ∪ t) !! (dst ++ r) = Some Dir).
  { intros r Hr. apply lookup_union_Some_l. now apply lookup_copied_onto. }
  assert (Habove : forall k', k' `prefix_of` dst -> t !! k' = Some Dir).
  { intros k' Hk'. destruct (decide (k' = dst)) as [-> | Hne]; [exact Hd |].
    now apply (Hwf dst Dir Hd). }
  split; [| split; [| now apply Hdir]].
  - intros q n Hq k' Hk' Hne.
    apply lookup_union_Some_raw in Hq as [Hq | [_ Hq]].
    + assert (Hprefix : dst `prefix_of` q /\
                forall r', dst ++ r' `prefix_of` q -> dst ++ r' <> q ->
                           (copied t dst entries ∪ t) !! (dst ++ r') = Some Dir).
      { apply lookup_copied_Some in Hq as [(r & -> & Hr & Hl) | (r & -> & Hr & Hl)].
        - split; [now exists r |]. intros r' Hr' Hne'.
          apply Hent. apply (Hents r n r' Hr).
          + now apply prefix_app_inv in Hr'.
          + congruence.
        - split; [unfold inside; now eexists |]. intros r' Hr' Hne'.
          unfold inside in Hr', Hne'.
          apply prefix_app_inv in Hr'.
          assert (Hr'' : r' `prefix_of` r).
          { destruct Hr' as [m Hm]. destruct (decide (m = [])) as [-> | Hm0].
            - rewrite app_nil_r in Hm. congruence.
            - exists (removelast m).
              apply (f_equal (fun l : list string => removelast l)) in Hm.
              rewrite removelast_last in Hm. rewrite Hm.
              now apply removelast_app. }
          destruct (decide (r' = r)) as [-> | Hne''].
          + apply Hdir. destruct n as [c|]; [| discriminate Hl].
            simpl in Hl. now apply bool_decide_eq_true in Hl.
          + apply Hent. now apply (Hents r n r' Hr). }
      destruct Hprefix as [Hdq Hinner].
      destruct (prefix_weak_total k' dst q Hk' Hdq) as [Hkd | [r' ->]].
      * apply Hdir. now apply Habove.
      * now apply Hinner.
    + apply Hdir. now apply (Hwf q n).
  - intros q n Hq. apply lookup_union_Some_raw in Hq as [Hq | [_ Hq]];
      [| now apply (Hplain q n)].
    apply lookup_copied_Some in Hq as [(r & -> & Hr & Hl) | (r & -> & Hr & Hl)].
    + apply prefix_app_plain; [exact Hdst | now apply (Hnames r n)].
    + unfold inside. apply prefix_app_plain; [exact Hdst |].
      apply prefix_app_plain; [now apply (Hnames r n) |].
      intros H. apply list_elem_of_singleton in H. symmetry in H. revert H.
      apply last_plain. now apply (Hnames r n).
Qed.

End CopyTree.

Section CopyTreeRules.
Import combine_repos.

Lemma copytree_kinds (src dst : list string) (t t' : tree) (q : list string) (n : node) :
  copytree src dst t = Return t' -> t !! q = Some n ->
  exists n', t' !! q = Some n' /\ kind_of (Some n') = kind_of (Some n).
Proof.
  intros Hrun Hn.
  destruct (copytree_inv _ _ _ _ Hrun) as (Hsrc & Hsd & Hds & t1 & Hmk & Hfree & ->).
  destruct (mkdir_p_inv _ _ _ Hmk) as (Hnofile & Hmade & Hrest).
  assert (H1 : exists n1, t1 !! q = Some n1 /\ kind_of (Some n1) = kind_of (Some n)).
  { destruct (decide (q `prefix_of` dst /\ q <> [])) as [Hu | Hu].
    - exists Dir. split; [now apply Hmade |].
      destruct n as [c|]; [| reflexivity]. now apply Hnofile in Hn.
    - exists n. split; [| reflexivity]. now rewrite Hrest. }
  destruct H1 as (n1 & Hn1 & Hk1).
  destruct (copied t1 dst (subtree t src) !! q) as [m|] eqn:E.
  - exists m. split; [now apply lookup_union_Some_l |]. rewrite <- Hk1.
    apply lookup_copied_Some in E as [(r & -> & Hr & Hl) | (r & -> & Hr & Hl)];
      rewrite lookup_subtree in Hr.
    + destruct m as [c|]; simpl in Hl.
      * apply bool_decide_eq_false in Hl. destruct n1; [reflexivity | congruence].
      * destruct n1 as [c|]; [| reflexivity].
        exfalso. apply (Hfree r Dir Hr). simpl. eauto.
    + destruct m as [c|]; [| discriminate Hl]. simpl in Hl.
      apply bool_decide_eq_true in Hl.
      destruct n1 as [c'|]; [reflexivity |].
      exfalso. apply (Hfree r (File c) Hr). simpl. auto.
  - exists n1. split; [| exact Hk1]. now rewrite lookup_union_r.
Qed.

Lemma post_copytree (Wr Rm : region) (src dst : list string) :
  ".." ∉ dst -> (forall q, under dst q -> Wr q) -> (forall q, upto dst q -> Wr q) ->
  post Wr Rm (fs_update (copytree src dst)).
Proof.
  intros Hdst HW HW' s a s' Hs Hrun. apply fs_update_inv in Hrun as [Hrun _].
  split; [| split].
  - destruct (copytree_inv _ _ _ _ Hrun) as (Hsrc & Hsd & Hds & t1 & Hmk & Hfree & E).
    destruct (mkdir_p_inv _ _ _ Hmk) as (Hnofile & Hmade & Hrest).
    intros q Hq. rewrite E, lookup_union_r.
    + apply Hrest. intros Hu. now apply Hq, HW'.
    + apply lookup_copied_outside. intros Hu. now apply Hq, HW.
  - intros q n _ Hn. now apply (copytree_kinds _ _ _ _ q n Hrun).
  - destruct (copytree_inv _ _ _ _ Hrun) as (Hsrc & Hsd & Hds & t1 & Hmk & Hfree & E).
    destruct (mkdir_p_inv _ _ _ Hmk) as (Hnofile & Hmade & Hrest).
    rewrite E. apply copied_sound.
    + now apply (mkdir_p_sound _ _ _ Hmk).
    + exact Hdst.
    + apply Hmade. split; [reflexivity |]. intros ->. apply Hds, prefix_nil.
    + intros r n Hr. rewrite lookup_subtree in Hr. now apply Hfree.
    + intros r n Hr. rewrite lookup_subtree in Hr.
      destruct Hs as (_ & Hplain & _). intros Hin.
      apply (Hplain _ _ Hr). apply elem_of_app. now right.
    + intros r n r' Hr Hr' Hne. rewrite lookup_subtree in *.
      destruct Hs as (Hwf & _ & _). apply (Hwf _ _ Hr).
      * now apply prefix_app.
      * intros E'. now apply app_inv_head in E'.
Qed.

Lemma lands_inside_agree (x y : tree) (dst r : list string) (n : node) :
  x !! (dst ++ r) = y !! (dst ++ r) ->
  lands_inside x dst r n = lands_inside y dst r n.
Proof. intros H. destruct n; simpl; [now rewrite H | reflexivity]. Qed.

Lemma blocked_agree (x y : tree) (dst r : list string) (n : node) :
  x !! (dst ++ r) = y !! (dst ++ r) -> x !! inside dst r = y !! inside dst r ->
  blocked x dst r n <-> blocked y dst r n.
Proof. intros H1 H2. destruct n; simpl; now rewrite H1, ?H2. Qed.

Lemma copied_agree (x y : tree) (dst : list string) (entries : tree) :
  agree (under dst) x y -> copied x dst entries = copied y dst entries.
Proof.
  intros H. unfold copied.
  assert (E : forall b, filter (fun rn => lands_inside x dst rn.1 rn.2 = b) entries
                        = filter (fun rn => lands_inside y dst rn.1 rn.2 = b) entries).
  { intros b. apply map_filter_ext. intros r n _. simpl.
    rewrite (lands_inside_agree x y); [reflexivity |]. apply H. now exists r. }
  now rewrite !E.
Qed.

Lemma local_copytree (P : region) (src dst : list string) :
  (forall q, under src q -> P q) -> (forall q, under dst q -> P q) ->
  (forall q, upto dst q -> P q) ->
  local P (fs_update (copytree src dst)).
Proof.
  intros Ps Pd Pu x y a x' Hx Hy Hxy Hrun. apply fs_update_inv in Hrun as [Hrun _].
  destruct (copytree_inv _ _ _ _ Hrun) as (Hsrc & Hsd & Hds & t1 & Hmk & Hfree & E).
  destruct (mkdir_p_inv _ _ _ Hmk) as (Hnofile & Hmade & Hrest).
  destruct (mkdir_p_run dst (files y)) as [u1 Hmk'].
  { intros q c Hq. rewrite <- Hxy by now apply Pu. now apply Hnofile. }
  destruct (mkdir_p_inv _ _ _ Hmk') as (_ & Hmade' & Hrest').
  assert (H1 : agree P t1 u1).
  { intros q Hq. destruct (decide (q `prefix_of` dst /\ q <> [])) as [Hu | Hu].
    - now rewrite Hmade, Hmade'.
    - rewrite Hrest, Hrest' by exact Hu. now apply Hxy. }
  assert (Hsub : subtree (files x) src = subtree (files y) src).
  { apply subtree_agree. intros q Hq. now apply Hxy, Ps. }
  assert (Hcop : copied t1 dst (subtree (files x) src) = copied u1 dst (subtree (files y) src)).
  { rewrite Hsub. apply copied_agree. intros q Hq. now apply H1, Pd. }
  exists {| files := copied u1 dst (subtree (files y) src) ∪ u1; log := log y |}.
  destruct a. split.
  - apply fs_update_run, copytree_run; auto.
    + rewrite <- Hxy; [exact Hsrc |]. apply Ps. reflexivity.
    + intros r n Hr. rewrite <- Hxy in Hr by (apply Ps; now exists r).
      rewrite <- (blocked_agree t1 u1); [now apply Hfree | |];
        apply H1, Pd; unfold inside; now eexists.
  - rewrite E, Hcop. intros q Hq. cbn [files].
    rewrite !lookup_union. now rewrite (H1 q Hq).
Qed.

End CopyTreeRules.

(* ===================================================================== *)
(** * The merge, step by step                                             *)
(* ===================================================================== *)

Import Py combine_repos.

(** ** Regions, and what [clean_and_copy] makes *)

Section Regions.

Lemma apart_sym (a b : list string) : apart a b -> apart b a.
Proof. intros [H1 H2]. split; assumption. Qed.

Lemma apart_ext (a b a' b' : list string) :
  apart a b -> a `prefix_of` a' -> b `prefix_of` b' -> apart a' b'.
Proof.
  intros [H1 H2] Ha Hb. split; intros H.
  - destruct (prefix_weak_total a b b'); auto. now transitivity a'.
  - destruct (prefix_weak_total a b a'); auto. now transitivity b'.
Qed.

Lemma apart_under (a b q : list string) : apart a b -> under a q -> under b q -> False.
Proof.
  intros [H1 H2] Ha Hb. destruct (prefix_weak_total a b q); auto.
Qed.

Lemma apart_app (k a b : list string) : apart a b -> apart (k ++ a) (k ++ b).
Proof.
  intros [H1 H2]. split; intros H; apply prefix_app_inv in H; auto.
Qed.

Lemma upto_cases (k q : list string) :
  upto k q -> q = k \/ upto (removelast k) q.
Proof.
  intros [Hq Hne]. destruct (decide (q = k)) as [-> | Hk]; [now left | right].
  split; [| exact Hne]. now apply prefix_removelast.
Qed.

Lemma upto_removelast (k q : list string) : upto (removelast k) q -> upto k q.
Proof.
  intros [Hq Hne]. split; [| exact Hne].
  transitivity (removelast k); [exact Hq | apply removelast_prefix].
Qed.

Lemma upto_self (k : list string) : k <> [] -> upto k k.
Proof. intros H. split; [reflexivity | exact H]. Qed.

Lemma app_nonempty (cwd dst : list string) : dst <> [] -> cwd ++ dst <> [].
Proof. intros H E. apply app_eq_nil in E as [_ E]. contradiction. Qed.

Lemma app_not_prefix (cwd dst : list string) : dst <> [] -> ~ (cwd ++ dst) `prefix_of` cwd.
Proof.
  intros H Hp. apply prefix_length in Hp. rewrite length_app in Hp.
  destruct dst; [contradiction | simpl in Hp; lia].
Qed.

Lemma removelast_app_plain (cwd dst : list string) :
  dst <> [] -> removelast (cwd ++ dst) = cwd ++ removelast dst.
Proof. intros H. now apply removelast_app. Qed.

(** In a well-formed tree nothing stands below a location that holds no
    directory. *)
Lemma nothing_below (t : tree) (k q : list string) :
  well_formed t -> t !! k <> Some Dir -> k `prefix_of` q -> q <> k -> t !! q = None.
Proof.
  intros Hwf Hk Hp Hne. destruct (t !! q) as [n|] eqn:E; [| reflexivity].
  exfalso. apply Hk. apply (Hwf q n E k Hp). congruence.
Qed.

End Regions.

Section CleanAndCopy.

Variable cwd : list string.
Hypothesis cwd_plain : ".." ∉ cwd.


Lemma clean_inv (D : list string) (s s' : state) (u : unit) :
  sound (files s) ->
  (if bool_decide (is_Some (files s !! D))
   then fs_update (rmtree cwd D) else ret tt) s = Return (u, s') ->
  (forall c, files s !! D <> Some (File c)) /\ cleaned D (files s) (files s').
Proof.
  intros (Hwf & _ & _) Hrun. case_bool_decide as Hpresent.
  - apply fs_update_inv in Hrun as [Hrun _].
    destruct (rmtree_inv _ _ _ _ Hrun) as [HD _].
    split; [intros c; congruence |]. exact (rmtree_lookup _ _ _ _ Hrun).
  - injection Hrun as <- <-.
    assert (HD : files s !! D = None).
    { destruct (files s !! D) eqn:E; [| reflexivity]. exfalso. apply Hpresent. eauto. }
    split; [intros c; congruence |].
    intros q. destruct (decide (D `prefix_of` q)) as [Hq | Hq]; [| reflexivity].
    destruct (decide (q = D)) as [-> | Hne]; [exact HD |].
    apply (nothing_below _ D); auto; congruence.
Qed.

Lemma clean_run (D : list string) (s : state) :
  (forall c, files s !! D <> Some (File c)) -> ~ D `prefix_of` cwd ->
  exists s', (if bool_decide (is_Some (files s !! D))
              then fs_update (rmtree cwd D) else ret tt) s = Return (tt, s').
Proof.
  intros HD Hcwd. case_bool_decide as Hpresent.
  - destruct Hpresent as [[c|] E]; [now apply HD in E |].
    destruct (rmtree_run cwd D (files s) E Hcwd) as [t' Ht'].
    eexists. apply fs_update_run. exact Ht'.
  - eexists. reflexivity.
Qed.

Lemma cleaned_sound (D : list string) (x x' : tree) :
  D <> [] -> cleaned D x x' -> sound x -> sound x'.
Proof.
  intros HD Hc (Hwf & Hplain & Hroot). split; [| split].
  - intros q n Hq k Hk Hne. rewrite Hc in Hq |- *.
    destruct (decide (D `prefix_of` q)) as [|Hq']; [discriminate |].
    destruct (decide (D `prefix_of` k)) as [Hk' |].
    + exfalso. apply Hq'. now transitivity k.
    + now apply (Hwf q n).
  - intros q n Hq. rewrite Hc in Hq.
    destruct (decide (D `prefix_of` q)); [discriminate |]. now apply (Hplain q n).
  - rewrite Hc. destruct (decide (D `prefix_of` [])) as [H |]; [| exact Hroot].
    apply prefix_nil_inv in H. contradiction.
Qed.


Lemma copy_of_agree (S D : list string) (P : region) (x y x' y' : tree) :
  copy_of S D x x' -> copy_of S D y y' ->
  (forall q, under S q -> x !! q = y !! q) ->
  agree P x y -> agree (fun q => P q \/ under D q \/ upto D q) x' y'.
Proof.
  intros (Hx1 & Hx2 & Hx3) (Hy1 & Hy2 & Hy3) HS HP q Hq.
  destruct (decide (D `prefix_of` q)) as [[r ->] | Hu].
  { rewrite Hx1, Hy1. destruct (decide (r = [])); [reflexivity |].
    apply HS. now exists r. }
  destruct (decide (upto D q)) as [Hup | Hup].
  { now rewrite Hx2, Hy2. }
  rewrite Hx3, Hy3 by assumption.
  destruct Hq as [Hq | [Hq | Hq]]; [now apply HP | contradiction | contradiction].
Qed.

Section Stages.

Variables (src dst : Path).
Hypothesis dst_nonempty : dst <> [].
Hypothesis dst_plain : ".." ∉ dst.
Let S := resolve cwd src.
Let D := cwd ++ dst.
Hypothesis src_apart : apart S D.

Lemma resolve_dst : resolve cwd dst = D.
Proof. now apply resolve_plain. Qed.

Lemma resolve_parent_dst : resolve cwd (parent dst) = removelast D.
Proof.
  unfold parent, D. rewrite resolve_plain by now apply removelast_plain.
  symmetry. now apply removelast_app.
Qed.

Lemma D_nonempty : D <> [].
Proof. now apply app_nonempty. Qed.

Lemma D_plain : ".." ∉ D.
Proof. now apply prefix_app_plain. Qed.

Lemma S_not_under (r : list string) : ~ D `prefix_of` (S ++ r).
Proof.
  intros H. destruct (apart_ext S D (S ++ r) D src_apart) as [_ H'].
  - now apply prefix_app_r.
  - reflexivity.
  - auto.
Qed.

Lemma S_not_upto (r : list string) : ~ upto D (S ++ r).
Proof.
  intros [H _]. destruct src_apart as [H1 _]. apply H1.
  transitivity (S ++ r); [now apply prefix_app_r | exact H].
Qed.


Lemma prepared_source (x x' : tree) (r : list string) :
  prepared D x x' -> x' !! (S ++ r) = x !! (S ++ r).
Proof.
  intros H. rewrite H.
  destruct (decide (D `prefix_of` (S ++ r))) as [Hu |]; [now apply S_not_under in Hu |].
  destruct (decide (upto (removelast D) (S ++ r))) as [Hu |]; [| reflexivity].
  apply upto_removelast in Hu. now apply S_not_upto in Hu.
Qed.

Lemma prepared_below (x x' : tree) (r : list string) :
  prepared D x x' -> r <> [] -> x' !! (D ++ r) = None.
Proof.
  intros H Hr. rewrite H.
  destruct (decide (D `prefix_of` (D ++ r))) as [| Hn]; [reflexivity |].
  exfalso. apply Hn. now apply prefix_app_r.
Qed.

Lemma not_upto_below (r : list string) : r <> [] -> ~ upto D (D ++ r).
Proof.
  intros Hr [H _]. apply prefix_length in H. rewrite length_app in H.
  destruct r; [contradiction | simpl in H; lia].
Qed.

Lemma prepared_D (x x' : tree) : prepared D x x' -> x' !! D = None.
Proof.
  intros H. rewrite H. destruct (decide (D `prefix_of` D)) as [| Hn]; [reflexivity |].
  exfalso. now apply Hn.
Qed.

(** The empty destination made when the source is missing. *)
Lemma copy_of_empty (x xb x' : tree) :
  well_formed x -> prepared D x xb -> x !! S = None ->
  (forall q, upto D q -> x' !! q = Some Dir) ->
  (forall q, ~ upto D q -> x' !! q = xb !! q) ->
  (forall q c, upto D q -> x !! q <> Some (File c)) ->
  copy_of S D x x'.
Proof.
  intros Hwf Hb HS Hmade Hrest Hfree. split; [| split].
  - intros r. destruct (decide (r = [])) as [-> | Hr].
    + rewrite app_nil_r. apply Hmade, upto_self, D_nonempty.
    + rewrite Hrest by now apply not_upto_below.
      rewrite (prepared_below x xb r Hb Hr). symmetry.
      destruct (decide (S ++ r = S)) as [E | E]; [now rewrite E |].
      apply (nothing_below _ S); auto; [congruence | now apply prefix_app_r].
  - exact Hmade.
  - intros q Hu Hup. rewrite Hrest by exact Hup. rewrite Hb.
    destruct (decide (D `prefix_of` q)); [contradiction |].
    destruct (decide (upto (removelast D) q)) as [Hq |]; [| reflexivity].
    apply upto_removelast in Hq. contradiction.
Qed.

(** The copy made by [copytree] into the emptied destination. *)
Lemma copy_of_copied (x xb xc : tree) :
  sound x -> prepared D x xb -> x !! S = Some Dir ->
  (forall q, upto D q -> xc !! q = Some Dir) ->
  (forall q, ~ upto D q -> xc !! q = xb !! q) ->
  (forall r n, xb !! (S ++ r) = Some n -> ~ blocked xc D r n)
  /\ copy_of S D x (copied xc D (subtree xb S) ∪ xc).
Proof.
  intros (Hwf & _ & _) Hb HS Hmade Hrest.
  assert (Hbelow : forall r, r <> [] -> xc !! (D ++ r) = None).
  { intros r Hr. rewrite Hrest by now apply not_upto_below.
    now apply (prepared_below x xb). }
  assert (HD : xc !! D = Some Dir) by apply Hmade, upto_self, D_nonempty.
  assert (Hlands : forall r n, xb !! (S ++ r) = Some n -> lands_inside xc D r n = false).
  { intros r n Hr. destruct n as [c|]; [| reflexivity]. simpl.
    apply bool_decide_eq_false. destruct (decide (r = [])) as [-> | Hne].
    - rewrite (prepared_source x xb [] Hb), app_nil_r in Hr. congruence.
    - rewrite (Hbelow r Hne). discriminate. }
  assert (Hfree : forall r n, xb !! (S ++ r) = Some n -> ~ blocked xc D r n).
  { intros r n Hr Hblocked. pose proof (Hlands r n Hr) as Hl.
    destruct n as [c|]; simpl in *.
    - apply bool_decide_eq_false in Hl. now destruct Hblocked.
    - destruct Hblocked as [c Hc]. destruct (decide (r = [])) as [-> | Hne].
      + rewrite app_nil_r in Hc. congruence.
      + rewrite (Hbelow r Hne) in Hc. discriminate. }
  split; [exact Hfree |]. split; [| split].
  - intros r. destruct (xb !! (S ++ r)) as [n|] eqn:E.
    + rewrite (lookup_union_Some_l _ _ _ n).
      * rewrite (prepared_source x xb r Hb) in E.
        destruct (decide (r = [])) as [-> | Hne]; [| now symmetry].
        rewrite app_nil_r in E. congruence.
      * apply lookup_copied_onto; [now rewrite lookup_subtree | now apply Hlands].
    + assert (Hne : r <> []).
      { intros ->. rewrite (prepared_source x xb [] Hb), app_nil_r in E. congruence. }
      destruct (decide (r = [])) as [| _]; [contradiction |].
      rewrite <- (prepared_source x xb r Hb), E.
      rewrite lookup_union_r; [now apply Hbelow |].
      destruct (copied xc D (subtree xb S) !! (D ++ r)) as [m|] eqn:Ec; [| reflexivity].
      exfalso. apply lookup_copied_Some in Ec as [(r' & Hr' & Hm & _) | (r' & _ & Hm & Hl)].
      * apply app_inv_head in Hr'. subst r'. rewrite lookup_subtree in Hm. congruence.
      * rewrite lookup_subtree in Hm. rewrite (Hlands r' m Hm) in Hl. discriminate.
  - intros q Hq. apply copied_keeps_dir; [| now apply Hmade].
    intros r n Hr. rewrite lookup_subtree in Hr. now apply Hfree.
  - intros q Hu Hup. rewrite lookup_union_r by now apply lookup_copied_outside.
    rewrite Hrest by exact Hup. rewrite Hb.
    destruct (decide (D `prefix_of` q)); [contradiction |].
    destruct (decide (upto (removelast D) q)) as [Hq |]; [| reflexivity].
    apply upto_removelast in Hq. contradiction.
Qed.

(** The first three statements. *)
Lemma prepare_inv (s : state) (k : M unit) (r : unit * state) :
  sound (files s) ->
  (do present <- exists_ cwd dst;
   (if present then fs_update (rmtree cwd (resolve cwd dst)) else ret tt) ;;
   mkdir cwd (parent dst) ;; k) s = Return r ->
  exists sb, prepared D (files s) (files sb) /\ sound (files sb)
    /\ (forall q c, upto D q -> files s !! q <> Some (File c))
    /\ k sb = Return r.
Proof.
  intros Hs Hrun.
  apply bind_inv in Hrun as (present & s0 & H0 & Hrun).
  injection H0 as <- <-. rewrite resolve_dst in Hrun.
  apply bind_inv in Hrun as (u & sa & Ha & Hrun).
  apply clean_inv in Ha as [HD Hclean]; [| exact Hs].
  pose proof (cleaned_sound D _ _ D_nonempty Hclean Hs) as Hsa.
  apply bind_inv in Hrun as (u' & sb & Hmk & Hrun).
  unfold mkdir in Hmk. rewrite resolve_parent_dst in Hmk.
  apply fs_update_inv in Hmk as [Hmk _].
  destruct (mkdir_p_inv _ _ _ Hmk) as (Hfree & Hmade & Hrest).
  exists sb. split; [| split; [| split; [| exact Hrun]]].
  - intros q. destruct (decide (upto (removelast D) q)) as [Hq | Hq].
    + rewrite Hmade by exact Hq.
      destruct (decide (D `prefix_of` q)) as [Hu |]; [| reflexivity].
      exfalso. destruct Hq as [Hq _].
      assert (E : removelast D = D).
      { apply (anti_symm prefix); [apply removelast_prefix |].
        now transitivity q. }
      now apply (removelast_neq D D_nonempty).
    + rewrite Hrest by exact Hq. apply Hclean.
  - apply (mkdir_p_sound _ _ _ Hmk); [| exact Hsa].
    apply removelast_plain, D_plain.
  - intros q c Hq. apply upto_cases in Hq as [-> | Hq]; [apply HD |].
    intros E. apply (Hfree q c Hq). rewrite Hclean.
    destruct (decide (D `prefix_of` q)) as [Hu |]; [| exact E].
    exfalso. destruct Hq as [Hq _].
    assert (E' : removelast D = D).
    { apply (anti_symm prefix); [apply removelast_prefix |]. now transitivity q. }
    now apply (removelast_neq D D_nonempty).
Qed.

Lemma prepare_run (s : state) (k : M unit) :
  sound (files s) ->
  (forall q c, upto D q -> files s !! q <> Some (File c)) ->
  exists sb, prepared D (files s) (files sb) /\ sound (files sb)
    /\ (do present <- exists_ cwd dst;
        (if present then fs_update (rmtree cwd (resolve cwd dst)) else ret tt) ;;
        mkdir cwd (parent dst) ;; k) s = k sb.
Proof.
  intros Hs Hfree.
  destruct (clean_run D s) as [sa Ha].
  { intros c. apply Hfree, upto_self, D_nonempty. }
  { now apply app_not_prefix. }
  pose proof Ha as Ha'. apply clean_inv in Ha' as [_ Hclean]; [| exact Hs].
  pose proof (cleaned_sound D _ _ D_nonempty Hclean Hs) as Hsa.
  destruct (mkdir_p_run (removelast D) (files sa)) as [tb Hmk].
  { intros q c Hq. rewrite Hclean.
    destruct (decide (D `prefix_of` q)); [discriminate |].
    now apply Hfree, upto_removelast. }
  exists {| files := tb; log := log sa |}.
  destruct (mkdir_p_inv _ _ _ Hmk) as (_ & Hmade & Hrest).
  split; [| split].
  - intros q. cbn [files]. destruct (decide (upto (removelast D) q)) as [Hq | Hq].
    + rewrite Hmade by exact Hq.
      destruct (decide (D `prefix_of` q)) as [Hu |]; [| reflexivity].
      exfalso. destruct Hq as [Hq _].
      assert (E : removelast D = D).
      { apply (anti_symm prefix); [apply removelast_prefix |]. now transitivity q. }
      now apply (removelast_neq D D_nonempty).
    + rewrite Hrest by exact Hq. apply Hclean.
  - apply (mkdir_p_sound _ _ _ Hmk); [| exact Hsa].
    apply removelast_plain, D_plain.
  - unfold bind at 1. unfold exists_ at 1. rewrite resolve_dst.
    unfold bind at 1. rewrite Ha.
    unfold bind at 1. unfold mkdir. rewrite resolve_parent_dst.
    now rewrite (fs_update_run _ _ _ Hmk).
Qed.

Lemma clean_and_copy_inv (s s' : state) (u : unit) :
  sound (files s) -> clean_and_copy cwd src dst s = Return (u, s') ->
  (forall q c, upto D q -> files s !! q <> Some (File c))
  /\ (forall c, files s !! S <> Some (File c))
  /\ copy_of S D (files s) (files s').
Proof.
  intros Hs Hrun. unfold clean_and_copy in Hrun.
  apply prepare_inv in Hrun as (sb & Hb & Hsb & Hfree & Hrun); [| exact Hs].
  split; [exact Hfree |].
  apply bind_inv in Hrun as (present & s0 & H0 & Hrun).
  injection H0 as <- <-. fold S in Hrun.
  rewrite <- (app_nil_r S), (prepared_source _ _ [] Hb), app_nil_r in Hrun.
  case_bool_decide as Hpresent; cbn [negb] in Hrun.
  - rewrite resolve_dst in Hrun. apply fs_update_inv in Hrun as [Hrun _].
    destruct (copytree_inv _ _ _ _ Hrun) as (HS & _ & _ & xc & Hmk & _ & ->).
    rewrite <- (app_nil_r S), (prepared_source _ _ [] Hb), app_nil_r in HS.
    split; [intros c; congruence |].
    destruct (mkdir_p_inv _ _ _ Hmk) as (_ & Hmade & Hrest).
    now apply (copy_of_copied (files s) (files sb) xc).
  - assert (HS : files s !! S = None).
    { destruct (files s !! S) eqn:E; [| reflexivity]. exfalso. apply Hpresent. eauto. }
    split; [intros c; congruence |].
    apply bind_inv in Hrun as (u' & s1 & H1 & Hrun). injection H1 as <-.
    unfold mkdir in Hrun. rewrite resolve_dst in Hrun.
    apply fs_update_inv in Hrun as [Hmk _]. subst s1. cbn [files] in Hmk.
    destruct (mkdir_p_inv _ _ _ Hmk) as (_ & Hmade & Hrest).
    destruct Hs as (Hwf & _ & _).
    now apply (copy_of_empty (files s) (files sb)).
Qed.

Lemma clean_and_copy_run (s : state) :
  sound (files s) ->
  (forall q c, upto D q -> files s !! q <> Some (File c)) ->
  (forall c, files s !! S <> Some (File c)) ->
  exists s', clean_and_copy cwd src dst s = Return (tt, s').
Proof.
  intros Hs Hfree HS. unfold clean_and_copy.
  destruct (prepare_run s
    (do present <- exists_ cwd src;
     if negb present
     then log_record WARNING ("Source directory does not exist: " +:+ str_of_path src) ;;
          mkdir cwd dst
     else fs_update (copytree (resolve cwd src) (resolve cwd dst))) Hs Hfree)
    as (sb & Hb & Hsb & ->).
  unfold bind at 1. unfold exists_ at 1. fold S.
  rewrite <- (app_nil_r S), (prepared_source _ _ [] Hb), app_nil_r.
  destruct (mkdir_p_run D (files sb)) as [xc Hmk].
  { intros q c Hq. rewrite Hb.
    destruct (decide (D `prefix_of` q)); [discriminate |].
    destruct (decide (upto (removelast D) q)); [discriminate |]. now apply Hfree. }
  case_bool_decide as Hpresent; cbn [negb].
  - destruct Hpresent as [[c|] E]; [now apply HS in E |].
    rewrite resolve_dst.
    destruct (mkdir_p_inv _ _ _ Hmk) as (_ & Hmade & Hrest).
    destruct (copy_of_copied (files s) (files sb) xc Hs Hb E Hmade Hrest) as [Hfree' _].
    eexists. apply fs_update_run. apply (copytree_run _ _ _ xc).
    + now rewrite <- (app_nil_r S), (prepared_source _ _ [] Hb), app_nil_r.
    + apply src_apart.
    + apply src_apart.
    + exact Hmk.
    + exact Hfree'.
  - unfold bind at 1. unfold log_record at 1. unfold mkdir. rewrite resolve_dst.
    eexists. apply fs_update_run. cbn [files]. exact Hmk.
Qed.

End Stages.
End CleanAndCopy.

(** ** A step run a second time *)

Section Replay.

Variables t t1 : tree.

Lemma bind_assoc {A B C} (m : M A) (k1 : A -> M B) (k2 : B -> M C) (s : state) :
  bind (bind m k1) k2 s = bind m (fun a => bind (k1 a) k2) s.
Proof. unfold bind. destruct (m s) as [[a s1]|e]; reflexivity. Qed.

Lemma replays_ext (W : region) {A} (c c' : M A) :
  (forall s, c s = c' s) -> replays t t1 W c -> replays t t1 W c'.
Proof.
  intros E H x y a x' Hx Hy Hxy Hrun Hend. rewrite <- E in Hrun.
  destruct (H x y a x' Hx Hy Hxy Hrun Hend) as (y' & Hy' & Hend').
  exists y'. now rewrite <- E.
Qed.

Lemma replays_equiv (W W' : region) {A} (c : M A) :
  (forall q, W q <-> W' q) -> replays t t1 W c -> replays t t1 W' c.
Proof.
  intros E H x y a x' Hx Hy [Hagree Hrest] Hrun Hend.
  apply (H x y a x' Hx Hy); auto. split.
  - intros q Hq. apply Hagree, E, Hq.
  - intros q Hq. apply Hrest. intros Hq'. apply Hq, E, Hq'.
Qed.

Lemma replays_assoc (W : region) {A B C} (m : M A) (k1 : A -> M B) (k2 : B -> M C) :
  replays t t1 W (bind m (fun a => bind (k1 a) k2)) ->
  replays t t1 W (bind (bind m k1) k2).
Proof. apply replays_ext. intros s. symmetry. apply bind_assoc. Qed.

Lemma replays_ret (W : region) {A} (a : A) : replays t t1 W (ret a).
Proof.
  intros x y b x' _ _ [Hagree Hrest] [= <- <-] Hend.
  exists y. split; [reflexivity |]. apply map_eq. intros q.
  destruct (decide (files y !! q = t1 !! q)) as [E | NE]; [exact E |].
  exfalso. assert (HW : ~ W q).
  { intros HW. apply NE. rewrite <- (Hagree q HW). now rewrite Hend. }
  now destruct (Hrest q HW).
Qed.

(** A step that reads and writes only where the runs already agree. *)
Lemma replays_local (W P Wr Rm : region) {A B} (m : M A) (k : A -> M B)
    (Q : A -> Prop) :
  local P m -> post Wr Rm m ->
  (forall q, Wr q -> P q) -> (forall q, P q -> W q) ->
  (forall s a s', sound (files s) -> m s = Return (a, s') -> Q a) ->
  (forall a, Q a -> replays t t1 W (k a)) ->
  replays t t1 W (bind m k).
Proof.
  intros Hlocal Hpost HWr HP HQ Hk x y b x' Hx Hy [Hagree Hrest] Hrun Hend.
  apply bind_inv in Hrun as (a & x1 & H1 & H2).
  destruct (Hlocal x y a x1 Hx Hy) as (y1 & Hy1 & Hxy1); auto.
  { intros q Hq. apply Hagree, HP, Hq. }
  destruct (Hpost x a x1 Hx H1) as (Hfx & _ & Hx1).
  destruct (Hpost y a y1 Hy Hy1) as (Hfy & _ & Hy1s).
  destruct (Hk a (HQ _ _ _ Hx H1) x1 y1 b x' Hx1 Hy1s) as (y' & Hy' & Hend'); auto.
  - split.
    + intros q Hq.
      destruct (decide (files x1 !! q = files y1 !! q)) as [E | NE]; [exact E |].
      exfalso. assert (HnP : ~ P q) by (intros Hp; apply NE, Hxy1, Hp).
      apply NE. rewrite Hfx, Hfy by auto. now apply Hagree.
    + intros q Hq. rewrite Hfx, Hfy by auto. now apply Hrest.
  - exists y'. split; [| exact Hend']. now rewrite (bind_run _ _ _ _ _ Hy1).
Qed.

Lemma replays_local_seq (W P Wr Rm : region) {A B} (m : M A) (k : A -> M B) :
  local P m -> post Wr Rm m ->
  (forall q, Wr q -> P q) -> (forall q, P q -> W q) ->
  (forall a, replays t t1 W (k a)) ->
  replays t t1 W (bind m k).
Proof.
  intros Hl Hp HWr HP Hk.
  apply (replays_local W P Wr Rm m k (fun _ => True)); auto.
Qed.

(** A step that meets, in the second run, what the first run left. *)
Lemma replays_absorb (W P K C N Rm WrF RmF : region) {A B} (m : M A) (k : A -> M B) :
  absorbs P K C N m -> post N Rm m ->
  (forall q, P q -> W q) ->
  (forall a, post WrF RmF (k a)) ->
  (forall q, K q -> ~ RmF q) -> (forall q, C q -> ~ WrF q) ->
  (forall a, replays t t1 (fun q => W q \/ N q) (k a)) ->
  replays t t1 W (bind m k).
Proof.
  intros Habs Hpost HP Hfut HK HC Hk x y b x' Hx Hy [Hagree Hrest] Hrun Hend.
  apply bind_inv in Hrun as (a & x1 & H1 & H2).
  destruct (Hpost x a x1 Hx H1) as (Hfx & _ & Hx1).
  destruct (Hfut a x1 b x' Hx1 H2) as (Hff & Hfk & _). rewrite Hend in Hff, Hfk.
  destruct (Habs x y a x1 Hx Hy) as (y1 & Hy1 & Hxy1); auto.
  { intros q Hq. apply Hagree, HP, Hq. }
  { intros q Hq.
    destruct (decide (files x !! q = files y !! q)) as [E | NE]; [now left | right].
    assert (HW : ~ W q) by (intros HW; apply NE, Hagree, HW).
    destruct (Hrest q HW) as [_ ->]. intros n Hn.
    apply (Hfk q n); auto. }
  { intros q Hq.
    destruct (decide (files x !! q = files y !! q)) as [E | NE]; [now left | right].
    assert (HW : ~ W q) by (intros HW; apply NE, Hagree, HW).
    destruct (Hrest q HW) as [_ ->]. apply Hff. auto. }
  destruct (Hpost y a y1 Hy Hy1) as (Hfy & _ & Hy1s).
  destruct (Hk a x1 y1 b x' Hx1 Hy1s) as (y' & Hy' & Hend'); auto.
  - split.
    + intros q Hq.
      destruct (decide (files x1 !! q = files y1 !! q)) as [E | NE]; [exact E |].
      exfalso. assert (HnN : ~ N q) by (intros Hn; apply NE, Hxy1, Hn).
      destruct Hq as [Hq | Hq]; [| contradiction].
      apply NE. rewrite Hfx, Hfy by auto. now apply Hagree.
    + intros q Hq. rewrite Hfx, Hfy by auto. apply Hrest. auto.
  - exists y'. split; [| exact Hend']. now rewrite (bind_run _ _ _ _ _ Hy1).
Qed.

(** A loop of such steps. *)
Lemma replays_for_each (P Rm WrF RmF : region) {A B} (l : list A)
    (K C N : A -> region) (body : A -> M unit) (k : M B) :
  (forall a, a ∈ l -> absorbs P (K a) (C a) (N a) (body a)) ->
  (forall a, a ∈ l -> post (N a) Rm (body a)) ->
  (forall a, a ∈ l -> post WrF RmF (body a)) -> post WrF RmF k ->
  (forall a q, a ∈ l -> K a q -> ~ RmF q) ->
  (forall a q, a ∈ l -> C a q -> ~ WrF q) ->
  forall W, (forall q, P q -> W q) ->
  replays t t1 (fun q => W q \/ exists a, a ∈ l /\ N a q) k ->
  replays t t1 W (for_each l body ;; k).
Proof.
  induction l as [|a l IH]; intros Habs Hpost Hfut Hk HK HC W HP Hend.
  - cbn [for_each]. apply (replays_ext W k); [reflexivity |].
    apply (replays_equiv (fun q => W q \/ exists a, a ∈ [] /\ N a q)); [| exact Hend].
    intros q. split; [| now left].
    intros [Hq | (a & Ha & _)]; [exact Hq | now apply elem_of_nil in Ha].
  - cbn [for_each]. apply replays_assoc.
    apply (replays_absorb W P (K a) (C a) (N a) Rm WrF RmF).
    + apply Habs. left.
    + apply Hpost. left.
    + exact HP.
    + intros _. apply post_seq; [| intros _; exact Hk].
      apply post_for_each. intros b Hb. apply Hfut. now right.
    + intros q. apply HK. left.
    + intros q. apply HC. left.
    + intros _. apply IH.
      * intros b Hb. apply Habs. now right.
      * intros b Hb. apply Hpost. now right.
      * intros b Hb. apply Hfut. now right.
      * exact Hk.
      * intros b q Hb. apply HK. now right.
      * intros b q Hb. apply HC. now right.
      * intros q Hq. left. now apply HP.
      * apply (replays_equiv (fun q => W q \/ exists b, b ∈ a :: l /\ N b q));
          [| exact Hend].
        intros q. split.
        -- intros [Hq | (b & Hb & Hq)]; [now left; left |].
           apply elem_of_cons in Hb as [-> | Hb]; [left; now right | right; eauto].
        -- intros [[Hq | Hq] | (b & Hb & Hq)].
           ++ now left.
           ++ right. exists a. split; [left | exact Hq].
           ++ right. exists b. split; [now right | exact Hq].
Qed.

End Replay.

(** ** What the primitives absorb *)

Section Absorb.

Variable cwd : list string.
Hypothesis cwd_plain : ".." ∉ cwd.

Lemma kept_dir (o : option node) : kept (Some Dir) o -> o = Some Dir.
Proof.
  intros H. destruct (H Dir eq_refl) as (n' & -> & Hk).
  destruct n'; [discriminate | reflexivity].
Qed.

Lemma kept_file (c : string) (o : option node) :
  kept (Some (File c)) o -> exists c', o = Some (File c').
Proof.
  intros H. destruct (H (File c) eq_refl) as (n' & -> & Hk).
  destruct n'; [eauto | discriminate].
Qed.

Lemma absorbs_log (P K C N : region) (l : level) (message : string) (m : M unit) :
  absorbs P K C N m -> absorbs P K C N (log_record l message ;; m).
Proof.
  intros H x y a x' Hx Hy Hxy Hrun HK HC.
  apply bind_inv in Hrun as (u & x0 & H0 & Hrun). injection H0 as <-. subst x0.
  destruct (H {| files := files x; log := log x ++ [(l, message)] |}
              {| files := files y; log := log y ++ [(l, message)] |} a x')
    as (y' & Hy' & Hxy'); auto.
  exists y'. split; [| exact Hxy']. exact Hy'.
Qed.

Lemma absorbs_mkdir (P C : region) (p : Path) :
  absorbs P (upto (resolve cwd p)) C (upto (resolve cwd p)) (mkdir cwd p).
Proof.
  intros x y a x' Hx Hy _ Hrun HK _. destruct a.
  apply fs_update_inv in Hrun as [Hrun _].
  destruct (mkdir_p_inv _ _ _ Hrun) as (Hfree & Hmade & _).
  destruct (mkdir_p_run (resolve cwd p) (files y)) as [y1 Hy1].
  { intros q c Hq E. destruct (HK q Hq) as [Hk | Hk].
    - apply (Hfree q c Hq). congruence.
    - rewrite (Hmade q Hq) in Hk. apply kept_dir in Hk. congruence. }
  exists {| files := y1; log := log y |}. split; [now apply fs_update_run |].
  destruct (mkdir_p_inv _ _ _ Hy1) as (_ & Hmade' & _).
  intros q Hq. cbn [files]. now rewrite Hmade, Hmade'.
Qed.

(** With the agreement on what the step leaves alone. *)
Lemma absorbs_widen (P K C N N' Rm : region) {A} (c : M A) :
  absorbs P K C N c -> post N Rm c -> (forall q, N' q -> C q) ->
  absorbs P K C (fun q => N q \/ N' q) c.
Proof.
  intros H Hpost HN x y a x' Hx Hy Hxy Hrun HK HC.
  destruct (H x y a x' Hx Hy Hxy Hrun HK HC) as (y' & Hy' & Hxy').
  exists y'. split; [exact Hy' |].
  destruct (Hpost x a x' Hx Hrun) as (Hfx & _ & _).
  destruct (Hpost y a y' Hy Hy') as (Hfy & _ & _).
  intros q Hq.
  destruct (decide (files x' !! q = files y' !! q)) as [E | NE]; [exact E |].
  exfalso. assert (HnN : ~ N q) by (intros Hn; apply NE, Hxy', Hn).
  destruct Hq as [Hq | Hq]; [contradiction |].
  apply NE. rewrite Hfy by exact HnN.
  destruct (HC q (HN q Hq)) as [E | E]; [| now symmetry].
  now rewrite Hfx.
Qed.

Lemma absorbs_if (P K C N : region) {A} (b : bool) (c1 c2 : M A) :
  absorbs P K C N c1 -> absorbs P K C N c2 ->
  absorbs P K C N (if b then c1 else c2).
Proof. now destruct b. Qed.

Lemma absorbs_weaken (P P' K K' C C' N N' : region) {A} (c : M A) :
  (forall q, P q -> P' q) -> (forall q, K q -> K' q) -> (forall q, C q -> C' q) ->
  (forall q, N' q -> N q) ->
  absorbs P K C N c -> absorbs P' K' C' N' c.
Proof.
  intros HP HK HC HN H x y a x' Hx Hy Hxy Hrun Hk Hc.
  destruct (H x y a x' Hx Hy) as (y' & Hy' & Hxy'); auto.
  - intros q Hq. apply Hxy, HP, Hq.
  - exists y'. split; [exact Hy' |]. intros q Hq. apply Hxy', HN, Hq.
Qed.

(** [clean_and_copy]: the destination was there or not. *)
Lemma absorbs_clean_and_copy (P C : region) (src dst : Path) :
  dst <> [] -> ".." ∉ dst -> apart (resolve cwd src) (cwd ++ dst) ->
  (forall q, under (resolve cwd src) q -> P q) ->
  (forall q, upto (removelast (cwd ++ dst)) q -> P q) ->
  absorbs P (fun q => q = cwd ++ dst) C
    (fun q => under (cwd ++ dst) q \/ upto (cwd ++ dst) q)
    (clean_and_copy cwd src dst).
Proof.
  intros Hne Hplain Hapart HPS HPD x y a x' Hx Hy Hxy Hrun HK _. destruct a.
  destruct (clean_and_copy_inv cwd cwd_plain src dst Hne Hplain Hapart x x' tt Hx Hrun)
    as (Hfree & HS & Hcopy).
  destruct (clean_and_copy_run cwd cwd_plain src dst Hne Hplain Hapart y Hy)
    as [y' Hy'].
  { intros q c Hq E. apply upto_cases in Hq as [-> | Hq].
    - destruct (HK _ eq_refl) as [Hk | Hk].
      + apply (Hfree (cwd ++ dst) c); [now apply upto_self, app_nonempty | congruence].
      + destruct Hcopy as (_ & Hmade & _).
        rewrite Hmade in Hk by now apply upto_self, app_nonempty.
        apply kept_dir in Hk. congruence.
    - apply (Hfree q c); [now apply upto_removelast |].
      rewrite (Hxy q); auto. }
  { intros c E. apply (HS c). rewrite (Hxy _); [exact E |]. apply HPS. reflexivity. }
  exists y'. split; [exact Hy' |].
  destruct (clean_and_copy_inv cwd cwd_plain src dst Hne Hplain Hapart y y' tt Hy Hy')
    as (_ & _ & Hcopy').
  intros q Hq.
  apply (copy_of_agree _ _ (fun _ => False) (files x) (files y) _ _ Hcopy Hcopy').
  - intros q' Hq'. apply Hxy, HPS, Hq'.
  - intros q' [].
  - now right.
Qed.

(** [write_text] over a page written by the first run. *)
Lemma absorbs_write_text (P C : region) (k : list string) (content : string) :
  P (removelast k) ->
  absorbs P (fun q => q = k) C (fun q => q = k)
    (fs_update (write_text k content)).
Proof.
  intros HP x y a x' Hx Hy Hxy Hrun HK _. destruct a.
  apply fs_update_inv in Hrun as [Hrun _].
  destruct (write_text_inv _ _ _ _ Hrun) as (Hk & Hparent & E).
  assert (Hk' : files y !! k <> Some Dir).
  { destruct (HK k eq_refl) as [Hq | Hq]; [congruence |].
    rewrite E, lookup_insert_eq in Hq. apply kept_file in Hq as [c' ->]. discriminate. }
  assert (Hparent' : files y !! removelast k = Some Dir).
  { now rewrite <- (Hxy _ HP). }
  exists {| files := <[k := File content]> (files y); log := log y |}.
  split; [now apply fs_update_run, write_text_run |].
  intros q ->. cbn [files]. now rewrite E, !lookup_insert_eq.
Qed.

(** [shutil.copy] over a page copied by the first run. *)
Lemma absorbs_copy_file (P C : region) (src dst : list string) :
  P src -> P (removelast dst) ->
  absorbs P (fun q => q = dst \/ q = dst ++ [List.last src EmptyString]) C
    (fun q => q = dst \/ q = dst ++ [List.last src EmptyString])
    (fs_update (copy_file src dst)).
Proof.
  intros HPs HPd x y a x' Hx Hy Hxy Hrun HK _. destruct a.
  set (nm := List.last src EmptyString) in *.
  apply fs_update_inv in Hrun as [Hrun _].
  destruct (copy_file_inv _ _ _ _ Hrun) as (content & Hsrc & Hne & Htarget & Hparent & E).
  assert (Hsrc' : files y !! src = Some (File content)) by now rewrite <- (Hxy _ HPs).
  destruct Hx as (Hwfx & _ & _). pose proof Hy as (Hwfy & _ & _).
  destruct (copy_target_cases src dst (files x)) as [[Hd Ht] | [Hd Ht]];
    fold nm in Ht; rewrite Ht in *.
  - (* the destination is a directory *)
    assert (Hd' : files y !! dst = Some Dir).
    { destruct (HK dst (or_introl eq_refl)) as [Hq | Hq]; [congruence |].
      rewrite E, lookup_insert_ne in Hq.
      - rewrite Hd in Hq. now apply kept_dir in Hq.
      - intros H. apply (f_equal (@length string)) in H.
        rewrite length_app in H. simpl in H. lia. }
    assert (Ht' : copy_target src dst (files y) = dst ++ [nm]).
    { unfold copy_target. now rewrite bool_decide_eq_true_2. }
    assert (Hfile : files y !! (dst ++ [nm]) <> Some Dir).
    { destruct (HK (dst ++ [nm]) (or_intror eq_refl)) as [Hq | Hq]; [congruence |].
      rewrite E, lookup_insert_eq in Hq. apply kept_file in Hq as [c' ->]. discriminate. }
    exists {| files := <[dst ++ [nm] := File content]> (files y); log := log y |}.
    assert (Hrun' : copy_file src dst (files y)
                    = Return (<[copy_target src dst (files y) := File content]> (files y))).
    { apply copy_file_run; rewrite ?Ht'; auto. rewrite removelast_last. exact Hd'. }
    rewrite Ht' in Hrun'. split; [now apply fs_update_run |].
    intros q Hq. cbn [files]. rewrite E. destruct Hq as [-> | ->].
    + rewrite !lookup_insert_ne; [congruence | |];
        intros H; apply (f_equal (@length string)) in H;
        rewrite length_app in H; simpl in H; lia.
    + now rewrite !lookup_insert_eq.
  - (* the destination is no directory *)
    assert (Hd' : files y !! dst <> Some Dir).
    { destruct (HK dst (or_introl eq_refl)) as [Hq | Hq]; [congruence |].
      rewrite E, lookup_insert_eq in Hq. apply kept_file in Hq as [c' ->]. discriminate. }
    assert (Ht' : copy_target src dst (files y) = dst).
    { unfold copy_target. now rewrite bool_decide_eq_false_2. }
    exists {| files := <[dst := File content]> (files y); log := log y |}.
    assert (Hrun' : copy_file src dst (files y)
                    = Return (<[copy_target src dst (files y) := File content]> (files y))).
    { apply copy_file_run; rewrite ?Ht'; auto. now rewrite <- (Hxy _ HPd). }
    rewrite Ht' in Hrun'. split; [now apply fs_update_run |].
    intros q Hq. cbn [files]. rewrite E. destruct Hq as [-> | ->].
    + now rewrite !lookup_insert_eq.
    + assert (Hlen : dst <> dst ++ [nm]).
      { intros H. apply (f_equal (@length string)) in H.
        rewrite length_app in H. simpl in H. lia. }
      rewrite !lookup_insert_ne by exact Hlen.
      rewrite (nothing_below (files x) dst), (nothing_below (files y) dst); auto;
        now apply prefix_app_r.
Qed.

End Absorb.

(** ** Overlays and pages *)

Section Overlay.

Lemma copied_ext (a b : tree) (dst : list string) (entries : tree) :
  (forall r n, entries !! r = Some n ->
               lands_inside a dst r n = lands_inside b dst r n) ->
  copied a dst entries = copied b dst entries.
Proof.
  intros H. unfold copied.
  assert (E : forall v, filter (fun rn => lands_inside a dst rn.1 rn.2 = v) entries
                        = filter (fun rn => lands_inside b dst rn.1 rn.2 = v) entries).
  { intros v. apply map_filter_ext. intros r n Hr. simpl. now rewrite (H r n Hr). }
  now rewrite !E.
Qed.

(** [copytree] laid a second time over what it has laid. *)
Lemma absorbs_copytree (P K : region) (src dst : list string) :
  (forall q, under src q -> P q) -> (forall q, upto dst q -> P q) ->
  absorbs P K (under dst) (fun q => under dst q \/ upto dst q)
    (fs_update (copytree src dst)).
Proof.
  intros HPs HPd x y a x' Hx Hy Hxy Hrun _ HC. destruct a.
  apply fs_update_inv in Hrun as [Hrun _].
  destruct (copytree_inv _ _ _ _ Hrun) as (Hsrc & Hsd & Hds & xm & Hmk & Hfree & E).
  destruct (mkdir_p_inv _ _ _ Hmk) as (Hnofile & Hmade & Hrest).
  destruct (mkdir_p_run dst (files y)) as [ym Hmk'].
  { intros q c Hq. rewrite <- Hxy by now apply HPd. now apply Hnofile. }
  destruct (mkdir_p_inv _ _ _ Hmk') as (_ & Hmade' & Hrest').
  assert (Hsub : subtree (files x) src = subtree (files y) src).
  { apply subtree_agree. intros q Hq. now apply Hxy, HPs. }
  set (entries := subtree (files x) src) in *.
  assert (Hentry : forall r n, entries !! r = Some n -> files x !! (src ++ r) = Some n).
  { intros r n Hr. unfold entries in Hr. now rewrite lookup_subtree in Hr. }
  assert (Hfree' : forall r n, entries !! r = Some n -> ~ blocked xm dst r n).
  { intros r n Hr. apply Hfree, Hentry, Hr. }
  (* below the destination the second tree holds the first's entry, before
     or after the copy *)
  assert (Hm : forall q, under dst q -> xm !! q = ym !! q \/ ym !! q = files x' !! q).
  { intros q Hq. destruct (decide (upto dst q)) as [Hu | Hu].
    - left. now rewrite Hmade, Hmade'.
    - rewrite Hrest, Hrest' by exact Hu. now apply HC. }
  assert (Hleaf : forall r c, entries !! r = Some (File c) ->
                              entries !! (r ++ [List.last r EmptyString]) = None).
  { intros r c Hr. unfold entries. rewrite lookup_subtree, app_assoc.
    destruct Hx as (Hwf & _ & _).
    apply (nothing_below _ (src ++ r)); auto.
    - rewrite (Hentry r _ Hr). discriminate.
    - now apply prefix_app_r.
    - intros H. apply (f_equal (@length string)) in H.
      rewrite length_app in H. simpl in H. lia. }
  assert (Hlands : forall r n, entries !! r = Some n ->
                               lands_inside ym dst r n = lands_inside xm dst r n).
  { intros r n Hr. destruct n as [c|]; [| reflexivity]. simpl.
    destruct (Hm (dst ++ r)) as [Hq | Hq]; [now apply prefix_app_r | now rewrite Hq |].
    rewrite Hq, E. destruct (decide (xm !! (dst ++ r) = Some Dir)) as [Hd | Hd].
    - rewrite (bool_decide_eq_true_2 _ Hd). apply bool_decide_eq_true_2.
      now apply copied_keeps_dir.
    - rewrite (bool_decide_eq_false_2 _ Hd). apply bool_decide_eq_false_2.
      rewrite (lookup_union_Some_l _ _ _ (File c)); [discriminate |].
      apply lookup_copied_onto; [exact Hr |]. simpl. now apply bool_decide_eq_false_2. }
  assert (Hfree'' : forall r n, files y !! (src ++ r) = Some n -> ~ blocked ym dst r n).
  { intros r n Hr. rewrite <- Hxy in Hr by (apply HPs; now apply prefix_app_r).
    assert (Hr' : entries !! r = Some n) by (unfold entries; now rewrite lookup_subtree).
    pose proof (Hlands r n Hr') as Hl. pose proof (Hfree' r n Hr') as Hb.
    intros Hblocked. destruct n as [c|]; simpl in *.
    - destruct Hblocked as [Hd Hi].
      rewrite (bool_decide_eq_true_2 _ Hd) in Hl. symmetry in Hl.
      apply bool_decide_eq_true in Hl.
      destruct (Hm (inside dst r)) as [Hq | Hq].
      + unfold inside. now apply prefix_app_r.
      + apply Hb. split; [exact Hl | congruence].
      + rewrite Hq, E in Hi.
        rewrite (lookup_union_Some_l _ _ _ (File c)) in Hi; [discriminate |].
        apply lookup_copied_into; [exact Hr' | | now apply (Hleaf r c)].
        simpl. now apply bool_decide_eq_true.
    - destruct Hblocked as [c Hc].
      destruct (Hm (dst ++ r)) as [Hq | Hq]; [now apply prefix_app_r | |].
      + apply Hb. exists c. congruence.
      + rewrite Hq, E in Hc.
        rewrite (lookup_union_Some_l _ _ _ Dir) in Hc; [discriminate |].
        now apply lookup_copied_onto. }
  exists {| files := copied ym dst (subtree (files y) src) ∪ ym; log := log y |}.
  split.
  - apply fs_update_run, copytree_run; auto.
    rewrite <- Hxy; [exact Hsrc |]. apply HPs. reflexivity.
  - cbn [files]. rewrite E, <- Hsub. fold entries.
    rewrite (copied_ext ym xm dst entries Hlands).
    intros q Hq. rewrite !lookup_union.
    destruct (decide (upto dst q)) as [Hu | Hu].
    { now rewrite Hmade, Hmade'. }
    destruct Hq as [Hq | Hq]; [| contradiction].
    destruct (Hm q Hq) as [Hq' | Hq']; [now rewrite Hq' |].
    rewrite Hq', E, lookup_union.
    destruct (copied xm dst entries !! q), (xm !! q); reflexivity.
Qed.

End Overlay.

Section Pages.

Variable cwd : list string.
Hypothesis cwd_plain : ".." ∉ cwd.

Lemma write_text_below (P C : region) (k : list string) (content : string) :
  P (removelast k) ->
  absorbs P (fun q => q = k) C (under k) (fs_update (write_text k content)).
Proof.
  intros HP x y a x' Hx Hy Hxy Hrun HK HC.
  destruct (absorbs_write_text P C k content HP x y a x' Hx Hy Hxy Hrun HK HC)
    as (y' & Hy' & Hxy').
  exists y'. split; [exact Hy' |]. intros q Hq.
  destruct (decide (q = k)) as [-> | Hne]; [now apply Hxy' |].
  destruct a. apply fs_update_inv in Hrun as [Hrun _], Hy' as [Hy' _].
  destruct (write_text_inv _ _ _ _ Hrun) as (Hk & _ & ->).
  destruct (write_text_inv _ _ _ _ Hy') as (Hk' & _ & ->).
  rewrite !lookup_insert_ne by congruence.
  destruct Hx as (Hwfx & _ & _), Hy as (Hwfy & _ & _).
  now rewrite (nothing_below (files x) k), (nothing_below (files y) k).
Qed.

(** One page, all replacements. *)
Lemma replace_in_file_inv (p : Path) (old new : string) (s s' : state) (u : unit) :
  replace_in_file cwd p old new s = Return (u, s') ->
  exists c, files s !! resolve cwd p = Some (File c)
    /\ files s' = <[resolve cwd p := File (replace old new (universal_newlines c))]> (files s).
Proof.
  intros Hrun. apply bind_inv in Hrun as (content & s0 & Hread & Hwrite).
  apply fs_read_inv in Hread as [Hread ->].
  apply fs_update_inv in Hwrite as [Hwrite _].
  unfold read_text in Hread.
  destruct (files s !! resolve cwd p) as [[c|]|] eqn:E; try discriminate.
  injection Hread as <-. exists c. split; [reflexivity |].
  now destruct (write_text_inv _ _ _ _ Hwrite) as (_ & _ & ->).
Qed.

Lemma replace_in_file_run (p : Path) (old new c : string) (s : state) :
  files s !! resolve cwd p = Some (File c) ->
  files s !! removelast (resolve cwd p) = Some Dir ->
  replace_in_file cwd p old new s
  = Return (tt, {| files := <[resolve cwd p := File (replace old new (universal_newlines c))]>
                              (files s);
                   log := log s |}).
Proof.
  intros Hk Hparent. unfold replace_in_file, bind, fs_read, read_text. rewrite Hk.
  apply fs_update_run, write_text_run; [congruence | exact Hparent].
Qed.


Lemma fix_in_inv (p : Path) (replacements : list (string * string)) :
  forall (s s' : state) (u : unit) (c : string),
  fix_in cwd p replacements s = Return (u, s') ->
  files s !! resolve cwd p = Some (File c) ->
  files s' = <[resolve cwd p := File (fix_page replacements c)]> (files s).
Proof.
  induction replacements as [|[old new] l IH]; intros s s' u c Hrun Hc.
  - injection Hrun as <- <-. simpl. symmetry. now apply insert_id.
  - cbn [fix_in for_each] in Hrun.
    apply bind_inv in Hrun as (u1 & s1 & H1 & Hrun).
    apply replace_in_file_inv in H1 as (c' & Hc' & E1).
    assert (c' = c) by congruence. subst c'.
    rewrite (IH s1 s' u (replace old new (universal_newlines c)) Hrun).
    + rewrite E1. now rewrite insert_insert_eq.
    + rewrite E1. apply lookup_insert_eq.
Qed.

Lemma fix_in_file (p : Path) (replacements : list (string * string))
    (s s' : state) (u : unit) :
  replacements <> [] -> fix_in cwd p replacements s = Return (u, s') ->
  exists c, files s !! resolve cwd p = Some (File c).
Proof.
  destruct replacements as [|[old new] l]; [contradiction |]. intros _ Hrun.
  cbn [fix_in for_each] in Hrun.
  apply bind_inv in Hrun as (u1 & s1 & H1 & _).
  apply replace_in_file_inv in H1 as (c & Hc & _). eauto.
Qed.

Lemma fix_in_run (p : Path) (replacements : list (string * string)) :
  forall (s : state) (c : string),
  files s !! resolve cwd p = Some (File c) ->
  files s !! removelast (resolve cwd p) = Some Dir ->
  resolve cwd p <> removelast (resolve cwd p) ->
  exists s', fix_in cwd p replacements s = Return (tt, s').
Proof.
  induction replacements as [|[old new] l IH]; intros s c Hc Hparent Hne.
  - eexists. reflexivity.
  - cbn [fix_in for_each].
    rewrite (bind_run _ _ _ _ _ (replace_in_file_run p old new c s Hc Hparent)).
    apply (IH _ (replace old new (universal_newlines c))); cbn [files].
    + apply lookup_insert_eq.
    + now rewrite lookup_insert_ne.
    + exact Hne.
Qed.

End Pages.

(** ** Listings and batches *)

Section Listing.

Variable cwd : list string.
Hypothesis cwd_plain : ".." ∉ cwd.

Lemma plain_below (t : tree) (k r : list string) :
  plain_tree t -> is_Some (t !! (k ++ r)) -> ".." ∉ r.
Proof.
  intros Hplain [n Hn] Hin. apply (Hplain _ _ Hn). apply elem_of_app. now right.
Qed.

Lemma rglob_run (select : list string -> bool) (base : Path) (s : state) :
  exists l, rglob cwd select base s = Return (l, s).
Proof.
  unfold rglob. destruct (files s !! resolve cwd base) as [[c|]|]; eauto.
Qed.

(** What [rglob] lists: every entry below [base] that [select] takes,
    once. *)
Lemma rglob_inv (select : list string -> bool) (base : Path) (s s' : state)
    (l : list Path) :
  rglob cwd select base s = Return (l, s') -> sound (files s) ->
  s' = s /\ NoDup l
  /\ (forall p, p ∈ l <-> exists r, p = base ++ r /\ r <> []
                           /\ is_Some (files s !! (resolve cwd base ++ r))
                           /\ select r = true).
Proof.
  intros Hrun (Hwf & _ & _). unfold rglob in Hrun.
  destruct (files s !! resolve cwd base) as [[c|]|] eqn:E.
  2: { injection Hrun as <- <-. split; [reflexivity |]. split.
       - apply NoDup_fmap_2; [intros a b; apply app_inv_head |].
         apply NoDup_filter_bool, NoDup_below.
       - intros p. rewrite list_elem_of_fmap. split.
         + intros (r & -> & Hr). apply list_elem_of_In, filter_In in Hr as [Hr Hsel].
           apply list_elem_of_In, elem_of_below in Hr as [Hne Hr]. eauto 6.
         + intros (r & -> & Hne & Hr & Hsel). exists r. split; [reflexivity |].
           apply list_elem_of_In, filter_In. split; [| exact Hsel].
           apply list_elem_of_In, elem_of_below. auto. }
  all: injection Hrun as <- <-; split; [reflexivity |]; split; [constructor |].
  all: intros p; split; [intros Hp; now apply elem_of_nil in Hp |].
  all: intros (r & -> & Hne & [n Hr] & _); exfalso.
  all: rewrite (nothing_below (files s) (resolve cwd base)) in Hr;
    [discriminate | exact Hwf | congruence | now apply prefix_app_r |].
  all: intros H; apply Hne; apply (app_inv_head (resolve cwd base)); now rewrite app_nil_r.
Qed.

Lemma find_md_files_run (base : Path) (s : state) :
  exists l, find_md_files cwd base s = Return (l, s).
Proof.
  unfold find_md_files. destruct (rglob_run is_md base s) as [l Hl].
  rewrite (bind_run _ _ _ _ _ Hl). eauto.
Qed.

Lemma find_md_files_inv (base : Path) (s s' : state) (l : list Path) :
  find_md_files cwd base s = Return (l, s') -> sound (files s) ->
  s' = s /\ NoDup l
  /\ (forall p, p ∈ l <-> exists r, p = base ++ r /\ r <> []
                           /\ is_Some (files s !! (resolve cwd base ++ r))
                           /\ is_md r = true /\ visible (base ++ r) = true).
Proof.
  intros Hrun Hs. unfold find_md_files in Hrun.
  apply bind_inv in Hrun as (found & s0 & Hglob & Hret).
  apply rglob_inv in Hglob as (-> & Hnodup & Hfound); [| exact Hs].
  injection Hret as <- <-. split; [reflexivity |]. split.
  - now apply NoDup_filter_bool.
  - intros p. split.
    + intros Hp. apply list_elem_of_In, filter_In in Hp as [Hp Hvis].
      apply list_elem_of_In, Hfound in Hp as (r & -> & Hne & Hr & Hmd).
      exists r. repeat split; auto.
    + intros (r & -> & Hne & Hr & Hmd & Hvis).
      apply list_elem_of_In, filter_In. split; [| exact Hvis].
      apply list_elem_of_In, Hfound. exists r. auto.
Qed.

(** [batch_replace]: every listed page is a regular file and is fixed;
    nothing else changes. *)
Lemma batch_replace_inv (replacements : list (string * string)) (l : list Path) :
  replacements <> [] ->
  forall (s s' : state) (u : unit),
  batch_replace cwd l replacements s = Return (u, s') ->
  NoDup (resolve cwd <$> l) ->
  (forall p, p ∈ l -> exists c, files s !! resolve cwd p = Some (File c)
                        /\ files s' !! resolve cwd p
                           = Some (File (fix_page replacements c)))
  /\ (forall q, q ∉ resolve cwd <$> l -> files s' !! q = files s !! q).
Proof.
  intros Hreps. induction l as [|p l IH]; intros s s' u Hrun Hnodup.
  - injection Hrun as <- <-. split; [| reflexivity].
    intros p Hp. now apply elem_of_nil in Hp.
  - cbn [batch_replace for_each] in Hrun.
    apply bind_inv in Hrun as (u1 & s1 & H1 & Hrun).
    change (fix_in cwd p replacements s = Return (u1, s1)) in H1.
    destruct (fix_in_file cwd p replacements s s1 u1 Hreps H1) as [c Hc].
    pose proof (fix_in_inv cwd p replacements s s1 u1 c H1 Hc) as E1.
    rewrite fmap_cons in Hnodup. apply NoDup_cons in Hnodup as [Hp Hnodup].
    destruct (IH s1 s' u Hrun Hnodup) as [Hfix Hframe].
    split.
    + intros p' Hp'. apply elem_of_cons in Hp' as [-> | Hp'].
      * exists c. split; [exact Hc |].
        rewrite Hframe by exact Hp. rewrite E1. apply lookup_insert_eq.
      * destruct (Hfix p' Hp') as (c' & Hc' & Hc'').
        exists c'. split; [| exact Hc''].
        rewrite E1, lookup_insert_ne in Hc'; [exact Hc' |].
        intros H. apply Hp. rewrite H. now apply list_elem_of_fmap_2.
    + intros q Hq. rewrite fmap_cons in Hq. apply not_elem_of_cons in Hq as [Hq1 Hq2].
      rewrite Hframe by exact Hq2. rewrite E1. now apply lookup_insert_ne.
Qed.

Lemma batch_replace_run (replacements : list (string * string)) (l : list Path) :
  forall s : state,
  (forall p, p ∈ l -> exists c, files s !! resolve cwd p = Some (File c)) ->
  (forall p, p ∈ l -> files s !! removelast (resolve cwd p) = Some Dir) ->
  exists s', batch_replace cwd l replacements s = Return (tt, s').
Proof.
  induction l as [|p l IH]; intros s Hfile Hparent.
  - eexists. reflexivity.
  - cbn [batch_replace for_each].
    destruct (Hfile p) as [c Hc]; [left |].
    pose proof (Hparent p (list_elem_of_here _ _)) as Hp.
    assert (Hne : resolve cwd p <> removelast (resolve cwd p)) by congruence.
    destruct (fix_in_run cwd p replacements s c Hc Hp Hne) as [s1 H1].
    change (for_each replacements (fun '(old, new) => replace_in_file cwd p old new))
      with (fix_in cwd p replacements).
    rewrite (bind_run _ _ _ _ _ H1).
    pose proof (fix_in_inv cwd p replacements s s1 tt c H1 Hc) as E1.
    apply IH.
    + intros p' Hp'. rewrite E1.
      destruct (decide (resolve cwd p' = resolve cwd p)) as [-> | Hk].
      * rewrite lookup_insert_eq. eauto.
      * rewrite lookup_insert_ne by congruence. apply Hfile. now right.
    + intros p' Hp'. rewrite E1, lookup_insert_ne; [apply Hparent; now right |].
      intros H. pose proof (Hparent p' (list_elem_of_further _ _ _ Hp')) as Hp''.
      rewrite <- H in Hp''. congruence.
Qed.

Lemma post_batch_replace (Wr Rm : region) (replacements : list (string * string))
    (l : list Path) :
  (forall p, p ∈ l -> Wr (resolve cwd p)) ->
  post Wr Rm (batch_replace cwd l replacements).
Proof.
  intros H. apply post_for_each. intros p Hp.
  apply post_for_each. intros [old new] _.
  apply post_replace_in_file; auto.
Qed.

End Listing.

Section FixPages.

Variable cwd : list string.
Hypothesis cwd_plain : ".." ∉ cwd.
Variables t t1 : tree.

(** The pages under [base] are fixed once more by the second run: those
    the first run has made again are the same in both, the others must
    not change when fixed twice. *)
Lemma replays_fix_pages (W WrF RmF : region) (base : Path)
    (replacements : list (string * string)) {B} (k : unit -> M B) :
  ".." ∉ base -> replacements <> [] ->
  (forall u, post WrF RmF (k u)) ->
  (forall q, under (cwd ++ base) q -> ~ WrF q) ->
  (forall r c, ~ W (cwd ++ base ++ r) -> t !! (cwd ++ base ++ r) = Some (File c) ->
               is_md r = true -> visible (base ++ r) = true ->
               fix_page replacements (fix_page replacements c)
               = fix_page replacements c) ->
  (forall u, replays t t1 (fun q => W q \/ under (cwd ++ base) q) (k u)) ->
  replays t t1 W (do files <- find_md_files cwd base;
                  bind (batch_replace cwd files replacements) k).
Proof.
  intros Hbase Hreps Hk HWr Hstable Hend x y b x' Hx Hy [Hagree Hrest] Hrun Hfin.
  assert (HB : resolve cwd base = cwd ++ base) by now apply resolve_plain.
  apply bind_inv in Hrun as (lx & x0 & Hfindx & Hrun).
  apply find_md_files_inv in Hfindx as (-> & Hnodupx & Hlx); [| exact Hx].
  apply bind_inv in Hrun as (u & x1 & Hbatchx & Hrun).
  destruct (find_md_files_run cwd base y) as [ly Hfindy].
  pose proof Hfindy as Hfindy'.
  apply find_md_files_inv in Hfindy' as (_ & Hnodupy & Hly); [| exact Hy].
  rewrite HB in Hlx, Hly.
  (* where the listed pages are *)
  assert (Hloc : forall (s : state) r, sound (files s) ->
            is_Some (files s !! ((cwd ++ base) ++ r)) ->
            resolve cwd (base ++ r) = (cwd ++ base) ++ r).
  { intros s r (_ & Hplain & _) Hr. rewrite resolve_app, HB; [reflexivity |].
    now apply (plain_below (files s) (cwd ++ base)). }
  assert (Hinj : forall (s : state) (l : list Path), sound (files s) ->
            (forall p, p ∈ l -> exists r, p = base ++ r
                                 /\ is_Some (files s !! ((cwd ++ base) ++ r))) ->
            NoDup l -> NoDup (resolve cwd <$> l)).
  { intros s l Hs Hl Hnodup. apply NoDup_fmap_2_strong; [| exact Hnodup].
    intros p p' Hp Hp' E.
    destruct (Hl p Hp) as (r & -> & Hr), (Hl p' Hp') as (r' & -> & Hr').
    rewrite (Hloc s r Hs Hr), (Hloc s r' Hs Hr') in E.
    apply app_inv_head in E. now subst. }
  assert (Hunder : forall (s : state) (l : list Path) q, sound (files s) ->
            (forall p, p ∈ l -> exists r, p = base ++ r
                                 /\ is_Some (files s !! ((cwd ++ base) ++ r))) ->
            q ∈ resolve cwd <$> l -> under (cwd ++ base) q).
  { intros s l q Hs Hl Hq. apply list_elem_of_fmap in Hq as (p & -> & Hp).
    destruct (Hl p Hp) as (r & -> & Hr). rewrite (Hloc s r Hs Hr).
    now apply prefix_app_r. }
  assert (Hlx' : forall p, p ∈ lx -> exists r, p = base ++ r
                    /\ is_Some (files x !! ((cwd ++ base) ++ r))).
  { intros p Hp. apply Hlx in Hp as (r & -> & _ & Hr & _). eauto. }
  assert (Hly' : forall p, p ∈ ly -> exists r, p = base ++ r
                    /\ is_Some (files y !! ((cwd ++ base) ++ r))).
  { intros p Hp. apply Hly in Hp as (r & -> & _ & Hr & _). eauto. }
  destruct (batch_replace_inv cwd replacements lx Hreps x x1 u Hbatchx
              (Hinj x lx Hx Hlx' Hnodupx)) as [Hfixx Hframex].
  destruct (post_batch_replace cwd cwd_plain (fun _ => True) (fun _ => True)
              replacements lx (fun _ _ => I) x u x1 Hx Hbatchx) as (_ & _ & Hx1).
  destruct (Hk u x1 b x' Hx1 Hrun) as (Hfuture & _ & _). rewrite Hfin in Hfuture.
  (* below [base] the second tree holds the first's entry, before or after
     the fix *)
  assert (HR : forall q, under (cwd ++ base) q ->
            files x !! q = files y !! q
            \/ (~ W q /\ files x !! q = t !! q /\ files y !! q = files x1 !! q)).
  { intros q Hq.
    destruct (decide (files x !! q = files y !! q)) as [E | NE]; [now left | right].
    assert (HW : ~ W q) by (intros HW; apply NE, Hagree, HW).
    destruct (Hrest q HW) as [Ex Ey]. repeat split; auto.
    rewrite Ey. apply Hfuture. auto. }
  assert (Hsame : forall r, is_Some (files y !! ((cwd ++ base) ++ r)) ->
            is_Some (files x !! ((cwd ++ base) ++ r))).
  { intros r Hr. destruct (HR ((cwd ++ base) ++ r)) as [E | (_ & _ & E)];
      [now apply prefix_app_r | now rewrite E |].
    rewrite E in Hr.
    destruct (decide ((cwd ++ base) ++ r ∈ resolve cwd <$> lx)) as [Hin | Hout].
    - apply list_elem_of_fmap in Hin as (p & Hp & Hin).
      destruct (Hfixx p Hin) as (c & Hc & _). rewrite Hp. eauto.
    - now rewrite <- (Hframex _ Hout). }
  assert (Hfiley : forall p, p ∈ ly ->
            exists c, files y !! resolve cwd p = Some (File c)).
  { intros p Hp. pose proof Hp as Hp'.
    apply Hly in Hp' as (r & -> & Hne & Hr & Hmd & Hvis).
    rewrite (Hloc y r Hy Hr).
    assert (Hpx : base ++ r ∈ lx).
    { apply Hlx. exists r. repeat split; auto. }
    destruct (Hfixx _ Hpx) as (c & Hc & Hc').
    rewrite (Hloc x r Hx (Hsame r Hr)) in Hc, Hc'.
    destruct (HR ((cwd ++ base) ++ r)) as [E | (_ & _ & E)];
      [now apply prefix_app_r | |]; rewrite E in *; eauto. }
  destruct (batch_replace_run cwd replacements ly y Hfiley) as [y1 Hbatchy].
  { intros p Hp. destruct (Hfiley p Hp) as [c Hc].
    destruct Hy as (Hwf & _ & Hroot).
    apply (Hwf _ _ Hc); [apply removelast_prefix |].
    apply removelast_neq. intros E. rewrite E in Hc. congruence. }
  destruct (batch_replace_inv cwd replacements ly Hreps y y1 tt Hbatchy
              (Hinj y ly Hy Hly' Hnodupy)) as [Hfixy Hframey].
  destruct (post_batch_replace cwd cwd_plain (fun _ => True) (fun _ => True)
              replacements ly (fun _ _ => I) y tt y1 Hy Hbatchy) as (_ & _ & Hy1).
  destruct u.
  destruct (Hend tt x1 y1 b x' Hx1 Hy1) as (y' & Hy' & Hfin'); auto.
  - split.
    + intros q Hq.
      destruct (decide (q ∈ resolve cwd <$> lx)) as [Hin | Hout].
      * pose proof (Hunder x lx q Hx Hlx' Hin) as Hu.
        apply list_elem_of_fmap in Hin as (p & -> & Hp).
        destruct (Hfixx p Hp) as (c & Hc & Hc'). rewrite Hc'.
        pose proof Hp as Hp'. apply Hlx in Hp' as (r & -> & Hne & Hr & Hmd & Hvis).
        rewrite (Hloc x r Hx Hr) in *.
        destruct (HR _ Hu) as [E | (HW & Et & E)].
        -- assert (Hpy : base ++ r ∈ ly).
           { apply Hly. exists r. repeat split; auto. now rewrite <- E. }
           destruct (Hfixy _ Hpy) as (c' & Hc1 & Hc2).
           rewrite (Hloc x r Hx Hr) in Hc1, Hc2. rewrite Hc2. congruence.
        -- assert (Hpy : base ++ r ∈ ly).
           { apply Hly. exists r. repeat split; auto. rewrite E, Hc'. eauto. }
           destruct (Hfixy _ Hpy) as (c' & Hc1 & Hc2).
           rewrite (Hloc x r Hx Hr) in Hc1, Hc2. rewrite Hc2.
           rewrite E, Hc' in Hc1. injection Hc1 as <-.
           f_equal. f_equal. symmetry. apply (Hstable r c); auto.
           ++ now rewrite app_assoc.
           ++ rewrite app_assoc, <- Et. exact Hc.
      * rewrite (Hframex _ Hout).
        destruct (decide (q ∈ resolve cwd <$> ly)) as [Hin' | Hout'].
        -- exfalso. pose proof (Hunder y ly q Hy Hly' Hin') as Hu.
           apply list_elem_of_fmap in Hin' as (p & -> & Hp).
           pose proof Hp as Hp'. apply Hly in Hp' as (r & -> & Hne & Hr & Hmd & Hvis).
           apply Hout. apply list_elem_of_fmap. exists (base ++ r). split; [reflexivity |].
           apply Hlx. exists r. repeat split; auto.
        -- rewrite (Hframey _ Hout').
           destruct Hq as [Hq | Hq]; [now apply Hagree |].
           destruct (HR _ Hq) as [E | (_ & _ & E)]; [exact E |].
           now rewrite E, (Hframex _ Hout).
    + intros q Hq. rewrite Hframex, Hframey.
      * apply Hrest. auto.
      * intros Hin. apply Hq. right. now apply (Hunder y ly).
      * intros Hin. apply Hq. right. now apply (Hunder x lx).
  - exists y'. split; [| exact Hfin'].
    rewrite (bind_run _ _ _ _ _ Hfindy). now rewrite (bind_run _ _ _ _ _ Hbatchy).
Qed.

End FixPages.

(** ** The steps of the merge *)

Section Steps.

Variable cwd : list string.
Hypothesis cwd_plain : ".." ∉ cwd.

(** *** From [absorbs] back to [local] *)

Lemma absorbs_known (P K C N : region) {A} (c : M A) :
  absorbs P K C N c -> (forall q, K q -> P q) -> (forall q, C q -> P q) ->
  absorbs P (fun _ => False) (fun _ => False) N c.
Proof.
  intros H HK HC x y a x' Hx Hy Hxy Hrun _ _.
  apply (H x y a x' Hx Hy Hxy Hrun).
  - intros q Hq. left. apply Hxy, HK, Hq.
  - intros q Hq. left. apply Hxy, HC, Hq.
Qed.

Lemma absorbs_local (P K C N Rm : region) {A} (c : M A) :
  absorbs P K C N c -> post N Rm c ->
  (forall q, K q -> P q) -> (forall q, C q -> P q) -> (forall q, N q -> P q) ->
  local P c.
Proof.
  intros H Hpost HK HC HN x y a x' Hx Hy Hxy Hrun.
  destruct (H x y a x' Hx Hy Hxy Hrun) as (y' & Hy' & Hxy').
  - intros q Hq. left. apply Hxy, HK, Hq.
  - intros q Hq. left. apply Hxy, HC, Hq.
  - exists y'. split; [exact Hy' |].
    destruct (Hpost x a x' Hx Hrun) as (Hfx & _ & _).
    destruct (Hpost y a y' Hy Hy') as (Hfy & _ & _).
    intros q Hq.
    destruct (decide (files x' !! q = files y' !! q)) as [E | NE]; [exact E |].
    exfalso. assert (HnN : ~ N q) by (intros Hn; apply NE, Hxy', Hn).
    apply NE. rewrite Hfx, Hfy by exact HnN. now apply Hxy.
Qed.

(** *** Reading steps *)

Lemma post_raise (Wr Rm : region) {A} (e : exception) : post Wr Rm (@raise A e).
Proof. intros s a s' _ H. discriminate H. Qed.

Lemma local_raise (P : region) {A} (e : exception) : local P (@raise A e).
Proof. intros x y a x' _ _ _ H. discriminate H. Qed.

Lemma local_log (P : region) (l : level) (message : string) :
  local P (log_record l message).
Proof.
  intros x y a x' _ _ Hxy [= <- <-].
  eexists. split; [reflexivity | exact Hxy].
Qed.

Lemma local_exists (P : region) (p : Path) :
  P (resolve cwd p) -> local P (exists_ cwd p).
Proof.
  intros HP x y a x' _ _ Hxy [= <- <-].
  exists y. split; [| exact Hxy]. unfold exists_. now rewrite (Hxy _ HP).
Qed.

Lemma local_is_file (P : region) (p : Path) :
  P (resolve cwd p) -> local P (is_file cwd p).
Proof.
  intros HP x y a x' _ _ Hxy [= <- <-].
  exists y. split; [| exact Hxy]. unfold is_file. now rewrite (Hxy _ HP).
Qed.

Lemma local_rglob (P : region) (select : list string -> bool) (base : Path) :
  (forall q, under (resolve cwd base) q -> P q) ->
  local P (rglob cwd select base).
Proof.
  intros HP x y a x' _ _ Hxy Hrun.
  assert (E : rglob cwd select base y
              = match rglob cwd select base x with
                | Return (l, _) => Return (l, y)
                | Raise e => Raise e
                end).
  { unfold rglob. rewrite <- (Hxy (resolve cwd base)) by (apply HP; reflexivity).
    destruct (files x !! resolve cwd base) as [[c|]|]; try reflexivity.
    unfold below. rewrite (subtree_agree (files x) (files y)); [reflexivity |].
    intros q Hq. now apply Hxy, HP. }
  rewrite Hrun in E. exists y. split; [exact E |].
  now rewrite (reads_rglob cwd select base x a x' Hrun).
Qed.

Lemma rglob_value (select : list string -> bool) (base : Path) (s s' : state)
    (l : list Path) :
  sound (files s) -> rglob cwd select base s = Return (l, s') ->
  forall p, p ∈ l -> exists r, p = base ++ r /\ r <> [] /\ (".." ∉ r) /\ select r = true.
Proof.
  intros Hs Hrun p Hp. pose proof Hs as (_ & Hplain & _).
  apply rglob_inv in Hrun as (_ & _ & Hl); [| exact Hs].
  apply Hl in Hp as (r & -> & Hne & Hr & Hsel).
  exists r. repeat split; auto. now apply (plain_below (files s) (resolve cwd base)).
Qed.

(** A loop over what [rglob] lists. *)
Lemma post_rglob_loop (Wr Rm : region) (select : list string -> bool) (base : Path)
    (body : Path -> M unit) :
  (forall r, r <> [] -> ".." ∉ r -> select r = true -> post Wr Rm (body (base ++ r))) ->
  post Wr Rm (do pages <- rglob cwd select base; for_each pages body).
Proof.
  intros H.
  apply (post_bind Wr Rm _ _
           (fun l => forall p, p ∈ l ->
              exists r, p = base ++ r /\ r <> [] /\ (".." ∉ r) /\ select r = true)).
  - apply post_reads, reads_rglob.
  - intros s l s' Hs Hrun. now apply (rglob_value select base s s').
  - intros l Hl. apply post_for_each. intros p Hp.
    destruct (Hl p Hp) as (r & -> & Hne & Hplain & Hsel). now apply H.
Qed.

Lemma local_rglob_loop (P : region) (select : list string -> bool) (base : Path)
    (body : Path -> M unit) :
  (forall q, under (resolve cwd base) q -> P q) ->
  (forall r, r <> [] -> ".." ∉ r -> select r = true ->
             local P (body (base ++ r))
             /\ post (fun _ => True) (fun _ => True) (body (base ++ r))) ->
  local P (do pages <- rglob cwd select base; for_each pages body).
Proof.
  intros HP H.
  apply (local_bind P (fun _ => True) (fun _ => True) _ _
           (fun l => forall p, p ∈ l ->
              exists r, p = base ++ r /\ r <> [] /\ (".." ∉ r) /\ select r = true)).
  - now apply local_rglob.
  - apply post_reads, reads_rglob.
  - intros s l s' Hs Hrun. now apply (rglob_value select base s s').
  - intros l Hl. apply (local_for_each P (fun _ => True) (fun _ => True)).
    + intros p Hp. destruct (Hl p Hp) as (r & -> & Hne & Hplain & Hsel).
      now apply H.
    + intros p Hp. destruct (Hl p Hp) as (r & -> & Hne & Hplain & Hsel).
      now apply H.
Qed.

(** *** Pages found and fixed *)

Lemma find_md_files_value (base : Path) (s s' : state) (l : list Path) :
  sound (files s) -> find_md_files cwd base s = Return (l, s') ->
  forall p, p ∈ l -> exists r, p = base ++ r /\ r <> [] /\ ".." ∉ r.
Proof.
  intros Hs Hrun p Hp. pose proof Hs as (_ & Hplain & _).
  apply find_md_files_inv in Hrun as (_ & _ & Hl); [| exact Hs].
  apply Hl in Hp as (r & -> & Hne & Hr & _).
  exists r. repeat split; auto. now apply (plain_below (files s) (resolve cwd base)).
Qed.

Lemma reads_find_md_files (base : Path) : reads (find_md_files cwd base).
Proof.
  intros s l s' Hrun. unfold find_md_files in Hrun.
  apply bind_inv in Hrun as (found & s0 & Hglob & Hret).
  injection Hret as _ <-. now apply (reads_rglob cwd is_md base s found).
Qed.

Lemma local_find_md_files (P : region) (base : Path) :
  (forall q, under (resolve cwd base) q -> P q) ->
  local P (find_md_files cwd base).
Proof.
  intros HP. unfold find_md_files.
  apply (local_seq P (fun _ => True) (fun _ => True)).
  - now apply local_rglob.
  - apply post_reads, reads_rglob.
  - intros found. apply local_ret.
Qed.

Lemma removelast_under (k r : list string) :
  r <> [] -> under k (removelast (k ++ r)).
Proof.
  intros Hr. rewrite removelast_app by exact Hr. now apply prefix_app_r.
Qed.

Lemma post_fix_pages (Wr Rm : region) (base : Path)
    (replacements : list (string * string)) :
  (forall q, under (resolve cwd base) q -> Wr q) ->
  post Wr Rm (do files <- find_md_files cwd base;
              batch_replace cwd files replacements).
Proof.
  intros HW.
  apply (post_bind Wr Rm _ _
           (fun l => forall p, p ∈ l -> exists r, p = base ++ r /\ r <> [] /\ ".." ∉ r)).
  - apply post_reads, reads_find_md_files.
  - intros s l s' Hs Hrun. now apply (find_md_files_value base s s').
  - intros l Hl. apply post_batch_replace; [exact cwd_plain |].
    intros p Hp. destruct (Hl p Hp) as (r & -> & Hne & Hplain).
    rewrite resolve_app by exact Hplain. apply HW. now apply prefix_app_r.
Qed.

Lemma local_fix_pages (P : region) (base : Path)
    (replacements : list (string * string)) :
  (forall q, under (resolve cwd base) q -> P q) ->
  local P (do files <- find_md_files cwd base;
           batch_replace cwd files replacements).
Proof.
  intros HP.
  apply (local_bind P (fun _ => True) (fun _ => True) _ _
           (fun l => forall p, p ∈ l -> exists r, p = base ++ r /\ r <> [] /\ ".." ∉ r)).
  - now apply local_find_md_files.
  - apply post_reads, reads_find_md_files.
  - intros s l s' Hs Hrun. now apply (find_md_files_value base s s').
  - intros l Hl. apply (local_for_each P (fun _ => True) (fun _ => True)).
    + intros p Hp. destruct (Hl p Hp) as (r & -> & Hne & Hplain).
      apply (local_for_each P (fun _ => True) (fun _ => True)).
      * intros [old new] _.
        apply local_replace_in_file; rewrite resolve_app by exact Hplain.
        -- apply HP. now apply prefix_app_r.
        -- apply HP. now apply removelast_under.
      * intros [old new] _. now apply post_replace_in_file.
    + intros p Hp. apply post_for_each. intros [old new] _.
      now apply post_replace_in_file.
Qed.

(** *** [locate_external_repo] *)

Lemma post_locate (Wr Rm : region) (repo_name : string) :
  post Wr Rm (locate_external_repo cwd repo_name).
Proof.
  intros s a s' Hs Hrun.
  destruct (locate_external_repo_unfold cwd repo_name s) as [messages E].
  rewrite E in Hrun. destruct (List.find _ _); [| discriminate].
  injection Hrun as <- <-. cbn [files].
  split; [| split]; [reflexivity | intros q n _ Hq; eauto | exact Hs].
Qed.

Lemma locate_value (repo_name : string) (s s' : state) (repo : Path) :
  locate_external_repo cwd repo_name s = Return (repo, s') ->
  repo ∈ candidates repo_name.
Proof.
  intros Hrun.
  destruct (locate_external_repo_unfold cwd repo_name s) as [messages E].
  rewrite E in Hrun. destruct (List.find _ _) as [loc|] eqn:Hfind; [| discriminate].
  injection Hrun as <- _. apply list_elem_of_In. now apply find_some in Hfind.
Qed.

Lemma local_locate (P : region) (repo_name : string) :
  (forall c, c ∈ candidates repo_name -> P (resolve cwd c)) ->
  local P (locate_external_repo cwd repo_name).
Proof.
  intros HP x y a x' _ _ Hxy Hrun.
  destruct (locate_external_repo_unfold cwd repo_name x) as [mx Ex].
  destruct (locate_external_repo_unfold cwd repo_name y) as [my Ey].
  rewrite Ex in Hrun. rewrite Ey.
  assert (E : List.find (fun p => bool_decide (files y !! resolve cwd p = Some Dir))
                (candidates repo_name)
              = List.find (fun p => bool_decide (files x !! resolve cwd p = Some Dir))
                  (candidates repo_name)).
  { cbn [candidates List.find].
    rewrite !(Hxy (resolve cwd _)); [reflexivity | | |]; apply HP;
      cbn [candidates]; repeat first [apply list_elem_of_here | apply list_elem_of_further]. }
  rewrite E. destruct (List.find _ _); [| discriminate].
  injection Hrun as <- <-. eexists. split; [reflexivity | exact Hxy].
Qed.

(** *** [clean_and_copy] *)

Lemma sound_clean_and_copy (src dst : Path) :
  post (fun _ => True) (fun _ => True) (clean_and_copy cwd src dst).
Proof.
  unfold clean_and_copy.
  apply post_seq; [apply post_reads, reads_exists | intros present].
  apply post_seq.
  { destruct present; [apply post_rmtree; auto | apply post_ret]. }
  intros _. apply post_seq; [apply post_mkdir; auto | intros _].
  apply post_seq; [apply post_reads, reads_exists | intros present'].
  destruct present'; cbn [negb].
  - apply post_copytree; auto. now apply resolve_no_dotdot.
  - apply post_seq; [apply post_reads, reads_log | intros _].
    apply post_mkdir; auto.
Qed.

Lemma post_clean_and_copy (Wr Rm : region) (src dst : Path) :
  dst <> [] -> ".." ∉ dst -> apart (resolve cwd src) (cwd ++ dst) ->
  (forall q, under (cwd ++ dst) q -> Wr q) -> (forall q, upto (cwd ++ dst) q -> Wr q) ->
  (forall q, strict (cwd ++ dst) q -> Rm q) ->
  post Wr Rm (clean_and_copy cwd src dst).
Proof.
  intros Hne Hplain Hapart HWu HWp HRm s a s' Hs Hrun.
  destruct (sound_clean_and_copy src dst s a s' Hs Hrun) as (_ & _ & Hs').
  destruct (clean_and_copy_inv cwd cwd_plain src dst Hne Hplain Hapart s s' a Hs Hrun)
    as (Hfree & _ & _ & Hmade & Hrest).
  split; [| split; [| exact Hs']].
  - intros q Hq. apply Hrest; intros H; apply Hq; auto.
  - intros q n Hq Hn. destruct (decide (upto (cwd ++ dst) q)) as [Hu | Hu].
    + exists Dir. split; [now apply Hmade |].
      destruct n as [c|]; [| reflexivity]. now apply Hfree in Hn.
    + exists n. split; [| reflexivity]. rewrite Hrest; auto.
      intros Hunder. destruct (decide (q = cwd ++ dst)) as [-> | Hneq].
      * apply Hu, upto_self. now apply app_nonempty.
      * apply Hq, HRm. split; assumption.
Qed.

Lemma local_clean_and_copy (P : region) (src dst : Path) :
  dst <> [] -> ".." ∉ dst -> apart (resolve cwd src) (cwd ++ dst) ->
  (forall q, under (resolve cwd src) q -> P q) ->
  (forall q, under (cwd ++ dst) q -> P q) -> (forall q, upto (cwd ++ dst) q -> P q) ->
  local P (clean_and_copy cwd src dst).
Proof.
  intros Hne Hplain Hapart HPs HPu HPp.
  apply (absorbs_local P (fun q => q = cwd ++ dst) (fun _ => False)
           (fun q => under (cwd ++ dst) q \/ upto (cwd ++ dst) q) (fun _ => True)).
  - apply absorbs_clean_and_copy; auto.
    intros q Hq. now apply HPp, upto_removelast.
  - apply post_clean_and_copy; auto.
  - intros q ->. apply HPu. reflexivity.
  - intros q [].
  - intros q [Hq | Hq]; auto.
Qed.

End Steps.

(** ** Growing regions *)

(** [..] is none of the given names. *)
Ltac plain :=
  repeat (apply not_elem_of_cons; split; [first [discriminate | congruence] |]);
  apply not_elem_of_nil.

(** A member of a list that is written out. *)
Ltac listed :=
  first [apply list_elem_of_here | apply list_elem_of_further; listed].

Section Stage.

Lemma stage_here (R : region) (Rs : list region) (q : list string) :
  R q -> stage (R :: Rs) q.
Proof. intros H. exists R. split; [left | exact H]. Qed.

Lemma stage_later (R : region) (Rs : list region) (q : list string) :
  stage Rs q -> stage (R :: Rs) q.
Proof. intros (R' & HR & H). exists R'. split; [now right | exact H]. Qed.

Lemma stage_cons (R : region) (Rs : list region) (q : list string) :
  stage (R :: Rs) q <-> stage Rs q \/ R q.
Proof.
  split.
  - intros (R' & HR & H). apply elem_of_cons in HR as [-> | HR]; [now right | left].
    now exists R'.
  - intros [H | H]; [now apply stage_later | now apply stage_here].
Qed.

Lemma stage_app (Rs Rs' : list region) (q : list string) :
  stage (Rs ++ Rs') q <-> stage Rs' q \/ stage Rs q.
Proof.
  split.
  - intros (R & HR & H). apply elem_of_app in HR as [HR | HR]; [right | left];
      now exists R.
  - intros [(R & HR & H) | (R & HR & H)]; exists R; split; auto;
      apply elem_of_app; auto.
Qed.

Lemma stage_map {A} (N : A -> region) (l : list A) (q : list string) :
  stage (map N l) q <-> exists a, a ∈ l /\ N a q.
Proof.
  split.
  - intros (R & HR & H). apply list_elem_of_fmap in HR as (a & -> & Ha). eauto.
  - intros (a & Ha & H). exists (N a). split; [| exact H].
    now apply list_elem_of_fmap_2.
Qed.

Lemma under_mono (k k' q : list string) : k `prefix_of` k' -> under k' q -> under k q.
Proof. intros H Hq. now transitivity k'. Qed.

Lemma upto_mono (k k' q : list string) : k `prefix_of` k' -> upto k q -> upto k' q.
Proof. intros H [Hq Hne]. split; [now transitivity k | exact Hne]. Qed.

Lemma under_refl (k : list string) : under k k.
Proof. reflexivity. Qed.

End Stage.

Section StageReplay.

Variables t t1 : tree.

Lemma replays_stage_absorb (Rs : list region) (P K C N Rm WrF RmF : region) {A B}
    (m : M A) (k : A -> M B) :
  absorbs P K C N m -> post N Rm m ->
  (forall q, P q -> stage Rs q) ->
  (forall a, post WrF RmF (k a)) ->
  (forall q, K q -> ~ RmF q) -> (forall q, C q -> ~ WrF q) ->
  (forall a, replays t t1 (stage (N :: Rs)) (k a)) ->
  replays t t1 (stage Rs) (bind m k).
Proof.
  intros Habs Hpost HP Hfut HK HC Hk.
  apply (replays_absorb t t1 (stage Rs) P K C N Rm WrF RmF); auto.
  intros a. apply (replays_equiv t t1 (stage (N :: Rs))); [| apply Hk].
  intros q. apply stage_cons.
Qed.

Lemma replays_stage_for_each (Rs : list region) (P Rm WrF RmF : region) {A B}
    (l : list A) (K C N : A -> region) (body : A -> M unit) (k : M B) :
  (forall a, a ∈ l -> absorbs P (K a) (C a) (N a) (body a)) ->
  (forall a, a ∈ l -> post (N a) Rm (body a)) ->
  (forall a, a ∈ l -> post WrF RmF (body a)) -> post WrF RmF k ->
  (forall a q, a ∈ l -> K a q -> ~ RmF q) ->
  (forall a q, a ∈ l -> C a q -> ~ WrF q) ->
  (forall q, P q -> stage Rs q) ->
  replays t t1 (stage (map N l ++ Rs)) k ->
  replays t t1 (stage Rs) (for_each l body ;; k).
Proof.
  intros Habs Hpost Hfut Hk HK HC HP Hend.
  apply (replays_for_each t t1 P Rm WrF RmF l K C N); auto.
  apply (replays_equiv t t1 (stage (map N l ++ Rs))); [| exact Hend].
  intros q. rewrite stage_app, stage_map. reflexivity.
Qed.

End StageReplay.

Section Places.

Variable cwd : list string.
Hypothesis cwd_plain : ".." ∉ cwd.
Hypothesis cwd_name : name cwd ∉ repositories.

Lemma repository_plain (nm : string) : nm ∈ repositories -> nm <> "..".
Proof.
  intros H ->. unfold repositories in H.
  repeat (apply elem_of_cons in H as [H | H]; [discriminate |]).
  now apply elem_of_nil in H.
Qed.

Lemma repository_not_docs (nm : string) : nm ∈ repositories -> nm <> "docs".
Proof.
  intros H ->. unfold repositories in H.
  repeat (apply elem_of_cons in H as [H | H]; [discriminate |]).
  now apply elem_of_nil in H.
Qed.

(** Where a repository is found is neither in [docs] nor above it. *)
Lemma candidate_apart (nm : string) (c : Path) :
  nm ∈ repositories -> c ∈ candidates nm ->
  apart (resolve cwd c) (cwd ++ ["docs"]).
Proof.
  intros Hnm Hc. pose proof (repository_plain nm Hnm) as Hplain.
  pose proof (repository_not_docs nm Hnm) as Hdocs.
  unfold candidates in Hc.
  apply elem_of_cons in Hc as [-> | Hc]; [| apply elem_of_cons in Hc as [-> | Hc]];
    [| | apply list_elem_of_singleton in Hc as ->].
  - rewrite resolve_plain.
    + apply apart_app. split; intros H; apply prefix_cons_inv_1 in H; discriminate.
    + plain.
  - assert (E : resolve cwd [".."; nm] = removelast cwd ++ [nm]).
    { unfold resolve. cbn [fold_left]. unfold step at 2. cbn [String.eqb Ascii.eqb Bool.eqb].
      unfold step. destruct (String.eqb_spec nm ".."); [contradiction | reflexivity]. }
    rewrite E. destruct (decide (cwd = [])) as [-> | Hne].
    + cbn. split; intros H; apply prefix_cons_inv_1 in H; congruence.
    + split; intros H.
      * rewrite (app_removelast_last EmptyString Hne) in H at 2.
        rewrite <- app_assoc in H. apply prefix_app_inv in H.
        apply prefix_cons_inv_1 in H. apply cwd_name. unfold name. now rewrite <- H.
      * apply prefix_length in H. rewrite !length_app in H. cbn in H.
        rewrite (app_removelast_last EmptyString Hne), length_app in H at 1.
        cbn in H. lia.
  - rewrite resolve_plain.
    + apply apart_app. split; intros H; apply prefix_cons_inv_1 in H; congruence.
    + plain.
Qed.

Lemma source_apart (nm : string) (repo rest rel : Path) :
  nm ∈ repositories -> repo ∈ candidates nm -> ".." ∉ rest ->
  apart (resolve cwd (repo ++ rest)) (cwd ++ "docs" :: rel).
Proof.
  intros Hnm Hrepo Hrest. rewrite resolve_app by exact Hrest.
  apply (apart_ext (resolve cwd repo) (cwd ++ ["docs"])).
  - now apply (candidate_apart nm).
  - now apply prefix_app_r.
  - apply prefix_app, prefix_cons, prefix_nil.
Qed.

Lemma static_source (nm : string) (repo rest : Path) (q : list string) :
  nm ∈ repositories -> repo ∈ candidates nm -> ".." ∉ rest ->
  under (resolve cwd (repo ++ rest)) q -> static cwd q.
Proof.
  intros Hnm Hrepo Hrest Hq Hdocs.
  apply (apart_under _ _ q (source_apart nm repo rest [] Hnm Hrepo Hrest)); assumption.
Qed.

Lemma static_candidate (nm : string) (c : Path) :
  nm ∈ repositories -> c ∈ candidates nm -> static cwd (resolve cwd c).
Proof.
  intros Hnm Hc. apply (static_source nm c [] (resolve cwd c) Hnm Hc).
  - apply not_elem_of_nil.
  - rewrite app_nil_r. reflexivity.
Qed.

(** What the first run changes outside [docs] is nothing. *)
Lemma directory_plain (d : string) : d ∈ directories -> d <> "..".
Proof.
  intros H ->. unfold directories in H.
  repeat (apply elem_of_cons in H as [H | H]; [discriminate |]).
  now apply elem_of_nil in H.
Qed.

End Places.

(** ** What the rest of a merge may change *)

Section Futures.

Variable cwd : list string.
Hypothesis cwd_plain : ".." ∉ cwd.
Hypothesis cwd_name : name cwd ∉ repositories.

Lemma strict_mono (k k' q : list string) : k `prefix_of` k' -> strict k' q -> strict k q.
Proof.
  intros Hk [Hq Hne]. split; [now transitivity k' |].
  intros ->. apply Hne. now apply (anti_symm prefix).
Qed.

Lemma post_find_md_files (Wr Rm : region) {B} (base : Path) (k : list Path -> M B) :
  (forall l, (forall p, p ∈ l -> exists r, p = base ++ r /\ r <> [] /\ ".." ∉ r) ->
             post Wr Rm (k l)) ->
  post Wr Rm (bind (find_md_files cwd base) k).
Proof.
  intros H.
  apply (post_bind Wr Rm _ _
           (fun l => forall p, p ∈ l -> exists r, p = base ++ r /\ r <> [] /\ ".." ∉ r)).
  - apply post_reads, reads_find_md_files.
  - intros s l s' Hs Hrun. now apply (find_md_files_value cwd base s s').
  - exact H.
Qed.

Lemma post_rglob (Wr Rm : region) {B} (select : list string -> bool) (base : Path)
    (k : list Path -> M B) :
  (forall l, (forall p, p ∈ l -> exists r, p = base ++ r /\ r <> [] /\ (".." ∉ r)
                                   /\ select r = true) ->
             post Wr Rm (k l)) ->
  post Wr Rm (bind (rglob cwd select base) k).
Proof.
  intros H.
  apply (post_bind Wr Rm _ _
           (fun l => forall p, p ∈ l -> exists r, p = base ++ r /\ r <> [] /\ (".." ∉ r)
                                          /\ select r = true)).
  - apply post_reads, reads_rglob.
  - intros s l s' Hs Hrun. now apply (rglob_value cwd select base s s').
  - exact H.
Qed.

Lemma post_located (Wr Rm : region) {B} (repo_name : string) (k : Path -> M B) :
  (forall repo, repo ∈ candidates repo_name -> post Wr Rm (k repo)) ->
  post Wr Rm (bind (locate_external_repo cwd repo_name) k).
Proof.
  intros H.
  apply (post_bind Wr Rm _ _ (fun repo => repo ∈ candidates repo_name)).
  - apply post_locate.
  - intros s repo s' _ Hrun. now apply (locate_value cwd repo_name s s').
  - exact H.
Qed.

Lemma post_structure_maswe (Wr Rm : region) :
  (forall q, under (cwd ++ ["docs"; "MASWE"]) q -> Wr q) ->
  (forall q, upto (cwd ++ ["docs"; "MASWE"]) q -> Wr q) ->
  (forall q, strict (cwd ++ ["docs"; "MASWE"]) q -> Rm q) ->
  post Wr Rm (structure_maswe cwd ["docs"]).
Proof.
  intros Hunder Hupto Hstrict. unfold structure_maswe. cbn [app].
  apply post_located. intros repo Hrepo.
  apply post_seq.
  - apply post_clean_and_copy; [exact cwd_plain | discriminate | plain | | auto ..].
    apply (source_apart cwd cwd_plain cwd_name "maswe"); [| exact Hrepo | plain].
    unfold repositories. listed.
  - intros _. apply post_find_md_files. intros files Hfiles.
    apply post_seq; [| intros _; apply post_ret].
    apply post_batch_replace; [exact cwd_plain |].
    intros p Hp. destruct (Hfiles p Hp) as (r & -> & Hne & Hplain).
    rewrite resolve_app, resolve_plain by (exact Hplain || plain).
    apply Hunder. now apply prefix_app_r.
Qed.

Lemma post_structure_masvs (Wr Rm : region) :
  (forall q, under (cwd ++ ["docs"; "MASVS"]) q -> Wr q) ->
  (forall q, upto (cwd ++ ["docs"; "MASVS"]) q -> Wr q) ->
  (forall q, under (cwd ++ ["docs"; "assets"; "MASVS"; "Images"]) q -> Wr q) ->
  (forall q, upto (cwd ++ ["docs"; "assets"; "MASVS"; "Images"]) q -> Wr q) ->
  (forall q, strict (cwd ++ ["docs"; "MASVS"]) q -> Rm q) ->
  post Wr Rm (structure_masvs cwd ["docs"]).
Proof.
  intros Hunder Hupto Himages Himages' Hstrict. unfold structure_masvs. cbn [app].
  assert (Hsub : (cwd ++ ["docs"; "MASVS"]) `prefix_of` (cwd ++ ["docs"; "MASVS"; "controls"])).
  { apply prefix_app. repeat apply prefix_cons. apply prefix_nil. }
  apply post_located. intros repo Hrepo.
  apply post_seq.
  { apply post_clean_and_copy; [exact cwd_plain | discriminate | plain | | auto ..].
    apply (source_apart cwd cwd_plain cwd_name "masvs"); [| exact Hrepo | plain].
    unfold repositories. listed. }
  intros _. apply post_seq.
  { apply post_clean_and_copy; [exact cwd_plain | discriminate | plain | | | |].
    - apply (source_apart cwd cwd_plain cwd_name "masvs"); [| exact Hrepo | plain].
      unfold repositories. listed.
    - intros q Hq. apply Hunder. now apply (under_mono _ _ _ Hsub).
    - intros q Hq. apply upto_cases in Hq as [-> | Hq].
      + apply Hunder. exact Hsub.
      + apply Hupto. rewrite removelast_app in Hq by discriminate. exact Hq.
    - intros q Hq. apply Hstrict. now apply (strict_mono _ _ _ Hsub). }
  intros _. apply post_seq.
  { apply post_mkdir; [exact cwd_plain |]. now rewrite resolve_plain by plain. }
  intros _. apply post_seq.
  { rewrite !resolve_plain by plain. apply post_copytree; auto.
    apply prefix_app_plain; [exact cwd_plain | plain]. }
  intros _. apply post_rglob. intros pages Hpages.
  apply post_seq.
  { apply post_for_each. intros p Hp.
    destruct (Hpages p Hp) as (r & -> & Hne & Hplain & _).
    assert (HW : Wr (resolve cwd (["docs"; "MASVS"] ++ r))).
    { rewrite resolve_app, resolve_plain by (exact Hplain || plain).
      apply Hunder. now apply prefix_app_r. }
    destruct (contains _ _); now apply post_replace_in_file. }
  intros _. apply post_rglob. intros controls Hcontrols.
  apply post_seq; [| intros _; apply post_ret].
  apply post_for_each. intros p Hp.
  destruct (Hcontrols p Hp) as (r & -> & Hne & Hplain & _).
  apply post_prettify_control; [exact cwd_plain |].
  rewrite resolve_app, resolve_plain by (exact Hplain || plain).
  apply Hunder. now apply prefix_app_r.
Qed.

End Futures.

(** ** What the merge removes *)

(** [cwd ++ l] is a prefix of [cwd ++ l'], both written out. *)
Ltac prefixed :=
  first [ reflexivity
        | apply prefix_app; repeat apply prefix_cons; apply prefix_nil
        | apply prefix_app_r; prefixed ].



Section Emptied.

Variable cwd : list string.
Hypothesis cwd_plain : ".." ∉ cwd.
Hypothesis cwd_name : name cwd ∉ repositories.
Variables t t1 : tree.

Lemma replays_ret_bind (W : region) {A B} (a : A) (k : A -> M B) :
  replays t t1 W (k a) -> replays t t1 W (bind (ret a) k).
Proof. apply replays_ext. reflexivity. Qed.

Lemma emptied_strict (D : Path) (q : list string) :
  D ∈ replaced -> strict (cwd ++ D) q -> emptied cwd q.
Proof.
  intros HD [[r ->] Hne]. exists D, r. split; [exact HD |]. split.
  - intros ->. apply Hne. now rewrite app_nil_r.
  - now rewrite app_assoc.
Qed.

Lemma emptied_inv (q : list string) :
  emptied cwd q ->
  exists D r, q = cwd ++ D ++ r /\ r <> []
    /\ ((exists d, d ∈ directories /\ D = ["docs"; "MASTG"; d])
        \/ D = ["docs"; "MASWE"] \/ D = ["docs"; "MASVS"]).
Proof.
  intros (D & r & HD & Hr & ->). exists D, r. repeat split; auto.
  unfold replaced in HD. apply elem_of_app in HD as [HD | HD].
  - apply list_elem_of_fmap in HD as (d & -> & Hd). left. eauto.
  - right. apply elem_of_cons in HD as [-> | HD]; [now left | right].
    now apply list_elem_of_singleton in HD.
Qed.

Lemma replaced_mastg (d : string) : d ∈ directories -> ["docs"; "MASTG"; d] ∈ replaced.
Proof.
  intros Hd. apply elem_of_app. left.
  apply (list_elem_of_fmap_2 (fun d => ["docs"; "MASTG"; d])), Hd.
Qed.

Lemma replaced_maswe : ["docs"; "MASWE"] ∈ replaced.
Proof. apply elem_of_app. right. listed. Qed.

Lemma replaced_masvs : ["docs"; "MASVS"] ∈ replaced.
Proof. apply elem_of_app. right. listed. Qed.

Lemma emptied_below (D D' : Path) (q : list string) :
  D ∈ replaced -> D `prefix_of` D' -> strict (cwd ++ D') q -> emptied cwd q.
Proof.
  intros HD Hpre Hq. apply (emptied_strict D); [exact HD |].
  apply (strict_mono _ (cwd ++ D')); [now apply prefix_app | exact Hq].
Qed.

Lemma chapter_not_directory (nm : string) :
  startswith "0x0" nm = true -> nm ∉ directories.
Proof.
  intros H Hd. unfold directories in Hd.
  repeat (apply elem_of_cons in Hd as [-> | Hd]; [discriminate H |]).
  now apply elem_of_nil in Hd.
Qed.

(** The directories made on the way are not among those removed. *)
Lemma upto_not_emptied (rel : Path) (q : list string) :
  (forall D r, D ∈ replaced -> r <> [] -> ~ (D ++ r) `prefix_of` rel) ->
  upto (cwd ++ rel) q -> ~ emptied cwd q.
Proof.
  intros Hrel [Hq _] (D & r & HD & Hr & ->).
  apply prefix_app_inv in Hq. now apply (Hrel D r).
Qed.

End Emptied.

(** ** Places below the working directory *)

(** The rules for paths below the working directory, with the places
    written out. *)
Section PlacesBelow.

Variable cwd : list string.
Hypothesis cwd_plain : ".." ∉ cwd.

Lemma plain_app (p r : Path) : ".." ∉ p -> ".." ∉ r -> ".." ∉ p ++ r.
Proof. intros Hp Hr H. apply elem_of_app in H as [H | H]; auto. Qed.

Lemma resolve_under (base r : Path) :
  ".." ∉ base -> ".." ∉ r -> resolve cwd (base ++ r) = cwd ++ base ++ r.
Proof. intros Hb Hr. apply resolve_plain. now apply plain_app. Qed.

Lemma absorbs_mkdir_at (P C : region) (p : Path) :
  ".." ∉ p -> absorbs P (upto (cwd ++ p)) C (upto (cwd ++ p)) (mkdir cwd p).
Proof. intros Hp. rewrite <- (resolve_plain cwd p Hp). apply absorbs_mkdir. Qed.

Lemma post_mkdir_at (Wr Rm : region) (p : Path) :
  ".." ∉ p -> (forall q, upto (cwd ++ p) q -> Wr q) -> post Wr Rm (mkdir cwd p).
Proof.
  intros Hp HW. apply post_mkdir; [exact cwd_plain |]. now rewrite resolve_plain.
Qed.

Lemma local_mkdir_at (P : region) (p : Path) :
  ".." ∉ p -> (forall q, upto (cwd ++ p) q -> P q) -> local P (mkdir cwd p).
Proof. intros Hp HP. apply local_mkdir. now rewrite resolve_plain. Qed.

Lemma absorbs_copytree_at (P K : region) (src dst : Path) :
  ".." ∉ src -> ".." ∉ dst ->
  (forall q, under (cwd ++ src) q -> P q) -> (forall q, upto (cwd ++ dst) q -> P q) ->
  absorbs P K (under (cwd ++ dst))
    (fun q => under (cwd ++ dst) q \/ upto (cwd ++ dst) q)
    (fs_update (copytree (resolve cwd src) (resolve cwd dst))).
Proof.
  intros Hs Hd HPs HPd. rewrite (resolve_plain cwd src Hs), (resolve_plain cwd dst Hd).
  now apply absorbs_copytree.
Qed.

Lemma post_copytree_at (Wr Rm : region) (src : list string) (dst : Path) :
  ".." ∉ dst ->
  (forall q, under (cwd ++ dst) q -> Wr q) -> (forall q, upto (cwd ++ dst) q -> Wr q) ->
  post Wr Rm (fs_update (copytree src (resolve cwd dst))).
Proof.
  intros Hd Hu Hp. rewrite (resolve_plain cwd dst Hd).
  apply post_copytree; auto. now apply prefix_app_plain.
Qed.

Lemma local_exists_at (P : region) (p : Path) :
  ".." ∉ p -> P (cwd ++ p) -> local P (exists_ cwd p).
Proof. intros Hp HP. apply local_exists. now rewrite resolve_plain. Qed.

Lemma local_rglob_at (P : region) (select : list string -> bool) (base : Path) :
  ".." ∉ base -> (forall q, under (cwd ++ base) q -> P q) ->
  local P (rglob cwd select base).
Proof. intros Hb HP. apply local_rglob. now rewrite resolve_plain. Qed.

Lemma absorbs_clean_and_copy_at (P C : region) (src dst : Path) :
  dst <> [] -> ".." ∉ dst -> apart (resolve cwd src) (cwd ++ dst) ->
  (forall q, under (resolve cwd src) q -> P q) ->
  (forall q, upto (cwd ++ removelast dst) q -> P q) ->
  absorbs P (fun q => q = cwd ++ dst) C
    (fun q => under (cwd ++ dst) q \/ upto (cwd ++ dst) q)
    (clean_and_copy cwd src dst).
Proof.
  intros Hne Hplain Hapart HPs HPd. apply absorbs_clean_and_copy; auto.
  intros q Hq. rewrite removelast_app in Hq by exact Hne. now apply HPd.
Qed.

(** A page below [base]. *)
Lemma post_replace_under (Wr Rm : region) (base r : Path) (old new : string) :
  ".." ∉ base -> ".." ∉ r -> (forall q, under (cwd ++ base) q -> Wr q) ->
  post Wr Rm (replace_in_file cwd (base ++ r) old new).
Proof.
  intros Hb Hr HW. apply post_replace_in_file; [exact cwd_plain |].
  rewrite resolve_under by assumption. apply HW. rewrite app_assoc. now apply prefix_app_r.
Qed.

Lemma local_replace_under (P : region) (base r : Path) (old new : string) :
  ".." ∉ base -> ".." ∉ r -> r <> [] -> (forall q, under (cwd ++ base) q -> P q) ->
  local P (replace_in_file cwd (base ++ r) old new).
Proof.
  intros Hb Hr Hne HP. apply local_replace_in_file; rewrite resolve_under by assumption.
  - apply HP. rewrite app_assoc. now apply prefix_app_r.
  - apply HP. rewrite app_assoc. now apply removelast_under.
Qed.

Lemma post_prettify_under (Wr Rm : region) (base r : Path) :
  ".." ∉ base -> ".." ∉ r -> (forall q, under (cwd ++ base) q -> Wr q) ->
  post Wr Rm (prettify_control cwd (base ++ r)).
Proof.
  intros Hb Hr HW. apply post_prettify_control; [exact cwd_plain |].
  rewrite resolve_under by assumption. apply HW. rewrite app_assoc. now apply prefix_app_r.
Qed.

Lemma local_prettify_under (P : region) (base r : Path) :
  ".." ∉ base -> ".." ∉ r -> r <> [] -> (forall q, under (cwd ++ base) q -> P q) ->
  local P (prettify_control cwd (base ++ r)).
Proof.
  intros Hb Hr Hne HP. apply local_prettify_control; rewrite resolve_under by assumption.
  - apply HP. rewrite app_assoc. now apply prefix_app_r.
  - apply HP. rewrite app_assoc. now apply removelast_under.
Qed.

(** A loop over listed pages. *)
Lemma post_pages (Wr Rm : region) (base : Path) (Q : Path -> Prop)
    (l : list Path) (body : Path -> M unit) :
  (forall p, p ∈ l -> exists r, p = base ++ r /\ Q r) ->
  (forall r, Q r -> post Wr Rm (body (base ++ r))) ->
  post Wr Rm (for_each l body).
Proof.
  intros Hl H. apply post_for_each. intros p Hp.
  destruct (Hl p Hp) as (r & -> & Hr). now apply H.
Qed.

Lemma local_pages (P : region) (base : Path) (Q : Path -> Prop)
    (l : list Path) (body : Path -> M unit) :
  (forall p, p ∈ l -> exists r, p = base ++ r /\ Q r) ->
  (forall r, Q r -> local P (body (base ++ r))) ->
  (forall r, Q r -> post (fun _ => True) (fun _ => True) (body (base ++ r))) ->
  local P (for_each l body).
Proof.
  intros Hl H H'. apply (local_for_each P (fun _ => True) (fun _ => True)).
  - intros p Hp. destruct (Hl p Hp) as (r & -> & Hr). now apply H.
  - intros p Hp. destruct (Hl p Hp) as (r & -> & Hr). now apply H'.
Qed.

(** Two places below the working directory that are apart. *)
Lemma not_under_apart (a b : Path) (q : list string) :
  apart a b -> under (cwd ++ a) q -> ~ under (cwd ++ b) q.
Proof. intros H Ha Hb. apply (apart_under _ _ q (apart_app cwd a b H)); assumption. Qed.

Lemma not_under_upto (a b : Path) (q : list string) :
  ~ b `prefix_of` a -> upto (cwd ++ a) q -> ~ under (cwd ++ b) q.
Proof.
  intros H [Ha _] Hb. apply H. apply (prefix_app_inv cwd). now transitivity q.
Qed.

End PlacesBelow.

Section ReplayHere.

Variables t t1 : tree.

(** A step that reads and writes where the runs agree. *)
Lemma replays_step (W Rm : region) {A B} (m : M A) (k : A -> M B) (Q : A -> Prop) :
  local W m -> post W Rm m ->
  (forall s a s', sound (files s) -> m s = Return (a, s') -> Q a) ->
  (forall a, Q a -> replays t t1 W (k a)) ->
  replays t t1 W (bind m k).
Proof. intros Hl Hp HQ Hk. apply (replays_local t t1 W W W Rm m k Q); auto. Qed.

Lemma replays_step_seq (W Rm : region) {A B} (m : M A) (k : A -> M B) :
  local W m -> post W Rm m -> (forall a, replays t t1 W (k a)) ->
  replays t t1 W (bind m k).
Proof. intros Hl Hp Hk. apply (replays_step W Rm m k (fun _ => True)); auto. Qed.

Lemma replays_ret_bind' (W : region) {A B} (a : A) (k : A -> M B) :
  replays t t1 W (k a) -> replays t t1 W (bind (ret a) k).
Proof. apply replays_ext. reflexivity. Qed.

End ReplayHere.

(** ** The sources of [structure_mastg] *)

Ltac plainly :=
  first [ assumption
        | apply not_elem_of_nil
        | apply not_elem_of_cons; split; [first [discriminate | congruence] | plainly]
        | apply plain_app; plainly ].

Section Sources.

Variable cwd : list string.
Hypothesis cwd_plain : ".." ∉ cwd.
Hypothesis cwd_name : name cwd ∉ repositories.

Lemma sourced_self (repo : Path) : sourced repo repo.
Proof. exists []. split; [now rewrite app_nil_r | apply not_elem_of_nil]. Qed.

Lemma sourced_app (repo p r : Path) :
  sourced repo p -> ".." ∉ r -> sourced repo (p ++ r).
Proof.
  intros (rest & -> & Hrest) Hr. exists (rest ++ r).
  split; [now rewrite app_assoc | now apply plain_app].
Qed.

Lemma static_sourced (nm : string) (repo p : Path) (q : list string) :
  nm ∈ repositories -> repo ∈ candidates nm -> sourced repo p ->
  under (resolve cwd p) q -> static cwd q.
Proof.
  intros Hnm Hrepo (rest & -> & Hrest).
  now apply (static_source cwd cwd_plain cwd_name nm).
Qed.

Lemma apart_sourced (nm : string) (repo p rel : Path) :
  nm ∈ repositories -> repo ∈ candidates nm -> sourced repo p ->
  apart (resolve cwd p) (cwd ++ "docs" :: rel).
Proof.
  intros Hnm Hrepo (rest & -> & Hrest).
  now apply (source_apart cwd cwd_plain cwd_name nm).
Qed.

Lemma chapter_inv (r : list string) :
  is_chapter_md r = true -> exists nm, r = [nm] /\ startswith "0x0" nm = true.
Proof.
  unfold is_chapter_md. intros H.
  apply andb_true_iff in H as [H _]. apply andb_true_iff in H as [Hlen H].
  destruct r as [|nm [|? ?]]; try discriminate Hlen. exists nm. auto.
Qed.

Lemma name_snoc (p : Path) (nm : string) : name (p ++ [nm]) = nm.
Proof. unfold name. apply last_last. Qed.

Lemma last_resolve (p : Path) (nm : string) :
  nm <> ".." -> List.last (resolve cwd (p ++ [nm])) EmptyString = nm.
Proof.
  intros Hnm. rewrite resolve_app by plainly. apply last_last.
Qed.

Lemma upto_split (a b q : list string) : upto (a ++ b) q -> upto a q \/ under a q.
Proof.
  intros [Hq Hne]. destruct (prefix_weak_total q a (a ++ b)) as [H | H]; auto.
  - now apply prefix_app_r.
  - left. split; assumption.
Qed.

Lemma bind_if_loop {A B} (b : bool) (m : M (list A)) (body : A -> M unit)
    (k : unit -> M B) (s : state) :
  bind (if b then bind m (fun l => for_each l body) else ret tt) k s
  = bind (if b then m else ret []) (fun l => bind (for_each l body) k) s.
Proof. destruct b; [apply bind_assoc | reflexivity]. Qed.

Lemma bind_assoc_under {A B C D} (m : M A) (f : A -> M B) (k1 : B -> M C)
    (k2 : C -> M D) (s : state) :
  bind m (fun a => bind (bind (f a) k1) k2) s
  = bind m (fun a => bind (f a) (fun b => bind (k1 b) k2)) s.
Proof.
  unfold bind. destruct (m s) as [[a s1]|e]; [| reflexivity].
  destruct (f a s1) as [[b s2]|e]; reflexivity.
Qed.

(** *** The beta tests *)

Lemma post_beta_file (Wr Rm : region) (beta r : Path) :
  ".." ∉ r -> r <> [] ->
  (forall q, under (cwd ++ ["docs"; "MASTG"; "tests"]) q -> Wr q) ->
  (forall q, upto (cwd ++ ["docs"; "MASTG"; "tests"]) q -> Wr q) ->
  post Wr Rm
    (do regular <- is_file cwd (beta ++ r);
     if regular
     then mkdir cwd (parent ("docs" :: "MASTG" :: "tests"
                               :: List.skipn (length beta) (beta ++ r))) ;;
          fs_update (copy_file (resolve cwd (beta ++ r))
                       (resolve cwd ("docs" :: "MASTG" :: "tests"
                                       :: List.skipn (length beta) (beta ++ r))))
     else ret tt).
Proof.
  intros Hr Hne Hunder Hupto. rewrite drop_app_length.
  change ("docs" :: "MASTG" :: "tests" :: r) with (["docs"; "MASTG"; "tests"] ++ r).
  assert (Hdst : resolve cwd (["docs"; "MASTG"; "tests"] ++ r)
                 = (cwd ++ ["docs"; "MASTG"; "tests"]) ++ r).
  { rewrite resolve_under by plainly. apply app_assoc. }
  apply post_seq; [apply post_reads, reads_is_file | intros regular].
  destruct regular; [| apply post_ret].
  apply post_seq; [| intros _].
  - unfold parent. rewrite removelast_app by exact Hne.
    apply post_mkdir_at; [exact cwd_plain | |].
    + apply plain_app; [plainly | now apply removelast_plain].
    + intros q Hq. rewrite app_assoc in Hq. apply upto_split in Hq as [Hq | Hq]; auto.
  - rewrite Hdst. apply post_copy_file.
    + apply plain_app; [apply plain_app; [exact cwd_plain | plainly] | exact Hr].
    + apply Hunder. now apply prefix_app_r.
    + apply Hunder. rewrite <- app_assoc. now apply prefix_app_r.
Qed.

Lemma local_beta_file (P : region) (beta r : Path) :
  ".." ∉ r -> r <> [] -> P (resolve cwd (beta ++ r)) ->
  (forall q, under (cwd ++ ["docs"; "MASTG"; "tests"]) q -> P q) ->
  (forall q, upto (cwd ++ ["docs"; "MASTG"; "tests"]) q -> P q) ->
  local P
    (do regular <- is_file cwd (beta ++ r);
     if regular
     then mkdir cwd (parent ("docs" :: "MASTG" :: "tests"
                               :: List.skipn (length beta) (beta ++ r))) ;;
          fs_update (copy_file (resolve cwd (beta ++ r))
                       (resolve cwd ("docs" :: "MASTG" :: "tests"
                                       :: List.skipn (length beta) (beta ++ r))))
     else ret tt).
Proof.
  intros Hr Hne Hsrc Hunder Hupto. rewrite drop_app_length.
  change ("docs" :: "MASTG" :: "tests" :: r) with (["docs"; "MASTG"; "tests"] ++ r).
  assert (Hdst : resolve cwd (["docs"; "MASTG"; "tests"] ++ r)
                 = (cwd ++ ["docs"; "MASTG"; "tests"]) ++ r).
  { rewrite resolve_under by plainly. apply app_assoc. }
  apply (local_seq P (fun _ => True) (fun _ => True));
    [now apply local_is_file | apply post_reads, reads_is_file | intros regular].
  destruct regular; [| apply local_ret].
  assert (Hparent : forall q, upto (cwd ++ ["docs"; "MASTG"; "tests"] ++ removelast r) q
                              -> P q).
  { intros q Hq. rewrite app_assoc in Hq. apply upto_split in Hq as [Hq | Hq]; auto. }
  apply (local_seq P (fun _ => True) (fun _ => True)); [| | intros _].
  - unfold parent. rewrite removelast_app by exact Hne.
    apply local_mkdir_at; [| exact Hparent].
    apply plain_app; [plainly | now apply removelast_plain].
  - unfold parent. rewrite removelast_app by exact Hne.
    apply post_mkdir_at; [exact cwd_plain | | auto].
    apply plain_app; [plainly | now apply removelast_plain].
  - rewrite Hdst. apply local_copy_file.
    + exact Hsrc.
    + apply Hunder. now apply prefix_app_r.
    + apply Hunder. rewrite <- app_assoc. now apply prefix_app_r.
    + apply Hunder. now apply removelast_under.
Qed.

(** *** The index page *)

Lemma post_index (Wr Rm : region) (c : bool) (message : string) (src : Path) :
  (forall q, index_pages cwd q -> Wr q) ->
  post Wr Rm
    (if c
     then log_record WARNING message ;;
          fs_update (write_text (resolve cwd ["docs"; "MASTG"; "index.md"]) minimal_index)
     else fs_update (copy_file (resolve cwd (src ++ ["index.md"]))
                       (resolve cwd ["docs"; "MASTG"; "index.md"]))).
Proof.
  intros HW. rewrite (resolve_plain cwd ["docs"; "MASTG"; "index.md"]) by plainly.
  assert (Hplain : ".." ∉ cwd ++ ["docs"; "MASTG"; "index.md"]).
  { apply plain_app; [exact cwd_plain | plainly]. }
  destruct c.
  - apply post_seq; [apply post_reads, reads_log | intros _].
    apply post_write_text; [exact Hplain |]. apply HW. now left.
  - apply post_copy_file; [exact Hplain | apply HW; now left |].
    rewrite last_resolve by discriminate. apply HW. right.
    now rewrite <- app_assoc.
Qed.

Lemma absorbs_index (P C : region) (c : bool) (message : string) (src : Path) :
  P (resolve cwd (src ++ ["index.md"])) -> P (cwd ++ ["docs"; "MASTG"]) ->
  absorbs P (index_pages cwd) C (index_pages cwd)
    (if c
     then log_record WARNING message ;;
          fs_update (write_text (resolve cwd ["docs"; "MASTG"; "index.md"]) minimal_index)
     else fs_update (copy_file (resolve cwd (src ++ ["index.md"]))
                       (resolve cwd ["docs"; "MASTG"; "index.md"]))).
Proof.
  intros Hsrc Hparent. rewrite (resolve_plain cwd ["docs"; "MASTG"; "index.md"]) by plainly.
  assert (E : removelast (cwd ++ ["docs"; "MASTG"; "index.md"]) = cwd ++ ["docs"; "MASTG"]).
  { now rewrite removelast_app by discriminate. }
  apply absorbs_if.
  - apply absorbs_log.
    apply (absorbs_weaken P P (fun q => q = cwd ++ ["docs"; "MASTG"; "index.md"]) _
             C C (under (cwd ++ ["docs"; "MASTG"; "index.md"]))); auto.
    + intros q ->. now left.
    + intros q [-> | ->]; unfold under; prefixed.
    + apply write_text_below. now rewrite E.
  - apply (absorbs_weaken P P
             (fun q => q = cwd ++ ["docs"; "MASTG"; "index.md"]
                       \/ q = (cwd ++ ["docs"; "MASTG"; "index.md"])
                              ++ [List.last (resolve cwd (src ++ ["index.md"])) EmptyString])
             _ C C
             (fun q => q = cwd ++ ["docs"; "MASTG"; "index.md"]
                       \/ q = (cwd ++ ["docs"; "MASTG"; "index.md"])
                              ++ [List.last (resolve cwd (src ++ ["index.md"])) EmptyString]));
      auto.
    + rewrite last_resolve by discriminate. rewrite <- app_assoc. auto.
    + rewrite last_resolve by discriminate. rewrite <- app_assoc. auto.
    + apply absorbs_copy_file; [exact Hsrc | now rewrite E].
Qed.

(** *** A chapter *)

Lemma post_chapter (Wr Rm : region) (doc : Path) (nm : string) :
  nm <> ".." -> (forall q, chapter_pages cwd (doc ++ [nm]) q -> Wr q) ->
  post Wr Rm
    (fs_update (copy_file (resolve cwd (doc ++ [nm]))
                  (resolve cwd ["docs"; "MASTG"; name (doc ++ [nm])]))).
Proof.
  intros Hnm HW. unfold chapter_pages in HW. rewrite name_snoc in *.
  rewrite (resolve_plain cwd ["docs"; "MASTG"; nm]) by plainly.
  apply post_copy_file.
  - apply plain_app; [exact cwd_plain | plainly].
  - apply HW. now left.
  - rewrite last_resolve by exact Hnm. apply HW. right. now rewrite <- app_assoc.
Qed.

Lemma absorbs_chapter (P C : region) (doc : Path) (nm : string) :
  nm <> ".." -> P (resolve cwd (doc ++ [nm])) -> P (cwd ++ ["docs"; "MASTG"]) ->
  absorbs P (chapter_pages cwd (doc ++ [nm])) C (chapter_pages cwd (doc ++ [nm]))
    (fs_update (copy_file (resolve cwd (doc ++ [nm]))
                  (resolve cwd ["docs"; "MASTG"; name (doc ++ [nm])]))).
Proof.
  intros Hnm Hsrc Hparent. unfold chapter_pages. rewrite name_snoc.
  rewrite (resolve_plain cwd ["docs"; "MASTG"; nm]) by plainly.
  assert (E : removelast (cwd ++ ["docs"; "MASTG"; nm]) = cwd ++ ["docs"; "MASTG"]).
  { now rewrite removelast_app by discriminate. }
  apply (absorbs_weaken P P
           (fun q => q = cwd ++ ["docs"; "MASTG"; nm]
                     \/ q = (cwd ++ ["docs"; "MASTG"; nm])
                            ++ [List.last (resolve cwd (doc ++ [nm])) EmptyString])
           _ C C
           (fun q => q = cwd ++ ["docs"; "MASTG"; nm]
                     \/ q = (cwd ++ ["docs"; "MASTG"; nm])
                            ++ [List.last (resolve cwd (doc ++ [nm])) EmptyString]));
    auto.
  - rewrite last_resolve by exact Hnm. rewrite <- app_assoc. auto.
  - rewrite last_resolve by exact Hnm. rewrite <- app_assoc. auto.
  - apply absorbs_copy_file; [exact Hsrc | now rewrite E].
Qed.

(** *** The images *)

Lemma post_images (Wr Rm : region) (c : bool) (message : string) (src : list string) :
  (forall q, under (cwd ++ ["docs"; "assets"; "Images"]) q -> Wr q) ->
  (forall q, upto (cwd ++ ["docs"; "assets"; "Images"]) q -> Wr q) ->
  post Wr Rm
    (if c
     then fs_update (copytree src (resolve cwd ["docs"; "assets"; "Images"]))
     else log_record WARNING message ;; mkdir cwd ["docs"; "assets"; "Images"]).
Proof.
  intros Hunder Hupto. destruct c.
  - apply post_copytree_at; [exact cwd_plain | plainly | auto ..].
  - apply post_seq; [apply post_reads, reads_log | intros _].
    apply post_mkdir_at; [exact cwd_plain | plainly | auto].
Qed.

Lemma absorbs_images (P K : region) (c : bool) (message : string) (src : list string) :
  (forall q, under src q -> P q) ->
  (forall q, upto (cwd ++ ["docs"; "assets"; "Images"]) q -> P q) ->
  absorbs P K (under (cwd ++ ["docs"; "assets"; "Images"]))
    (fun q => under (cwd ++ ["docs"; "assets"; "Images"]) q
              \/ upto (cwd ++ ["docs"; "assets"; "Images"]) q)
    (if c
     then fs_update (copytree src (resolve cwd ["docs"; "assets"; "Images"]))
     else log_record WARNING message ;; mkdir cwd ["docs"; "assets"; "Images"]).
Proof.
  intros HPs HPd. apply absorbs_if.
  - rewrite (resolve_plain cwd ["docs"; "assets"; "Images"]) by plainly.
    now apply absorbs_copytree.
  - apply absorbs_log.
    set (D := cwd ++ ["docs"; "assets"; "Images"]).
    assert (H : absorbs P (upto D) (under D) (fun q => upto D q \/ under D q)
                  (mkdir cwd ["docs"; "assets"; "Images"])).
    { apply (absorbs_widen P (upto D) (under D) (upto D) (under D) (fun _ => True)); auto.
      - apply absorbs_mkdir_at. plainly.
      - apply post_mkdir_at; [exact cwd_plain | plainly | auto]. }
    intros x y a x' Hx Hy Hxy Hrun _ HC.
    destruct (H x y a x' Hx Hy Hxy Hrun) as (y' & Hy' & Hxy');
      [intros q Hq; left; apply Hxy, HPd, Hq | exact HC |].
    exists y'. split; [exact Hy' |]. intros q [Hq | Hq]; apply Hxy'; auto.
Qed.

End Sources.

Section FixPagesStage.

Variable cwd : list string.
Hypothesis cwd_plain : ".." ∉ cwd.
Variables t t1 : tree.

Lemma replays_stage_fix_pages (Rs : list region) (WrF RmF : region) (base : Path)
    (replacements : list (string * string)) {B C}
    (kk : list Path -> M C) (k : unit -> M B) (k' : B -> M C) :
  (forall files s, kk files s
                   = bind (batch_replace cwd files replacements)
                       (fun u => bind (k u) k') s) ->
  ".." ∉ base -> replacements <> [] ->
  (forall u, post WrF RmF (bind (k u) k')) ->
  (forall q, under (cwd ++ base) q -> ~ WrF q) ->
  (forall r c, ~ stage Rs (cwd ++ base ++ r) -> t !! (cwd ++ base ++ r) = Some (File c) ->
               is_md r = true -> visible (base ++ r) = true ->
               fix_page replacements (fix_page replacements c)
               = fix_page replacements c) ->
  (forall u, replays t t1 (stage (under (cwd ++ base) :: Rs)) (bind (k u) k')) ->
  replays t t1 (stage Rs) (bind (find_md_files cwd base) kk).
Proof.
  intros Hkk Hbase Hreps Hpost HWr Hstable Hend.
  apply (replays_ext t t1 (stage Rs)
           (do files <- find_md_files cwd base;
            bind (batch_replace cwd files replacements) (fun u => bind (k u) k'))).
  { intros s. change (bind (find_md_files cwd base) kk s)
      with (match find_md_files cwd base s with
            | Return (l, s1) => kk l s1
            | Raise e => Raise e
            end).
    change (match find_md_files cwd base s with
            | Return (l, s1) =>
                bind (batch_replace cwd l replacements) (fun u => bind (k u) k') s1
            | Raise e => Raise e
            end
            = match find_md_files cwd base s with
              | Return (l, s1) => kk l s1
              | Raise e => Raise e
              end).
    destruct (find_md_files cwd base s) as [[l s1]|e]; [| reflexivity].
    symmetry. apply Hkk. }
  apply (replays_fix_pages cwd cwd_plain t t1 (stage Rs) WrF RmF); auto.
  intros u. apply (replays_equiv t t1 (stage (under (cwd ++ base) :: Rs))); [| apply Hend].
  intros q. apply stage_cons.
Qed.

End FixPagesStage.

(** ** Checked trees *)

Section Checked.

Lemma check_plain_sound (t : tree) : check_plain t = true -> plain_tree t.
Proof.
  unfold check_plain. rewrite forallb_forall. intros Hc q n Hq.
  specialize (Hc (q, n)). cbn [fst] in Hc.
  apply negb_true_iff, bool_decide_eq_false in Hc; [exact Hc |].
  apply list_elem_of_In, elem_of_map_to_list. exact Hq.
Qed.

Lemma check_sound_sound (t : tree) : check_sound t = true -> sound t.
Proof.
  unfold check_sound. intros H.
  apply andb_true_iff in H as [H Hroot]. apply andb_true_iff in H as [Hwf Hplain].
  split; [now apply check_well_formed_sound |].
  split; [now apply check_plain_sound | now apply bool_decide_eq_true in Hroot].
Qed.

Lemma example_tree_sound : sound example_tree.
Proof. apply check_sound_sound. vm_compute. reflexivity. Qed.

Lemma example_maswe_apart :
  apart (resolve ["site"] ["repos"; "maswe"; "weaknesses"]) (["site"] ++ ["docs"; "MASWE"]).
Proof. split; intros H; apply prefix_cons_inv_2, prefix_cons_inv_1 in H; discriminate. Qed.

End Checked.

(** ** [clean_and_copy] with a source *)

(** X1. What a [clean_and_copy] that returns has made, for a source
    and a destination without [..] (both below the working directory), of
    which neither lies in the other: below the destination stands exactly
    what stands below the source (nothing of the destination's earlier
    content is left, and a missing source leaves it empty), the
    destination and the directories above it exist, and every other
    location, the source among them, is as it was. *)
Theorem clean_and_copy_copies
    (cwd : list string) (source destination : Path) (s s' : state) (u : unit) :
  ".." ∉ cwd -> ".." ∉ source -> destination <> [] -> ".." ∉ destination ->
  apart (cwd ++ source) (cwd ++ destination) ->
  sound (files s) ->
  clean_and_copy cwd source destination s = Return (u, s') ->
  (forall r, r <> [] ->
     files s' !! (cwd ++ destination ++ r) = files s !! (cwd ++ source ++ r))
  /\ (forall q, q <> [] -> q `prefix_of` cwd ++ destination -> files s' !! q = Some Dir)
  /\ (forall q, ~ (cwd ++ destination) `prefix_of` q ->
                ~ q `prefix_of` (cwd ++ destination) -> files s' !! q = files s !! q)
  /\ (forall r, files s' !! (cwd ++ source ++ r) = files s !! (cwd ++ source ++ r)).
Proof.
  intros Hcwd Hsrc Hne Hplain Hapart Hs Hrun.
  rewrite <- (resolve_plain cwd source Hsrc) in Hapart.
  destruct (clean_and_copy_inv cwd Hcwd source destination Hne Hplain Hapart s s' u Hs Hrun)
    as (_ & _ & Hcopy & Hmade & Hrest).
  rewrite (resolve_plain cwd source Hsrc) in *.
  split; [| split; [| split]].
  - intros r Hr. rewrite !app_assoc, Hcopy. now destruct (decide (r = [])).
  - intros q Hq Hpre. apply Hmade. split; assumption.
  - intros q Hu Hp. apply Hrest; [exact Hu |]. intros [Hq _]. contradiction.
  - intros r. rewrite app_assoc. rewrite <- (resolve_plain cwd source Hsrc) in *. apply Hrest.
    + apply (S_not_under cwd source destination Hapart).
    + apply (S_not_upto cwd source destination Hapart).
Qed.

Lemma clean_and_copy_copies_witness :
  exists s',
    clean_and_copy ["site"] ["repos"; "maswe"; "weaknesses"] ["docs"; "MASWE"]
      {| files := example_tree_stale_maswe; log := [] |} = Return (tt, s')
    /\ files s' !! ["site"; "docs"; "MASWE"; "w.md"] = Some (File "see Document/tests")
    /\ files s' !! ["site"; "docs"; "MASWE"; "old.md"] = None.
Proof.
  set (s := {| files := example_tree_stale_maswe; log := [] |}).
  assert (Hs : sound (files s)) by (apply check_sound_sound; vm_compute; reflexivity).
  assert (Hapart : apart (["site"] ++ ["repos"; "maswe"; "weaknesses"])
                     (["site"] ++ ["docs"; "MASWE"])).
  { split; intros H; apply prefix_cons_inv_2, prefix_cons_inv_1 in H; discriminate. }
  assert (Hplain : ".." ∉ ["docs"; "MASWE"]) by plain.
  assert (Hsrc : ".." ∉ ["repos"; "maswe"; "weaknesses"]) by plain.
  assert (Hcwd : ".." ∉ ["site"]) by plain.
  destruct (clean_and_copy_run ["site"] Hcwd ["repos"; "maswe"; "weaknesses"]
              ["docs"; "MASWE"] ltac:(discriminate) Hplain Hapart s Hs) as [s' Hrun].
  { intros q c [Hq _]. apply check_no_file_sound with (k := ["site"; "docs"; "MASWE"]);
      [vm_compute; reflexivity | exact Hq]. }
  { intros c. vm_compute. discriminate. }
  exists s'. split; [exact Hrun |].
  destruct (clean_and_copy_copies ["site"] ["repos"; "maswe"; "weaknesses"]
              ["docs"; "MASWE"] s s' tt Hcwd Hsrc ltac:(discriminate) Hplain Hapart Hs Hrun)
    as (Hcopy & _).
  split.
  - etransitivity; [apply (Hcopy ["w.md"]); discriminate |]. vm_compute. reflexivity.
  - etransitivity; [apply (Hcopy ["old.md"]); discriminate |]. vm_compute. reflexivity.
Defined.

(** X2. Under the same conditions [clean_and_copy] returns exactly when
    no regular file stands at the destination, at a directory above it,
    or at the source; in every other case it raises. *)
Theorem clean_and_copy_returns
    (cwd : list string) (source destination : Path) (s : state) :
  ".." ∉ cwd -> ".." ∉ source -> destination <> [] -> ".." ∉ destination ->
  apart (cwd ++ source) (cwd ++ destination) ->
  sound (files s) ->
  (exists s', clean_and_copy cwd source destination s = Return (tt, s'))
  <-> ((forall q c, q <> [] -> q `prefix_of` cwd ++ destination ->
                    files s !! q <> Some (File c))
       /\ (forall c, files s !! (cwd ++ source) <> Some (File c))).
Proof.
  intros Hcwd Hsrc Hne Hplain Hapart Hs.
  rewrite <- (resolve_plain cwd source Hsrc) in *. split.
  - intros [s' Hrun].
    destruct (clean_and_copy_inv cwd Hcwd source destination Hne Hplain Hapart s s' tt Hs Hrun)
      as (Hfree & Hsrc' & _).
    split; [| exact Hsrc']. intros q c Hq Hpre. apply Hfree. split; assumption.
  - intros [Hfree Hsrc'].
    apply (clean_and_copy_run cwd Hcwd source destination Hne Hplain Hapart s Hs);
      [| exact Hsrc'].
    intros q c [Hpre Hq]. now apply Hfree.
Qed.

Lemma clean_and_copy_returns_witness :
  exists s',
    clean_and_copy ["site"] ["repos"; "maswe"; "weaknesses"] ["docs"; "MASWE"]
      {| files := example_tree; log := [] |} = Return (tt, s').
Proof.
  apply (clean_and_copy_returns ["site"] ["repos"; "maswe"; "weaknesses"] ["docs"; "MASWE"]
           {| files := example_tree; log := [] |}).
  - plain.
  - plain.
  - discriminate.
  - plain.
  - split; intros H; apply prefix_cons_inv_2, prefix_cons_inv_1 in H; discriminate.
  - apply check_sound_sound. vm_compute. reflexivity.
  - split.
    + intros q c _ Hq. apply check_no_file_sound with (k := ["site"; "docs"; "MASWE"]);
        [vm_compute; reflexivity | exact Hq].
    + intros c. vm_compute. discriminate.
Defined.

(** X3. A second [clean_and_copy] of the same source into the same
    destination, right after the first, returns and leaves the files as
    the first left them. *)
Theorem clean_and_copy_twice
    (cwd : list string) (source destination : Path) (s s' : state) (u : unit) :
  ".." ∉ cwd -> destination <> [] -> ".." ∉ destination ->
  apart (resolve cwd source) (cwd ++ destination) ->
  sound (files s) ->
  clean_and_copy cwd source destination s = Return (u, s') ->
  exists s'', clean_and_copy cwd source destination s' = Return (u, s'')
              /\ files s'' = files s'.
Proof.
  intros Hcwd Hne Hplain Hapart Hs Hrun. destruct u.
  destruct (sound_clean_and_copy cwd Hcwd source destination s tt s' Hs Hrun)
    as (_ & _ & Hs').
  destruct (clean_and_copy_inv cwd Hcwd source destination Hne Hplain Hapart s s' tt Hs Hrun)
    as (_ & Hsrc & Hcopy & Hmade & Hrest).
  assert (Hsame : forall r, files s' !! (resolve cwd source ++ r)
                            = files s !! (resolve cwd source ++ r)).
  { intros r. apply Hrest.
    - apply (S_not_under cwd source destination Hapart).
    - apply (S_not_upto cwd source destination Hapart). }
  destruct (clean_and_copy_run cwd Hcwd source destination Hne Hplain Hapart s' Hs')
    as [s'' Hrun'].
  { intros q c Hq. rewrite (Hmade q Hq). discriminate. }
  { intros c. rewrite <- (app_nil_r (resolve cwd source)), Hsame, app_nil_r. apply Hsrc. }
  exists s''. split; [exact Hrun' |].
  destruct (clean_and_copy_inv cwd Hcwd source destination Hne Hplain Hapart s' s'' tt
              Hs' Hrun') as (_ & _ & Hcopy' & Hmade' & Hrest').
  apply map_eq. intros q.
  destruct (decide ((cwd ++ destination) `prefix_of` q)) as [[r ->] | Hu].
  { rewrite Hcopy', Hcopy. destruct (decide (r = [])); [reflexivity | apply Hsame]. }
  destruct (decide (upto (cwd ++ destination) q)) as [Hp | Hp].
  { now rewrite Hmade', Hmade. }
  now apply Hrest'.
Qed.

Lemma clean_and_copy_twice_witness :
  exists s' s'',
    clean_and_copy ["site"] ["repos"; "maswe"; "weaknesses"] ["docs"; "MASWE"]
      {| files := example_tree; log := [] |} = Return (tt, s')
    /\ clean_and_copy ["site"] ["repos"; "maswe"; "weaknesses"] ["docs"; "MASWE"] s'
       = Return (tt, s'')
    /\ files s'' = files s'.
Proof.
  assert (Hcwd : ".." ∉ ["site"]) by plain.
  assert (Hplain : ".." ∉ ["docs"; "MASWE"]) by plain.
  destruct (clean_and_copy_run ["site"] Hcwd ["repos"; "maswe"; "weaknesses"]
              ["docs"; "MASWE"] ltac:(discriminate) Hplain example_maswe_apart
              {| files := example_tree; log := [] |} example_tree_sound) as [s' Hrun].
  { intros q c [Hq _]. apply check_no_file_sound with (k := ["site"; "docs"; "MASWE"]);
      [vm_compute; reflexivity | exact Hq]. }
  { intros c. vm_compute. discriminate. }
  destruct (clean_and_copy_twice ["site"] ["repos"; "maswe"; "weaknesses"] ["docs"; "MASWE"]
              {| files := example_tree; log := [] |} s' tt) as (s'' & Hrun' & Hsame).
  - plain.
  - discriminate.
  - plain.
  - split; intros H; apply prefix_cons_inv_2, prefix_cons_inv_1 in H; discriminate.
  - apply check_sound_sound. vm_compute. reflexivity.
  - exact Hrun.
  - exists s', s''. auto.
Defined.

(** ** Pages and their replacements *)

Section PageText.

Lemma contains_cons (p : string) (c : ascii) (s : string) :
  contains p (String c s) = false ->
  startswith p (String c s) = false /\ contains p s = false.
Proof.
  intros H. cbn [contains] in H. now apply orb_false_iff in H.
Qed.

Lemma replace_from_absent (old new : string) (s : string) :
  contains old s = false -> replace_from old new 0 s = s.
Proof.
  induction s as [|c s IH]; intros H; [reflexivity |].
  apply contains_cons in H as [Hhere Hrest].
  cbn [replace_from]. rewrite Hhere. f_equal. now apply IH.
Qed.

(** A text in which [old] does not occur is its own replacement. *)
Lemma replace_absent (old new s : string) :
  contains old s = false -> replace old new s = s.
Proof.
  intros H. destruct old as [|a old].
  - destruct s; discriminate H.
  - now apply replace_from_absent.
Qed.

(** A text without carriage return reads as it is. *)
Lemma universal_newlines_plain (s : string) :
  contains CR s = false -> universal_newlines s = s.
Proof.
  induction s as [|c s IH]; intros H; [reflexivity |].
  apply contains_cons in H as [Hhere Hrest].
  cbn [universal_newlines].
  destruct (Ascii.eqb_spec c "013"%char) as [-> | Hc].
  - discriminate Hhere.
  - f_equal. now apply IH.
Qed.

End PageText.

(** ** What a missing location raises *)

Lemma missing_from_file (t : tree) (done rest m : list string) (c : string) :
  well_formed t -> m <> [] -> m `prefix_of` rest ->
  t !! (done ++ m) = Some (File c) ->
  missing_from done rest t = NotADirectoryError.
Proof.
  intros Hwf. revert done m.
  induction rest as [|part rest IH]; intros done m Hm Hpre Hfile.
  - apply prefix_nil_inv in Hpre. contradiction.
  - destruct m as [|x m]; [contradiction |].
    pose proof (prefix_cons_inv_1 _ _ _ _ Hpre) as ->.
    apply prefix_cons_inv_2 in Hpre.
    cbn [missing_from].
    destruct m as [|y m].
    + now rewrite Hfile.
    + assert (Hdir : t !! (done ++ [part]) = Some Dir).
      { apply (Hwf _ _ Hfile).
        - apply prefix_app, prefix_cons, prefix_nil.
        - intros E. apply app_inv_head in E. discriminate E. }
      rewrite Hdir. apply (IH (done ++ [part]) (y :: m)); [discriminate | exact Hpre |].
      now rewrite <- app_assoc.
Qed.

Lemma missing_from_none (t : tree) (done rest : list string) :
  (forall m c, m `prefix_of` rest -> t !! (done ++ m) <> Some (File c)) ->
  missing_from done rest t = FileNotFoundError.
Proof.
  revert done. induction rest as [|part rest IH]; intros done Hnone; [reflexivity |].
  cbn [missing_from].
  destruct (t !! (done ++ [part])) as [[c|]|] eqn:E; [| | reflexivity].
  - exfalso. apply (Hnone [part] c); [| exact E].
    apply prefix_cons, prefix_nil.
  - apply IH. intros m c Hpre. rewrite <- app_assoc.
    apply Hnone. now apply prefix_cons.
Qed.

(** X4. [replace_in_file] at a path without [..]: on a regular file it
    writes back the text it read, line ends translated to line feeds,
    with every occurrence of [old] replaced, and changes nothing else; on
    a directory it raises [IsADirectoryError]; where nothing stands it
    raises [NotADirectoryError] when a regular file stands on the way to
    the path and [FileNotFoundError] otherwise. *)
Theorem replace_in_file_rewrites
    (cwd : list string) (file_path : Path) (old new : string) (s : state) :
  sound (files s) -> ".." ∉ file_path ->
  (forall c, files s !! (cwd ++ file_path) = Some (File c) ->
     replace_in_file cwd file_path old new s
     = Return (tt, {| files := <[cwd ++ file_path :=
                                   File (replace old new (universal_newlines c))]> (files s);
                      log := log s |}))
  /\ (files s !! (cwd ++ file_path) = Some Dir ->
      replace_in_file cwd file_path old new s = Raise IsADirectoryError)
  /\ (files s !! (cwd ++ file_path) = None ->
      (exists q c, q `prefix_of` cwd ++ file_path /\ files s !! q = Some (File c)) ->
      replace_in_file cwd file_path old new s = Raise NotADirectoryError)
  /\ (files s !! (cwd ++ file_path) = None ->
      (forall q c, q `prefix_of` cwd ++ file_path -> files s !! q <> Some (File c)) ->
      replace_in_file cwd file_path old new s = Raise FileNotFoundError).
Proof.
  intros (Hwf & _ & Hroot) Hplain.
  pose proof (resolve_plain cwd file_path Hplain) as Hk.
  split; [| split; [| split]].
  - intros c E. rewrite <- Hk in *.
    apply replace_in_file_run; [exact E |].
    apply (Hwf _ _ E); [apply removelast_prefix |].
    apply removelast_neq. intros H. rewrite H in E. congruence.
  - intros E. unfold replace_in_file, bind, fs_read, read_text. now rewrite Hk, E.
  - intros E (q & c & Hq & Hfile).
    unfold replace_in_file, bind, fs_read, read_text. rewrite Hk, E.
    unfold missing. erewrite (missing_from_file (files s) [] _ q c); auto.
    intros ->. congruence.
  - intros E Hnone.
    unfold replace_in_file, bind, fs_read, read_text. rewrite Hk, E.
    unfold missing. now rewrite missing_from_none.
Qed.

(** X5. A page at a path without [..] that holds neither [old] nor a
    carriage return is left as it is: the state after [replace_in_file]
    is the state before. *)
Theorem replace_in_file_absent
    (cwd : list string) (file_path : Path) (old new c : string) (s : state) :
  sound (files s) -> ".." ∉ file_path ->
  files s !! (cwd ++ file_path) = Some (File c) ->
  contains CR c = false -> contains old c = false ->
  replace_in_file cwd file_path old new s = Return (tt, s).
Proof.
  intros (Hwf & _ & Hroot) Hplain Hc Hcr Hold.
  rewrite <- (resolve_plain cwd file_path Hplain) in Hc.
  rewrite (replace_in_file_run cwd file_path old new c s Hc).
  2: { apply (Hwf _ _ Hc); [apply removelast_prefix |].
       apply removelast_neq. intros H. rewrite H in Hc. congruence. }
  rewrite universal_newlines_plain by exact Hcr.
  rewrite replace_absent by exact Hold.
  rewrite insert_id by exact Hc. now destruct s.
Qed.

Lemma replace_in_file_rewrites_witness :
  exists s',
    replace_in_file ["site"] ["repos"; "maswe"; "weaknesses"; "w.md"] "Document/" "MASTG/"
      {| files := example_tree; log := [] |} = Return (tt, s')
    /\ files s' !! ["site"; "repos"; "maswe"; "weaknesses"; "w.md"]
       = Some (File "see MASTG/tests")
    /\ replace_in_file ["site"] ["docs"; "index.md"; "x.md"] "Document/" "MASTG/"
         {| files := example_tree; log := [] |} = Raise NotADirectoryError
    /\ replace_in_file ["site"] ["docs"; "x.md"] "Document/" "MASTG/"
         {| files := example_tree; log := [] |} = Raise FileNotFoundError.
Proof.
  set (s := {| files := example_tree; log := [] |}).
  assert (E : files s !! (["site"] ++ ["repos"; "maswe"; "weaknesses"; "w.md"])
              = Some (File "see Document/tests")) by (vm_compute; reflexivity).
  destruct (replace_in_file_rewrites ["site"] ["repos"; "maswe"; "weaknesses"; "w.md"]
              "Document/" "MASTG/" s example_tree_sound ltac:(plain)) as [H _].
  eexists. split; [exact (H _ E) |].
  split; [cbn [files]; apply lookup_insert_eq |].
  split.
  - destruct (replace_in_file_rewrites ["site"] ["docs"; "index.md"; "x.md"]
                "Document/" "MASTG/" s example_tree_sound ltac:(plain)) as (_ & _ & Hfile & _).
    apply Hfile; [vm_compute; reflexivity |].
    exists ["site"; "docs"; "index.md"], "# Home".
    split; [| vm_compute; reflexivity].
    exists ["x.md"]. reflexivity.
  - destruct (replace_in_file_rewrites ["site"] ["docs"; "x.md"]
                "Document/" "MASTG/" s example_tree_sound ltac:(plain)) as (_ & _ & _ & Hnone).
    apply Hnone; [vm_compute; reflexivity |].
    intros q c Hq. apply check_no_file_sound with (k := ["site"; "docs"; "x.md"]);
      [vm_compute; reflexivity | exact Hq].
Defined.

Lemma replace_in_file_absent_witness :
  replace_in_file ["site"] ["docs"; "index.md"] "Document/" "MASTG/"
    {| files := example_tree; log := [] |}
  = Return (tt, {| files := example_tree; log := [] |}).
Proof.
  apply (replace_in_file_absent ["site"] ["docs"; "index.md"] "Document/" "MASTG/" "# Home").
  - exact example_tree_sound.
  - plain.
  - vm_compute. reflexivity.
  - vm_compute. reflexivity.
  - vm_compute. reflexivity.
Defined.

(** ** Listing and fixing the pages *)

(** X6. [find_md_files] always returns and leaves the state alone; it
    lists, once each, exactly the entries below [base_dir] (regular files
    and directories alike) whose name ends in [.md] and whose path, as
    [str] gives it, holds neither ["/node_modules/"] nor ["/."]. *)
Theorem find_md_files_lists (cwd : list string) (base_dir : Path) (s : state) :
  sound (files s) ->
  exists l,
    find_md_files cwd base_dir s = Return (l, s)
    /\ NoDup l
    /\ (forall p, p ∈ l <->
          exists r, p = base_dir ++ r /\ r <> []
                    /\ is_Some (files s !! (resolve cwd base_dir ++ r))
                    /\ endswith ".md" (name r) = true
                    /\ contains "/node_modules/" (str_of_path p) = false
                    /\ contains "/." (str_of_path p) = false).
Proof.
  intros Hs. destruct (find_md_files_run cwd base_dir s) as [l Hrun].
  exists l. split; [exact Hrun |].
  destruct (find_md_files_inv cwd base_dir s s l Hrun Hs) as (_ & Hnodup & Hl).
  split; [exact Hnodup |]. intros p. rewrite Hl. unfold visible, is_md, name.
  split.
  - intros (r & -> & Hne & Hr & Hmd & Hvis). exists r.
    apply andb_true_iff in Hvis as [H1 H2].
    apply negb_true_iff in H1, H2. auto 8.
  - intros (r & -> & Hne & Hr & Hmd & H1 & H2). exists r.
    rewrite H1, H2. auto 8.
Qed.

Lemma find_md_files_lists_witness :
  exists l,
    find_md_files ["site"] ["repos"; "mastg"] {| files := example_tree; log := [] |}
    = Return (l, {| files := example_tree; log := [] |})
    /\ ["repos"; "mastg"; "knowledge"; "a.md"] ∈ l
    /\ ["repos"; "mastg"; "Document"; "Images"; "x.png"] ∉ l.
Proof.
  destruct (find_md_files_lists ["site"] ["repos"; "mastg"]
              {| files := example_tree; log := [] |} example_tree_sound)
    as (l & Hrun & _ & Hl).
  exists l. split; [exact Hrun |]. split.
  - apply Hl. exists ["knowledge"; "a.md"]. split; [reflexivity |].
    split; [discriminate |]. split; [| split; [| split]]; try (vm_compute; reflexivity).
    exists (File ("<img src=" +:+ DQUOTE +:+ "Images/x.png" +:+ DQUOTE +:+ "> Document/0x04.md")).
    vm_compute. reflexivity.
  - intros H. apply Hl in H as (r & E & _ & _ & Hmd & _).
    injection E as <-. vm_compute in Hmd. discriminate Hmd.
Defined.

(** X7. A [batch_replace] that returns, over pages at different
    locations and with at least one replacement: every listed page was a
    regular file and now holds its text after all replacements, made in
    the order given, each on the text as it is read back; no other
    location has changed. *)
Theorem batch_replace_fixes
    (cwd : list string) (filepaths : list Path) (replacements : list (string * string))
    (s s' : state) (u : unit) :
  replacements <> [] -> NoDup (map (resolve cwd) filepaths) ->
  batch_replace cwd filepaths replacements s = Return (u, s') ->
  (forall p, In p filepaths ->
     exists c, files s !! resolve cwd p = Some (File c)
               /\ files s' !! resolve cwd p
                  = Some (File (fold_left (fun c '(old, new) =>
                                             replace old new (universal_newlines c))
                                  replacements c)))
  /\ (forall q, ~ In q (map (resolve cwd) filepaths) -> files s' !! q = files s !! q).
Proof.
  intros Hreps Hnodup Hrun.
  destruct (batch_replace_inv cwd replacements filepaths Hreps s s' u Hrun)
    as [Hfix Hframe].
  { exact Hnodup. }
  split.
  - intros p Hp. apply Hfix. now apply list_elem_of_In.
  - intros q Hq. apply Hframe. intros H. apply Hq. now apply list_elem_of_In.
Qed.

Lemma batch_replace_fixes_witness :
  exists s',
    batch_replace ["site"] [["repos"; "maswe"; "weaknesses"; "w.md"]]
      [("Document/", "MASTG/")] {| files := example_tree; log := [] |} = Return (tt, s')
    /\ files s' !! ["site"; "repos"; "maswe"; "weaknesses"; "w.md"]
       = Some (File "see MASTG/tests")
    /\ files s' !! ["site"; "docs"; "index.md"] = Some (File "# Home").
Proof.
  destruct (batch_replace_run ["site"] [("Document/", "MASTG/")]
              [["repos"; "maswe"; "weaknesses"; "w.md"]]
              {| files := example_tree; log := [] |}) as [s' Hrun].
  { intros p Hp. apply list_elem_of_singleton in Hp as ->.
    exists "see Document/tests". vm_compute. reflexivity. }
  { intros p Hp. apply list_elem_of_singleton in Hp as ->. vm_compute. reflexivity. }
  exists s'. split; [exact Hrun |].
  destruct (batch_replace_fixes ["site"] [["repos"; "maswe"; "weaknesses"; "w.md"]]
              [("Document/", "MASTG/")] {| files := example_tree; log := [] |} s' tt)
    as [Hfix Hframe].
  - discriminate.
  - repeat constructor; intros H; inversion H.
  - exact Hrun.
  - split.
    + destruct (Hfix ["repos"; "maswe"; "weaknesses"; "w.md"]) as (c & Hc & Hc');
        [now left |].
      vm_compute in Hc. injection Hc as <-. etransitivity; [exact Hc' |].
      vm_compute. reflexivity.
    + etransitivity; [apply Hframe | vm_compute; reflexivity].
      intros [H | []]. vm_compute in H. discriminate H.
Defined.

(** ** The weaknesses *)

Section FixedPages.

Variable cwd : list string.

(** The pages below [base] after [find_md_files] and [batch_replace]. *)
Lemma fix_pages_inv (base : Path) (replacements : list (string * string))
    (s1 s2 s3 : state) (l : list Path) (u : unit) :
  ".." ∉ base -> replacements <> [] -> sound (files s1) ->
  find_md_files cwd base s1 = Return (l, s2) ->
  batch_replace cwd l replacements s2 = Return (u, s3) ->
  (forall r, r <> [] ->
     files s3 !! ((cwd ++ base) ++ r)
     = match files s1 !! ((cwd ++ base) ++ r) with
       | Some (File c) =>
           Some (File (if is_md r && visible (base ++ r)
                       then fix_page replacements c else c))
       | entry => entry
       end)
  /\ (forall q, ~ strict (cwd ++ base) q -> files s3 !! q = files s1 !! q).
Proof.
  intros Hbase Hreps Hs1 Hfind Hbatch.
  destruct (find_md_files_inv cwd _ s1 s2 l Hfind Hs1) as (-> & Hnodup & Hl).
  rewrite (resolve_plain cwd base Hbase) in Hl.
  assert (Hin : forall p, p ∈ l ->
            exists r, p = base ++ r /\ r <> [] /\ resolve cwd p = (cwd ++ base) ++ r
                      /\ is_md r = true /\ visible (base ++ r) = true).
  { intros p Hp. apply Hl in Hp as (r & -> & Hne & Hr & Hmd & Hvis). exists r.
    assert (Hpr : ".." ∉ r).
    { destruct Hs1 as (_ & Hp1 & _). now apply (plain_below (files s1) (cwd ++ base)). }
    rewrite resolve_under, app_assoc by assumption. auto. }
  assert (Hnd : NoDup (resolve cwd <$> l)).
  { apply NoDup_fmap_2_strong; [| exact Hnodup].
    intros p p' Hp Hp' E. destruct (Hin p Hp) as (r & -> & _ & Er & _).
    destruct (Hin p' Hp') as (r' & -> & _ & Er' & _). rewrite Er, Er' in E.
    now apply app_inv_head in E as ->. }
  destruct (batch_replace_inv cwd replacements l Hreps s1 s3 u Hbatch Hnd)
    as [Hfix Hframe].
  split.
  - intros r Hr.
    destruct (decide ((base ++ r) ∈ l)) as [Hp | Hp].
    + destruct (Hfix _ Hp) as (c & Hc & Hc').
      destruct (Hin _ Hp) as (r' & E & _ & Er & Hmd & Hvis).
      apply app_inv_head in E. subst r'. rewrite Er in Hc, Hc'.
      now rewrite Hc', Hc, Hmd, Hvis.
    + rewrite Hframe.
      * destruct (files s1 !! ((cwd ++ base) ++ r)) as [[c|]|] eqn:E; try reflexivity.
        destruct (is_md r && visible (base ++ r)) eqn:Hsel; [| reflexivity].
        exfalso. apply Hp, Hl. exists r. apply andb_true_iff in Hsel as [Hmd Hvis].
        rewrite E. eauto 8.
      * intros H. apply list_elem_of_fmap in H as (p & E & Hp').
        destruct (Hin p Hp') as (r' & -> & _ & Er & _). rewrite Er in E.
        apply app_inv_head in E. now subst r'.
  - intros q Hq. apply Hframe. intros H. apply list_elem_of_fmap in H as (p & -> & Hp).
    destruct (Hin p Hp) as (r & _ & Hne & Er & _). apply Hq. rewrite Er. split.
    + now apply prefix_app_r.
    + intros E. apply Hne. apply (app_inv_head (cwd ++ base)). now rewrite app_nil_r.
Qed.

End FixedPages.

(** X8. What [structure_maswe] has made when it returns, run in a
    working directory that is not itself named like one of the three
    repositories: the value is one of the candidate locations of [maswe];
    below [docs/MASWE] stands what stands below its [weaknesses]
    directory, where each regular file that [find_md_files] lists holds
    its text with ["Document/"] replaced by ["MASTG/"] and every other
    entry is copied as it is; [docs/MASWE] and [docs] are directories;
    every other location is as it was. *)
Theorem structure_maswe_pages (cwd : list string) (s s' : state) (repo : Path) :
  ".." ∉ cwd -> name cwd ∉ repositories -> sound (files s) ->
  structure_maswe cwd ["docs"] s = Return (repo, s') ->
  In repo (candidates "maswe")
  /\ (forall r, r <> [] ->
        files s' !! (cwd ++ ["docs"; "MASWE"] ++ r)
        = match files s !! (resolve cwd (repo ++ ["weaknesses"]) ++ r) with
          | Some (File c) =>
              Some (File (if endswith ".md" (name r)
                             && (negb (contains "/node_modules/"
                                         (str_of_path (["docs"; "MASWE"] ++ r)))
                                 && negb (contains "/."
                                            (str_of_path (["docs"; "MASWE"] ++ r))))
                          then replace "Document/" "MASTG/" (universal_newlines c)
                          else c))
          | entry => entry
          end)
  /\ (forall q, q <> [] -> q `prefix_of` cwd ++ ["docs"; "MASWE"] ->
                files s' !! q = Some Dir)
  /\ (forall q, ~ (cwd ++ ["docs"; "MASWE"]) `prefix_of` q ->
                ~ q `prefix_of` cwd ++ ["docs"; "MASWE"] ->
                files s' !! q = files s !! q).
Proof.
  intros Hcwd Hname Hs Hrun. unfold structure_maswe in Hrun. cbn [app] in Hrun.
  apply bind_inv in Hrun as (repo' & s0 & Hloc & Hrun).
  pose proof (locate_value cwd "maswe" s s0 repo' Hloc) as Hrepo.
  destruct (post_locate cwd (fun _ => False) (fun _ => False) "maswe" s repo' s0 Hs Hloc)
    as (Hsame & _ & Hs0).
  assert (E0 : files s0 = files s).
  { apply map_eq. intros q. apply Hsame. intros []. }
  apply bind_inv in Hrun as (u1 & s1 & Hcopy & Hrun).
  assert (Hplain : ".." ∉ ["docs"; "MASWE"]) by plain.
  assert (Hapart : apart (resolve cwd (repo' ++ ["weaknesses"])) (cwd ++ ["docs"; "MASWE"])).
  { apply (source_apart cwd Hcwd Hname "maswe");
      [unfold repositories; listed | exact Hrepo | plain]. }
  destruct (sound_clean_and_copy cwd Hcwd _ _ s0 u1 s1 Hs0 Hcopy) as (_ & _ & Hs1).
  destruct (clean_and_copy_inv cwd Hcwd (repo' ++ ["weaknesses"]) ["docs"; "MASWE"]
              ltac:(discriminate) Hplain Hapart s0 s1 u1 Hs0 Hcopy)
    as (_ & _ & Hcopied & Hmade & Hrest).
  rewrite E0 in Hcopied, Hrest.
  apply bind_inv in Hrun as (l & s2 & Hfind & Hrun).
  apply bind_inv in Hrun as (u2 & s3 & Hbatch & Hret).
  unfold ret in Hret. injection Hret as <- <-.
  destruct (fix_pages_inv cwd ["docs"; "MASWE"] [("Document/", "MASTG/")]
              s1 s2 s3 l u2 Hplain ltac:(discriminate) Hs1 Hfind Hbatch)
    as [Hpages Hothers].
  assert (Hkeep : forall q, (forall r, q <> (cwd ++ ["docs"; "MASWE"]) ++ r) \/ q = cwd ++ ["docs"; "MASWE"] ->
                            files s3 !! q = files s1 !! q).
  { intros q Hq. apply Hothers. intros [[r ->] Hne]. destruct Hq as [Hq | Hq].
    - now apply (Hq r).
    - contradiction. }
  split; [now apply list_elem_of_In |].
  split; [| split].
  - intros r Hr. rewrite app_assoc, (Hpages r Hr), Hcopied.
    destruct (decide (r = [])) as [| _]; [contradiction |]. reflexivity.
  - intros q Hq Hpre. rewrite Hkeep; [apply Hmade; split; assumption |].
    destruct (decide (q = cwd ++ ["docs"; "MASWE"])) as [-> | Hne]; [now right | left].
    intros r ->. apply Hne. apply (anti_symm prefix); [exact Hpre |].
    now apply prefix_app_r.
  - intros q Hu Hp. rewrite Hkeep.
    + apply Hrest; [exact Hu |]. intros [H _]. contradiction.
    + left. intros r ->. apply Hu. now apply prefix_app_r.
Qed.

Lemma structure_maswe_pages_witness :
  exists s',
    structure_maswe ["site"] ["docs"] {| files := example_tree_stale_maswe; log := [] |}
    = Return (["repos"; "maswe"], s')
    /\ files s' !! ["site"; "docs"; "MASWE"; "w.md"] = Some (File "see MASTG/tests")
    /\ files s' !! ["site"; "docs"; "MASWE"; "old.md"] = None
    /\ files s' !! ["site"; "docs"; "index.md"] = Some (File "# Home").
Proof.
  assert (Hvalue : value_of (structure_maswe ["site"] ["docs"]
                              {| files := example_tree_stale_maswe; log := [] |})
                   = Some ["repos"; "maswe"]) by (vm_compute; reflexivity).
  destruct (structure_maswe ["site"] ["docs"]
              {| files := example_tree_stale_maswe; log := [] |})
    as [[repo s']|e] eqn:Hrun; [| discriminate Hvalue].
  injection Hvalue as ->. exists s'. split; [reflexivity |].
  destruct (structure_maswe_pages ["site"] {| files := example_tree_stale_maswe; log := [] |}
              s' ["repos"; "maswe"]) as (_ & Hpages & _ & Hrest).
  - plain.
  - unfold repositories. plain.
  - apply check_sound_sound. vm_compute. reflexivity.
  - exact Hrun.
  - split; [| split].
    + etransitivity; [apply (Hpages ["w.md"]); discriminate |]. vm_compute. reflexivity.
    + etransitivity; [apply (Hpages ["old.md"]); discriminate |]. vm_compute. reflexivity.
    + etransitivity; [apply Hrest | vm_compute; reflexivity];
        intros H; apply prefix_cons_inv_2, prefix_cons_inv_2, prefix_cons_inv_1 in H;
        discriminate.
Defined.

(** One rule of [post], by the shape of the code. *)
Ltac post_step :=
  lazymatch goal with
  | |- post _ _ (ret _) => apply post_ret
  | |- post _ _ (bind (locate_external_repo _ _) _) => apply post_located; intros ? ?
  | |- post _ _ (bind (rglob _ _ _) _) => apply post_rglob; intros ? ?
  | |- post _ _ (bind (find_md_files _ _) _) => apply post_find_md_files; intros ? ?
  | |- post _ _ (bind _ _) => apply post_seq; [| intros ?]
  | |- post _ _ (for_each _ _) => apply post_for_each; intros ? ?
  | |- post _ _ (if ?b then _ else _) => destruct b
  | |- post _ _ (let '(_, _) := ?a in _) => destruct a
  | |- post _ _ (log_record _ _) => apply post_reads, reads_log
  | |- post _ _ (exists_ _ _) => apply post_reads, reads_exists
  | |- post _ _ (is_file _ _) => apply post_reads, reads_is_file
  | |- post _ _ (mkdir _ _) => apply post_mkdir
  | |- post _ _ (clean_and_copy _ _ _) => apply post_clean_and_copy
  | |- post _ _ (fs_update (copy_file _ _)) => apply post_copy_file
  | |- post _ _ (fs_update (copytree _ _)) => apply post_copytree
  | |- post _ _ (fs_update (write_text _ _)) => apply post_write_text
  | |- post _ _ (replace_in_file _ _ _ _) => apply post_replace_in_file
  | |- post _ _ (prettify_control _ _) => apply post_prettify_control
  | |- post _ _ (batch_replace _ _ _) => apply post_batch_replace
  | |- post _ _ (structure_maswe _ _) => apply post_structure_maswe
  | |- post _ _ (structure_masvs _ _) => apply post_structure_masvs
  end.

Section Phases.

Variable cwd : list string.
Hypothesis cwd_plain : ".." ∉ cwd.
Hypothesis cwd_name : name cwd ∉ repositories.
Variables t t1 : tree.

(** The side conditions of the rules. *)
Local Ltac in_repo :=
  repeat first [ eassumption
               | apply sourced_self
               | apply sourced_app; [| plainly] ].

Local Ltac dir_facts :=
  repeat match goal with
    | H : ?d ∈ directories |- _ =>
        lazymatch goal with
        | _ : d <> ".." |- _ => fail
        | _ => pose proof (directory_plain d H)
        end
    end.

Local Ltac apart_source :=
  dir_facts;
  eapply (apart_sourced cwd cwd_plain cwd_name);
  [ | eassumption | solve [in_repo]]; unfold repositories; listed.

Local Ltac static_source :=
  dir_facts;
  match goal with
  | H : under (resolve cwd ?p) ?q |- static cwd ?q =>
      eapply (static_sourced cwd cwd_plain cwd_name _ _ p);
      [ | eassumption | solve [in_repo] | exact H]; unfold repositories; listed
  end.

Local Ltac emptied_dir :=
  lazymatch goal with
  | |- forall q, strict (cwd ++ "docs" :: "MASTG" :: ?d :: ?rest) q -> emptied cwd q =>
      intros ?q ?Hq;
      eapply (emptied_below cwd ["docs"; "MASTG"; d]);
      [apply replaced_mastg; assumption | (repeat apply prefix_cons; apply prefix_nil) | eassumption]
  | |- forall q, strict (cwd ++ "docs" :: "MASWE" :: ?rest) q -> emptied cwd q =>
      intros ?q ?Hq;
      eapply (emptied_below cwd ["docs"; "MASWE"]);
      [apply replaced_maswe | (repeat apply prefix_cons; apply prefix_nil) | eassumption]
  | |- forall q, strict (cwd ++ "docs" :: "MASVS" :: ?rest) q -> emptied cwd q =>
      intros ?q ?Hq;
      eapply (emptied_below cwd ["docs"; "MASVS"]);
      [apply replaced_masvs | (repeat apply prefix_cons; apply prefix_nil) | eassumption]
  end.

Local Ltac side :=
  dir_facts;
  try solve
    [ exact I | intros; exact I | exact cwd_plain | discriminate | plainly
    | apply resolve_no_dotdot; exact cwd_plain
    | apart_source
    | emptied_dir
    | intros ? []
    | match goal with
      | H : forall a, post (fun _ => False) (fun _ => False) (?k a) |- post _ _ (?k _) =>
          apply (post_weaken (fun _ => False) _ (fun _ => False) _);
          [intros ? [] | intros ? [] | apply H]
      | H : forall a, post ?W ?R (?k a) |- post ?W ?R (?k _) => apply H
      end ].

Local Ltac future := intros; repeat post_step; side.

(** No location of [K] is removed later. *)
Local Ltac unfit :=
  repeat match goal with
    | H : (_ :: _) `prefix_of` (_ :: _) |- _ =>
        let E := fresh "E" in
        pose proof (prefix_cons_inv_1 _ _ _ _ H) as E;
        apply prefix_cons_inv_2 in H; try discriminate E
    | H : (_ :: _) `prefix_of` [] |- _ => now apply prefix_nil_not in H
    end;
  simplify_eq.

Local Ltac not_emptied H :=
  let D := fresh "D" in let r := fresh "r" in let E := fresh "E" in
  let Hr := fresh "Hr" in let HD := fresh "HD" in let d := fresh "d" in
  let Hd := fresh "Hd" in
  apply emptied_inv in H as (D & r & E & Hr & HD);
  first [ apply app_inv_head in E
        | match goal with
          | Hq : upto _ _ |- _ =>
              destruct Hq as [Hq _]; rewrite E in Hq; apply prefix_app_inv in Hq
          end ];
  destruct HD as [(d & Hd & ->) | [-> | ->]]; cbn [app] in *;
  (destruct r; [contradiction |]); unfit.

Local Ltac kept_place :=
  let q := fresh "q" in let Hq := fresh "Hq" in let He := fresh "He" in
  intros q Hq He;
  first [ subst q; not_emptied He
        | not_emptied He ].

(** Membership in the regions of a stage. *)
Local Ltac from_region :=
  cbv beta;
  match goal with
  | H : ?R ?q |- ?R ?q => exact H
  | H : under ?k' ?q |- under ?k ?q => apply (under_mono k k' q); [prefixed | exact H]
  | H : upto ?k ?q |- upto ?k' ?q => apply (upto_mono k k' q); [prefixed | exact H]
  | |- under ?k ?k' => unfold under; prefixed
  | |- upto ?k ?k => apply upto_self, app_nonempty; discriminate
  | |- static cwd _ => static_source
  | |- _ \/ _ => first [left; from_region | right; from_region]
  end.

Local Ltac staged :=
  first [ assumption
        | apply stage_here; solve [from_region]
        | apply stage_later; staged
        | match goal with
          | H : forall q, _ -> stage ?Rs q |- stage ?Rs _ => apply H; solve [from_region]
          end ].

Local Ltac in_stage :=
  let q := fresh "q" in let Hq := fresh "Hq" in
  intros q Hq; cbn [removelast] in Hq;
  first [ staged
        | apply upto_cases in Hq as [-> | Hq];
          [ staged
          | rewrite removelast_app in Hq by discriminate; cbn [removelast] in Hq; staged ] ].

(** A listed page, and where it is. *)
Local Ltac page :=
  match goal with
  | Hl : forall p, p ∈ ?l -> exists r, _, Hp : ?p ∈ ?l |- _ =>
      let r := fresh "r" in let Hne := fresh "Hne" in let Hpl := fresh "Hpl" in
      destruct (Hl p Hp) as (r & -> & Hne & Hpl);
      try (let H := fresh "Hplain" in destruct Hpl as [H ?])
  end.

Local Ltac away :=
  cbv beta;
  lazymatch goal with
  | |- ~ under (cwd ++ ?b) (cwd ++ ?a ++ ?r) =>
      apply (not_under_apart cwd a b);
      [ split; intros ?H; unfit
      | rewrite app_assoc; apply prefix_app_r; reflexivity ]
  end.

Local Ltac placed :=
  page; rewrite resolve_under by (assumption || plain); away.

Local Ltac future_frames := intros; repeat post_step; side; try placed.

(** The rules, at the stage of the goal. *)
Local Ltac absorb K C N WrF RmF :=
  lazymatch goal with
  | |- replays ?t ?t1 (stage ?Rs) _ =>
      apply (replays_stage_absorb t t1 Rs (stage Rs) K C N (fun _ => True) WrF RmF);
      [ | | let q := fresh "q" in let Hq := fresh "Hq" in intros q Hq; exact Hq
        | | | | intros _ ]
  end.

Local Ltac step := apply replays_assoc; apply (replays_step_seq _ _ _ (fun _ => True)); [ | | intros ?].

Local Ltac step_as x :=
  apply replays_assoc; apply (replays_step_seq _ _ _ (fun _ => True)); [ | | intros x].

Lemma replays_structure_masvs (Rs : list region) {B} (k : Path -> M B) :
  (forall q, static cwd q -> stage Rs q) ->
  (forall q, upto (cwd ++ ["docs"]) q -> stage Rs q) ->
  (forall a, post (fun _ => False) (fun _ => False) (k a)) ->
  (forall a W, replays t t1 W (k a)) ->
  replays t t1 (stage Rs) (bind (structure_masvs cwd ["docs"]) k).
Proof.
  intros Hstatic Hdocs Hpost Hk. unfold structure_masvs. cbn [app].
  apply replays_assoc.
  apply (replays_step t t1 _ (fun _ => True) _ _ (fun repo => repo ∈ candidates "masvs")).
  { apply local_locate. intros c Hc. apply Hstatic.
    apply (static_candidate cwd cwd_plain cwd_name "masvs"); [unfold repositories; listed | exact Hc]. }
  { apply post_locate. }
  { intros s repo s' _ Hrun. now apply (locate_value cwd "masvs" s s'). }
  intros repo Hrepo. apply replays_assoc.
  (* docs/MASVS is replaced *)
  absorb (fun q => q = cwd ++ ["docs"; "MASVS"]) (fun _ : list string => False)
         (fun q => under (cwd ++ ["docs"; "MASVS"]) q \/ upto (cwd ++ ["docs"; "MASVS"]) q)
         (fun _ : list string => True) (emptied cwd).
  { apply absorbs_clean_and_copy_at; side; in_stage. }
  { apply post_clean_and_copy; side; auto. }
  { future. }
  { kept_place. }
  { side. }
  (* docs/MASVS/controls, in it, is replaced *)
  step.
  { apply local_clean_and_copy; side; in_stage. }
  { apply post_clean_and_copy; side; in_stage. }
  (* docs/assets/MASVS/Images is made, and holds the images again *)
  apply replays_assoc.
  absorb (upto (cwd ++ ["docs"; "assets"; "MASVS"; "Images"])) (fun _ : list string => False)
         (upto (cwd ++ ["docs"; "assets"; "MASVS"; "Images"]))
         (fun _ : list string => True) (emptied cwd).
  { apply absorbs_mkdir_at; side. }
  { apply post_mkdir_at; side; auto. }
  { future. }
  { kept_place. }
  { side. }
  apply replays_assoc.
  absorb (fun _ : list string => False)
         (under (cwd ++ ["docs"; "assets"; "MASVS"; "Images"]))
         (fun q => under (cwd ++ ["docs"; "assets"; "MASVS"; "Images"]) q
                   \/ upto (cwd ++ ["docs"; "assets"; "MASVS"; "Images"]) q)
         (fun q => ~ under (cwd ++ ["docs"; "assets"; "MASVS"; "Images"]) q)
         (fun _ : list string => True).
  { apply absorbs_copytree_at; side; in_stage. }
  { apply post_copytree_at; side; auto. }
  { future_frames. }
  { side. }
  { intros q Hq H. exact (H Hq). }
  (* the pages of docs/MASVS are rewritten *)
  apply replays_assoc.
  apply (replays_step t t1 _ (fun _ => True) _ _
           (fun l => forall p, p ∈ l -> exists r, p = ["docs"; "MASVS"] ++ r /\ r <> []
                                          /\ (".." ∉ r) /\ is_md r = true)).
  { apply local_rglob_at; side; in_stage. }
  { apply post_reads, reads_rglob. }
  { intros s l s' Hs Hrun. now apply (rglob_value cwd is_md _ s s'). }
  intros pages Hpages. step.
  { eapply local_pages with (1 := Hpages).
    - intros r (Hne & Hplain & _).
      destruct (contains _ _); apply local_replace_under; side; auto; in_stage.
    - intros r (Hne & Hplain & _).
      destruct (contains _ _); apply post_replace_under; side; auto. }
  { eapply post_pages with (1 := Hpages).
    intros r (Hne & Hplain & _).
    destruct (contains _ _); apply post_replace_under; side; auto; in_stage. }
  (* the control pages are made *)
  apply replays_assoc.
  apply (replays_step t t1 _ (fun _ => True) _ _
           (fun l => forall p, p ∈ l -> exists r, p = ["docs"; "MASVS"] ++ r /\ r <> []
                                          /\ (".." ∉ r) /\ is_control_md r = true)).
  { apply local_rglob_at; side; in_stage. }
  { apply post_reads, reads_rglob. }
  { intros s l s' Hs Hrun. now apply (rglob_value cwd is_control_md _ s s'). }
  intros controls Hcontrols. step.
  { eapply local_pages with (1 := Hcontrols).
    - intros r (Hne & Hplain & _). apply local_prettify_under; side; auto; in_stage.
    - intros r (Hne & Hplain & _). apply post_prettify_under; side; auto. }
  { eapply post_pages with (1 := Hcontrols).
    intros r (Hne & Hplain & _). apply post_prettify_under; side; auto; in_stage. }
  apply replays_ret_bind, Hk.
Qed.

Lemma post_fix_under (Wr Rm : region) (base r : Path)
    (replacements : list (string * string)) :
  ".." ∉ base -> ".." ∉ r -> (forall q, under (cwd ++ base) q -> Wr q) ->
  post Wr Rm (for_each replacements
                (fun '(old, new) => replace_in_file cwd (base ++ r) old new)).
Proof.
  intros Hb Hr HW. apply post_for_each. intros [old new] _.
  now apply post_replace_under.
Qed.

Lemma local_fix_under (P : region) (base r : Path)
    (replacements : list (string * string)) :
  ".." ∉ base -> ".." ∉ r -> r <> [] -> (forall q, under (cwd ++ base) q -> P q) ->
  local P (for_each replacements
             (fun '(old, new) => replace_in_file cwd (base ++ r) old new)).
Proof.
  intros Hb Hr Hne HP. apply (local_for_each P (fun _ => True) (fun _ => True)).
  - intros [old new] _. now apply local_replace_under.
  - intros [old new] _. now apply post_replace_under.
Qed.

Lemma replays_structure_maswe (Rs : list region) {B} (k : Path -> M B) :
  (forall q, static cwd q -> stage Rs q) ->
  (forall q, upto (cwd ++ ["docs"]) q -> stage Rs q) ->
  (forall a, post (fun _ => True) (emptied cwd) (k a)) ->
  (forall a Rs', (forall q, stage Rs q -> stage Rs' q) -> replays t t1 (stage Rs') (k a)) ->
  replays t t1 (stage Rs) (bind (structure_maswe cwd ["docs"]) k).
Proof.
  intros Hstatic Hdocs Hpost Hk. unfold structure_maswe. cbn [app].
  apply replays_assoc.
  apply (replays_step t t1 _ (fun _ => True) _ _ (fun repo => repo ∈ candidates "maswe")).
  { apply local_locate. intros c Hc. apply Hstatic.
    apply (static_candidate cwd cwd_plain cwd_name "maswe"); [unfold repositories; listed | exact Hc]. }
  { apply post_locate. }
  { intros s repo s' _ Hrun. now apply (locate_value cwd "maswe" s s'). }
  intros repo Hrepo. apply replays_assoc.
  (* docs/MASWE is replaced *)
  absorb (fun q => q = cwd ++ ["docs"; "MASWE"]) (fun _ : list string => False)
         (fun q => under (cwd ++ ["docs"; "MASWE"]) q \/ upto (cwd ++ ["docs"; "MASWE"]) q)
         (fun _ : list string => True) (emptied cwd).
  { apply absorbs_clean_and_copy_at; side; in_stage. }
  { apply post_clean_and_copy; side; auto. }
  { future. }
  { kept_place. }
  { side. }
  (* its pages are fixed *)
  apply replays_assoc.
  apply (replays_step t t1 _ (fun _ => True) _ _
           (fun l => forall p, p ∈ l -> exists r, p = ["docs"; "MASWE"] ++ r /\ r <> []
                                          /\ ".." ∉ r)).
  { apply local_find_md_files. rewrite resolve_plain by plain. in_stage. }
  { apply post_reads, reads_find_md_files. }
  { intros s l s' Hs Hrun. now apply (find_md_files_value cwd _ s s'). }
  intros files Hfiles. step.
  { eapply local_pages with (1 := Hfiles).
    - intros r (Hne & Hplain). apply local_fix_under; side; auto; in_stage.
    - intros r (Hne & Hplain). apply post_fix_under; side; auto. }
  { eapply post_pages with (1 := Hfiles).
    intros r (Hne & Hplain). apply post_fix_under; side; auto; in_stage. }
  apply replays_ret_bind, Hk. in_stage.
Qed.

(** *** What [structure_mastg] may change *)

Lemma post_structure_mastg (Wr Rm : region) :
  (forall q, under (cwd ++ ["docs"; "MASTG"]) q -> Wr q) ->
  (forall q, upto (cwd ++ ["docs"; "MASTG"]) q -> Wr q) ->
  (forall q, under (cwd ++ ["docs"; "assets"; "Images"]) q -> Wr q) ->
  (forall q, upto (cwd ++ ["docs"; "assets"; "Images"]) q -> Wr q) ->
  (forall d q, d ∈ directories -> strict (cwd ++ ["docs"; "MASTG"; d]) q -> Rm q) ->
  post Wr Rm (structure_mastg cwd ["docs"]).
Proof.
  intros Hunder Hupto Himages Himages' Hrm. unfold structure_mastg. cbn [app].
  assert (Hdir : forall d rest q, under (cwd ++ "docs" :: "MASTG" :: d :: rest) q -> Wr q).
  { intros d rest q Hq. apply Hunder. revert Hq. apply under_mono. prefixed. }
  assert (Hdir' : forall d q, upto (cwd ++ ["docs"; "MASTG"; d]) q -> Wr q).
  { intros d q Hq. apply upto_cases in Hq as [-> | Hq].
    - apply Hunder. unfold under. prefixed.
    - rewrite removelast_app in Hq by discriminate. now apply Hupto. }
  apply post_located. intros repo Hrepo.
  apply post_seq; [apply post_mkdir_at; side; auto | intros _].
  apply post_seq; [apply post_mkdir_at; side; auto | intros _].
  apply post_seq; [apply post_reads, reads_log | intros _].
  apply post_seq.
  { apply post_for_each. intros d Hd.
    apply post_clean_and_copy; side; eauto. }
  intros _. apply post_seq; [apply post_reads, reads_exists | intros present].
  apply post_seq.
  { destruct present; [| apply post_ret]. apply post_rglob. intros found Hfound.
    eapply post_pages with (1 := Hfound).
    intros r (Hne & Hplain & _). apply post_beta_file; side; eauto. }
  intros _. apply post_seq; [apply post_reads, reads_exists | intros present'].
  apply post_seq.
  { destruct present'; cbn [negb]; [apply post_ret |].
    apply post_seq; [apply post_reads, reads_log | intros _; apply post_ret]. }
  intros doc. apply post_seq; [apply post_reads, reads_exists | intros there].
  apply post_seq; [apply post_reads, reads_exists | intros indexed].
  apply post_seq.
  { apply post_index; [exact cwd_plain |].
    intros q [-> | ->]; apply Hunder; unfold under; prefixed. }
  intros _. apply post_seq; [apply post_reads, reads_exists | intros there'].
  apply post_seq.
  { destruct there'; [| apply post_ret]. apply post_rglob. intros chapters Hchapters.
    apply post_for_each. intros p Hp.
    destruct (Hchapters p Hp) as (r & -> & Hne & Hplain & Hsel).
    apply chapter_inv in Hsel as (nm & -> & Hnm).
    apply post_chapter; [exact cwd_plain | |].
    - intros ->. apply Hplain. left.
    - intros q [-> | ->]; apply Hunder; unfold under; prefixed. }
  intros _. apply post_seq; [apply post_reads, reads_exists | intros pictures].
  apply post_seq; [apply post_images; auto | intros _].
  apply post_seq.
  { apply post_for_each. intros [subdir rel_img] Hsub.
    apply post_fix_pages; [exact cwd_plain |].
    rewrite resolve_plain.
    - apply Hdir.
    - unfold rel_paths in Hsub. apply list_elem_of_fmap in Hsub as (d & E & Hd).
      injection E as -> _.
      repeat (apply elem_of_cons in Hd as [-> | Hd]; [plain |]).
      now apply elem_of_nil in Hd. }
  intros _. apply post_fix_pages; [exact cwd_plain |].
  rewrite resolve_plain by plain. exact Hunder.
Qed.

(** A place, as a region. *)
Local Ltac at_place :=
  lazymatch goal with
  | |- stage _ ?k =>
      let H := fresh "Hq" in assert (H : under k k) by reflexivity; staged
  end.

Lemma rel_path_directory (subdir rel_img : string) :
  (subdir, rel_img) ∈ rel_paths -> subdir ∈ directories.
Proof.
  unfold rel_paths. intros H. apply list_elem_of_fmap in H as (d & E & Hd).
  injection E as -> _. unfold directories.
  repeat (apply elem_of_cons in Hd as [-> | Hd]; [listed |]).
  now apply elem_of_nil in Hd.
Qed.

Local Ltac not_directory :=
  match goal with
  | H : _ ∈ directories |- _ =>
      unfold directories in H;
      repeat (apply elem_of_cons in H as [H | H]; [discriminate H |]);
      now apply elem_of_nil in H
  end.


Lemma replays_structure_mastg (Rs : list region) {B} (k : unit -> M B) :
  (forall q, static cwd q -> stage Rs q) ->
  (forall a, post (fun _ => True) (emptied cwd) (k a)) ->
  (forall a, post (fun q => ~ under (cwd ++ ["docs"; "MASTG"]) q
                            /\ ~ under (cwd ++ ["docs"; "assets"; "Images"]) q)
               (fun _ => True) (k a)) ->
  (forall r c, hd EmptyString r ∉ directories ->
               t !! (cwd ++ ["docs"; "MASTG"] ++ r) = Some (File c) ->
               is_md r = true -> visible (["docs"; "MASTG"] ++ r) = true ->
               generic_fix (generic_fix c) = generic_fix c) ->
  (forall a Rs', (forall q, static cwd q -> stage Rs' q) ->
                 (forall q, upto (cwd ++ ["docs"]) q -> stage Rs' q) ->
                 replays t t1 (stage Rs') (k a)) ->
  replays t t1 (stage Rs) (bind (structure_mastg cwd ["docs"]) k).
Proof.
  intros Hstatic Hpost Hframe Hstable Hk. unfold structure_mastg. cbn [app].
  apply replays_assoc.
  apply (replays_step t t1 _ (fun _ => True) _ _ (fun repo => repo ∈ candidates "mastg")).
  { apply local_locate. intros c Hc. apply Hstatic.
    apply (static_candidate cwd cwd_plain cwd_name "mastg"); [unfold repositories; listed | exact Hc]. }
  { apply post_locate. }
  { intros s repo s' _ Hrun. now apply (locate_value cwd "mastg" s s'). }
  intros repo Hrepo.
  (* docs/MASTG and docs/assets/Images are made *)
  apply replays_assoc.
  absorb (upto (cwd ++ ["docs"; "MASTG"])) (fun _ : list string => False)
         (upto (cwd ++ ["docs"; "MASTG"]))
         (fun _ : list string => True) (emptied cwd).
  { apply absorbs_mkdir_at; side. }
  { apply post_mkdir_at; side; auto. }
  { future. }
  { kept_place. }
  { side. }
  apply replays_assoc.
  absorb (upto (cwd ++ ["docs"; "assets"; "Images"])) (fun _ : list string => False)
         (upto (cwd ++ ["docs"; "assets"; "Images"]))
         (fun _ : list string => True) (emptied cwd).
  { apply absorbs_mkdir_at; side. }
  { apply post_mkdir_at; side; auto. }
  { future. }
  { kept_place. }
  { side. }
  step.
  { apply local_log. }
  { apply post_reads, reads_log. }
  (* the nine directories are replaced *)
  apply replays_assoc.
  lazymatch goal with
  | |- replays _ _ (stage ?Rs0) _ =>
      apply (replays_stage_for_each t t1 Rs0 (stage Rs0) (fun _ => True)
               (fun _ => True) (emptied cwd) directories
               (fun d q => q = cwd ++ ["docs"; "MASTG"; d])
               (fun _ _ => False)
               (fun d q => under (cwd ++ ["docs"; "MASTG"; d]) q
                           \/ upto (cwd ++ ["docs"; "MASTG"; d]) q))
  end.
  { intros d Hd. apply absorbs_clean_and_copy_at; side; in_stage. }
  { intros d Hd. apply post_clean_and_copy; side; auto. }
  { intros d Hd. future. }
  { future. }
  { intros d q Hd. revert q. kept_place. }
  { intros d q _ []. }
  { intros q Hq; exact Hq. }
  cbn [map directories app].
  (* the beta tests are copied into docs/MASTG/tests *)
  step_as present.
  { apply local_exists. at_place. }
  { apply post_reads, reads_exists. }
  step.
  { destruct present; [| apply local_ret].
    apply (local_bind _ (fun _ => True) (fun _ => True) _ _
             (fun l => forall p, p ∈ l ->
                exists r, p = (repo ++ ["tests-beta"]) ++ r /\ r <> [] /\ (".." ∉ r)
                          /\ true = true)).
    - apply local_rglob. in_stage.
    - apply post_reads, reads_rglob.
    - intros s l s' Hs Hrun. now apply (rglob_value cwd (fun _ => true) _ s s').
    - intros found Hfound. eapply local_pages with (1 := Hfound).
      + intros r (Hne & Hplain & _). apply local_beta_file; side; auto;
          [at_place | in_stage | in_stage].
      + intros r (Hne & Hplain & _). apply post_beta_file; side; auto. }
  { destruct present; [| apply post_ret]. apply post_rglob. intros found Hfound.
    eapply post_pages with (1 := Hfound).
    intros r (Hne & Hplain & _). apply post_beta_file; side; auto; in_stage. }
  clear present.
  (* the documents: Document, or docs *)
  step_as present.
  { apply local_exists. at_place. }
  { apply post_reads, reads_exists. }
  apply replays_assoc.
  apply (replays_step t t1 _ (fun _ => True) _ _ (fun doc => sourced repo doc)).
  { destruct present; cbn [negb]; [apply local_ret |].
    apply (local_seq _ (fun _ => True) (fun _ => True));
      [apply local_log | apply post_reads, reads_log | intros _; apply local_ret]. }
  { destruct present; cbn [negb]; [apply post_ret |].
    apply post_seq; [apply post_reads, reads_log | intros _; apply post_ret]. }
  { intros s doc s' _ Hrun. destruct present; cbn [negb] in Hrun.
    - injection Hrun as <- _. in_repo.
    - cbv [bind log_record ret] in Hrun. injection Hrun as <- _. in_repo. }
  intros doc Hdoc. clear present.
  step_as present.
  { apply local_exists. at_place. }
  { apply post_reads, reads_exists. }
  step_as indexed.
  { apply local_exists. at_place. }
  { apply post_reads, reads_exists. }
  (* the index page *)
  apply replays_assoc.
  absorb (index_pages cwd) (fun _ : list string => False) (index_pages cwd)
         (fun _ : list string => True) (emptied cwd).
  { apply absorbs_index; at_place. }
  { apply post_index; [exact cwd_plain | auto]. }
  { future. }
  { intros q [-> | ->] He; not_emptied He; not_directory. }
  { side. }
  clear present indexed.
  (* the chapters *)
  step_as present.
  { apply local_exists. at_place. }
  { apply post_reads, reads_exists. }
  apply replays_assoc.
  eapply replays_ext; [intros s; symmetry; apply bind_if_loop |].
  apply (replays_step t t1 _ (fun _ => True) _ _
           (fun l => forall p, p ∈ l -> exists r, p = doc ++ r /\ r <> [] /\ (".." ∉ r)
                                          /\ is_chapter_md r = true)).
  { destruct present; [apply local_rglob; in_stage | apply local_ret]. }
  { destruct present; [apply post_reads, reads_rglob | apply post_ret]. }
  { intros s l s' Hs Hrun. destruct present.
    - now apply (rglob_value cwd is_chapter_md _ s s').
    - injection Hrun as <- _. intros p Hp. now apply elem_of_nil in Hp. }
  intros chapters Hchapters. clear present.
  lazymatch goal with
  | |- replays _ _ (stage ?Rs0) _ =>
      apply (replays_stage_for_each t t1 Rs0 (stage Rs0) (fun _ => True)
               (fun _ => True) (emptied cwd) chapters
               (chapter_pages cwd) (fun _ _ => False) (chapter_pages cwd))
  end.
  { intros p Hp. destruct (Hchapters p Hp) as (r & -> & Hne & Hplain & Hsel).
    apply chapter_inv in Hsel as (nm & -> & Hnm).
    apply absorbs_chapter; [intros ->; apply Hplain; left | at_place | at_place]. }
  { intros p Hp. destruct (Hchapters p Hp) as (r & -> & Hne & Hplain & Hsel).
    apply chapter_inv in Hsel as (nm & -> & Hnm).
    apply post_chapter; [exact cwd_plain | intros ->; apply Hplain; left | auto]. }
  { intros p Hp. destruct (Hchapters p Hp) as (r & -> & Hne & Hplain & Hsel).
    apply chapter_inv in Hsel as (nm & -> & Hnm).
    apply (post_chapter cwd cwd_plain); [intros ->; apply Hplain; left | auto]. }
  { future. }
  { intros p q Hp HK He. destruct (Hchapters p Hp) as (r & -> & Hne & Hplain & Hsel).
    apply chapter_inv in Hsel as (nm & -> & Hnm).
    pose proof (chapter_not_directory nm Hnm) as Hnot.
    unfold chapter_pages in HK. rewrite name_snoc in HK.
    destruct HK as [-> | ->]; not_emptied He; contradiction. }
  { intros p q _ []. }
  { intros q Hq; exact Hq. }
  lazymatch goal with
  | |- replays _ _ (stage (map ?N ?l ++ ?Rs0)) _ =>
      apply (replays_equiv t t1 (stage ((fun q => exists a, a ∈ l /\ N a q) :: Rs0)));
      [intros q; rewrite stage_cons, stage_app, stage_map; reflexivity |]
  end.
  (* the images *)
  step_as present.
  { apply local_exists. at_place. }
  { apply post_reads, reads_exists. }
  assert (Hframe_images : forall a, post (fun q => ~ under (cwd ++ ["docs"; "assets"; "Images"]) q)
                                      (fun _ => True) (k a)).
  { intros u. apply (post_weaken _ _ _ _ _ (fun q H => proj2 H) (fun q H => H) (Hframe u)). }
  apply replays_assoc.
  absorb (fun _ : list string => False)
         (under (cwd ++ ["docs"; "assets"; "Images"]))
         (fun q => under (cwd ++ ["docs"; "assets"; "Images"]) q
                   \/ upto (cwd ++ ["docs"; "assets"; "Images"]) q)
         (fun q => ~ under (cwd ++ ["docs"; "assets"; "Images"]) q)
         (fun _ : list string => True).
  { apply (absorbs_images cwd cwd_plain); in_stage. }
  { apply post_images; [exact cwd_plain | auto | auto]. }
  { intros _. apply post_seq; [| intros u; apply Hframe_images].
    apply post_seq.
    - apply post_for_each. intros [subdir rel_img] Hsub.
      apply rel_path_directory, directory_plain in Hsub.
      apply post_fix_pages; [exact cwd_plain |]. intros q Hq.
      rewrite resolve_plain in Hq by plain.
      apply (not_under_apart cwd ["docs"; "MASTG"; subdir] ["docs"; "assets"; "Images"]);
        [split; intros H; unfit | exact Hq].
    - intros _. apply post_fix_pages; [exact cwd_plain |]. intros q Hq.
      rewrite resolve_plain in Hq by plain.
      apply (not_under_apart cwd ["docs"; "MASTG"] ["docs"; "assets"; "Images"]);
        [split; intros H; unfit | exact Hq]. }
  { side. }
  { intros q Hq H. exact (H Hq). }
  clear present.
  (* the image links of the seven directories *)
  step.
  { apply (local_for_each _ (fun _ => True) (fun _ => True)).
    - intros [subdir rel_img] Hsub. apply rel_path_directory in Hsub.
      apply (local_fix_pages cwd cwd_plain). unfold directories in Hsub.
      repeat (apply elem_of_cons in Hsub as [-> | Hsub];
              [intros q Hq; rewrite resolve_plain in Hq by plain; revert q Hq; in_stage |]).
      now apply elem_of_nil in Hsub.
    - intros [subdir rel_img] Hsub. apply post_fix_pages; auto. }
  { apply post_for_each. intros [subdir rel_img] Hsub.
    apply rel_path_directory in Hsub.
    apply post_fix_pages; [exact cwd_plain |]. unfold directories in Hsub.
    repeat (apply elem_of_cons in Hsub as [-> | Hsub];
            [intros q Hq; rewrite resolve_plain in Hq by plain; revert q Hq; in_stage |]).
    now apply elem_of_nil in Hsub. }
  (* the links of every page of docs/MASTG *)
  apply replays_assoc.
  lazymatch goal with
  | |- replays _ _ (stage ?Rs0) _ =>
      apply (replays_stage_fix_pages cwd cwd_plain t t1 Rs0
               (fun q => ~ under (cwd ++ ["docs"; "MASTG"]) q) (fun _ => True)
               ["docs"; "MASTG"] generic_replacements _ (fun u => ret u) k)
  end.
  { intros files s. reflexivity. }
  { plain. }
  { discriminate. }
  { intros u. apply post_seq; [apply post_ret | intros u'].
    apply (post_weaken _ _ _ _ _ (fun q H => proj1 H) (fun q H => H) (Hframe u')). }
  { intros q Hq H. exact (H Hq). }
  { intros r c Hns Hc Hmd Hvis. apply (Hstable r c); auto.
    intros Hd. apply Hns. destruct r as [|d r]; cbn [hd] in Hd; [not_directory |].
    unfold directories in Hd.
    repeat (apply elem_of_cons in Hd as [-> | Hd];
            [lazymatch goal with
             | |- stage _ (cwd ++ ["docs"; "MASTG"] ++ ?d :: _) =>
                 assert (Hq : under (cwd ++ ["docs"; "MASTG"; d])
                                (cwd ++ ["docs"; "MASTG"] ++ d :: r))
                   by (unfold under; cbn [app]; prefixed); staged
             end |]).
    now apply elem_of_nil in Hd. }
  intros u. apply replays_ret_bind. apply Hk; in_stage.
Qed.

(** *** The whole build *)

Lemma replays_on_pre_build (config : Config) :
  (forall r c, hd EmptyString r ∉ directories ->
               t !! (cwd ++ ["docs"; "MASTG"] ++ r) = Some (File c) ->
               is_md r = true -> visible (["docs"; "MASTG"] ++ r) = true ->
               generic_fix (generic_fix c) = generic_fix c) ->
  replays t t1 (stage [static cwd]) (on_pre_build cwd config).
Proof.
  intros Hstable. unfold on_pre_build.
  apply replays_structure_mastg.
  - intros q Hq. now apply stage_here.
  - intros _. apply post_seq; [| intros maswe; apply post_seq; [| intros masvs; apply post_ret]].
    + apply (post_structure_maswe cwd cwd_plain cwd_name); side.
    + apply (post_structure_masvs cwd cwd_plain cwd_name); side.
  - intros _. apply post_seq; [| intros maswe; apply post_seq; [| intros masvs; apply post_ret]].
    + apply (post_structure_maswe cwd cwd_plain cwd_name); [| | intros; exact I].
      * intros q Hq. split;
          apply (not_under_apart cwd ["docs"; "MASWE"]); try exact Hq; split; intros H; unfit.
      * intros q Hq. split; apply (not_under_upto cwd ["docs"; "MASWE"]); try exact Hq;
          intros H; unfit.
    + apply (post_structure_masvs cwd cwd_plain cwd_name); [| | | | intros; exact I].
      * intros q Hq. split;
          apply (not_under_apart cwd ["docs"; "MASVS"]); try exact Hq; split; intros H; unfit.
      * intros q Hq. split; apply (not_under_upto cwd ["docs"; "MASVS"]); try exact Hq;
          intros H; unfit.
      * intros q Hq. split;
          apply (not_under_apart cwd ["docs"; "assets"; "MASVS"; "Images"]); try exact Hq;
          split; intros H; unfit.
      * intros q Hq. split;
          apply (not_under_upto cwd ["docs"; "assets"; "MASVS"; "Images"]); try exact Hq;
          intros H; unfit.
  - exact Hstable.
  - intros _ Rs' Hstatic Hdocs.
    apply replays_structure_maswe; [exact Hstatic | exact Hdocs | |].
    + intros maswe. apply post_seq; [| intros masvs; apply post_ret].
      apply (post_structure_masvs cwd cwd_plain cwd_name); side.
    + intros maswe Rs'' Hmore.
      apply replays_structure_masvs.
      * intros q Hq. apply Hmore, Hstatic, Hq.
      * intros q Hq. apply Hmore, Hdocs, Hq.
      * intros masvs. apply post_ret.
      * intros masvs W. apply replays_ret.
Qed.

End Phases.

(** ** What the merge leaves alone *)

Section Outside.

Variable cwd : list string.
Hypothesis cwd_plain : ".." ∉ cwd.
Hypothesis cwd_name : name cwd ∉ repositories.

(** The locations in [docs] and the directories down to it. *)
Lemma post_on_pre_build (config : Config) :
  post (fun q => under (cwd ++ ["docs"]) q \/ upto (cwd ++ ["docs"]) q) (emptied cwd)
    (on_pre_build cwd config).
Proof.
  assert (Hin : forall rel q, under (cwd ++ "docs" :: rel) q ->
                  under (cwd ++ ["docs"]) q \/ upto (cwd ++ ["docs"]) q).
  { intros rel q Hq. left. revert Hq. apply under_mono. prefixed. }
  assert (Hup : forall rel q, upto (cwd ++ "docs" :: rel) q ->
                  under (cwd ++ ["docs"]) q \/ upto (cwd ++ ["docs"]) q).
  { intros rel q Hq.
    change (cwd ++ "docs" :: rel) with (cwd ++ ["docs"] ++ rel) in Hq.
    rewrite app_assoc in Hq. apply upto_split in Hq. tauto. }
  unfold on_pre_build.
  apply post_seq; [| intros _; apply post_seq; [| intros maswe; apply post_seq;
                                                   [| intros masvs; apply post_ret]]].
  - apply (post_structure_mastg cwd cwd_plain cwd_name); eauto.
    intros d q Hd Hq.
    now apply (emptied_strict cwd ["docs"; "MASTG"; d]); [apply replaced_mastg |].
  - apply (post_structure_maswe cwd cwd_plain cwd_name); eauto.
    intros q Hq. now apply (emptied_strict cwd ["docs"; "MASWE"]); [apply replaced_maswe |].
  - apply (post_structure_masvs cwd cwd_plain cwd_name); eauto.
    intros q Hq. now apply (emptied_strict cwd ["docs"; "MASVS"]); [apply replaced_masvs |].
Qed.

(** A directory that exists stays one. *)
Lemma post_keeps_dir (Wr Rm : region) {A} (c : M A) (s s' : state) (a : A)
    (k : list string) :
  post Wr Rm c -> sound (files s) -> c s = Return (a, s') ->
  ~ Rm k -> files s !! k = Some Dir -> files s' !! k = Some Dir.
Proof.
  intros Hpost Hs Hrun Hk Hdir.
  destruct (Hpost s a s' Hs Hrun) as (_ & Hkeep & _).
  destruct (Hkeep k Dir Hk Hdir) as (n' & Hn' & Hkind).
  destruct n'; [discriminate Hkind | exact Hn'].
Qed.

(** A location down to [k ++ rel] is above [k] or of the form [k ++ r]. *)
Lemma prefix_app_cases (k rel q : list string) :
  q `prefix_of` k ++ rel ->
  q `prefix_of` k \/ exists r, r <> [] /\ r `prefix_of` rel /\ q = k ++ r.
Proof.
  intros Hq.
  destruct (prefix_weak_total q k (k ++ rel) Hq) as [H | [r ->]];
    [now apply prefix_app_r | now left |].
  destruct (decide (r = [])) as [-> | Hr].
  - left. now rewrite app_nil_r.
  - right. exists r. split; [exact Hr |]. split; [| reflexivity].
    now apply prefix_app_inv in Hq.
Qed.

(** The working directory and the directories above it stay. *)
Lemma above_kept (Wr Rm : region) {A} (c : M A) (s s' : state) (a : A)
    (q : list string) :
  post Wr Rm c -> sound (files s) -> c s = Return (a, s') ->
  files s !! cwd = Some Dir -> (forall k, Rm k -> ~ k `prefix_of` cwd) ->
  q `prefix_of` cwd -> files s' !! q = files s !! q.
Proof.
  intros Hpost Hs Hrun Hcwd Hrm Hq.
  assert (Hdir : files s !! q = Some Dir).
  { destruct (decide (q = cwd)) as [-> | Hne]; [exact Hcwd |].
    destruct Hs as (Hwf & _ & _). now apply (Hwf cwd Dir Hcwd q). }
  rewrite Hdir. apply (post_keeps_dir Wr Rm c s s' a q Hpost Hs Hrun); [| exact Hdir].
  intros H. now apply (Hrm q H).
Qed.

Lemma emptied_not_above (k : list string) : emptied cwd k -> ~ k `prefix_of` cwd.
Proof.
  intros (D & r & HD & Hr & ->) H.
  apply prefix_length in H. rewrite !length_app in H.
  destruct r; [contradiction |]. cbn in H. lia.
Qed.

End Outside.

(** X9. A build that returns, run in an existing working directory that
    is not named like one of the three repositories, has changed nothing
    outside [docs]: every location that is not [docs] or below it holds
    what it held, the repositories among them.  In [docs] it has removed
    nothing but what stood inside one of the directories it replaces
    (the nine of [docs/MASTG], [docs/MASWE] and [docs/MASVS]): every
    other entry is still there, a file as a file and a directory as a
    directory. *)
Theorem on_pre_build_outside
    (cwd : list string) (config config' : Config) (s s' : state) :
  ".." ∉ cwd -> name cwd ∉ repositories ->
  sound (files s) -> files s !! cwd = Some Dir ->
  on_pre_build cwd config s = Return (config', s') ->
  (forall q, ~ (cwd ++ ["docs"]) `prefix_of` q -> files s' !! q = files s !! q)
  /\ (forall q n, files s !! q = Some n ->
        (forall D r, In D replaced -> r <> [] -> q <> cwd ++ D ++ r) ->
        exists n', files s' !! q = Some n' /\ kind_of (Some n') = kind_of (Some n)).
Proof.
  intros Hcwd Hname Hs Hdir Hrun.
  pose proof (post_on_pre_build cwd Hcwd Hname config) as Hpost.
  destruct (Hpost s config' s' Hs Hrun) as (Hframe & Hkeep & _).
  split.
  - intros q Hq. destruct (decide (q `prefix_of` cwd)) as [Hup | Hup].
    + apply (above_kept cwd _ _ _ s s' config' q Hpost Hs Hrun Hdir); [| exact Hup].
      apply emptied_not_above.
    + apply Hframe. intros [H | [H _]]; [contradiction |].
      apply prefix_app_cases in H as [H | (r & Hr & Hpre & ->)]; [contradiction |].
      apply Hq. destruct r as [|x [|y r]]; [contradiction | |].
      * apply prefix_cons_inv_1 in Hpre. now subst x.
      * apply prefix_cons_inv_2, prefix_nil_inv in Hpre. discriminate.
  - intros q n Hn Hq. apply Hkeep; [| exact Hn].
    intros (D & r & HD & Hr & ->). apply (Hq D r); [now apply list_elem_of_In | exact Hr | reflexivity].
Qed.

Lemma on_pre_build_outside_witness :
  exists config' s',
    on_pre_build ["site"] {| extra := ∅; terms := None |}
      {| files := example_tree_terms; log := [] |} = Return (config', s')
    /\ files s' !! ["site"; "repos"; "maswe"; "weaknesses"; "w.md"]
       = Some (File "see Document/tests")
    /\ exists n', files s' !! ["site"; "docs"; "MASTG"; "terms"; "MASTG-TERM-0001.md"]
                  = Some n'
                  /\ kind_of (Some n') = Regular.
Proof.
  assert (Hreturned : returned (on_pre_build ["site"] {| extra := ∅; terms := None |}
                                  {| files := example_tree_terms; log := [] |}) = true)
    by (vm_compute; reflexivity).
  destruct (on_pre_build ["site"] {| extra := ∅; terms := None |}
              {| files := example_tree_terms; log := [] |})
    as [[config' s']|e] eqn:Hrun; [| discriminate Hreturned].
  exists config', s'. split; [reflexivity |].
  destruct (on_pre_build_outside ["site"] {| extra := ∅; terms := None |} config'
              {| files := example_tree_terms; log := [] |} s') as [Hframe Hkeep].
  - plain.
  - unfold repositories. plain.
  - apply check_sound_sound. vm_compute. reflexivity.
  - vm_compute. reflexivity.
  - exact Hrun.
  - split.
    + etransitivity; [apply Hframe | vm_compute; reflexivity].
      intros H. apply prefix_cons_inv_2, prefix_cons_inv_1 in H. discriminate.
    + apply (Hkeep _ (File "See DocumDocument/ent/0x04.")); [vm_compute; reflexivity |].
      intros D r HD Hr E. injection E as E.
      unfold replaced in HD. cbn in HD.
      repeat (destruct HD as [<- | HD]; [discriminate E |]). destruct HD.
Defined.

(** X10. A [structure_mastg] that returns has changed nothing outside
    [docs/MASTG] and [docs/assets/Images], but for making [docs] and
    [docs/assets] where they were missing; and it has removed nothing but
    what stood inside one of the nine directories it replaces: a page
    that stands elsewhere in [docs/MASTG] is still there. *)
Theorem structure_mastg_outside (cwd : list string) (s s' : state) (u : unit) :
  ".." ∉ cwd -> name cwd ∉ repositories ->
  sound (files s) -> files s !! cwd = Some Dir ->
  structure_mastg cwd ["docs"] s = Return (u, s') ->
  (forall q, ~ (cwd ++ ["docs"; "MASTG"]) `prefix_of` q ->
             ~ (cwd ++ ["docs"; "assets"; "Images"]) `prefix_of` q ->
             q <> cwd ++ ["docs"] -> q <> cwd ++ ["docs"; "assets"] ->
             files s' !! q = files s !! q)
  /\ (forall q n, files s !! q = Some n ->
        (forall d r, In d directories -> r <> [] ->
                     q <> cwd ++ ["docs"; "MASTG"; d] ++ r) ->
        exists n', files s' !! q = Some n' /\ kind_of (Some n') = kind_of (Some n)).
Proof.
  intros Hcwd Hname Hs Hdir Hrun.
  set (mastg_dirs := fun q => exists d r, d ∈ directories /\ r <> []
                                         /\ q = cwd ++ ["docs"; "MASTG"; d] ++ r).
  assert (Hpost : post (fun q => (under (cwd ++ ["docs"; "MASTG"]) q
                                  \/ upto (cwd ++ ["docs"; "MASTG"]) q)
                                 \/ under (cwd ++ ["docs"; "assets"; "Images"]) q
                                 \/ upto (cwd ++ ["docs"; "assets"; "Images"]) q)
                    mastg_dirs (structure_mastg cwd ["docs"])).
  { apply (post_structure_mastg cwd Hcwd Hname); try tauto.
    intros d q Hd [[r ->] Hne]. exists d, r. split; [exact Hd |]. split.
    - intros ->. apply Hne. now rewrite app_nil_r.
    - now rewrite <- app_assoc. }
  destruct (Hpost s u s' Hs Hrun) as (Hframe & Hkeep & _).
  split.
  - intros q Hm Hi Hd Ha. destruct (decide (q `prefix_of` cwd)) as [Hup | Hup].
    + apply (above_kept cwd _ _ _ s s' u q Hpost Hs Hrun Hdir); [| exact Hup].
      intros k (d & r & _ & Hr & ->) H.
      apply prefix_length in H. rewrite !length_app in H. cbn in H. lia.
    + apply Hframe. intros [[H | [H _]] | [H | [H _]]]; try contradiction.
      * apply prefix_app_cases in H as [H | (r & Hr & Hpre & ->)]; [contradiction |].
        destruct r as [|x [|y [|z r]]]; [contradiction | | |].
        -- apply prefix_cons_inv_1 in Hpre. now subst x.
        -- apply Hm. pose proof (prefix_cons_inv_1 _ _ _ _ Hpre) as ->.
           apply prefix_cons_inv_2, prefix_cons_inv_1 in Hpre. now subst y.
        -- apply prefix_cons_inv_2, prefix_cons_inv_2, prefix_nil_inv in Hpre. discriminate.
      * apply prefix_app_cases in H as [H | (r & Hr & Hpre & ->)]; [contradiction |].
        destruct r as [|x [|y [|z [|w r]]]]; [contradiction | | | |].
        -- apply prefix_cons_inv_1 in Hpre. now subst x.
        -- apply Ha. pose proof (prefix_cons_inv_1 _ _ _ _ Hpre) as ->.
           apply prefix_cons_inv_2, prefix_cons_inv_1 in Hpre. now subst y.
        -- apply Hi. pose proof (prefix_cons_inv_1 _ _ _ _ Hpre) as ->.
           apply prefix_cons_inv_2 in Hpre.
           pose proof (prefix_cons_inv_1 _ _ _ _ Hpre) as ->.
           apply prefix_cons_inv_2, prefix_cons_inv_1 in Hpre. now subst z.
        -- do 3 apply prefix_cons_inv_2 in Hpre. apply prefix_nil_inv in Hpre. discriminate.
  - intros q n Hn Hq. apply Hkeep; [| exact Hn].
    intros (d & r & Hd & Hr & ->).
    apply (Hq d r); [now apply list_elem_of_In | exact Hr | reflexivity].
Qed.

Lemma structure_mastg_outside_witness :
  exists s',
    structure_mastg ["site"] ["docs"] {| files := example_tree_terms; log := [] |}
    = Return (tt, s')
    /\ files s' !! ["site"; "docs"; "index.md"] = Some (File "# Home")
    /\ exists n', files s' !! ["site"; "docs"; "MASTG"; "terms"; "MASTG-TERM-0001.md"]
                  = Some n'
                  /\ kind_of (Some n') = Regular.
Proof.
  assert (Hreturned : returned (structure_mastg ["site"] ["docs"]
                                  {| files := example_tree_terms; log := [] |}) = true)
    by (vm_compute; reflexivity).
  destruct (structure_mastg ["site"] ["docs"] {| files := example_tree_terms; log := [] |})
    as [[[] s']|e] eqn:Hrun; [| discriminate Hreturned].
  exists s'. split; [reflexivity |].
  destruct (structure_mastg_outside ["site"] {| files := example_tree_terms; log := [] |}
              s' tt) as [Hframe Hkeep].
  - plain.
  - unfold repositories. plain.
  - apply check_sound_sound. vm_compute. reflexivity.
  - vm_compute. reflexivity.
  - exact Hrun.
  - split.
    + etransitivity; [apply Hframe | vm_compute; reflexivity].
      * intros H. apply prefix_cons_inv_2, prefix_cons_inv_2, prefix_cons_inv_1 in H.
        discriminate.
      * intros H. apply prefix_cons_inv_2, prefix_cons_inv_2, prefix_cons_inv_1 in H.
        discriminate.
      * intros H. discriminate H.
      * intros H. discriminate H.
    + apply (Hkeep _ (File "See DocumDocument/ent/0x04.")); [vm_compute; reflexivity |].
      intros d r Hd Hr E. injection E as E.
      unfold directories in Hd. cbn in Hd.
      repeat (destruct Hd as [<- | Hd]; [discriminate E |]). destruct Hd.
Defined.

(** X11. A [structure_masvs] that returns has changed nothing outside
    [docs/MASVS] and [docs/assets/MASVS/Images], but for making [docs],
    [docs/assets] and [docs/assets/MASVS] where they were missing. *)
Theorem structure_masvs_outside (cwd : list string) (s s' : state) (repo : Path) :
  ".." ∉ cwd -> name cwd ∉ repositories ->
  sound (files s) -> files s !! cwd = Some Dir ->
  structure_masvs cwd ["docs"] s = Return (repo, s') ->
  forall q, ~ (cwd ++ ["docs"; "MASVS"]) `prefix_of` q ->
            ~ (cwd ++ ["docs"; "assets"; "MASVS"; "Images"]) `prefix_of` q ->
            q <> cwd ++ ["docs"] -> q <> cwd ++ ["docs"; "assets"] ->
            q <> cwd ++ ["docs"; "assets"; "MASVS"] ->
            files s' !! q = files s !! q.
Proof.
  intros Hcwd Hname Hs Hdir Hrun.
  assert (Hpost : post (fun q => (under (cwd ++ ["docs"; "MASVS"]) q
                                  \/ upto (cwd ++ ["docs"; "MASVS"]) q)
                                 \/ under (cwd ++ ["docs"; "assets"; "MASVS"; "Images"]) q
                                 \/ upto (cwd ++ ["docs"; "assets"; "MASVS"; "Images"]) q)
                    (strict (cwd ++ ["docs"; "MASVS"])) (structure_masvs cwd ["docs"])).
  { apply (post_structure_masvs cwd Hcwd Hname); tauto. }
  destruct (Hpost s repo s' Hs Hrun) as (Hframe & _ & _).
  intros q Hm Hi Hd Ha Hv. destruct (decide (q `prefix_of` cwd)) as [Hup | Hup].
  - apply (above_kept cwd _ _ _ s s' repo q Hpost Hs Hrun Hdir); [| exact Hup].
    intros k [[r ->] _] H.
    apply prefix_length in H. rewrite !length_app in H. cbn in H. lia.
  - apply Hframe. intros [[H | [H _]] | [H | [H _]]]; try contradiction.
    + apply prefix_app_cases in H as [H | (r & Hr & Hpre & ->)]; [contradiction |].
      destruct r as [|x [|y [|z r]]]; [contradiction | | |].
      * apply prefix_cons_inv_1 in Hpre. now subst x.
      * apply Hm. pose proof (prefix_cons_inv_1 _ _ _ _ Hpre) as ->.
        apply prefix_cons_inv_2, prefix_cons_inv_1 in Hpre. now subst y.
      * apply prefix_cons_inv_2, prefix_cons_inv_2, prefix_nil_inv in Hpre. discriminate.
    + apply prefix_app_cases in H as [H | (r & Hr & Hpre & ->)]; [contradiction |].
      destruct r as [|x [|y [|z [|w [|v r]]]]]; [contradiction | | | | |].
      * apply prefix_cons_inv_1 in Hpre. now subst x.
      * apply Ha. pose proof (prefix_cons_inv_1 _ _ _ _ Hpre) as ->.
        apply prefix_cons_inv_2, prefix_cons_inv_1 in Hpre. now subst y.
      * apply Hv. pose proof (prefix_cons_inv_1 _ _ _ _ Hpre) as ->.
        apply prefix_cons_inv_2 in Hpre.
        pose proof (prefix_cons_inv_1 _ _ _ _ Hpre) as ->.
        apply prefix_cons_inv_2, prefix_cons_inv_1 in Hpre. now subst z.
      * apply Hi. pose proof (prefix_cons_inv_1 _ _ _ _ Hpre) as ->.
        apply prefix_cons_inv_2 in Hpre.
        pose proof (prefix_cons_inv_1 _ _ _ _ Hpre) as ->.
        apply prefix_cons_inv_2 in Hpre.
        pose proof (prefix_cons_inv_1 _ _ _ _ Hpre) as ->.
        apply prefix_cons_inv_2, prefix_cons_inv_1 in Hpre. now subst w.
      * do 4 apply prefix_cons_inv_2 in Hpre. apply prefix_nil_inv in Hpre. discriminate.
Qed.

Lemma structure_masvs_outside_witness :
  exists s',
    structure_masvs ["site"] ["docs"] {| files := example_tree_terms; log := [] |}
    = Return (["repos"; "masvs"], s')
    /\ files s' !! ["site"; "docs"; "MASTG"; "terms"; "MASTG-TERM-0001.md"]
       = Some (File "See DocumDocument/ent/0x04.").
Proof.
  assert (Hvalue : value_of (structure_masvs ["site"] ["docs"]
                               {| files := example_tree_terms; log := [] |})
                   = Some ["repos"; "masvs"]) by (vm_compute; reflexivity).
  destruct (structure_masvs ["site"] ["docs"] {| files := example_tree_terms; log := [] |})
    as [[repo s']|e] eqn:Hrun; [| discriminate Hvalue].
  injection Hvalue as ->. exists s'. split; [reflexivity |].
  assert (Hframe := structure_masvs_outside ["site"]
                      {| files := example_tree_terms; log := [] |} s' ["repos"; "masvs"]).
  etransitivity; [apply Hframe | vm_compute; reflexivity]; clear Hframe.
  - plain.
  - unfold repositories. plain.
  - apply check_sound_sound. vm_compute. reflexivity.
  - vm_compute. reflexivity.
  - exact Hrun.
  - intros H. apply prefix_cons_inv_2, prefix_cons_inv_2, prefix_cons_inv_1 in H.
    discriminate.
  - intros H. apply prefix_cons_inv_2, prefix_cons_inv_2, prefix_cons_inv_1 in H.
    discriminate.
  - discriminate.
  - discriminate.
  - discriminate.
Defined.

(** ** What the build records, and what is watched afterwards *)

Section Recorded.

Variable cwd : list string.

Lemma structure_maswe_value (s s' : state) (repo : Path) :
  structure_maswe cwd ["docs"] s = Return (repo, s') -> repo ∈ candidates "maswe".
Proof.
  intros Hrun. unfold structure_maswe in Hrun.
  apply bind_inv in Hrun as (repo' & s0 & Hloc & Hrun).
  apply bind_inv in Hrun as (u1 & s1 & _ & Hrun).
  apply bind_inv in Hrun as (l & s2 & _ & Hrun).
  apply bind_inv in Hrun as (u2 & s3 & _ & Hret).
  unfold ret in Hret. injection Hret as <- _.
  now apply (locate_value cwd "maswe" s s0).
Qed.

Lemma structure_masvs_value (s s' : state) (repo : Path) :
  structure_masvs cwd ["docs"] s = Return (repo, s') -> repo ∈ candidates "masvs".
Proof.
  intros Hrun. unfold structure_masvs in Hrun.
  apply bind_inv in Hrun as (repo' & s0 & Hloc & Hrun).
  do 4 (apply bind_inv in Hrun as (? & ? & _ & Hrun)).
  apply bind_inv in Hrun as (l & ? & _ & Hrun).
  apply bind_inv in Hrun as (? & ? & _ & Hrun).
  apply bind_inv in Hrun as (l' & ? & _ & Hrun).
  apply bind_inv in Hrun as (? & ? & _ & Hret).
  unfold ret in Hret. injection Hret as <- _.
  now apply (locate_value cwd "masvs" s s0).
Qed.

End Recorded.

(** X12. A build that returns has stored in [config['extra']] the
    locations of MASWE and MASVS, each one of the candidates of its
    repository, under [maswe_repo] and [masvs_repo]; under [mastg_repo]
    it has stored the [None] that [structure_mastg] returns, so that no
    location is recorded there, even when the configuration held one
    before.  The other keys of [extra] and the term index are as they
    were. *)
Theorem on_pre_build_records
    (cwd : list string) (config config' : Config) (s s' : state) :
  on_pre_build cwd config s = Return (config', s') ->
  extra config' !! "mastg_repo" = None
  /\ (exists maswe, In maswe (candidates "maswe")
                    /\ extra config' !! "maswe_repo" = Some maswe)
  /\ (exists masvs, In masvs (candidates "masvs")
                    /\ extra config' !! "masvs_repo" = Some masvs)
  /\ (forall key, key <> "mastg_repo" -> key <> "maswe_repo" -> key <> "masvs_repo" ->
                  extra config' !! key = extra config !! key)
  /\ terms config' = terms config.
Proof.
  intros Hrun. unfold on_pre_build in Hrun.
  apply bind_inv in Hrun as (u & s1 & _ & Hrun).
  apply bind_inv in Hrun as (maswe & s2 & Hmaswe & Hrun).
  apply bind_inv in Hrun as (masvs & s3 & Hmasvs & Hret).
  unfold ret in Hret. injection Hret as <- _. cbn [extra terms].
  apply structure_maswe_value, list_elem_of_In in Hmaswe.
  apply structure_masvs_value, list_elem_of_In in Hmasvs.
  split; [| split; [| split; [| split]]].
  - rewrite !lookup_insert_ne by discriminate. apply lookup_delete_eq.
  - exists maswe. split; [exact Hmaswe |].
    rewrite lookup_insert_ne by discriminate. apply lookup_insert_eq.
  - exists masvs. split; [exact Hmasvs |]. apply lookup_insert_eq.
  - intros key H1 H2 H3.
    rewrite !lookup_insert_ne by congruence. now apply lookup_delete_ne.
  - reflexivity.
Qed.

Lemma on_pre_build_records_witness :
  exists config' s',
    on_pre_build ["site"] {| extra := <["mastg_repo" := ["old"; "mastg"]]> ∅; terms := None |}
      {| files := example_tree; log := [] |} = Return (config', s')
    /\ extra config' !! "mastg_repo" = None
    /\ exists masvs, extra config' !! "masvs_repo" = Some masvs.
Proof.
  assert (Hreturned : returned (on_pre_build ["site"]
                                  {| extra := <["mastg_repo" := ["old"; "mastg"]]> ∅;
                                     terms := None |}
                                  {| files := example_tree; log := [] |}) = true)
    by (vm_compute; reflexivity).
  destruct (on_pre_build ["site"] _ {| files := example_tree; log := [] |})
    as [[config' s']|e] eqn:Hrun; [| discriminate Hreturned].
  exists config', s'. split; [reflexivity |].
  destruct (on_pre_build_records _ _ _ _ _ Hrun) as (Hmastg & _ & (masvs & _ & Hmasvs) & _).
  split; [exact Hmastg |]. exists masvs. exact Hmasvs.
Defined.

(** X13. After a build, serve mode watches two repositories, not three.
    When [on_serve] gets the configuration a returned build left, and
    [unwatch] does not fail with anything but the [ValueError] the hook
    catches, it returns having called [watch] on the MASVS location and
    then on the MASWE location, logging one line for each; the MASTG
    repository is not watched. *)
Theorem serve_after_build {Server : Type}
    (watch : Path -> Server -> Server)
    (unwatch : string -> Server -> Server * option fix_serve_watch.exception)
    (server : Server) (cwd : list string) (config config' : Config) (s s' : state) :
  on_pre_build cwd config s = Return (config', s') ->
  (forall name, snd (unwatch "docs" server) <> Some (fix_serve_watch.OtherError name)) ->
  exists maswe masvs,
    In maswe (candidates "maswe") /\ In masvs (candidates "masvs")
    /\ fix_serve_watch.on_serve watch unwatch server config'
       = inl (watch maswe (watch masvs (fst (unwatch "docs" server))),
              ["Watching MASVS repo at " +:+ fix_serve_watch.str_of_path masvs;
               "Watching MASWE repo at " +:+ fix_serve_watch.str_of_path maswe]).
Proof.
  intros Hrun Hun. unfold on_pre_build in Hrun.
  apply bind_inv in Hrun as (u & s1 & _ & Hrun).
  apply bind_inv in Hrun as (maswe & s2 & Hmaswe & Hrun).
  apply bind_inv in Hrun as (masvs & s3 & Hmasvs & Hret).
  unfold ret in Hret. injection Hret as <- _.
  apply structure_maswe_value, list_elem_of_In in Hmaswe.
  apply structure_masvs_value, list_elem_of_In in Hmasvs.
  exists maswe, masvs. split; [exact Hmaswe |]. split; [exact Hmasvs |].
  set (recorded := <["masvs_repo" := masvs]> (<["maswe_repo" := maswe]>
                      (delete "mastg_repo" (extra config)))).
  assert (Hmastg : recorded !! "mastg_repo" = None).
  { unfold recorded. rewrite !lookup_insert_ne by discriminate. apply lookup_delete_eq. }
  assert (Hvs : recorded !! "masvs_repo" = Some masvs) by apply lookup_insert_eq.
  assert (Hwe : recorded !! "maswe_repo" = Some maswe).
  { unfold recorded. rewrite lookup_insert_ne by discriminate. apply lookup_insert_eq. }
  unfold fix_serve_watch.on_serve, fix_serve_watch.watch_recorded. cbn [extra].
  destruct (unwatch "docs" server) as [server' raised]. cbn [fst snd] in *.
  rewrite Hmastg, Hvs, Hwe.
  destruct raised as [[|name]|]; [reflexivity | | reflexivity].
  now destruct (Hun name).
Qed.

Lemma serve_after_build_witness :
  exists config' s',
    on_pre_build ["site"] {| extra := ∅; terms := None |}
      {| files := example_tree; log := [] |} = Return (config', s')
    /\ exists maswe masvs,
         fix_serve_watch.on_serve fix_serve_watch.trace_watch
           (fix_serve_watch.trace_unwatch true) [] config'
         = inl ([fix_serve_watch.Unwatch "docs"; fix_serve_watch.Watch masvs;
                 fix_serve_watch.Watch maswe],
                ["Watching MASVS repo at " +:+ fix_serve_watch.str_of_path masvs;
                 "Watching MASWE repo at " +:+ fix_serve_watch.str_of_path maswe]).
Proof.
  assert (Hreturned : returned (on_pre_build ["site"] {| extra := ∅; terms := None |}
                                  {| files := example_tree; log := [] |}) = true)
    by (vm_compute; reflexivity).
  destruct (on_pre_build ["site"] _ {| files := example_tree; log := [] |})
    as [[config' s']|e] eqn:Hrun; [| discriminate Hreturned].
  exists config', s'. split; [reflexivity |].
  destruct (serve_after_build fix_serve_watch.trace_watch
              (fix_serve_watch.trace_unwatch true) [] _ _ _ _ _ Hrun)
    as (maswe & masvs & _ & _ & Hserve).
  - intros name. discriminate.
  - exists maswe, masvs. exact Hserve.
Defined.

(** ** Control pages without their sections *)

Section MissingSections.




End MissingSections.



(** ** The two page hooks together *)

(** X15. The glossary hook only ever appends: what it returns for a page
    is the page's markdown followed by a text that depends on the path
    and the configuration alone, not on the markdown. *)
Theorem terms_on_page_markdown_appends (path : string) (config : Config) :
  exists tail, forall markdown,
    resolve_terms.on_page_markdown markdown path config = markdown +:+ tail.
Proof.
  unfold resolve_terms.on_page_markdown.
  destruct (endswith "terms/index.md" path).
  { eexists. intros markdown. reflexivity. }
  destruct (truthy path && resolve_terms.term_page_match path).
  2: { exists EmptyString. intros markdown. now rewrite string_app_nil_r. }
  destruct (dict_get _ _) as [term|].
  2: { exists EmptyString. intros markdown. now rewrite string_app_nil_r. }
  destruct (truthy_opt (nist_url term) || truthy_opt (cwe_url term)).
  2: { exists EmptyString. intros markdown. now rewrite string_app_nil_r. }
  eexists. intros markdown. reflexivity.
Qed.

(** X16. The banner hook and the glossary hook commute: on every page,
    whichever of the two runs first, the result is the same.  (Both are
    registered with the same priority.) *)
Theorem page_hooks_commute (markdown path : string) (config : Config) :
  add_checklists_banner.on_page_markdown
    (resolve_terms.on_page_markdown markdown path config) path
  = resolve_terms.on_page_markdown
      (add_checklists_banner.on_page_markdown markdown path) path config.
Proof.
  unfold add_checklists_banner.on_page_markdown, resolve_terms.on_page_markdown.
  destruct (contains "checklists/MASVS-" path); [| reflexivity].
  destruct (endswith "terms/index.md" path); [now rewrite !string_app_assoc |].
  destruct (truthy path && resolve_terms.term_page_match path); [| reflexivity].
  destruct (dict_get _ _) as [term|]; [| reflexivity].
  destruct (truthy_opt (nist_url term) || truthy_opt (cwe_url term)); [| reflexivity].
  now rewrite !string_app_assoc.
Qed.

(** ** Pages the glossary hook passes through *)

Section OtherPages.
Import resolve_terms.

Lemma term_page_tail_contains (s : string) :
  term_page_tail s = true -> startswith "terms/MASTG-TERM-" s = true.
Proof.
  unfold term_page_tail. intros H.
  destruct (strip_prefix "terms/MASTG-TERM-" s) as [rest|] eqn:E; [| discriminate H].
  clear H. revert E. generalize "terms/MASTG-TERM-" as p. intros p. revert s.
  induction p as [|a p IH]; intros s E; [now destruct s |].
  destruct s as [|b s]; [discriminate E |]. cbn [strip_prefix startswith] in *.
  destruct (Ascii.eqb a b); [now apply IH | discriminate E].
Qed.

Lemma term_page_match_contains (s : string) :
  term_page_match s = true -> contains "terms/MASTG-TERM-" s = true.
Proof.
  induction s as [|c s IH]; cbn [term_page_match contains]; intros H.
  - apply orb_true_iff in H as [H | H]; [| discriminate H].
    now rewrite (term_page_tail_contains _ H).
  - apply orb_true_iff in H as [H | H].
    + now rewrite (term_page_tail_contains _ H).
    + apply andb_true_iff in H as [_ H]. rewrite (IH H). apply orb_true_r.
Qed.

End OtherPages.

(** X17. A page whose path neither ends in [terms/index.md] nor holds
    [terms/MASTG-TERM-] goes through the glossary hook unchanged,
    whatever the configuration. *)
Theorem terms_on_page_markdown_other (markdown path : string) (config : Config) :
  endswith "terms/index.md" path = false ->
  contains "terms/MASTG-TERM-" path = false ->
  resolve_terms.on_page_markdown markdown path config = markdown.
Proof.
  intros Hindex Hterm. unfold resolve_terms.on_page_markdown. rewrite Hindex.
  destruct (resolve_terms.term_page_match path) eqn:E.
  - apply term_page_match_contains in E. congruence.
  - now rewrite andb_false_r.
Qed.

Lemma terms_on_page_markdown_other_witness :
  resolve_terms.on_page_markdown "# Tests" "MASTG/tests/index.md"
    resolve_terms.glossary_example = "# Tests".
Proof.
  apply terms_on_page_markdown_other; vm_compute; reflexivity.
Defined.

(** ** The order of terms with the same title *)

Section Stable.
Context {A : Type} (key : A -> string).

Lemma ltb_irrefl (s : string) : String.ltb s s = false.
Proof.
  unfold String.ltb. pose proof (String.compare_antisym s s) as H.
  destruct (String.compare s s); [reflexivity | discriminate H | reflexivity].
Qed.

Lemma filter_insert_sorted (k : string) (x : A) (l : list A) :
  List.filter (fun a => String.eqb (key a) k) (insert_sorted key x l)
  = List.filter (fun a => String.eqb (key a) k) (x :: l).
Proof.
  induction l as [|y l IH]; [reflexivity |].
  cbn [insert_sorted]. destruct (String.ltb (key y) (key x)) eqn:E; [| reflexivity].
  cbn [List.filter] in *. rewrite IH.
  destruct (String.eqb_spec (key x) k) as [Hx | Hx]; [| reflexivity].
  destruct (String.eqb_spec (key y) k) as [Hy | Hy]; [| reflexivity].
  rewrite Hx, Hy, ltb_irrefl in E. discriminate E.
Qed.

Lemma sorted_stable (k : string) (l : list A) :
  List.filter (fun a => String.eqb (key a) k) (sorted key l)
  = List.filter (fun a => String.eqb (key a) k) l.
Proof.
  induction l as [|x l IH]; [reflexivity |].
  cbn [sorted]. rewrite filter_insert_sorted. cbn [List.filter]. now rewrite IH.
Qed.

End Stable.

(** X18. On the glossary index page the hook appends the links of a
    list of terms in which those that share a title up to case stand in
    the order in which the index holds them: the sort by title does not
    reorder them. *)
Theorem glossary_index_stable (markdown path : string) (config : Config) :
  (exists dir, path = dir +:+ "terms/index.md") ->
  exists shown : list Term,
    resolve_terms.on_page_markdown markdown path config
    = markdown +:+ "<br/>" +:+ Py.join "<br/>" (map resolve_terms.link shown)
    /\ forall k : string,
         List.filter (resolve_terms.titled k) shown
         = List.filter (resolve_terms.titled k)
             (List.filter resolve_terms.listed (dict_values (default [] (terms config)))).
Proof.
  intros Hpath. apply endswith_iff in Hpath.
  unfold resolve_terms.on_page_markdown. rewrite Hpath.
  set (index := dict_values (default [] (terms config))).
  exists (List.filter resolve_terms.listed (Py.sorted resolve_terms.title_key index)).
  split; [reflexivity |]. intros k.
  assert (Hkey : forall l : list Term,
            List.filter (resolve_terms.titled k) l
            = List.filter (fun term => String.eqb (resolve_terms.title_key term) (lower k)) l).
  { intros l. apply List.filter_ext. intros term.
    unfold resolve_terms.titled, resolve_terms.title_key.
    now rewrite or_empty_default, eqb_lower. }
  rewrite !Hkey.
  assert (Hswap : forall l : list Term,
            List.filter (fun term => String.eqb (resolve_terms.title_key term) (lower k))
              (List.filter resolve_terms.listed l)
            = List.filter resolve_terms.listed
                (List.filter (fun term => String.eqb (resolve_terms.title_key term) (lower k)) l)).
  { induction l as [|x l IH]; [reflexivity |]. cbn [List.filter].
    destruct (resolve_terms.listed x) eqn:E1;
      destruct (String.eqb (resolve_terms.title_key x) (lower k)) eqn:E2;
      cbn [List.filter]; rewrite ?E1, ?E2, ?IH; reflexivity. }
  now rewrite !Hswap, sorted_stable.
Qed.

Lemma glossary_index_stable_witness :
  exists shown : list Term,
    resolve_terms.on_page_markdown "# Terms" "MASTG/terms/index.md"
      resolve_terms.glossary_same_title
    = "# Terms" +:+ "<br/>" +:+ Py.join "<br/>" (map resolve_terms.link shown)
    /\ map title (List.filter (resolve_terms.titled "ALPHA") shown)
       = [Some "alpha"; Some "Alpha"].
Proof.
  destruct (glossary_index_stable "# Terms" "MASTG/terms/index.md"
              resolve_terms.glossary_same_title) as (shown & Hout & Hstable).
  - exists "MASTG/". reflexivity.
  - exists shown. split; [exact Hout |]. now rewrite Hstable.
Defined.

(** ** A second build *)

Lemma check_stable_sound (k : list string) (t : tree) (r : list string) (c : string) :
  check_stable k t = true -> t !! (k ++ r) = Some (File c) ->
  generic_fix (generic_fix c) = generic_fix c.
Proof.
  unfold check_stable. rewrite forallb_forall. intros Hc Hr.
  specialize (Hc (k ++ r, File c)). cbn [snd fst] in Hc.
  rewrite bool_decide_eq_true_2 in Hc by now apply prefix_app_r.
  apply String.eqb_eq. apply Hc.
  apply list_elem_of_In, elem_of_map_to_list. exact Hr.
Qed.

(** A build started again on the files a first build left. *)
Lemma on_pre_build_again
    (cwd : list string) (config config' : Config) (s s' y : state) :
  sound (files s) -> files s !! cwd = Some Dir -> name cwd ∉ repositories ->
  (forall r c, hd EmptyString r ∉ directories ->
               files s !! (cwd ++ ["docs"; "MASTG"] ++ r) = Some (File c) ->
               endswith ".md" (name r) = true ->
               contains "/node_modules/" (str_of_path (["docs"; "MASTG"] ++ r)) = false ->
               contains "/." (str_of_path (["docs"; "MASTG"] ++ r)) = false ->
               generic_fix (generic_fix c) = generic_fix c) ->
  on_pre_build cwd config s = Return (config', s') ->
  files y = files s' ->
  exists y', on_pre_build cwd config y = Return (config', y')
             /\ files y' = files s'.
Proof.
  intros Hs Hcwd Hname Hstable Hrun Hy.
  assert (Hplain : ".." ∉ cwd).
  { destruct Hs as (_ & Hp & _). exact (Hp cwd Dir Hcwd). }
  pose proof (post_on_pre_build cwd Hplain Hname config) as Hpost.
  destruct (Hpost s config' s' Hs Hrun) as (Hframe & _ & Hs').
  assert (Hstable' : forall r c, hd EmptyString r ∉ directories ->
             files s !! (cwd ++ ["docs"; "MASTG"] ++ r) = Some (File c) ->
             is_md r = true -> visible (["docs"; "MASTG"] ++ r) = true ->
             generic_fix (generic_fix c) = generic_fix c).
  { intros r c Hd Hc Hmd Hvis. apply (Hstable r c Hd Hc Hmd).
    - unfold visible in Hvis. apply andb_true_iff in Hvis as [H _].
      now apply negb_true_iff in H.
    - unfold visible in Hvis. apply andb_true_iff in Hvis as [_ H].
      now apply negb_true_iff in H. }
  assert (Hrerun : rerun (files s) (files s') (stage [static cwd]) (files s) (files y)).
  { rewrite Hy. split; [| auto].
    intros q (R & HR & Hq). apply list_elem_of_singleton in HR as ->. symmetry.
    destruct (decide (q `prefix_of` cwd)) as [Hup | Hup].
    - apply (above_kept cwd _ _ _ s s' config' q Hpost Hs Hrun Hcwd); [| exact Hup].
      apply emptied_not_above.
    - apply Hframe. intros [H | [H _]]; [contradiction |].
      apply prefix_app_cases in H as [H | (r & Hr & Hpre & ->)]; [contradiction |].
      apply Hq. destruct r as [|x [|y0 r]]; [contradiction | |].
      + apply prefix_cons_inv_1 in Hpre. now subst x.
      + apply prefix_cons_inv_2, prefix_nil_inv in Hpre. discriminate. }
  assert (Hsy : sound (files y)) by now rewrite Hy.
  exact (replays_on_pre_build cwd Hplain Hname (files s) (files s') config Hstable'
           s y config' s' Hs Hsy Hrerun Hrun eq_refl).
Qed.

(** X19. Two builds in a row.  Let a build return from a sound tree, in
    an existing working directory that is not named like one of the
    three repositories, and let every markdown page that [docs/MASTG]
    holds outside the nine directories the build replaces be one that the
    generic fix of [docs/MASTG] leaves alone once applied.  Then a second
    build, started on what the first left, with the same configuration,
    returns the same configuration and leaves every file as the first
    build left it. *)
Theorem on_pre_build_twice
    (cwd : list string) (config config' : Config) (s s' : state) :
  sound (files s) -> files s !! cwd = Some Dir -> name cwd ∉ repositories ->
  (forall r c, hd EmptyString r ∉ directories ->
               files s !! (cwd ++ ["docs"; "MASTG"] ++ r) = Some (File c) ->
               endswith ".md" (name r) = true ->
               contains "/node_modules/" (str_of_path (["docs"; "MASTG"] ++ r)) = false ->
               contains "/." (str_of_path (["docs"; "MASTG"] ++ r)) = false ->
               generic_fix (generic_fix c) = generic_fix c) ->
  on_pre_build cwd config s = Return (config', s') ->
  exists s'', on_pre_build cwd config s' = Return (config', s'')
              /\ files s'' = files s'.
Proof.
  intros Hs Hcwd Hname Hstable Hrun.
  assert (Hplain : ".." ∉ cwd).
  { destruct Hs as (_ & Hp & _). exact (Hp cwd Dir Hcwd). }
  pose proof (post_on_pre_build cwd Hplain Hname config) as Hpost.
  destruct (Hpost s config' s' Hs Hrun) as (Hframe & _ & Hs').
  assert (Hstable' : forall r c, hd EmptyString r ∉ directories ->
             files s !! (cwd ++ ["docs"; "MASTG"] ++ r) = Some (File c) ->
             is_md r = true -> visible (["docs"; "MASTG"] ++ r) = true ->
             generic_fix (generic_fix c) = generic_fix c).
  { intros r c Hd Hc Hmd Hvis. apply (Hstable r c Hd Hc Hmd).
    - unfold visible in Hvis. apply andb_true_iff in Hvis as [H _].
      now apply negb_true_iff in H.
    - unfold visible in Hvis. apply andb_true_iff in Hvis as [_ H].
      now apply negb_true_iff in H. }
  assert (Hrerun : rerun (files s) (files s') (stage [static cwd]) (files s) (files s')).
  { split; [| auto].
    intros q (R & HR & Hq). apply list_elem_of_singleton in HR as ->. symmetry.
    destruct (decide (q `prefix_of` cwd)) as [Hup | Hup].
    - apply (above_kept cwd _ _ _ s s' config' q Hpost Hs Hrun Hcwd); [| exact Hup].
      apply emptied_not_above.
    - apply Hframe. intros [H | [H _]]; [contradiction |].
      apply prefix_app_cases in H as [H | (r & Hr & Hpre & ->)]; [contradiction |].
      apply Hq. destruct r as [|x [|y r]]; [contradiction | |].
      + apply prefix_cons_inv_1 in Hpre. now subst x.
      + apply prefix_cons_inv_2, prefix_nil_inv in Hpre. discriminate. }
  exact (replays_on_pre_build cwd Hplain Hname (files s) (files s') config Hstable'
           s s' config' s' Hs Hs' Hrerun Hrun eq_refl).
Qed.

Lemma on_pre_build_twice_witness :
  exists config' s' s'',
    on_pre_build ["site"] {| extra := ∅; terms := None |}
      {| files := example_tree_notes; log := [] |} = Return (config', s')
    /\ files s' !! ["site"; "docs"; "MASTG"; "terms"; "MASTG-TERM-0001.md"]
       = Some (File "See 0x04.")
    /\ on_pre_build ["site"] {| extra := ∅; terms := None |} s' = Return (config', s'')
    /\ files s'' = files s'.
Proof.
  assert (Hobserved :
            match on_pre_build ["site"] {| extra := ∅; terms := None |}
                    {| files := example_tree_notes; log := [] |} with
            | Return (_, s') =>
                files s' !! ["site"; "docs"; "MASTG"; "terms"; "MASTG-TERM-0001.md"]
            | Raise _ => None
            end = Some (File "See 0x04.")) by (vm_compute; reflexivity).
  destruct (on_pre_build ["site"] {| extra := ∅; terms := None |}
              {| files := example_tree_notes; log := [] |})
    as [[config' s']|e] eqn:Hrun; [| discriminate Hobserved].
  destruct (on_pre_build_twice ["site"] {| extra := ∅; terms := None |} config'
              {| files := example_tree_notes; log := [] |} s') as (s'' & Hrun' & Hsame).
  - apply check_sound_sound. vm_compute. reflexivity.
  - vm_compute. reflexivity.
  - unfold repositories. plain.
  - intros r c _ Hc _ _ _.
    apply (check_stable_sound ["site"; "docs"; "MASTG"] example_tree_notes r c);
      [vm_compute; reflexivity | exact Hc].
  - exact Hrun.
  - exists config', s', s''. split; [reflexivity |]. split; [exact Hobserved |].
    split; [exact Hrun' | exact Hsame].
Defined.

(** C8, amended. The whole merge twice in a row.  Let the merge return
    from a sound tree, in an existing working directory that is not named
    like one of the three repositories, and let every markdown page that
    [docs/MASTG] holds outside the nine directories the merge replaces be
    one that the generic fix of [docs/MASTG] leaves alone once applied.
    Then the merge started on the tree the first run left returns, and
    its tree is that very tree. *)
Theorem merge_twice_same (cwd : list string) (t t1 : tree) :
  sound t -> t !! cwd = Some Dir -> name cwd ∉ repositories ->
  (forall r c, hd EmptyString r ∉ directories ->
               t !! (cwd ++ ["docs"; "MASTG"] ++ r) = Some (File c) ->
               endswith ".md" (name r) = true ->
               contains "/node_modules/" (str_of_path (["docs"; "MASTG"] ++ r)) = false ->
               contains "/." (str_of_path (["docs"; "MASTG"] ++ r)) = false ->
               generic_fix (generic_fix c) = generic_fix c) ->
  merge cwd t = Return t1 -> merge cwd t1 = Return t1.
Proof.
  intros Hs Hcwd Hname Hstable Hrun. unfold merge in *.
  destruct (on_pre_build cwd {| extra := ∅; terms := None |} {| files := t; log := [] |})
    as [[config' s']|e] eqn:Hfirst; [| discriminate Hrun].
  injection Hrun as <-.
  destruct (on_pre_build_again cwd {| extra := ∅; terms := None |} config'
              {| files := t; log := [] |} s' {| files := files s'; log := [] |}
              Hs Hcwd Hname Hstable Hfirst eq_refl) as (y' & Hsecond & Hsame).
  rewrite Hsecond. now rewrite Hsame.
Qed.

Lemma merge_twice_same_witness :
  exists t1,
    merge ["site"] example_tree_notes = Return t1
    /\ t1 !! ["site"; "docs"; "MASTG"; "terms"; "MASTG-TERM-0001.md"]
       = Some (File "See 0x04.")
    /\ merge ["site"] t1 = Return t1.
Proof.
  assert (Hobserved :
            match merge ["site"] example_tree_notes with
            | Return t1 => t1 !! ["site"; "docs"; "MASTG"; "terms"; "MASTG-TERM-0001.md"]
            | Raise _ => None
            end = Some (File "See 0x04.")) by (vm_compute; reflexivity).
  destruct (merge ["site"] example_tree_notes) as [t1|e] eqn:Hrun; [| discriminate Hobserved].
  exists t1. split; [reflexivity |]. split; [exact Hobserved |].
  apply (merge_twice_same ["site"] example_tree_notes t1).
  - apply check_sound_sound. vm_compute. reflexivity.
  - vm_compute. reflexivity.
  - unfold repositories. plain.
  - intros r c _ Hc _ _ _.
    apply (check_stable_sound ["site"; "docs"; "MASTG"] example_tree_notes r c);
      [vm_compute; reflexivity | exact Hc].
  - exact Hrun.
Defined.

(** ** Loops over the pages of a directory *)

Section PageLoops.

Variable cwd : list string.

(** A loop whose body rewrites the page it is given. *)
Lemma for_each_pages_inv (l : list Path) (body : Path -> M unit)
    (F : Path -> string -> option string) :
  (forall p s s' u, p ∈ l -> body p s = Return (u, s') ->
     exists c c', files s !! resolve cwd p = Some (File c) /\ F p c = Some c'
                  /\ files s' = <[resolve cwd p := File c']> (files s)) ->
  forall (s s' : state) (u : unit),
  for_each l body s = Return (u, s') -> NoDup (resolve cwd <$> l) ->
  (forall p, p ∈ l -> exists c c', files s !! resolve cwd p = Some (File c)
                            /\ F p c = Some c'
                            /\ files s' !! resolve cwd p = Some (File c'))
  /\ (forall q, q ∉ resolve cwd <$> l -> files s' !! q = files s !! q).
Proof.
  induction l as [|p l IH]; intros Hbody s s' u Hrun Hnodup.
  - injection Hrun as <- <-. split; [| reflexivity].
    intros p Hp. now apply elem_of_nil in Hp.
  - cbn [for_each] in Hrun.
    apply bind_inv in Hrun as (u1 & s1 & H1 & Hrun).
    destruct (Hbody p s s1 u1 (list_elem_of_here _ _) H1) as (c & c' & Hc & HF & E1).
    rewrite fmap_cons in Hnodup. apply NoDup_cons in Hnodup as [Hp Hnodup].
    destruct (IH (fun p' s s' u Hp' => Hbody p' s s' u (list_elem_of_further _ _ _ Hp'))
                s1 s' u Hrun Hnodup) as [Hfix Hframe].
    split.
    + intros p' Hp'. apply elem_of_cons in Hp' as [-> | Hp'].
      * exists c, c'. split; [exact Hc |]. split; [exact HF |].
        rewrite Hframe by exact Hp. rewrite E1. apply lookup_insert_eq.
      * destruct (Hfix p' Hp') as (d & d' & Hd & HF' & Hd').
        exists d, d'. split; [| split; [exact HF' | exact Hd']].
        rewrite E1, lookup_insert_ne in Hd; [exact Hd |].
        intros H. apply Hp. rewrite H. now apply list_elem_of_fmap_2.
    + intros q Hq. rewrite fmap_cons in Hq. apply not_elem_of_cons in Hq as [Hq1 Hq2].
      rewrite Hframe by exact Hq2. rewrite E1. now apply lookup_insert_ne.
Qed.

(** The pages below [base] after a loop over what [rglob] selects. *)
Lemma rglob_loop_inv (base : Path) (select : list string -> bool)
    (body : Path -> M unit) (F : list string -> string -> option string)
    (s1 s2 s3 : state) (l : list Path) (u : unit) :
  ".." ∉ base -> sound (files s1) ->
  (forall r s s' u, body (base ++ r) s = Return (u, s') ->
     exists c c', files s !! resolve cwd (base ++ r) = Some (File c) /\ F r c = Some c'
                  /\ files s' = <[resolve cwd (base ++ r) := File c']> (files s)) ->
  rglob cwd select base s1 = Return (l, s2) ->
  for_each l body s2 = Return (u, s3) ->
  (forall r, r <> [] ->
     match files s1 !! ((cwd ++ base) ++ r) with
     | Some (File c) =>
         if select r
         then exists c', F r c = Some c'
                         /\ files s3 !! ((cwd ++ base) ++ r) = Some (File c')
         else files s3 !! ((cwd ++ base) ++ r) = Some (File c)
     | entry => files s3 !! ((cwd ++ base) ++ r) = entry
     end)
  /\ (forall q, ~ strict (cwd ++ base) q -> files s3 !! q = files s1 !! q).
Proof.
  intros Hbase Hs1 Hbody Hglob Hloop.
  destruct (rglob_inv cwd select base s1 s2 l Hglob Hs1) as (-> & Hnodup & Hl).
  rewrite (resolve_plain cwd base Hbase) in Hl.
  assert (Hin : forall p, p ∈ l ->
            exists r, p = base ++ r /\ r <> [] /\ resolve cwd p = (cwd ++ base) ++ r
                      /\ select r = true).
  { intros p Hp. apply Hl in Hp as (r & -> & Hne & Hr & Hsel). exists r.
    assert (Hpr : ".." ∉ r).
    { destruct Hs1 as (_ & Hp1 & _). now apply (plain_below (files s1) (cwd ++ base)). }
    rewrite resolve_under, app_assoc by assumption. auto. }
  assert (Hnd : NoDup (resolve cwd <$> l)).
  { apply NoDup_fmap_2_strong; [| exact Hnodup].
    intros p p' Hp Hp' E. destruct (Hin p Hp) as (r & -> & _ & Er & _).
    destruct (Hin p' Hp') as (r' & -> & _ & Er' & _). rewrite Er, Er' in E.
    now apply app_inv_head in E as ->. }
  destruct (for_each_pages_inv l body
              (fun p c => F (List.skipn (length base) p) c)) with (s := s1) (s' := s3) (u := u)
    as [Hfix Hframe]; [| exact Hloop | exact Hnd |].
  { intros p s s' u' Hp Hrun. destruct (Hin p Hp) as (r & -> & _ & _ & _).
    rewrite drop_app_length. now apply Hbody in Hrun. }
  split.
  - intros r Hr.
    destruct (decide ((base ++ r) ∈ l)) as [Hp | Hp].
    + destruct (Hfix _ Hp) as (c & c' & Hc & HF & Hc').
      destruct (Hin _ Hp) as (r' & E & _ & Er & Hsel).
      apply app_inv_head in E. subst r'. rewrite Er in Hc, Hc'.
      rewrite drop_app_length in HF. rewrite Hc, Hsel. eauto.
    + rewrite Hframe.
      * destruct (files s1 !! ((cwd ++ base) ++ r)) as [[c|]|] eqn:E; try reflexivity.
        destruct (select r) eqn:Hsel; [| reflexivity].
        exfalso. apply Hp, Hl. exists r. rewrite E. eauto 8.
      * intros H. apply list_elem_of_fmap in H as (p & E & Hp').
        destruct (Hin p Hp') as (r' & -> & _ & Er & _). rewrite Er in E.
        apply app_inv_head in E. now subst r'.
  - intros q Hq. apply Hframe. intros H. apply list_elem_of_fmap in H as (p & -> & Hp).
    destruct (Hin p Hp) as (r & _ & Hne & Er & _). apply Hq. rewrite Er. split.
    + now apply prefix_app_r.
    + intros E. apply Hne. apply (app_inv_head (cwd ++ base)). now rewrite app_nil_r.
Qed.

Lemma prettify_control_inv (p : Path) (s s' : state) (u : unit) :
  prettify_control cwd p s = Return (u, s') ->
  exists c c', files s !! resolve cwd p = Some (File c)
    /\ control_page (stem p) (universal_newlines c) = Return c'
    /\ files s' = <[resolve cwd p := File c']> (files s).
Proof.
  intros Hrun. unfold prettify_control in Hrun.
  apply bind_inv in Hrun as (content & s0 & Hread & Hrun).
  apply fs_read_inv in Hread as [Hread ->].
  apply bind_inv in Hrun as (content' & s0 & Hpage & Hwrite).
  apply fs_read_inv in Hpage as [Hpage ->].
  apply fs_update_inv in Hwrite as [Hwrite _].
  unfold read_text in Hread.
  destruct (files s !! resolve cwd p) as [[c|]|] eqn:E; try discriminate.
  injection Hread as <-. exists c, content'. split; [reflexivity |].
  split; [exact Hpage |].
  now destruct (write_text_inv _ _ _ _ Hwrite) as (_ & _ & ->).
Qed.

End PageLoops.

(** ** The verification standard *)

Section MasvsPages.

Variable cwd : list string.
Hypothesis cwd_plain : ".." ∉ cwd.
Hypothesis cwd_name : name cwd ∉ repositories.

(** Nothing of [docs/MASVS] lies in [docs/assets/MASVS/Images] or on the
    way to it. *)
Lemma masvs_not_images (r q : list string) :
  q = cwd ++ ["docs"; "MASVS"] ++ r ->
  ~ (under (cwd ++ ["docs"; "assets"; "MASVS"; "Images"]) q
     \/ upto (cwd ++ ["docs"; "assets"; "MASVS"; "Images"]) q).
Proof.
  intros -> [H | [H _]]; apply prefix_app_inv in H; cbn [app] in H;
    apply prefix_cons_inv_2, prefix_cons_inv_1 in H; discriminate.
Qed.

(** What stands below [docs/MASVS] after the two copies. *)
Lemma masvs_copied (repo : Path) (s s1 s2 : state) (u1 u2 : unit) (r : list string) :
  repo ∈ candidates "masvs" -> sound (files s) ->
  clean_and_copy cwd (repo ++ ["Document"]) ["docs"; "MASVS"] s = Return (u1, s1) ->
  clean_and_copy cwd (repo ++ ["controls"]) ["docs"; "MASVS"; "controls"] s1
  = Return (u2, s2) ->
  r <> [] ->
  files s2 !! (cwd ++ ["docs"; "MASVS"] ++ r) = masvs_source cwd repo (files s) r.
Proof.
  intros Hrepo Hs Hcopy1 Hcopy2 Hr.
  assert (Hmasvs : "masvs" ∈ repositories) by (unfold repositories; listed).
  assert (Hapart1 : apart (resolve cwd (repo ++ ["Document"])) (cwd ++ ["docs"; "MASVS"])).
  { apply (source_apart cwd cwd_plain cwd_name "masvs"); [exact Hmasvs | exact Hrepo | plain]. }
  assert (Hapart2 : apart (resolve cwd (repo ++ ["controls"]))
                      (cwd ++ ["docs"; "MASVS"; "controls"])).
  { apply (source_apart cwd cwd_plain cwd_name "masvs"); [exact Hmasvs | exact Hrepo | plain]. }
  assert (Hapart3 : apart (resolve cwd (repo ++ ["controls"])) (cwd ++ ["docs"; "MASVS"])).
  { apply (source_apart cwd cwd_plain cwd_name "masvs"); [exact Hmasvs | exact Hrepo | plain]. }
  destruct (sound_clean_and_copy cwd cwd_plain _ _ s u1 s1 Hs Hcopy1) as (_ & _ & Hs1).
  destruct (clean_and_copy_inv cwd cwd_plain (repo ++ ["Document"]) ["docs"; "MASVS"]
              ltac:(discriminate) ltac:(plain) Hapart1 s s1 u1 Hs Hcopy1)
    as (_ & _ & Hin1 & _ & Hout1).
  destruct (clean_and_copy_inv cwd cwd_plain (repo ++ ["controls"])
              ["docs"; "MASVS"; "controls"]
              ltac:(discriminate) ltac:(plain) Hapart2 s1 s2 u2 Hs1 Hcopy2)
    as (_ & _ & Hin2 & _ & Hout2).
  destruct r as [|d r']; [contradiction |]. cbn [masvs_source].
  destruct (String.eqb_spec d "controls") as [-> | Hd].
  - change (cwd ++ ["docs"; "MASVS"] ++ "controls" :: r')
      with (cwd ++ ["docs"; "MASVS"; "controls"] ++ r').
    rewrite app_assoc, Hin2. destruct r' as [|x r']; [reflexivity |].
    destruct (decide (x :: r' = [])) as [E | _]; [discriminate E |].
    apply Hout1.
    + apply (S_not_under cwd (repo ++ ["controls"]) ["docs"; "MASVS"] Hapart3).
    + apply (S_not_upto cwd (repo ++ ["controls"]) ["docs"; "MASVS"] Hapart3).
  - rewrite Hout2.
    + rewrite app_assoc, Hin1. destruct (decide (d :: r' = [])) as [E | _]; [discriminate E |].
      reflexivity.
    + intros H. apply prefix_app_inv in H. cbn [app] in H.
      apply prefix_cons_inv_2, prefix_cons_inv_2, prefix_cons_inv_1 in H. congruence.
    + intros [H _]. apply prefix_app_inv in H. cbn [app] in H.
      apply prefix_cons_inv_2, prefix_cons_inv_2 in H.
      pose proof (prefix_cons_inv_1 _ _ _ _ H). congruence.
Qed.

End MasvsPages.

(** X20. What [structure_masvs] has made of [docs/MASVS] when it
    returns.  Below [docs/MASVS/controls] stand the entries of the
    repository's [controls] directory, elsewhere below [docs/MASVS] those
    of its [Document] directory, and nothing else.  A regular file whose
    name ends in [.md] holds its text with ["images/"] replaced by the
    path to [assets/MASVS/Images] (three levels up where the page's path
    holds ["controls"], two otherwise); where it is a [controls/*.md]
    page, that text has then been rebuilt as a control page, which the
    template succeeded in doing.  Every other file is a plain copy. *)
Theorem structure_masvs_pages (cwd : list string) (s s' : state) (repo : Path) :
  ".." ∉ cwd -> name cwd ∉ repositories -> sound (files s) ->
  structure_masvs cwd ["docs"] s = Return (repo, s') ->
  In repo (candidates "masvs")
  /\ forall r, r <> [] ->
       match masvs_source cwd repo (files s) r with
       | Some (File c) =>
           exists c', masvs_page r c = Return c'
                      /\ files s' !! (cwd ++ ["docs"; "MASVS"] ++ r) = Some (File c')
       | entry => files s' !! (cwd ++ ["docs"; "MASVS"] ++ r) = entry
       end.
Proof.
  intros Hcwd Hname Hs Hrun. unfold structure_masvs in Hrun. cbn [app] in Hrun.
  apply bind_inv in Hrun as (repo' & s0 & Hloc & Hrun).
  pose proof (locate_value cwd "masvs" s s0 repo' Hloc) as Hrepo.
  destruct (post_locate cwd (fun _ => False) (fun _ => False) "masvs" s repo' s0 Hs Hloc)
    as (Hsame & _ & Hs0).
  assert (E0 : files s0 = files s).
  { apply map_eq. intros q. apply Hsame. intros []. }
  apply bind_inv in Hrun as (u1 & s1 & Hcopy1 & Hrun).
  apply bind_inv in Hrun as (u2 & s2 & Hcopy2 & Hrun).
  apply bind_inv in Hrun as (u3 & s3 & Hmk & Hrun).
  apply bind_inv in Hrun as (u4 & s4 & Htree & Hrun).
  apply bind_inv in Hrun as (l1 & s4' & Hglob1 & Hrun).
  apply bind_inv in Hrun as (u5 & s5 & Hloop1 & Hrun).
  apply bind_inv in Hrun as (l2 & s5' & Hglob2 & Hrun).
  apply bind_inv in Hrun as (u6 & s6 & Hloop2 & Hret).
  unfold ret in Hret. injection Hret as <- <-.
  split; [now apply list_elem_of_In |].
  (* the states on the way are sound *)
  destruct (sound_clean_and_copy cwd Hcwd _ _ s0 u1 s1 Hs0 Hcopy1) as (_ & _ & Hs1).
  destruct (sound_clean_and_copy cwd Hcwd _ _ s1 u2 s2 Hs1 Hcopy2) as (_ & _ & Hs2).
  destruct (post_mkdir_at cwd Hcwd (upto (cwd ++ ["docs"; "assets"; "MASVS"; "Images"]))
              (fun _ => True) ["docs"; "assets"; "MASVS"; "Images"] ltac:(plain)
              (fun q H => H) s2 u3 s3 Hs2 Hmk) as (Hframe3 & _ & Hs3).
  destruct (post_copytree_at cwd Hcwd
              (fun q => under (cwd ++ ["docs"; "assets"; "MASVS"; "Images"]) q
                        \/ upto (cwd ++ ["docs"; "assets"; "MASVS"; "Images"]) q)
              (fun _ => True) (resolve cwd ["docs"; "MASVS"; "images"])
              ["docs"; "assets"; "MASVS"; "Images"] ltac:(plain)
              (fun q H => or_introl H) (fun q H => or_intror H) s3 u4 s4 Hs3 Htree)
    as (Hframe4 & _ & Hs4).
  (* the first loop *)
  set (target := fun r : list string =>
         if contains "controls" (str_of_path (["docs"; "MASVS"] ++ r))
         then "../../../assets/MASVS/Images/" else "../../assets/MASVS/Images/").
  assert (Hbase : ".." ∉ ["docs"; "MASVS"]) by plain.
  lazymatch type of Hloop1 with
  | for_each _ ?body _ = _ =>
      destruct (rglob_loop_inv cwd ["docs"; "MASVS"] is_md body
                  (fun r c => Some (replace "images/" (target r) (universal_newlines c)))
                  s4 s4' s5 l1 u5 Hbase Hs4) as [Hpages1 _];
      [| exact Hglob1 | exact Hloop1 |]
  end.
  { intros r x x' u Hbody. unfold target. cbn [app] in *.
    destruct (contains "controls" _);
      apply replace_in_file_inv in Hbody as (c & Hc & E); eauto. }
  assert (Hs5 : sound (files s5)).
  { destruct (rglob_inv cwd is_md _ s4 s4' l1 Hglob1 Hs4) as (-> & _ & _).
    refine (proj2 (proj2 (post_for_each (fun _ => True) (fun _ => True) l1 _ _
                            s4 u5 s5 Hs4 Hloop1))).
    intros p _. destruct (contains "controls" (str_of_path p));
      now apply post_replace_in_file. }
  (* the second loop *)
  destruct (rglob_loop_inv cwd ["docs"; "MASVS"] is_control_md (prettify_control cwd)
              (fun r c => match control_page (stem (["docs"; "MASVS"] ++ r))
                                  (universal_newlines c) with
                          | Return c' => Some c'
                          | Raise _ => None
                          end)
              s5 s5' s6 l2 u6 Hbase Hs5) as [Hpages2 _];
    [| exact Hglob2 | exact Hloop2 |].
  { intros r x x' u Hbody. apply prettify_control_inv in Hbody as (c & c' & Hc & Hpage & E).
    exists c, c'. cbn [app] in *. now rewrite Hpage. }
  (* together *)
  intros r Hr.
  assert (Hcopied : files s4 !! ((cwd ++ ["docs"; "MASVS"]) ++ r)
                    = masvs_source cwd repo' (files s) r).
  { rewrite <- app_assoc.
    rewrite Hframe4 by now apply (masvs_not_images cwd r).
    rewrite Hframe3 by (intros H; apply (masvs_not_images cwd r _ eq_refl); now right).
    rewrite <- E0. now apply (masvs_copied cwd Hcwd Hname repo' s0 s1 s2 u1 u2). }
  specialize (Hpages1 r Hr). specialize (Hpages2 r Hr).
  rewrite Hcopied in Hpages1. rewrite app_assoc.
  destruct (masvs_source cwd repo' (files s) r) as [[c|]|].
  - unfold masvs_page. fold (target r).
    destruct (is_md r) eqn:Hmd.
    + destruct Hpages1 as (c1 & E1 & Hc1). injection E1 as <-.
      rewrite Hc1 in Hpages2. destruct (is_control_md r) eqn:Hctl.
      * destruct Hpages2 as (c2 & E2 & Hc2). exists c2. split; [| exact Hc2].
        destruct (control_page _ _); [now injection E2 as -> | discriminate E2].
      * eauto.
    + rewrite Hpages1 in Hpages2.
      assert (Hctl : is_control_md r = false).
      { unfold is_control_md. now rewrite Hmd. }
      rewrite Hctl in Hpages2. eauto.
  - now rewrite Hpages1 in Hpages2.
  - now rewrite Hpages1 in Hpages2.
Qed.

Lemma structure_masvs_pages_witness :
  exists s',
    structure_masvs ["site"] ["docs"] {| files := example_tree; log := [] |}
    = Return (["repos"; "masvs"], s')
    /\ files s' !! ["site"; "docs"; "MASVS"; "05-intro.md"]
       = Some (File "![](../../assets/MASVS/Images/l.png)")
    /\ files s' !! ["site"; "docs"; "MASVS"; "controls"; "MASVS-STORAGE-1.md"]
       = Some (File ("# MASVS-STORAGE-1" +:+ LF +:+ LF
                     +:+ "<p style=" +:+ DQUOTE +:+ "font-size: 2em" +:+ DQUOTE +:+ ">"
                     +:+ "The app securely stores sensitive data.</p>" +:+ LF +:+ LF
                     +:+ "<hr style=" +:+ DQUOTE
                     +:+ "height: 0.2em; background-color: #499FFF; border: 0;"
                     +:+ DQUOTE +:+ " />" +:+ LF +:+ LF
                     +:+ "Apps handle sensitive data." +:+ LF))
    /\ files s' !! ["site"; "docs"; "MASVS"; "images"; "l.png"] = Some (File "PNG")
    /\ files s' !! ["site"; "docs"; "MASVS"; "06-old.md"] = None.
Proof.
  assert (Hvalue : value_of (structure_masvs ["site"] ["docs"]
                               {| files := example_tree; log := [] |})
                   = Some ["repos"; "masvs"]) by (vm_compute; reflexivity).
  destruct (structure_masvs ["site"] ["docs"] {| files := example_tree; log := [] |})
    as [[repo s']|e] eqn:Hrun; [| discriminate Hvalue].
  injection Hvalue as ->. exists s'. split; [reflexivity |].
  destruct (structure_masvs_pages ["site"] {| files := example_tree; log := [] |}
              s' ["repos"; "masvs"]) as [_ Hpages].
  - plain.
  - unfold repositories. plain.
  - exact example_tree_sound.
  - exact Hrun.
  - cbn [files] in Hpages. split; [| split; [| split]].
    + assert (H := Hpages ["05-intro.md"]).
      assert (E : masvs_source ["site"] ["repos"; "masvs"] example_tree ["05-intro.md"]
                  = Some (File "![](images/l.png)")) by (vm_compute; reflexivity).
      rewrite E in H. destruct H as (c' & Hpage & Hc'); [discriminate |].
      etransitivity; [exact Hc' |]. f_equal. f_equal.
      assert (E' : masvs_page ["05-intro.md"] "![](images/l.png)"
                   = Return "![](../../assets/MASVS/Images/l.png)")
        by (vm_compute; reflexivity).
      rewrite E' in Hpage. now injection Hpage as <-.
    + assert (H := Hpages ["controls"; "MASVS-STORAGE-1.md"]).
      set (c := "## Control" +:+ LF +:+ LF +:+ "The app securely stores sensitive data."
                +:+ LF +:+ LF +:+ "## Description" +:+ LF +:+ LF
                +:+ "Apps handle sensitive data." +:+ LF).
      assert (E : masvs_source ["site"] ["repos"; "masvs"] example_tree
                    ["controls"; "MASVS-STORAGE-1.md"] = Some (File c))
        by (vm_compute; reflexivity).
      rewrite E in H. destruct H as (c' & Hpage & Hc'); [discriminate |].
      etransitivity; [exact Hc' |]. f_equal. f_equal.
      assert (E' : masvs_page ["controls"; "MASVS-STORAGE-1.md"] c
                   = Return ("# MASVS-STORAGE-1" +:+ LF +:+ LF
                     +:+ "<p style=" +:+ DQUOTE +:+ "font-size: 2em" +:+ DQUOTE +:+ ">"
                     +:+ "The app securely stores sensitive data.</p>" +:+ LF +:+ LF
                     +:+ "<hr style=" +:+ DQUOTE
                     +:+ "height: 0.2em; background-color: #499FFF; border: 0;"
                     +:+ DQUOTE +:+ " />" +:+ LF +:+ LF
                     +:+ "Apps handle sensitive data." +:+ LF))
        by (vm_compute; reflexivity).
      rewrite E' in Hpage. now injection Hpage as <-.
    + assert (H := Hpages ["images"; "l.png"]).
      assert (E : masvs_source ["site"] ["repos"; "masvs"] example_tree ["images"; "l.png"]
                  = Some (File "PNG")) by (vm_compute; reflexivity).
      rewrite E in H. destruct H as (c' & Hpage & Hc'); [discriminate |].
      etransitivity; [exact Hc' |]. f_equal. f_equal.
      assert (E' : masvs_page ["images"; "l.png"] "PNG" = Return "PNG")
        by (vm_compute; reflexivity).
      rewrite E' in Hpage. now injection Hpage as <-.
    + assert (H := Hpages ["06-old.md"]).
      assert (E : masvs_source ["site"] ["repos"; "masvs"] example_tree ["06-old.md"] = None)
        by (vm_compute; reflexivity).
      rewrite E in H. apply H. discriminate.
Defined.

(** X21. [structure_masvs] returns only for a repository whose
    [Document] holds a directory [images]: the copy of
    [docs/MASVS/images] to the assets raises otherwise, although
    [clean_and_copy] puts up with a missing [Document]. *)
Theorem structure_masvs_needs_images (cwd : list string) (s s' : state) (repo : Path) :
  ".." ∉ cwd -> name cwd ∉ repositories -> sound (files s) ->
  structure_masvs cwd ["docs"] s = Return (repo, s') ->
  files s !! resolve cwd (repo ++ ["Document"; "images"]) = Some Dir.
Proof.
  intros Hcwd Hname Hs Hrun. unfold structure_masvs in Hrun. cbn [app] in Hrun.
  apply bind_inv in Hrun as (repo' & s0 & Hloc & Hrun).
  pose proof (locate_value cwd "masvs" s s0 repo' Hloc) as Hrepo.
  destruct (post_locate cwd (fun _ => False) (fun _ => False) "masvs" s repo' s0 Hs Hloc)
    as (Hsame & _ & Hs0).
  assert (E0 : files s0 = files s).
  { apply map_eq. intros q. apply Hsame. intros []. }
  apply bind_inv in Hrun as (u1 & s1 & Hcopy1 & Hrun).
  apply bind_inv in Hrun as (u2 & s2 & Hcopy2 & Hrun).
  apply bind_inv in Hrun as (u3 & s3 & Hmk & Hrun).
  apply bind_inv in Hrun as (u4 & s4 & Htree & Hrun).
  apply bind_inv in Hrun as (l1 & s4' & _ & Hrun).
  apply bind_inv in Hrun as (u5 & s5 & _ & Hrun).
  apply bind_inv in Hrun as (l2 & s5' & _ & Hrun).
  apply bind_inv in Hrun as (u6 & s6 & _ & Hret).
  unfold ret in Hret. injection Hret as <- <-.
  apply fs_update_inv in Htree as [Htree _].
  apply copytree_inv in Htree as (Hdir & _).
  apply fs_update_inv in Hmk as [Hmk _].
  apply mkdir_p_inv in Hmk as (_ & _ & Hrest).
  assert (Hplain : ".." ∉ ["docs"; "MASVS"; "images"]) by plain.
  rewrite (resolve_plain cwd _ Hplain) in Hdir.
  assert (Hplain' : ".." ∉ ["docs"; "assets"; "MASVS"; "Images"]) by plain.
  rewrite (resolve_plain cwd _ Hplain') in Hrest.
  rewrite Hrest in Hdir.
  - change ["Document"; "images"] with (["Document"] ++ ["images"]).
    rewrite app_assoc, resolve_app by plain. rewrite <- E0, <- Hdir.
    symmetry. apply (masvs_copied cwd Hcwd Hname repo' s0 s1 s2 u1 u2 ["images"]);
      [exact Hrepo | exact Hs0 | exact Hcopy1 | exact Hcopy2 | discriminate].
  - intros H. apply (masvs_not_images cwd ["images"] _ eq_refl). now right.
Qed.

Lemma structure_masvs_needs_images_witness :
  exists s',
    structure_masvs ["site"] ["docs"] {| files := example_tree; log := [] |}
    = Return (["repos"; "masvs"], s')
    /\ example_tree !! ["site"; "repos"; "masvs"; "Document"; "images"] = Some Dir.
Proof.
  assert (Hvalue : value_of (structure_masvs ["site"] ["docs"]
                               {| files := example_tree; log := [] |})
                   = Some ["repos"; "masvs"]) by (vm_compute; reflexivity).
  destruct (structure_masvs ["site"] ["docs"] {| files := example_tree; log := [] |})
    as [[repo s']|e] eqn:Hrun; [| discriminate Hvalue].
  injection Hvalue as ->. exists s'. split; [reflexivity |].
  apply (structure_masvs_needs_images ["site"] {| files := example_tree; log := [] |}
           s' ["repos"; "masvs"]).
  - plain.
  - unfold repositories. plain.
  - exact example_tree_sound.
  - exact Hrun.
Defined.

(** ** Moving a tree *)

Lemma app_cons_neq {A} (k : list A) (x : A) (r : list A) : k ++ x :: r <> k.
Proof.
  intros E. apply (f_equal length) in E. rewrite length_app in E. simpl in E. lia.
Qed.

Lemma prefix_of_removelast (k q : list string) :
  k `prefix_of` q -> k <> q -> k `prefix_of` removelast q.
Proof.
  intros [r ->] E. destruct r as [|x r] using rev_ind.
  - now rewrite app_nil_r in E.
  - rewrite app_assoc, removelast_last. now apply prefix_app_r.
Qed.

(** What a move that returns has done, in a tree whose entries stand in
    directories. *)
Lemma move_inv (cwd S D : list string) (t t' : tree) :
  well_formed t -> move cwd S D t = Return t' ->
  apart S D /\ is_Some (t !! S) /\ t !! D = None
  /\ (forall r, t' !! (D ++ r) = t !! (S ++ r))
  /\ (forall r, t' !! (S ++ r) = None)
  /\ (forall q, ~ under S q -> ~ under D q -> t' !! q = t !! q).
Proof.
  intros Hwf Hrun. unfold move in Hrun.
  destruct (t !! D) as [n|] eqn:HD; [discriminate |].
  assert (HDS : is_Some (t !! S) -> ~ D `prefix_of` S).
  { intros [n Hn] H. destruct (decide (D = S)) as [E | E]; [congruence |].
    pose proof (Hwf S _ Hn D H E). congruence. }
  assert (Hbelow : forall x r, t !! (D ++ x :: r) = None).
  { intros x r. apply (nothing_below t D); [exact Hwf | congruence | now apply prefix_app_r |].
    apply app_cons_neq. }
  destruct (t !! S) as [[c|]|] eqn:HS; [| | discriminate].
  - destruct (t !! removelast D) as [[c'|]|] eqn:Hparent; try discriminate.
    injection Hrun as <-.
    assert (HSD : ~ S `prefix_of` D).
    { intros H. destruct (decide (S = D)) as [E | E]; [congruence |].
      pose proof (prefix_of_removelast S D H E) as H'.
      destruct (decide (S = removelast D)) as [E' | E']; [congruence |].
      pose proof (Hwf _ _ Hparent S H' E'). congruence. }
    assert (Hfile : forall x r, t !! (S ++ x :: r) = None).
    { intros x r. apply (nothing_below t S); [exact Hwf | congruence | now apply prefix_app_r |].
      apply app_cons_neq. }
    split; [split; eauto |]. split; [eauto |]. split; [reflexivity |].
    split; [| split].
    + intros r. destruct r as [|x r].
      * rewrite !app_nil_r, HS. apply lookup_insert_eq.
      * rewrite lookup_insert_ne by (intros E; symmetry in E; now apply app_cons_neq in E).
        rewrite lookup_delete_ne
          by (intros E; apply (HDS ltac:(eauto)); rewrite E; now apply prefix_app_r).
        now rewrite Hbelow, Hfile.
    + intros r. rewrite lookup_insert_ne.
      * destruct r as [|x r]; [rewrite app_nil_r; apply lookup_delete_eq |].
        rewrite lookup_delete_ne by (intros E; symmetry in E; now apply app_cons_neq in E).
        apply Hfile.
      * intros ->. apply HSD. now apply prefix_app_r.
    + intros q HqS HqD. rewrite lookup_insert_ne, lookup_delete_ne; [reflexivity | |].
      * intros ->. now apply HqS.
      * intros ->. now apply HqD.
  - case_bool_decide as HSD; [discriminate |].
    case_bool_decide as Hcwd; [discriminate |].
    destruct (t !! removelast D) as [[c'|]|] eqn:Hparent; try discriminate.
    injection Hrun as <-.
    split; [split; eauto |]. split; [eauto |]. split; [reflexivity |].
    assert (Hkeep : forall q, (filter (fun kn : list string * node => ¬ S `prefix_of` kn.1) t) !! q
                              = if decide (S `prefix_of` q) then None else t !! q).
    { intros q. destruct (decide (S `prefix_of` q)) as [Hq | Hq].
      - apply map_lookup_filter_None. right. intros n _ H. now apply H.
      - destruct (t !! q) as [n|] eqn:E.
        + now apply map_lookup_filter_Some.
        + apply map_lookup_filter_None. now left. }
    split; [| split].
    + intros r. destruct (t !! (S ++ r)) as [n|] eqn:E.
      * apply lookup_union_Some_l. rewrite lookup_kmap; [| apply _].
        now rewrite lookup_subtree.
      * apply lookup_union_None. split.
        -- rewrite lookup_kmap; [| apply _]. now rewrite lookup_subtree.
        -- rewrite Hkeep. destruct (decide (S `prefix_of` D ++ r)); [reflexivity |].
           destruct r as [|x r]; [now rewrite app_nil_r | apply Hbelow].
    + intros r. apply lookup_union_None. split.
      * apply lookup_kmap_None; [apply _ |]. intros r' E.
        exfalso. destruct (prefix_weak_total D S (S ++ r)) as [H | H];
          [rewrite E; now apply prefix_app_r | now apply prefix_app_r | |].
        -- now apply (HDS ltac:(eauto)).
        -- now apply HSD.
      * rewrite Hkeep. destruct (decide (S `prefix_of` S ++ r)) as [| H]; [reflexivity |].
        exfalso. apply H. now apply prefix_app_r.
    + intros q HqS HqD. rewrite lookup_union_r.
      * rewrite Hkeep. destruct (decide (S `prefix_of` q)); [contradiction | reflexivity].
      * apply lookup_kmap_None; [apply _ |]. intros r' ->. exfalso. apply HqD.
        now apply prefix_app_r.
Qed.

(** X22. What [clean_and_move] has done when it returns, for a source
    and a destination given by paths without [..] from the working
    directory: neither lies in the other and the source stood; the
    destination holds all that stood at and below the source, in the
    same places; nothing is left at or below the source; the directories
    down to the destination's parent stand; every other entry is as it
    was. *)
Theorem clean_and_move_moves (cwd : list string) (source destination : Path)
    (s s' : state) (u : unit) :
  ".." ∉ cwd -> ".." ∉ source -> ".." ∉ destination -> sound (files s) ->
  clean_and_move cwd source destination s = Return (u, s') ->
  apart (cwd ++ source) (cwd ++ destination)
  /\ is_Some (files s !! (cwd ++ source))
  /\ (forall r, files s' !! ((cwd ++ destination) ++ r) = files s !! ((cwd ++ source) ++ r))
  /\ (forall r, files s' !! ((cwd ++ source) ++ r) = None)
  /\ (forall q, upto (removelast (cwd ++ destination)) q -> files s' !! q = Some Dir)
  /\ (forall q, ~ under (cwd ++ source) q -> ~ under (cwd ++ destination) q ->
                ~ upto (removelast (cwd ++ destination)) q ->
                files s' !! q = files s !! q).
Proof.
  intros Hcwd Hsrc Hdst Hs Hrun.
  assert (Hne : destination <> []).
  { intros ->. unfold clean_and_move in Hrun.
    apply bind_inv in Hrun as (present & s0 & Hex & Hrun).
    injection Hex as <- <-. cbn [resolve fold_left parent removelast] in Hrun.
    apply bind_inv in Hrun as (u1 & s1 & Hclean & Hrun).
    apply bind_inv in Hrun as (u2 & s2 & Hmk & Hrun).
    apply fs_update_inv in Hrun as [Hrun _].
    apply fs_update_inv in Hmk as [Hmk _]. cbn [resolve fold_left] in Hmk.
    apply mkdir_p_inv in Hmk as (_ & Hmade & _).
    case_bool_decide as Hpresent.
    - apply fs_update_inv in Hclean as [Hclean _].
      apply rmtree_inv in Hclean as [_ H]. now apply H.
    - assert (E : files s2 !! cwd = Some Dir).
      { apply Hmade. split; [reflexivity |]. intros ->. apply Hpresent.
        destruct Hs as (_ & _ & ->). eauto. }
      unfold move in Hrun. now rewrite E in Hrun. }
  unfold clean_and_move in Hrun.
  apply (prepare_inv cwd Hcwd destination Hne Hdst) in Hrun
    as (sb & Hb & Hsb & _ & Hrun); [| exact Hs].
  apply fs_update_inv in Hrun as [Hrun _].
  rewrite (resolve_plain cwd source Hsrc), (resolve_plain cwd destination Hdst) in Hrun.
  set (S := cwd ++ source) in *. set (D := cwd ++ destination) in *.
  destruct (move_inv cwd S D _ _ (proj1 Hsb) Hrun)
    as ([HSD HDS] & HS & _ & Hin & Hgone & Hrest).
  assert (Hup : forall q, upto (removelast D) q -> ~ under S q /\ ~ under D q).
  { intros q [Hq _]. split; intros H.
    - apply HSD. transitivity q; [exact H |]. transitivity (removelast D); [exact Hq |].
      apply removelast_prefix.
    - assert (E : removelast D = D).
      { apply (anti_symm prefix); [apply removelast_prefix |]. now transitivity q. }
      apply (removelast_neq D); [| exact E]. now apply app_nonempty. }
  assert (Hsource : forall r, files sb !! (S ++ r) = files s !! (S ++ r)).
  { intros r. rewrite Hb.
    destruct (decide (D `prefix_of` S ++ r)) as [H | _].
    - exfalso. destruct (prefix_weak_total D S (S ++ r) H) as [H' | H'];
        [now apply prefix_app_r | now apply HDS | now apply HSD].
    - destruct (decide (upto (removelast D) (S ++ r))) as [H | _]; [| reflexivity].
      exfalso. apply (proj1 (Hup _ H)). now apply prefix_app_r. }
  split; [split; assumption |]. split; [| split; [| split; [| split]]].
  - rewrite <- (app_nil_r S), <- Hsource, app_nil_r. exact HS.
  - intros r. now rewrite Hin, Hsource.
  - exact Hgone.
  - intros q Hq. destruct (Hup q Hq) as [HqS HqD].
    rewrite Hrest by assumption. rewrite Hb.
    destruct (decide (D `prefix_of` q)); [contradiction |].
    destruct (decide (upto (removelast D) q)); [reflexivity | contradiction].
  - intros q HqS HqD Hq. rewrite Hrest by assumption. rewrite Hb.
    destruct (decide (D `prefix_of` q)); [contradiction |].
    destruct (decide (upto (removelast D) q)); [contradiction | reflexivity].
Qed.

Lemma clean_and_move_moves_witness :
  exists s',
    clean_and_move ["site"] ["repos"; "maswe"; "weaknesses"] ["docs"; "MASWE"]
      {| files := example_tree_stale_maswe; log := [] |} = Return (tt, s')
    /\ files s' !! ["site"; "docs"; "MASWE"; "w.md"] = Some (File "see Document/tests")
    /\ files s' !! ["site"; "repos"; "maswe"; "weaknesses"; "w.md"] = None
    /\ files s' !! ["site"; "repos"; "maswe"; "weaknesses"] = None
    /\ files s' !! ["site"; "docs"; "index.md"] = Some (File "# Home").
Proof.
  assert (Hvalue : returned (clean_and_move ["site"] ["repos"; "maswe"; "weaknesses"]
                               ["docs"; "MASWE"]
                               {| files := example_tree_stale_maswe; log := [] |}) = true)
    by (vm_compute; reflexivity).
  destruct (clean_and_move ["site"] ["repos"; "maswe"; "weaknesses"] ["docs"; "MASWE"]
              {| files := example_tree_stale_maswe; log := [] |})
    as [[[] s']|e] eqn:Hrun; [| discriminate Hvalue].
  exists s'. split; [reflexivity |].
  destruct (clean_and_move_moves ["site"] ["repos"; "maswe"; "weaknesses"] ["docs"; "MASWE"]
              {| files := example_tree_stale_maswe; log := [] |} s' tt)
    as (_ & _ & Hin & Hgone & _ & Hrest).
  - plain.
  - plain.
  - plain.
  - apply check_sound_sound. vm_compute. reflexivity.
  - exact Hrun.
  - split; [| split; [| split]].
    + etransitivity; [apply (Hin ["w.md"]) | vm_compute; reflexivity].
    + apply (Hgone ["w.md"]).
    + apply (Hgone []).
    + etransitivity; [apply Hrest | vm_compute; reflexivity].
      * intros H. apply prefix_cons_inv_2, prefix_cons_inv_1 in H. discriminate.
      * intros H. apply prefix_cons_inv_2, prefix_cons_inv_2, prefix_cons_inv_1 in H.
        discriminate.
      * intros [H _]. apply prefix_cons_inv_2, prefix_cons_inv_2 in H.
        apply prefix_nil_inv in H. discriminate.
Defined.

(** ** The testing guide *)

Section Copies.

Variable cwd : list string.
Hypothesis cwd_plain : ".." ∉ cwd.
Variables repo base : Path.
Hypothesis base_plain : ".." ∉ base.

(** A loop of [clean_and_copy] from the directories [l] of a repository
    to the directories of these names below [base]. *)
Lemma copies_inv (l : list string) :
  NoDup l -> (forall d, d ∈ l -> d <> "..") ->
  (forall d d', d ∈ l -> d' ∈ l ->
     apart (resolve cwd (repo ++ [d])) (cwd ++ base ++ [d'])) ->
  forall (s s' : state) (u : unit), sound (files s) ->
  for_each l (fun d => clean_and_copy cwd (repo ++ [d]) (base ++ [d])) s = Return (u, s') ->
  sound (files s')
  /\ (forall d r, d ∈ l ->
        files s' !! (cwd ++ base ++ [d] ++ r)
        = if decide (r = []) then Some Dir else files s !! (resolve cwd (repo ++ [d]) ++ r))
  /\ (forall q, (forall d, d ∈ l -> ~ under (cwd ++ base ++ [d]) q) ->
                ~ upto (cwd ++ base) q -> files s' !! q = files s !! q).
Proof.
  induction l as [|d0 l IH]; intros Hnodup Hplain Hapart s s' u Hs Hrun.
  - injection Hrun as <- <-. split; [exact Hs |]. split; [| reflexivity].
    intros d r Hd. now apply elem_of_nil in Hd.
  - cbn [for_each] in Hrun. apply bind_inv in Hrun as (u1 & s1 & Hcopy & Hrun).
    apply NoDup_cons in Hnodup as [Hd0 Hnodup].
    assert (Hdst : ".." ∉ base ++ [d0]).
    { apply prefix_app_plain; [exact base_plain |].
      apply not_elem_of_cons. split; [| apply not_elem_of_nil].
      intros E. now apply (Hplain d0 (list_elem_of_here _ _)). }
    assert (Hne : base ++ [d0] <> []) by (now destruct base).
    destruct (sound_clean_and_copy cwd cwd_plain _ _ s u1 s1 Hs Hcopy) as (_ & _ & Hs1).
    destruct (clean_and_copy_inv cwd cwd_plain (repo ++ [d0]) (base ++ [d0]) Hne Hdst
                (Hapart d0 d0 (list_elem_of_here _ _) (list_elem_of_here _ _))
                s s1 u1 Hs Hcopy) as (_ & _ & Hin & Hup & Hout).
    destruct (IH Hnodup
                (fun d Hd => Hplain d (list_elem_of_further _ _ _ Hd))
                (fun d d' Hd Hd' => Hapart d d' (list_elem_of_further _ _ _ Hd)
                                            (list_elem_of_further _ _ _ Hd'))
                s1 s' u Hs1 Hrun) as (Hs' & Hcopied & Hrest).
    assert (Hupto : forall q, upto (cwd ++ base ++ [d0]) q ->
                      under (cwd ++ base ++ [d0]) q \/ upto (cwd ++ base) q).
    { intros q Hq. apply upto_cases in Hq as [-> | Hq]; [now left | right].
      now rewrite !app_assoc, removelast_last in Hq. }
    split; [exact Hs' |]. split.
    + intros d r Hd. apply elem_of_cons in Hd as [-> | Hd].
      * rewrite Hrest.
        -- rewrite <- Hin. now rewrite <- !app_assoc.
        -- intros d Hd H. unfold under in H. apply prefix_app_inv, prefix_app_inv in H.
           pose proof (prefix_cons_inv_1 _ _ _ _ H). congruence.
        -- intros [H _]. apply prefix_length in H. rewrite !length_app in H.
           simpl in H. lia.
      * rewrite (Hcopied d r Hd). destruct (decide (r = [])); [reflexivity |].
        pose proof (Hapart d d0 (list_elem_of_further _ _ _ Hd) (list_elem_of_here _ _)) as Ha.
        apply Hout.
        -- apply (S_not_under cwd (repo ++ [d]) (base ++ [d0]) Ha).
        -- apply (S_not_upto cwd (repo ++ [d]) (base ++ [d0]) Ha).
    + intros q Hq Hq'. rewrite Hrest.
      * apply Hout.
        -- apply Hq. left.
        -- intros H. apply Hupto in H as [H | H]; [| contradiction].
           now apply (Hq d0 (list_elem_of_here _ _)).
      * intros d Hd. apply Hq. now right.
      * exact Hq'.
Qed.

End Copies.

Section Fixes.

Variable cwd : list string.
Hypothesis cwd_plain : ".." ∉ cwd.
Variable base : Path.
Hypothesis base_plain : ".." ∉ base.
Variable replacements : string -> list (string * string).
Hypothesis replacements_nonempty : forall x, replacements x <> [].

Lemma find_absent (d : string) (l : list (string * string)) :
  d ∉ l.*1 -> List.find (fun e : string * string => String.eqb (fst e) d) l = None.
Proof.
  induction l as [|[k v] l IH]; intros Hd; [reflexivity |].
  rewrite fmap_cons in Hd. apply not_elem_of_cons in Hd as [Hne Hd].
  cbn [List.find fst]. destruct (String.eqb_spec k d) as [-> | _]; [contradiction |].
  now apply IH.
Qed.

(** A loop over directories below [base], each with the replacements of
    its own made in the pages that [find_md_files] lists. *)
Lemma fixes_inv (l : list (string * string)) :
  NoDup l.*1 -> (forall e, e ∈ l -> fst e <> "..") ->
  forall (s s' : state) (u : unit), sound (files s) ->
  for_each l (fun '(subdir, rel_img) =>
    do files <- find_md_files cwd (base ++ [subdir]);
    batch_replace cwd files (replacements rel_img)) s = Return (u, s') ->
  sound (files s')
  /\ (forall d r, r <> [] ->
        files s' !! (cwd ++ base ++ [d] ++ r)
        = match files s !! (cwd ++ base ++ [d] ++ r) with
          | Some (File c) =>
              Some (File
                (match List.find (fun e : string * string => String.eqb (fst e) d) l with
                 | Some (_, rel_img) =>
                     if is_md r && visible (base ++ [d] ++ r)
                     then fix_page (replacements rel_img) c else c
                 | None => c
                 end))
          | entry => entry
          end)
  /\ (forall q, (forall e, e ∈ l -> ~ strict (cwd ++ base ++ [fst e]) q) ->
                files s' !! q = files s !! q).
Proof.
  induction l as [|[d0 rel0] l IH]; intros Hnodup Hplain s s' u Hs Hrun.
  - injection Hrun as <- <-. split; [exact Hs |]. split; [| reflexivity].
    intros d r _. cbn [List.find]. now destruct (files s !! _) as [[c|]|].
  - cbn [for_each] in Hrun. apply bind_inv in Hrun as (u1 & s1 & Hfix & Hrun).
    rewrite fmap_cons in Hnodup. apply NoDup_cons in Hnodup as [Hd0 Hnodup].
    assert (Hdst : ".." ∉ base ++ [d0]).
    { apply prefix_app_plain; [exact base_plain |].
      apply not_elem_of_cons. split; [| apply not_elem_of_nil].
      intros E. now apply (Hplain (d0, rel0) (list_elem_of_here _ _)). }
    destruct (post_fix_pages cwd cwd_plain (fun _ => True) (fun _ => True)
                (base ++ [d0]) (replacements rel0) (fun _ _ => I) s u1 s1 Hs Hfix)
      as (_ & _ & Hs1).
    apply bind_inv in Hfix as (found & s0 & Hfind & Hbatch).
    destruct (fix_pages_inv cwd (base ++ [d0]) (replacements rel0) s s0 s1 found u1
                Hdst (replacements_nonempty rel0) Hs Hfind Hbatch) as [Hpages Hframe].
    destruct (IH Hnodup (fun e He => Hplain e (list_elem_of_further _ _ _ He))
                s1 s' u Hs1 Hrun) as (Hs' & Hfixed & Hsame).
    split; [exact Hs' |]. split.
    + intros d r Hr. rewrite (Hfixed d r Hr).
      cbn [List.find fst]. destruct (String.eqb_spec d0 d) as [<- | Hne].
      * rewrite (find_absent d0 l Hd0).
        replace (cwd ++ base ++ [d0] ++ r) with ((cwd ++ base ++ [d0]) ++ r)
          by now rewrite <- !app_assoc.
        rewrite (Hpages r Hr). rewrite <- !app_assoc.
        now destruct (files s !! _) as [[c|]|].
      * rewrite Hframe; [reflexivity |].
        intros [H _]. apply prefix_app_inv, prefix_app_inv in H.
        pose proof (prefix_cons_inv_1 _ _ _ _ H). congruence.
    + intros q Hq. rewrite Hsame.
      * apply Hframe. apply (Hq (d0, rel0)). left.
      * intros e He. apply Hq. now right.
Qed.

End Fixes.

(** The frame of a step that has run, and the soundness it keeps. *)
Ltac framed W Hs Hrun Hf Hs' :=
  lazymatch type of Hrun with
  | ?c ?s = Return (?a, ?s') =>
      let Hpost := fresh "Hpost" in
      assert (Hpost : post W (fun _ => True) c);
      [ | destruct (Hpost s a s' Hs Hrun) as (Hf & _ & Hs'); clear Hpost ]
  end.

Section Chapters.

Variable cwd : list string.

(** The loop that copies the chapters [l] of [doc] to [docs/MASTG]. *)
Lemma chapters_inv (doc : Path) (l : list Path) :
  NoDup l ->
  (forall p, p ∈ l -> exists nm, p = doc ++ [nm] /\ nm <> "..") ->
  (forall p rel, p ∈ l -> resolve cwd p <> cwd ++ "docs" :: rel) ->
  forall (s s' : state) (u : unit),
  for_each l (fun mdfile =>
    fs_update (copy_file (resolve cwd mdfile)
                 (resolve cwd ["docs"; "MASTG"; name mdfile]))) s = Return (u, s') ->
  (forall nm c, doc ++ [nm] ∈ l ->
     files s !! resolve cwd (doc ++ [nm]) = Some (File c) ->
     files s !! (cwd ++ ["docs"; "MASTG"; nm]) <> Some Dir ->
     files s' !! (cwd ++ ["docs"; "MASTG"; nm]) = Some (File c))
  /\ (forall q, (forall nm, doc ++ [nm] ∈ l -> ~ chapter_pages cwd [nm] q) ->
                files s' !! q = files s !! q).
Proof.
  induction l as [|p0 l IH]; intros Hnodup Hl Hsrc s s' u Hrun.
  - injection Hrun as <- <-. split; [| reflexivity].
    intros nm c H. now apply elem_of_nil in H.
  - cbn [for_each] in Hrun. apply bind_inv in Hrun as (u1 & s1 & Hcopy & Hrun).
    apply NoDup_cons in Hnodup as [Hp0 Hnodup].
    destruct (Hl p0 (list_elem_of_here _ _)) as (nm0 & -> & Hnm0).
    rewrite name_snoc in Hcopy.
    assert (Hdst : resolve cwd ["docs"; "MASTG"; nm0] = cwd ++ ["docs"; "MASTG"; nm0]).
    { apply resolve_plain. plain. }
    rewrite Hdst in Hcopy.
    apply fs_update_inv in Hcopy as [Hcopy _].
    apply copy_file_inv in Hcopy as (c0 & Hc0 & _ & _ & _ & E1).
    set (target := copy_target (resolve cwd (doc ++ [nm0])) (cwd ++ ["docs"; "MASTG"; nm0])
                     (files s)) in *.
    assert (Htarget : chapter_pages cwd [nm0] target).
    { unfold chapter_pages, target. cbn [name List.last].
      destruct (copy_target_cases (resolve cwd (doc ++ [nm0]))
                  (cwd ++ ["docs"; "MASTG"; nm0]) (files s)) as [[_ ->] | [_ ->]].
      - right. rewrite (last_resolve cwd doc nm0 Hnm0). now rewrite <- app_assoc.
      - now left. }
    destruct (IH Hnodup (fun p Hp => Hl p (list_elem_of_further _ _ _ Hp))
                (fun p rel Hp => Hsrc p rel (list_elem_of_further _ _ _ Hp))
                s1 s' u Hrun) as [Hcopied Hrest].
    assert (Hother : forall nm, nm <> nm0 -> ~ chapter_pages cwd [nm] target).
    { intros nm Hne H. unfold chapter_pages in *. cbn [name List.last] in *.
      destruct Htarget as [E | E]; rewrite E in H;
        destruct H as [H | H]; apply app_inv_head in H; congruence. }
    assert (Hsource : forall p, p ∈ l -> files s1 !! resolve cwd p = files s !! resolve cwd p).
    { intros p Hp. rewrite E1. apply lookup_insert_ne. intros E.
      destruct Htarget as [E' | E']; rewrite E' in E; symmetry in E;
        exact (Hsrc p _ (list_elem_of_further _ _ _ Hp) E). }
    split.
    + intros nm c Hnm Hc Hfree. apply elem_of_cons in Hnm as [E | Hnm].
      * apply app_inv_head in E. injection E as ->.
        rewrite Hrest.
        -- rewrite E1. rewrite Hc in Hc0. injection Hc0 as <-.
           unfold target.
           destruct (copy_target_cases (resolve cwd (doc ++ [nm0]))
                       (cwd ++ ["docs"; "MASTG"; nm0]) (files s)) as [[H _] | [_ ->]];
             [contradiction | apply lookup_insert_eq].
        -- intros nm Hnm H. unfold chapter_pages in H. cbn [name List.last] in H.
           destruct H as [H | H]; apply app_inv_head in H; [| discriminate H].
           injection H as <-. contradiction.
      * assert (Hne : nm <> nm0) by (intros ->; contradiction).
        apply Hcopied; [exact Hnm | now rewrite (Hsource _ Hnm) |].
        rewrite E1, lookup_insert_ne; [exact Hfree |].
        intros E. apply (Hother nm Hne). rewrite E. left. reflexivity.
    + intros q Hq. rewrite Hrest.
      * rewrite E1. apply lookup_insert_ne. intros <-.
        now apply (Hq nm0 (list_elem_of_here _ _)).
      * intros nm Hnm. apply Hq. now right.
Qed.

End Chapters.

(** ** The beta tests *)

Lemma last_below {A} (k r : list A) (d : A) :
  r <> [] -> List.last (k ++ r) d = List.last r d.
Proof.
  intros Hr. induction k as [|x k IH]; [reflexivity |].
  cbn [app List.last]. destruct (k ++ r) eqn:E; [| exact IH].
  apply app_eq_nil in E as [_ ->]. contradiction.
Qed.

Section Beta.

Variable cwd : list string.
Hypothesis cwd_plain : ".." ∉ cwd.
Variable beta : Path.
Hypothesis beta_apart :
  forall r, ~ under (cwd ++ ["docs"; "MASTG"; "tests"]) (resolve cwd beta ++ r)
            /\ ~ upto (cwd ++ ["docs"; "MASTG"; "tests"]) (resolve cwd beta ++ r).

(** One file of [tests-beta]: a regular file is copied to its place
    below [docs/MASTG/tests], or into the directory that stands there. *)
Lemma beta_file_inv (r : Path) (s s1 : state) (u : unit) :
  ".." ∉ r -> r <> [] ->
  (do regular <- is_file cwd (beta ++ r);
   if regular
   then mkdir cwd (parent ("docs" :: "MASTG" :: "tests"
                             :: List.skipn (length beta) (beta ++ r))) ;;
        fs_update (copy_file (resolve cwd (beta ++ r))
                     (resolve cwd ("docs" :: "MASTG" :: "tests"
                                     :: List.skipn (length beta) (beta ++ r))))
   else ret tt) s = Return (u, s1) ->
  match files s !! (resolve cwd beta ++ r) with
  | Some (File c) =>
      exists target,
        (target = (cwd ++ ["docs"; "MASTG"; "tests"]) ++ r
         /\ files s !! ((cwd ++ ["docs"; "MASTG"; "tests"]) ++ r) <> Some Dir
         \/ target = (cwd ++ ["docs"; "MASTG"; "tests"]) ++ r ++ [List.last r EmptyString]
            /\ files s !! ((cwd ++ ["docs"; "MASTG"; "tests"]) ++ r) = Some Dir)
        /\ files s1 !! target = Some (File c)
        /\ forall q, q <> target ->
             ~ upto ((cwd ++ ["docs"; "MASTG"; "tests"]) ++ removelast r) q ->
             files s1 !! q = files s !! q
  | _ => files s1 = files s
  end.
Proof.
  intros Hr Hne Hrun. rewrite drop_app_length in Hrun.
  change ("docs" :: "MASTG" :: "tests" :: r) with (["docs"; "MASTG"; "tests"] ++ r) in Hrun.
  assert (Hdst : resolve cwd (["docs"; "MASTG"; "tests"] ++ r)
                 = (cwd ++ ["docs"; "MASTG"; "tests"]) ++ r).
  { rewrite resolve_under by (plain || assumption). apply app_assoc. }
  assert (Hparent : resolve cwd (parent (["docs"; "MASTG"; "tests"] ++ r))
                    = (cwd ++ ["docs"; "MASTG"; "tests"]) ++ removelast r).
  { unfold parent. rewrite removelast_app by exact Hne.
    rewrite resolve_under; [apply app_assoc | plain | now apply removelast_plain]. }
  rewrite Hdst in Hrun. rewrite (resolve_app cwd beta r Hr) in Hrun.
  apply bind_inv in Hrun as (regular & s0 & His & Hrun).
  unfold is_file in His. rewrite (resolve_app cwd beta r Hr) in His.
  injection His as <- <-.
  destruct (files s !! (resolve cwd beta ++ r)) as [[c|]|] eqn:Hsrc;
    [| now injection Hrun as _ <- | now injection Hrun as _ <-].
  apply bind_inv in Hrun as (ua & sa & Hmk & Hcopy).
  apply fs_update_inv in Hmk as [Hmk _]. rewrite Hparent in Hmk.
  apply mkdir_p_inv in Hmk as (_ & _ & Hrest).
  apply fs_update_inv in Hcopy as [Hcopy _].
  apply copy_file_inv in Hcopy as (c' & Hc' & _ & _ & _ & E1).
  set (T := cwd ++ ["docs"; "MASTG"; "tests"]) in *.
  assert (Hplace : ~ upto (T ++ removelast r) (T ++ r)).
  { intros [H _]. apply prefix_app_inv in H. apply prefix_length in H.
    destruct r as [|x r] using rev_ind; [contradiction |].
    rewrite removelast_last, length_app in H. simpl in H. lia. }
  assert (Hsource : files sa !! (resolve cwd beta ++ r) = Some (File c)).
  { rewrite Hrest; [exact Hsrc |]. intros H.
    apply upto_split in H as [H | H];
      [exact (proj2 (beta_apart r) H) | exact (proj1 (beta_apart r) H)]. }
  rewrite Hsource in Hc'. injection Hc' as <-.
  exists (copy_target (resolve cwd beta ++ r) (T ++ r) (files sa)).
  split; [| split].
  - destruct (copy_target_cases (resolve cwd beta ++ r) (T ++ r) (files sa))
      as [[H ->] | [H ->]].
    + right. rewrite last_below by exact Hne. rewrite <- app_assoc.
      split; [reflexivity |]. now rewrite <- (Hrest _ Hplace).
    + left. split; [reflexivity |]. now rewrite <- (Hrest _ Hplace).
  - rewrite E1. apply lookup_insert_eq.
  - intros q Hq Hq'. rewrite E1, lookup_insert_ne by congruence. now apply Hrest.
Qed.

(** The loop over what [rglob] finds in [tests-beta]: a regular file
    among them has taken its place, whatever the order. *)
Lemma beta_inv (l : list Path) :
  NoDup l ->
  (forall p, p ∈ l -> exists r, p = beta ++ r /\ r <> [] /\ ".." ∉ r) ->
  forall (s s' : state) (u : unit), sound (files s) ->
  for_each l (fun file =>
    do regular <- is_file cwd file;
    if regular
    then mkdir cwd (parent ("docs" :: "MASTG" :: "tests"
                              :: List.skipn (length beta) file)) ;;
         fs_update (copy_file (resolve cwd file)
                      (resolve cwd ("docs" :: "MASTG" :: "tests"
                                      :: List.skipn (length beta) file)))
    else ret tt) s = Return (u, s') ->
  forall r c, files s !! (resolve cwd beta ++ r) = Some (File c) ->
    (beta ++ r ∈ l ->
     files s !! ((cwd ++ ["docs"; "MASTG"; "tests"]) ++ r) <> Some Dir ->
     files s' !! ((cwd ++ ["docs"; "MASTG"; "tests"]) ++ r) = Some (File c))
    /\ (beta ++ r ∉ l -> forall c0,
          files s !! ((cwd ++ ["docs"; "MASTG"; "tests"]) ++ r) = Some (File c0) ->
          files s' !! ((cwd ++ ["docs"; "MASTG"; "tests"]) ++ r) = Some (File c0)).
Proof.
  set (T := cwd ++ ["docs"; "MASTG"; "tests"]) in *.
  induction l as [|p0 l IH]; intros Hnodup Hl s s' u Hs Hrun r c Hsrc.
  - injection Hrun as <- <-. split; [| auto]. intros H. now apply elem_of_nil in H.
  - cbn [for_each] in Hrun. apply bind_inv in Hrun as (u1 & s1 & Hstep & Hrun).
    apply NoDup_cons in Hnodup as [Hp0 Hnodup].
    destruct (Hl p0 (list_elem_of_here _ _)) as (r0 & -> & Hne0 & Hr0).
    destruct (post_beta_file cwd cwd_plain (fun q => under T q \/ upto T q) (fun _ => True)
                beta r0 Hr0 Hne0 (fun q H => or_introl H) (fun q H => or_intror H)
                s u1 s1 Hs Hstep) as (Hframe & _ & Hs1).
    assert (Hsource : forall r, files s1 !! (resolve cwd beta ++ r)
                                = files s !! (resolve cwd beta ++ r)).
    { intros r'. apply Hframe. intros [H | H];
        [exact (proj1 (beta_apart r') H) | exact (proj2 (beta_apart r') H)]. }
    specialize (IH Hnodup (fun p Hp => Hl p (list_elem_of_further _ _ _ Hp))
                  s1 s' u Hs1 Hrun r c).
    rewrite Hsource in IH. destruct (IH Hsrc) as [IHin IHout].
    pose proof (beta_file_inv r0 s s1 u1 Hr0 Hne0 Hstep) as Hinv. fold T in Hinv.
    destruct (files s !! (resolve cwd beta ++ r0)) as [[c0|]|] eqn:Hsrc0.
    + destruct Hinv as (target & Htarget & Hwritten & Hrest).
      assert (Hwf : well_formed (files s)) by apply Hs.
      assert (Hother : r <> r0 -> files s1 !! (T ++ r) = files s !! (T ++ r)).
      { intros Hne. apply Hrest.
        - intros E. destruct Htarget as [[-> _] | [-> _]].
          + apply app_inv_head in E. contradiction.
          + apply app_inv_head in E.
            assert (H : files s !! (resolve cwd beta ++ r) = None).
            { apply (nothing_below _ (resolve cwd beta ++ r0)); [exact Hwf | congruence | |].
              - rewrite E, app_assoc. now apply prefix_app_r.
              - intros E'. apply app_inv_head in E'. contradiction. }
            congruence.
        - intros [H _]. apply prefix_app_inv in H.
          assert (H' : files s !! (resolve cwd beta ++ r0) = None).
          { apply (nothing_below _ (resolve cwd beta ++ r)); [exact Hwf | congruence | |].
            - apply prefix_app. transitivity (removelast r0); [exact H |].
              apply removelast_prefix.
            - intros E'. apply app_inv_head in E'. now symmetry in E'. }
          congruence. }
      split.
      * intros Hin Hfree. apply elem_of_cons in Hin as [E | Hin].
        -- apply app_inv_head in E. subst r0.
           rewrite Hsrc in Hsrc0. injection Hsrc0 as <-.
           destruct Htarget as [[-> _] | [_ H]]; [| contradiction].
           apply (IHout Hp0 c Hwritten).
        -- assert (Hne : r <> r0) by (intros ->; contradiction).
           apply IHin; [exact Hin |]. now rewrite (Hother Hne).
      * intros Hout c1 Hc1. apply not_elem_of_cons in Hout as [Hne Hout].
        assert (Hne' : r <> r0) by congruence.
        apply IHout; [exact Hout |]. now rewrite (Hother Hne').
    + rewrite Hinv in IHin, IHout. split.
      * intros Hin Hfree. apply elem_of_cons in Hin as [E | Hin]; [| now apply IHin].
        apply app_inv_head in E. subst r0. congruence.
      * intros Hout. apply not_elem_of_cons in Hout as [_ Hout]. now apply IHout.
    + rewrite Hinv in IHin, IHout. split.
      * intros Hin Hfree. apply elem_of_cons in Hin as [E | Hin]; [| now apply IHin].
        apply app_inv_head in E. subst r0. congruence.
      * intros Hout. apply not_elem_of_cons in Hout as [_ Hout]. now apply IHout.
Qed.

End Beta.

Section MastgPhases.

Variable cwd : list string.
Hypothesis cwd_plain : ".." ∉ cwd.
Hypothesis cwd_name : name cwd ∉ repositories.

(** Nothing of the repository is a place in [docs]. *)
Lemma mastg_source_apart (repo p rel : Path) :
  repo ∈ candidates "mastg" -> ".." ∉ p ->
  apart (resolve cwd (repo ++ p)) (cwd ++ "docs" :: rel).
Proof.
  intros Hrepo Hp. apply (source_apart cwd cwd_plain cwd_name "mastg");
    [unfold repositories; listed | exact Hrepo | exact Hp].
Qed.

Lemma mastg_source_not_docs (repo p r rel : Path) :
  repo ∈ candidates "mastg" -> ".." ∉ p ->
  resolve cwd (repo ++ p) ++ r <> cwd ++ "docs" :: rel.
Proof.
  intros Hrepo Hp E.
  apply (S_not_under cwd (repo ++ p) ("docs" :: rel)
           (mastg_source_apart repo p rel Hrepo Hp) r).
  now rewrite E.
Qed.

(** The first part of [structure_mastg], down to the beta tests. *)
Lemma mastg_copies_inv {B} (k : Path -> M B) (s : state) (res : B * state) :
  sound (files s) ->
  (do mastg_repo_dir <- locate_external_repo cwd "mastg";
   mkdir cwd ["docs"; "MASTG"] ;;
   mkdir cwd ["docs"; "assets"; "Images"] ;;
   log_record INFO ("Using MASTG directory: " +:+ str_of_path mastg_repo_dir) ;;
   for_each directories (fun d =>
     clean_and_copy cwd (mastg_repo_dir ++ [d]) ["docs"; "MASTG"; d]) ;;
   do present <- exists_ cwd (mastg_repo_dir ++ ["tests-beta"]);
   (if present then
      do found <- rglob cwd (fun _ => true) (mastg_repo_dir ++ ["tests-beta"]);
      for_each found (fun file =>
        do regular <- is_file cwd file;
        if regular then
          mkdir cwd (parent ("docs" :: "MASTG" :: "tests"
                             :: List.skipn (length (mastg_repo_dir ++ ["tests-beta"])) file)) ;;
          fs_update (copy_file (resolve cwd file)
                       (resolve cwd ("docs" :: "MASTG" :: "tests"
                          :: List.skipn (length (mastg_repo_dir ++ ["tests-beta"])) file)))
        else ret tt)
    else ret tt) ;;
   k mastg_repo_dir) s = Return res ->
  exists repo s0 s5,
    locate_external_repo cwd "mastg" s = Return (repo, s0)
    /\ repo ∈ candidates "mastg"
    /\ sound (files s5)
    /\ (forall d r, d ∈ directories ->
          (d = "tests" -> files s !! resolve cwd (repo ++ ["tests-beta"]) = None) ->
          files s5 !! (cwd ++ ["docs"; "MASTG"; d] ++ r)
          = if decide (r = []) then Some Dir
            else files s !! (resolve cwd (repo ++ [d]) ++ r))
    /\ (forall r c, r <> [] ->
          files s !! (resolve cwd (repo ++ ["tests-beta"]) ++ r) = Some (File c) ->
          files s !! (resolve cwd (repo ++ ["tests"]) ++ r) <> Some Dir ->
          files s5 !! (cwd ++ ["docs"; "MASTG"; "tests"] ++ r) = Some (File c))
    /\ (forall q, ~ upto (cwd ++ ["docs"; "MASTG"]) q ->
                  ~ upto (cwd ++ ["docs"; "assets"; "Images"]) q ->
                  (forall d, d ∈ directories -> ~ under (cwd ++ ["docs"; "MASTG"; d]) q) ->
                  files s5 !! q = files s !! q)
    /\ k repo s5 = Return res.
Proof.
  intros Hs Hrun.
  apply bind_inv in Hrun as (repo & s0 & Hloc & Hrun).
  pose proof (locate_value cwd "mastg" s s0 repo Hloc) as Hrepo.
  destruct (post_locate cwd (fun _ => False) (fun _ => False) "mastg" s repo s0 Hs Hloc)
    as (Hsame & _ & Hs0).
  assert (Hbase : ".." ∉ ["docs"; "MASTG"]) by plain.
  apply bind_inv in Hrun as (u1 & s1 & Hmk1 & Hrun).
  destruct (post_mkdir_at cwd cwd_plain (upto (cwd ++ ["docs"; "MASTG"])) (fun _ => True)
              ["docs"; "MASTG"] Hbase (fun q H => H) s0 u1 s1 Hs0 Hmk1) as (Hf1 & _ & Hs1).
  apply bind_inv in Hrun as (u2 & s2 & Hmk2 & Hrun).
  assert (Himages : ".." ∉ ["docs"; "assets"; "Images"]) by plain.
  destruct (post_mkdir_at cwd cwd_plain (upto (cwd ++ ["docs"; "assets"; "Images"]))
              (fun _ => True) ["docs"; "assets"; "Images"] Himages (fun q H => H)
              s1 u2 s2 Hs1 Hmk2) as (Hf2 & _ & Hs2).
  apply bind_inv in Hrun as (u3 & s3 & Hlog & Hrun).
  pose proof (reads_log _ _ s2 u3 s3 Hlog) as E3.
  assert (Hs3 : sound (files s3)) by now rewrite E3.
  assert (Hmade : forall q, ~ upto (cwd ++ ["docs"; "MASTG"]) q ->
                    ~ upto (cwd ++ ["docs"; "assets"; "Images"]) q ->
                    files s3 !! q = files s !! q).
  { intros q Hq Hq'. rewrite E3, Hf2, Hf1 by assumption. apply Hsame. intros []. }
  apply bind_inv in Hrun as (u4 & s4 & Hcopies & Hrun).
  destruct (copies_inv cwd cwd_plain repo ["docs"; "MASTG"] Hbase directories) with
    (s := s3) (s' := s4) (u := u4) as (Hs4 & Hcopied & Hrest4);
    [ | exact directory_plain | | exact Hs3 | exact Hcopies | ].
  { unfold directories. repeat (apply NoDup_cons; split; [plain |]). apply NoDup_nil_2. }
  { intros d d' Hd Hd'. apply mastg_source_apart; [exact Hrepo |].
    apply not_elem_of_cons. split; [| apply not_elem_of_nil].
    intros E. now apply (directory_plain d Hd). }
  assert (Hstatic3 : forall p r, ".." ∉ p ->
            files s3 !! (resolve cwd (repo ++ p) ++ r)
            = files s !! (resolve cwd (repo ++ p) ++ r)).
  { intros p r Hp. apply Hmade.
    - apply (S_not_upto cwd (repo ++ p) ["docs"; "MASTG"]
               (mastg_source_apart repo p ["MASTG"] Hrepo Hp)).
    - apply (S_not_upto cwd (repo ++ p) ["docs"; "assets"; "Images"]
               (mastg_source_apart repo p ["assets"; "Images"] Hrepo Hp)). }
  assert (Hstatic : forall p r, ".." ∉ p ->
            files s4 !! (resolve cwd (repo ++ p) ++ r)
            = files s !! (resolve cwd (repo ++ p) ++ r)).
  { intros p r Hp. rewrite Hrest4; [now apply Hstatic3 | |].
    - intros d _. apply (S_not_under cwd (repo ++ p) ["docs"; "MASTG"; d]
                           (mastg_source_apart repo p ["MASTG"; d] Hrepo Hp)).
    - apply (S_not_upto cwd (repo ++ p) ["docs"; "MASTG"]
               (mastg_source_apart repo p ["MASTG"] Hrepo Hp)). }
  apply bind_inv in Hrun as (present & s4' & Hex & Hrun).
  unfold exists_ in Hex. injection Hex as Hpresent <-.
  apply bind_inv in Hrun as (u5 & s5 & Hbeta & Hrun).
  set (W := fun q => present = true
                     /\ (under (cwd ++ ["docs"; "MASTG"; "tests"]) q
                         \/ upto (cwd ++ ["docs"; "MASTG"; "tests"]) q)).
  framed W Hs4 Hbeta Hf5 Hs5.
  { destruct present eqn:Hp; [| apply post_ret]. apply post_rglob. intros found Hfound.
    eapply post_pages with (1 := Hfound).
    intros r (Hne & Hplain & _). apply post_beta_file; try assumption.
    - intros q Hq. split; [reflexivity |]. now left.
    - intros q Hq. split; [reflexivity |]. now right. }
  exists repo, s0, s5. split; [exact Hloc |]. split; [exact Hrepo |].
  split; [exact Hs5 |]. split; [| split; [| split; [| exact Hrun]]].
  - intros d r Hd Hnone. rewrite Hf5.
    + change (cwd ++ ["docs"; "MASTG"; d] ++ r) with (cwd ++ ["docs"; "MASTG"] ++ [d] ++ r).
      rewrite (Hcopied d r Hd). destruct (decide (r = [])); [reflexivity |].
      apply Hstatic3. apply not_elem_of_cons. split; [| apply not_elem_of_nil].
      intros E. now apply (directory_plain d Hd).
    + intros [Hp H].
      assert (E : d = "tests").
      { destruct H as [H | [H _]]; apply prefix_app_inv in H; cbn [app] in H.
        - apply prefix_cons_inv_2, prefix_cons_inv_2, prefix_cons_inv_1 in H. congruence.
        - apply prefix_cons_inv_2, prefix_cons_inv_2, prefix_cons_inv_1 in H. congruence. }
      specialize (Hnone E). rewrite <- Hpresent in Hp.
      apply bool_decide_eq_true in Hp as [n Hn].
      rewrite <- (app_nil_r (resolve cwd _)) in Hn.
      rewrite (Hstatic ["tests-beta"] []) in Hn by plain.
      rewrite app_nil_r in Hn. congruence.
  - intros r c Hr Hc Hfree.
    assert (Hbp : ".." ∉ ["tests-beta"]) by plain.
    set (beta := repo ++ ["tests-beta"]) in *.
    assert (Hc4 : files s4 !! (resolve cwd beta ++ r) = Some (File c)).
    { exact (eq_trans (Hstatic ["tests-beta"] r Hbp) Hc). }
    assert (Hdir : files s4 !! resolve cwd beta = Some Dir).
    { apply (proj1 Hs4 _ _ Hc4); [now apply prefix_app_r |].
      intros E. symmetry in E. rewrite <- (app_nil_r (resolve cwd beta)) in E at 2.
      apply app_inv_head in E. contradiction. }
    rewrite Hdir in Hpresent. rewrite bool_decide_eq_true_2 in Hpresent by eauto.
    subst present. apply bind_inv in Hbeta as (found & s4' & Hglob & Hloop).
    destruct (rglob_inv cwd (fun _ => true) beta s4 s4' found Hglob Hs4)
      as (-> & Hnodup & Hfound).
    assert (Hapart : forall r', ~ under (cwd ++ ["docs"; "MASTG"; "tests"])
                                  (resolve cwd beta ++ r')
                                /\ ~ upto (cwd ++ ["docs"; "MASTG"; "tests"])
                                     (resolve cwd beta ++ r')).
    { intros r'. split.
      - apply (S_not_under cwd beta ["docs"; "MASTG"; "tests"]
                 (mastg_source_apart repo ["tests-beta"] ["MASTG"; "tests"] Hrepo Hbp)).
      - apply (S_not_upto cwd beta ["docs"; "MASTG"; "tests"]
                 (mastg_source_apart repo ["tests-beta"] ["MASTG"; "tests"] Hrepo Hbp)). }
    destruct (beta_inv cwd cwd_plain beta Hapart found Hnodup) with
      (s := s4) (s' := s5) (u := u5) (r := r) (c := c) as [Hin _];
      [ | exact Hs4 | exact Hloop | exact Hc4 | ].
    { intros p Hp. apply Hfound in Hp as (r' & -> & Hne & Hsome & _).
      exists r'. split; [reflexivity |]. split; [exact Hne |].
      apply (plain_below (files s4) (resolve cwd beta) r'); [apply Hs4 | exact Hsome]. }
    rewrite app_assoc. apply Hin.
    + apply Hfound. exists r. rewrite Hc4. eauto.
    + rewrite <- app_assoc.
      change (cwd ++ ["docs"; "MASTG"; "tests"] ++ r)
        with (cwd ++ ["docs"; "MASTG"] ++ ["tests"] ++ r).
      rewrite (Hcopied "tests" r ltac:(unfold directories; listed)).
      destruct (decide (r = [])); [contradiction |].
      intros E. apply Hfree. now rewrite <- (Hstatic3 ["tests"] r ltac:(plain)).
  - intros q Hq Hq' Hdirs. rewrite Hf5.
    + rewrite Hrest4; [now apply Hmade | exact Hdirs | exact Hq].
    + intros [_ [H | H]].
      * apply (Hdirs "tests"); [unfold directories; listed | exact H].
      * apply upto_cases in H as [-> | H].
        -- apply (Hdirs "tests"); [unfold directories; listed | reflexivity].
        -- rewrite removelast_app in H by discriminate. now apply Hq.
Qed.

(** The second part: the index page and the chapters. *)
Lemma mastg_top_inv {B} (repo : Path) (k : Path -> M B) (s5 : state) (res : B * state) :
  repo ∈ candidates "mastg" -> sound (files s5) ->
  (do present <- exists_ cwd (repo ++ ["Document"]);
   do document_dir <-
     (if negb present then
        log_record INFO ("Document directory not found, trying: "
                         +:+ str_of_path (repo ++ ["docs"])) ;;
        ret (repo ++ ["docs"])
      else ret (repo ++ ["Document"]));
   do present <- exists_ cwd document_dir;
   do indexed <- exists_ cwd (document_dir ++ ["index.md"]);
   (if negb present || negb indexed then
      log_record WARNING
        "Document directory or index.md not found, creating minimal structure" ;;
      fs_update (write_text (resolve cwd ["docs"; "MASTG"; "index.md"]) minimal_index)
    else
      fs_update (copy_file (resolve cwd (document_dir ++ ["index.md"]))
                   (resolve cwd ["docs"; "MASTG"; "index.md"]))) ;;
   do present <- exists_ cwd document_dir;
   (if present then
      do chapters <- rglob cwd is_chapter_md document_dir;
      for_each chapters (fun mdfile =>
        fs_update (copy_file (resolve cwd mdfile)
                     (resolve cwd ["docs"; "MASTG"; name mdfile])))
    else ret tt) ;;
   k document_dir) s5 = Return res ->
  exists s7,
    sound (files s7)
    /\ (files s5 !! (cwd ++ ["docs"; "MASTG"; "index.md"]) <> Some Dir ->
        files s5 !! resolve cwd (document_dir cwd repo (files s5) ++ ["index.md"]) <> Some Dir
        /\ files s7 !! (cwd ++ ["docs"; "MASTG"; "index.md"])
           = Some (File
               (match files s5 !! resolve cwd (document_dir cwd repo (files s5) ++ ["index.md"])
                with
                | Some (File c) => c
                | _ => minimal_index
                end)))
    /\ (forall nm c, is_chapter_md [nm] = true ->
          files s5 !! resolve cwd (document_dir cwd repo (files s5) ++ [nm]) = Some (File c) ->
          files s5 !! (cwd ++ ["docs"; "MASTG"; nm]) <> Some Dir ->
          files s7 !! (cwd ++ ["docs"; "MASTG"; nm]) = Some (File c))
    /\ (forall q, ~ index_pages cwd q ->
                  (forall nm, startswith "0x0" nm = true -> ~ chapter_pages cwd [nm] q) ->
                  files s7 !! q = files s5 !! q)
    /\ k (document_dir cwd repo (files s5)) s7 = Return res.
Proof.
  intros Hrepo Hs5 Hrun.
  apply bind_inv in Hrun as (present & s5' & Hex & Hrun).
  unfold exists_ in Hex. injection Hex as Hpresent <-.
  apply bind_inv in Hrun as (doc & s5' & Hdoc & Hrun).
  assert (Hdoc' : doc = document_dir cwd repo (files s5) /\ files s5' = files s5).
  { unfold document_dir. rewrite Hpresent. destruct present; cbn [negb] in Hdoc.
    - now injection Hdoc as <- <-.
    - apply bind_inv in Hdoc as (u0 & s0 & Hlog & Hret).
      injection Hret as <- <-. split; [reflexivity |]. exact (reads_log _ _ _ _ _ Hlog). }
  destruct Hdoc' as [Edoc E5]. rewrite <- Edoc. clear Hdoc.
  assert (Hs5' : sound (files s5')) by now rewrite E5.
  assert (Hplain : exists x, doc = repo ++ [x] /\ x <> "..").
  { rewrite Edoc. unfold document_dir. case_bool_decide; eexists; split;
      try reflexivity; discriminate. }
  destruct Hplain as (x & Ex & Hx).
  assert (Hsrc : forall r rel, ".." ∉ r -> resolve cwd (doc ++ r) <> cwd ++ "docs" :: rel).
  { intros r rel Hr. rewrite Ex, <- app_assoc, <- (app_nil_r (resolve cwd _)).
    apply mastg_source_not_docs; [exact Hrepo |]. cbn [app].
    apply not_elem_of_cons. split; [congruence | exact Hr]. }
  apply bind_inv in Hrun as (there & s5'' & Hex & Hrun).
  unfold exists_ in Hex. injection Hex as Hthere <-.
  apply bind_inv in Hrun as (indexed & s5'' & Hex & Hrun).
  unfold exists_ in Hex. injection Hex as Hindexed <-.
  apply bind_inv in Hrun as (u6 & s6 & Hindex & Hrun).
  framed (index_pages cwd) Hs5' Hindex Hf6 Hs6.
  { apply post_index; [exact cwd_plain |]. auto. }
  apply bind_inv in Hrun as (there' & s6' & Hex & Hrun).
  unfold exists_ in Hex. injection Hex as Hthere' <-.
  apply bind_inv in Hrun as (u7 & s7 & Hchapters & Hrun).
  set (C := fun q => exists nm, startswith "0x0" nm = true /\ chapter_pages cwd [nm] q).
  framed C Hs6 Hchapters Hf7 Hs7.
  { destruct there'; [| apply post_ret]. apply post_rglob. intros chapters Hl.
    apply post_for_each. intros p Hp.
    destruct (Hl p Hp) as (r & -> & Hne & Hpl & Hsel).
    apply chapter_inv in Hsel as (nm & -> & Hnm).
    apply post_chapter; [exact cwd_plain | |].
    - intros ->. apply Hpl. left.
    - intros q Hq. exists nm. split; [exact Hnm |].
      unfold chapter_pages in *. now rewrite name_snoc in Hq. }
  assert (Hindex_page : resolve cwd ["docs"; "MASTG"; "index.md"]
                        = cwd ++ ["docs"; "MASTG"; "index.md"]).
  { apply resolve_plain. plain. }
  assert (Hnot_chapter : forall nm, startswith "0x0" nm = true ->
            ~ chapter_pages cwd [nm] (cwd ++ ["docs"; "MASTG"; "index.md"])).
  { intros nm Hnm [H | H]; apply app_inv_head in H; cbn [name List.last] in H;
      [| discriminate H]. injection H as <-. discriminate Hnm. }
  exists s7. split; [exact Hs7 |]. split; [| split; [| split; [| exact Hrun]]].
  - intros Hfree. rewrite <- E5 in Hfree |- *.
    rewrite Hf7 by (intros (nm & Hnm & H); now apply (Hnot_chapter nm Hnm)).
    rewrite Hindex_page in Hindex.
    destruct (negb there || negb indexed) eqn:Hcase.
    + apply bind_inv in Hindex as (u0 & s0 & Hlog & Hwrite).
      pose proof (reads_log _ _ _ _ _ Hlog) as E0.
      apply fs_update_inv in Hwrite as [Hwrite _].
      apply write_text_inv in Hwrite as (_ & _ & ->).
      rewrite lookup_insert_eq.
      assert (Hnone : files s5' !! resolve cwd (doc ++ ["index.md"]) = None).
      { apply orb_true_iff in Hcase as [Hc | Hc]; apply negb_true_iff in Hc.
        - rewrite <- Hthere in Hc. apply bool_decide_eq_false in Hc.
          rewrite resolve_app by plain.
          apply (nothing_below _ (resolve cwd doc)); [apply Hs5' | | now apply prefix_app_r |].
          + intros E. apply Hc. rewrite E. eauto.
          + apply app_cons_neq.
        - rewrite <- Hindexed in Hc. apply bool_decide_eq_false in Hc.
          destruct (files s5' !! resolve cwd (doc ++ ["index.md"]));
            [exfalso; eauto | reflexivity]. }
      rewrite Hnone. split; [discriminate | reflexivity].
    + apply fs_update_inv in Hindex as [Hindex _].
      apply copy_file_inv in Hindex as (c & Hc & _ & _ & _ & ->).
      rewrite Hc. split; [discriminate |].
      destruct (copy_target_cases (resolve cwd (doc ++ ["index.md"]))
                  (cwd ++ ["docs"; "MASTG"; "index.md"]) (files s5')) as [[H _] | [_ ->]];
        [contradiction | apply lookup_insert_eq].
  - intros nm c Hchapter Hc Hfree. rewrite <- E5 in Hc, Hfree.
    apply chapter_inv in Hchapter as Hnm. destruct Hnm as (nm' & E & Hnm).
    injection E as <-.
    assert (Hne : nm <> "..") by (intros ->; discriminate Hnm).
    assert (Hpl : ".." ∉ [nm]) by (apply not_elem_of_cons; split; [congruence | apply not_elem_of_nil]).
    assert (Hc6 : files s6 !! resolve cwd (doc ++ [nm]) = Some (File c)).
    { rewrite Hf6; [exact Hc |]. intros [H | H]; now apply Hsrc in H. }
    assert (Hfree6 : files s6 !! (cwd ++ ["docs"; "MASTG"; nm]) <> Some Dir).
    { rewrite Hf6; [exact Hfree |].
      intros [H | H]; apply app_inv_head in H; [| discriminate H].
      injection H as ->. discriminate Hnm. }
    assert (Hdir : files s6 !! resolve cwd doc = Some Dir).
    { rewrite resolve_app in Hc6 by exact Hpl.
      apply (proj1 Hs6 _ _ Hc6); [now apply prefix_app_r |].
      intros E. symmetry in E. now apply app_cons_neq in E. }
    rewrite <- Hthere' in Hchapters. rewrite Hdir in Hchapters.
    rewrite bool_decide_eq_true_2 in Hchapters by eauto.
    apply bind_inv in Hchapters as (l & s6' & Hglob & Hloop).
    destruct (rglob_inv cwd is_chapter_md doc s6 s6' l Hglob Hs6) as (-> & Hnodup & Hl).
    destruct (chapters_inv cwd doc l Hnodup) with (s := s6) (s' := s7) (u := u7)
      as [Hcopied _]; [| | exact Hloop |].
    + intros p Hp. apply Hl in Hp as (r & -> & _ & _ & Hsel).
      apply chapter_inv in Hsel as (nm' & -> & Hnm'). exists nm'. split; [reflexivity |].
      intros ->. discriminate Hnm'.
    + intros p rel Hp. apply Hl in Hp as (r & -> & _ & _ & Hsel).
      apply chapter_inv in Hsel as (nm' & -> & Hnm'). apply Hsrc.
      apply not_elem_of_cons. split; [| apply not_elem_of_nil].
      intros <-. discriminate Hnm'.
    + apply (Hcopied nm c); [| exact Hc6 | exact Hfree6].
      apply Hl. exists [nm]. split; [reflexivity |]. split; [discriminate |].
      rewrite <- resolve_app by exact Hpl. rewrite Hc6. split; [eauto | exact Hchapter].
  - intros q Hq Hq'. rewrite Hf7, Hf6, E5; [reflexivity | exact Hq |].
    intros (nm & Hnm & H). now apply (Hq' nm Hnm).
Qed.

(** The last part: the images and the fixes. *)
Lemma mastg_finish_inv (doc : Path) (s7 s' : state) (u : unit) :
  sound (files s7) ->
  (do present <- exists_ cwd (doc ++ ["Images"]);
   (if present then
      fs_update (copytree (resolve cwd (doc ++ ["Images"]))
                   (resolve cwd ["docs"; "assets"; "Images"]))
    else
      log_record WARNING ("Images directory not found at "
                          +:+ str_of_path (doc ++ ["Images"])) ;;
      mkdir cwd ["docs"; "assets"; "Images"]) ;;
   for_each rel_paths (fun '(subdir, rel_img) =>
     do files <- find_md_files cwd ["docs"; "MASTG"; subdir];
     batch_replace cwd files
       [("src=" +:+ DQUOTE +:+ "Images/", "src=" +:+ DQUOTE +:+ rel_img)]) ;;
   do files <- find_md_files cwd ["docs"; "MASTG"];
   batch_replace cwd files
     [("src=" +:+ DQUOTE +:+ "Images/", "src=" +:+ DQUOTE +:+ "../../../assets/Images/");
      ("Document/", EmptyString)]) s7 = Return (u, s') ->
  (forall d r,
     files s' !! (cwd ++ ["docs"; "MASTG"; d] ++ r)
     = match files s7 !! (cwd ++ ["docs"; "MASTG"; d] ++ r) with
       | Some (File c) => Some (File (mastg_page d r c))
       | entry => entry
       end)
  /\ (forall r c, r <> [] ->
        files s7 !! (resolve cwd (doc ++ ["Images"]) ++ r) = Some (File c) ->
        files s7 !! (cwd ++ ["docs"; "assets"; "Images"] ++ r) <> Some Dir ->
        files s' !! (cwd ++ ["docs"; "assets"; "Images"] ++ r) = Some (File c)).
Proof.
  intros Hs7 Hrun.
  assert (Hbase : ".." ∉ ["docs"; "MASTG"]) by plain.
  apply bind_inv in Hrun as (pictures & s7' & Hex & Hrun).
  unfold exists_ in Hex. injection Hex as Hpresent <-.
  apply bind_inv in Hrun as (u8 & s8 & Hpictures & Hrun).
  set (W := fun q => under (cwd ++ ["docs"; "assets"; "Images"]) q
                     \/ upto (cwd ++ ["docs"; "assets"; "Images"]) q).
  framed W Hs7 Hpictures Hf8 Hs8.
  { apply post_images; [exact cwd_plain | |]; intros q Hq; [now left | now right]. }
  apply bind_inv in Hrun as (u9 & s9 & Hrel & Hrun).
  destruct (fixes_inv cwd cwd_plain ["docs"; "MASTG"] Hbase
              (fun rel_img => [("src=" +:+ DQUOTE +:+ "Images/",
                                "src=" +:+ DQUOTE +:+ rel_img)])
              ltac:(discriminate) rel_paths) with (s := s8) (s' := s9) (u := u9)
    as (Hs9 & Hfixed & Hsame); [ | | exact Hs8 | exact Hrel | ].
  { vm_compute. repeat (apply NoDup_cons; split; [plain |]). apply NoDup_nil_2. }
  { intros [subdir rel_img] He. apply (directory_plain subdir).
    now apply (rel_path_directory subdir rel_img). }
  apply bind_inv in Hrun as (found & s9' & Hfind & Hbatch).
  destruct (fix_pages_inv cwd ["docs"; "MASTG"] generic_replacements s9 s9' s' found u
              Hbase ltac:(discriminate) Hs9 Hfind Hbatch) as [Hpages Hrest].
  split; [| intros r c Hr Hc Hfree].
  2: { assert (Hplace : forall e : string * string,
                 ~ strict (cwd ++ ["docs"; "MASTG"] ++ [fst e])
                     (cwd ++ ["docs"; "assets"; "Images"] ++ r)).
       { intros e [H _]. apply prefix_app_inv in H. cbn [app] in H.
         apply prefix_cons_inv_2, prefix_cons_inv_1 in H. discriminate. }
       rewrite Hrest, Hsame; [| intros e _; apply Hplace |].
       2: { intros [H _]. apply prefix_app_inv in H. cbn [app] in H.
            apply prefix_cons_inv_2, prefix_cons_inv_1 in H. discriminate. }
       assert (Hdir : files s7 !! resolve cwd (doc ++ ["Images"]) = Some Dir).
       { apply (proj1 Hs7 _ _ Hc); [now apply prefix_app_r |].
         intros E. symmetry in E. rewrite <- (app_nil_r (resolve cwd _)) in E at 2.
         apply app_inv_head in E. contradiction. }
       rewrite Hdir in Hpresent. rewrite bool_decide_eq_true_2 in Hpresent by eauto.
       subst pictures. apply fs_update_inv in Hpictures as [Hpictures _].
       rewrite (resolve_plain cwd ["docs"; "assets"; "Images"]) in Hpictures by plain.
       apply copytree_inv in Hpictures as (_ & _ & _ & t1 & Hmk & _ & ->).
       apply mkdir_p_inv in Hmk as (_ & _ & Hkept).
       assert (Hlonger : ~ upto (cwd ++ ["docs"; "assets"; "Images"])
                           ((cwd ++ ["docs"; "assets"; "Images"]) ++ r)).
       { intros [H _]. apply prefix_length in H. rewrite !length_app in H.
         destruct r; [contradiction | simpl in H; lia]. }
       rewrite app_assoc. apply lookup_union_Some_l. apply lookup_copied_onto.
       - now rewrite lookup_subtree.
       - apply bool_decide_eq_false. rewrite (Hkept _ Hlonger), <- app_assoc. exact Hfree. }
  intros d r.
  assert (Haway : ~ W (cwd ++ ["docs"; "MASTG"; d] ++ r)).
  { intros [H | [H _]]; apply prefix_app_inv in H; cbn [app] in H;
      apply prefix_cons_inv_2, prefix_cons_inv_1 in H; discriminate. }
  specialize (Hpages (d :: r) ltac:(discriminate)). rewrite <- app_assoc in Hpages.
  cbn [app] in *. rewrite Hpages. unfold mastg_page. cbn [app].
  destruct r as [|x r].
  - rewrite Hsame, Hf8; [| exact Haway |].
    + destruct (files s7 !! (cwd ++ ["docs"; "MASTG"; d])) as [[c|]|]; reflexivity.
    + intros e _ [H Hne]. apply prefix_app_inv in H. cbn [app] in H.
      apply prefix_cons_inv_2, prefix_cons_inv_2 in H.
      pose proof (prefix_cons_inv_1 _ _ _ _ H) as E.
      apply Hne. now rewrite E.
  - specialize (Hfixed d (x :: r) ltac:(discriminate)). cbn [app] in Hfixed.
    rewrite Hfixed, Hf8 by exact Haway.
    destruct (files s7 !! (cwd ++ "docs" :: "MASTG" :: d :: x :: r)) as [[c|]|];
      [| reflexivity | reflexivity].
    f_equal. f_equal. unfold generic_fix.
    assert (Hmd : is_md (d :: x :: r) = is_md (x :: r)) by reflexivity.
    rewrite Hmd.
    destruct (is_md (x :: r) && visible ("docs" :: "MASTG" :: d :: x :: r));
      destruct (List.find _ rel_paths) as [[k rel_img]|]; reflexivity.
Qed.

End MastgPhases.

(** Not a chapter page, not the index page. *)
Lemma directory_not_top (cwd : list string) (d : string) (r : list string) :
  d <> "index.md" -> startswith "0x0" d = false ->
  ~ index_pages cwd (cwd ++ ["docs"; "MASTG"; d] ++ r)
  /\ (forall nm, startswith "0x0" nm = true ->
        ~ chapter_pages cwd [nm] (cwd ++ ["docs"; "MASTG"; d] ++ r)).
Proof.
  intros Hd Hd'. split.
  - intros [H | H]; apply app_inv_head in H; cbn [app] in H; injection H as E _; congruence.
  - intros nm Hnm [H | H]; apply app_inv_head in H; cbn [app name List.last] in H;
      injection H as E _; congruence.
Qed.

Lemma directory_not_chapter (d : string) :
  d ∈ directories -> d <> "index.md" /\ startswith "0x0" d = false.
Proof.
  intros Hd. unfold directories in Hd.
  repeat (apply elem_of_cons in Hd as [-> | Hd]; [split; [discriminate | reflexivity] |]).
  now apply elem_of_nil in Hd.
Qed.

(** X23. What [structure_mastg] has made of the nine directories of
    [docs/MASTG] when it returns.  Below [docs/MASTG/d] stand the
    entries of the repository's directory [d] and nothing else; for
    [tests] this is said of a repository without [tests-beta].  A
    regular file that [find_md_files] lists holds its text after the
    replacement of [rel_paths] for [d], where there is one, and the two
    generic replacements; every other file is a plain copy. *)
Theorem structure_mastg_pages (cwd : list string) (s s' : state) (u : unit) :
  ".." ∉ cwd -> name cwd ∉ repositories -> sound (files s) ->
  structure_mastg cwd ["docs"] s = Return (u, s') ->
  exists repo s0,
    locate_external_repo cwd "mastg" s = Return (repo, s0)
    /\ forall d r, d ∈ directories -> r <> [] ->
         (d = "tests" -> files s !! resolve cwd (repo ++ ["tests-beta"]) = None) ->
         files s' !! (cwd ++ ["docs"; "MASTG"; d] ++ r)
         = match files s !! (resolve cwd (repo ++ [d]) ++ r) with
           | Some (File c) => Some (File (mastg_page d r c))
           | entry => entry
           end.
Proof.
  intros Hcwd Hname Hs Hrun. unfold structure_mastg in Hrun. cbn [app] in Hrun.
  apply (mastg_copies_inv cwd Hcwd Hname) in Hrun
    as (repo & s0 & s5 & Hloc & Hrepo & Hs5 & Hcopied & _ & _ & Hrun); [| exact Hs].
  apply (mastg_top_inv cwd Hcwd Hname repo) in Hrun
    as (s7 & Hs7 & _ & _ & Hrest & Hrun); [| exact Hrepo | exact Hs5].
  pose proof (proj1 (mastg_finish_inv cwd Hcwd _ s7 s' u Hs7 Hrun)) as Hfixed.
  exists repo, s0. split; [exact Hloc |]. intros d r Hd Hr Hnone.
  destruct (directory_not_chapter d Hd) as [Hd1 Hd2].
  destruct (directory_not_top cwd d r Hd1 Hd2) as [Hq Hq'].
  rewrite Hfixed, (Hrest _ Hq Hq'), (Hcopied d r Hd Hnone).
  now destruct (decide (r = [])).
Qed.

Lemma structure_mastg_pages_witness :
  exists s',
    structure_mastg ["site"] ["docs"] {| files := example_tree; log := [] |}
    = Return (tt, s')
    /\ files s' !! ["site"; "docs"; "MASTG"; "knowledge"; "a.md"]
       = Some (File ("<img src=" +:+ DQUOTE +:+ "../../../../../assets/Images/x.png"
                     +:+ DQUOTE +:+ "> 0x04.md"))
    /\ files s' !! ["site"; "docs"; "MASTG"; "tests"; "t.md"] = None.
Proof.
  assert (Hvalue : returned (structure_mastg ["site"] ["docs"]
                               {| files := example_tree; log := [] |}) = true)
    by (vm_compute; reflexivity).
  destruct (structure_mastg ["site"] ["docs"] {| files := example_tree; log := [] |})
    as [[[] s']|e] eqn:Hrun; [| discriminate Hvalue].
  exists s'. split; [reflexivity |].
  destruct (structure_mastg_pages ["site"] {| files := example_tree; log := [] |} s' tt)
    as (repo & s0 & Hloc & Hpages).
  - plain.
  - unfold repositories. plain.
  - exact example_tree_sound.
  - exact Hrun.
  - assert (Hrepo : value_of (locate_external_repo ["site"] "mastg"
                                {| files := example_tree; log := [] |})
                    = Some ["repos"; "mastg"]) by (vm_compute; reflexivity).
    rewrite Hloc in Hrepo. injection Hrepo as ->. cbn [files] in Hpages. split.
    + etransitivity; [apply (Hpages "knowledge" ["a.md"]) | vm_compute; reflexivity].
      * unfold directories. listed.
      * discriminate.
      * discriminate.
    + etransitivity; [apply (Hpages "tests" ["t.md"]) | vm_compute; reflexivity].
      * unfold directories. listed.
      * discriminate.
      * intros _. vm_compute. reflexivity.
Defined.

Section MastgKept.

Variable cwd : list string.
Hypothesis cwd_plain : ".." ∉ cwd.
Hypothesis cwd_name : name cwd ∉ repositories.
Variables (repo : Path) (t t5 : tree).
Hypothesis repo_found : repo ∈ candidates "mastg".
Hypothesis copies_frame :
  forall q, ~ upto (cwd ++ ["docs"; "MASTG"]) q ->
            ~ upto (cwd ++ ["docs"; "assets"; "Images"]) q ->
            (forall d, d ∈ directories -> ~ under (cwd ++ ["docs"; "MASTG"; d]) q) ->
            t5 !! q = t !! q.

(** The copies leave the repository as it is. *)
Lemma mastg_repository_kept (p r : Path) :
  ".." ∉ p ->
  t5 !! (resolve cwd (repo ++ p) ++ r) = t !! (resolve cwd (repo ++ p) ++ r).
Proof.
  intros Hp. apply copies_frame.
  - apply (S_not_upto cwd (repo ++ p) ["docs"; "MASTG"]
             (mastg_source_apart cwd cwd_plain cwd_name repo p ["MASTG"] repo_found Hp)).
  - apply (S_not_upto cwd (repo ++ p) ["docs"; "assets"; "Images"]
             (mastg_source_apart cwd cwd_plain cwd_name repo p ["assets"; "Images"]
                repo_found Hp)).
  - intros d _. apply (S_not_under cwd (repo ++ p) ["docs"; "MASTG"; d]
                         (mastg_source_apart cwd cwd_plain cwd_name repo p ["MASTG"; d]
                            repo_found Hp)).
Qed.

Lemma mastg_document_kept : document_dir cwd repo t5 = document_dir cwd repo t.
Proof.
  unfold document_dir. rewrite <- (app_nil_r (resolve cwd (repo ++ ["Document"]))).
  rewrite (mastg_repository_kept ["Document"] []) by plain. reflexivity.
Qed.

Lemma mastg_document_page (nm : string) :
  nm <> ".." ->
  t5 !! resolve cwd (document_dir cwd repo t5 ++ [nm])
  = t !! resolve cwd (document_dir cwd repo t ++ [nm]).
Proof.
  intros Hnm. rewrite mastg_document_kept. unfold document_dir.
  case_bool_decide; rewrite <- app_assoc, <- (app_nil_r (resolve cwd _));
    apply mastg_repository_kept; cbn [app];
    (apply not_elem_of_cons; split; [discriminate |]);
    (apply not_elem_of_cons; split; [congruence | apply not_elem_of_nil]).
Qed.

Lemma mastg_document_below (p r : Path) :
  ".." ∉ p ->
  t5 !! (resolve cwd (document_dir cwd repo t5 ++ p) ++ r)
  = t !! (resolve cwd (document_dir cwd repo t ++ p) ++ r).
Proof.
  intros Hp. rewrite mastg_document_kept. unfold document_dir.
  case_bool_decide; rewrite <- app_assoc; apply mastg_repository_kept; cbn [app];
    (apply not_elem_of_cons; split; [discriminate | exact Hp]).
Qed.

(** Nothing below the directory of the index page is a page of
    [docs/MASTG]. *)
Lemma mastg_document_not_top (p r : Path) :
  ".." ∉ p ->
  ~ index_pages cwd (resolve cwd (document_dir cwd repo t ++ p) ++ r)
  /\ (forall nm, ~ chapter_pages cwd [nm]
                    (resolve cwd (document_dir cwd repo t ++ p) ++ r)).
Proof.
  intros Hp.
  assert (H : forall rel, resolve cwd (document_dir cwd repo t ++ p) ++ r
                          <> cwd ++ "docs" :: rel).
  { intros rel. unfold document_dir. case_bool_decide; rewrite <- app_assoc;
      apply (mastg_source_not_docs cwd cwd_plain cwd_name); try exact repo_found;
      cbn [app]; (apply not_elem_of_cons; split; [discriminate | exact Hp]). }
  split; [intros [E | E]; now apply H in E |].
  intros nm [E | E]; now apply H in E.
Qed.

(** And what stands in [docs/MASTG] beside the nine directories. *)
Lemma mastg_beside_kept (d : string) (r : list string) :
  d ∉ directories ->
  t5 !! (cwd ++ ["docs"; "MASTG"; d] ++ r) = t !! (cwd ++ ["docs"; "MASTG"; d] ++ r).
Proof.
  intros Hd. apply copies_frame.
  - intros [H _]. apply prefix_length in H. rewrite !length_app in H. simpl in H. lia.
  - intros [H _]. apply prefix_app_inv in H. cbn [app] in H.
    apply prefix_cons_inv_2, prefix_cons_inv_1 in H. discriminate.
  - intros d' Hd' H. apply prefix_app_inv in H. cbn [app] in H.
    apply prefix_cons_inv_2, prefix_cons_inv_2, prefix_cons_inv_1 in H. congruence.
Qed.

End MastgKept.

(** X24. The index page that [structure_mastg] leaves, where
    [docs/MASTG/index.md] was no directory before.  It is taken from the
    repository's [Document], or from its [docs] when there is no
    [Document]: the [index.md] found there, or else the minimal page,
    in either case after the two generic replacements.  An [index.md]
    that is a directory there makes the function raise. *)
Theorem structure_mastg_index (cwd : list string) (s s' : state) (u : unit) :
  ".." ∉ cwd -> name cwd ∉ repositories -> sound (files s) ->
  structure_mastg cwd ["docs"] s = Return (u, s') ->
  files s !! (cwd ++ ["docs"; "MASTG"; "index.md"]) <> Some Dir ->
  exists repo s0,
    locate_external_repo cwd "mastg" s = Return (repo, s0)
    /\ files s !! resolve cwd (document_dir cwd repo (files s) ++ ["index.md"]) <> Some Dir
    /\ files s' !! (cwd ++ ["docs"; "MASTG"; "index.md"])
       = Some (File (generic_fix
           (match files s !! resolve cwd (document_dir cwd repo (files s) ++ ["index.md"])
            with
            | Some (File c) => c
            | _ => minimal_index
            end))).
Proof.
  intros Hcwd Hname Hs Hrun Hfree. unfold structure_mastg in Hrun. cbn [app] in Hrun.
  apply (mastg_copies_inv cwd Hcwd Hname) in Hrun
    as (repo & s0 & s5 & Hloc & Hrepo & Hs5 & _ & _ & Hsame & Hrun); [| exact Hs].
  apply (mastg_top_inv cwd Hcwd Hname repo) in Hrun
    as (s7 & Hs7 & Hindex & _ & _ & Hrun); [| exact Hrepo | exact Hs5].
  pose proof (proj1 (mastg_finish_inv cwd Hcwd _ s7 s' u Hs7 Hrun) "index.md" []) as Hfixed.
  exists repo, s0. split; [exact Hloc |].
  assert (Hindexed : "index.md" ∉ directories) by (unfold directories; plain).
  pose proof (mastg_beside_kept cwd (files s) (files s5) Hsame "index.md" [] Hindexed)
    as Eq.
  pose proof (mastg_document_page cwd Hcwd Hname repo (files s) (files s5) Hrepo Hsame
                "index.md" ltac:(discriminate)) as Esrc.
  cbn [app] in *. rewrite Eq, Esrc in Hindex.
  destruct (Hindex Hfree) as [Hsrc Hpage]. split; [exact Hsrc |].
  rewrite Hfixed, Hpage. reflexivity.
Qed.

Lemma structure_mastg_index_witness :
  exists s',
    structure_mastg ["site"] ["docs"] {| files := example_tree; log := [] |}
    = Return (tt, s')
    /\ files s' !! ["site"; "docs"; "MASTG"; "index.md"] = Some (File "# MASTG").
Proof.
  assert (Hvalue : returned (structure_mastg ["site"] ["docs"]
                               {| files := example_tree; log := [] |}) = true)
    by (vm_compute; reflexivity).
  destruct (structure_mastg ["site"] ["docs"] {| files := example_tree; log := [] |})
    as [[[] s']|e] eqn:Hrun; [| discriminate Hvalue].
  exists s'. split; [reflexivity |].
  destruct (structure_mastg_index ["site"] {| files := example_tree; log := [] |} s' tt)
    as (repo & s0 & Hloc & _ & Hpage).
  - plain.
  - unfold repositories. plain.
  - exact example_tree_sound.
  - exact Hrun.
  - vm_compute. discriminate.
  - assert (Hrepo : value_of (locate_external_repo ["site"] "mastg"
                                {| files := example_tree; log := [] |})
                    = Some ["repos"; "mastg"]) by (vm_compute; reflexivity).
    rewrite Hloc in Hrepo. injection Hrepo as ->.
    etransitivity; [exact Hpage | vm_compute; reflexivity].
Defined.

(** X25. The chapters that [structure_mastg] leaves.  A regular file
    of the directory the index page is taken from, whose name starts
    with [0x0] and ends in [.md], stands under its name in [docs/MASTG]
    (where no directory of that name stood), with its text after the
    two generic replacements. *)
Theorem structure_mastg_chapters (cwd : list string) (s s' : state) (u : unit) :
  ".." ∉ cwd -> name cwd ∉ repositories -> sound (files s) ->
  structure_mastg cwd ["docs"] s = Return (u, s') ->
  exists repo s0,
    locate_external_repo cwd "mastg" s = Return (repo, s0)
    /\ forall nm c,
         startswith "0x0" nm = true -> endswith ".md" nm = true ->
         files s !! resolve cwd (document_dir cwd repo (files s) ++ [nm]) = Some (File c) ->
         files s !! (cwd ++ ["docs"; "MASTG"; nm]) <> Some Dir ->
         files s' !! (cwd ++ ["docs"; "MASTG"; nm])
         = Some (File (if visible ["docs"; "MASTG"; nm] then generic_fix c else c)).
Proof.
  intros Hcwd Hname Hs Hrun. unfold structure_mastg in Hrun. cbn [app] in Hrun.
  apply (mastg_copies_inv cwd Hcwd Hname) in Hrun
    as (repo & s0 & s5 & Hloc & Hrepo & Hs5 & _ & _ & Hsame & Hrun); [| exact Hs].
  apply (mastg_top_inv cwd Hcwd Hname repo) in Hrun
    as (s7 & Hs7 & _ & Hchapters & _ & Hrun); [| exact Hrepo | exact Hs5].
  pose proof (proj1 (mastg_finish_inv cwd Hcwd _ s7 s' u Hs7 Hrun)) as Hfixed.
  exists repo, s0. split; [exact Hloc |]. intros nm c Hnm Hmd Hc Hfree.
  assert (Hchapter : nm ∉ directories) by now apply chapter_not_directory.
  assert (Hne : nm <> "..") by (intros ->; discriminate Hnm).
  pose proof (mastg_beside_kept cwd (files s) (files s5) Hsame nm [] Hchapter) as Eq.
  pose proof (mastg_document_page cwd Hcwd Hname repo (files s) (files s5) Hrepo Hsame
                nm Hne) as Esrc.
  specialize (Hfixed nm []). cbn [app] in *.
  rewrite Hfixed, (Hchapters nm c).
  - unfold mastg_page, is_md. cbn [app List.last]. now rewrite Hmd.
  - unfold is_chapter_md, is_md. cbn [length List.last Nat.eqb]. now rewrite Hnm, Hmd.
  - now rewrite Esrc.
  - now rewrite Eq.
Qed.

Lemma structure_mastg_chapters_witness :
  exists s',
    structure_mastg ["site"] ["docs"] {| files := example_tree; log := [] |}
    = Return (tt, s')
    /\ files s' !! ["site"; "docs"; "MASTG"; "0x01-Foreword.md"] = Some (File "Foreword").
Proof.
  assert (Hvalue : returned (structure_mastg ["site"] ["docs"]
                               {| files := example_tree; log := [] |}) = true)
    by (vm_compute; reflexivity).
  destruct (structure_mastg ["site"] ["docs"] {| files := example_tree; log := [] |})
    as [[[] s']|e] eqn:Hrun; [| discriminate Hvalue].
  exists s'. split; [reflexivity |].
  destruct (structure_mastg_chapters ["site"] {| files := example_tree; log := [] |} s' tt)
    as (repo & s0 & Hloc & Hpages).
  - plain.
  - unfold repositories. plain.
  - exact example_tree_sound.
  - exact Hrun.
  - assert (Hrepo : value_of (locate_external_repo ["site"] "mastg"
                                {| files := example_tree; log := [] |})
                    = Some ["repos"; "mastg"]) by (vm_compute; reflexivity).
    rewrite Hloc in Hrepo. injection Hrepo as ->.
    etransitivity; [apply (Hpages "0x01-Foreword.md" "Foreword") | vm_compute; reflexivity].
    + reflexivity.
    + reflexivity.
    + vm_compute. reflexivity.
    + vm_compute. discriminate.
Defined.

Lemma rel_paths_absent (d : string) :
  d ∉ directories ->
  List.find (fun e : string * string => String.eqb (fst e) d) rel_paths = None.
Proof.
  intros Hd. apply find_absent. intros H. apply Hd.
  apply list_elem_of_fmap in H as ([subdir rel_img] & -> & H).
  now apply (rel_path_directory subdir rel_img).
Qed.

(** X26. What [structure_mastg] makes of the rest of [docs/MASTG]: an
    entry whose first name below [docs/MASTG] is none of the nine
    directories, is not [index.md] and does not start with [0x0] is
    not removed, and a page among these that [find_md_files] lists has
    the two generic replacements made in it, at every run. *)
Theorem structure_mastg_leftover (cwd : list string) (s s' : state) (u : unit) :
  ".." ∉ cwd -> name cwd ∉ repositories -> sound (files s) ->
  structure_mastg cwd ["docs"] s = Return (u, s') ->
  forall d r,
    d ∉ directories -> d <> "index.md" -> startswith "0x0" d = false ->
    files s' !! (cwd ++ ["docs"; "MASTG"; d] ++ r)
    = match files s !! (cwd ++ ["docs"; "MASTG"; d] ++ r) with
      | Some (File c) =>
          Some (File (if is_md (d :: r) && visible (["docs"; "MASTG"; d] ++ r)
                      then generic_fix c else c))
      | entry => entry
      end.
Proof.
  intros Hcwd Hname Hs Hrun. unfold structure_mastg in Hrun. cbn [app] in Hrun.
  apply (mastg_copies_inv cwd Hcwd Hname) in Hrun
    as (repo & s0 & s5 & Hloc & Hrepo & Hs5 & _ & _ & Hsame & Hrun); [| exact Hs].
  apply (mastg_top_inv cwd Hcwd Hname repo) in Hrun
    as (s7 & Hs7 & _ & _ & Hrest & Hrun); [| exact Hrepo | exact Hs5].
  pose proof (proj1 (mastg_finish_inv cwd Hcwd _ s7 s' u Hs7 Hrun)) as Hfixed.
  intros d r Hd Hd1 Hd2.
  destruct (directory_not_top cwd d r Hd1 Hd2) as [Hq Hq'].
  rewrite Hfixed, (Hrest _ Hq Hq'), (mastg_beside_kept cwd (files s) (files s5) Hsame d r Hd).
  destruct (files s !! _) as [[c|]|]; [| reflexivity | reflexivity].
  unfold mastg_page. rewrite (rel_paths_absent d Hd). cbn [app]. now destruct r.
Qed.

Lemma structure_mastg_leftover_witness :
  exists s',
    structure_mastg ["site"] ["docs"] {| files := example_tree_terms; log := [] |}
    = Return (tt, s')
    /\ files s' !! ["site"; "docs"; "MASTG"; "terms"; "MASTG-TERM-0001.md"]
       = Some (File "See Document/0x04.").
Proof.
  assert (Hvalue : returned (structure_mastg ["site"] ["docs"]
                               {| files := example_tree_terms; log := [] |}) = true)
    by (vm_compute; reflexivity).
  destruct (structure_mastg ["site"] ["docs"] {| files := example_tree_terms; log := [] |})
    as [[[] s']|e] eqn:Hrun; [| discriminate Hvalue].
  exists s'. split; [reflexivity |].
  assert (Hpage := structure_mastg_leftover ["site"]
                     {| files := example_tree_terms; log := [] |} s' tt).
  etransitivity; [apply (Hpage ltac:(plain)) with (d := "terms") | vm_compute; reflexivity];
    clear Hpage.
  - unfold repositories. plain.
  - apply check_sound_sound. vm_compute. reflexivity.
  - exact Hrun.
  - unfold directories. plain.
  - discriminate.
  - reflexivity.
Defined.

(** X27. The beta tests win.  When [structure_mastg] returns, a
    regular file of the repository's [tests-beta] stands at the same
    relative path below [docs/MASTG/tests], in place of the file that
    [tests] has there, if any, unless [tests] has a directory at that
    path; the fixes of the [tests] pages are made in it. *)
Theorem structure_mastg_beta_tests (cwd : list string) (s s' : state) (u : unit) :
  ".." ∉ cwd -> name cwd ∉ repositories -> sound (files s) ->
  structure_mastg cwd ["docs"] s = Return (u, s') ->
  exists repo s0,
    locate_external_repo cwd "mastg" s = Return (repo, s0)
    /\ forall r c, r <> [] ->
         files s !! (resolve cwd (repo ++ ["tests-beta"]) ++ r) = Some (File c) ->
         files s !! (resolve cwd (repo ++ ["tests"]) ++ r) <> Some Dir ->
         files s' !! (cwd ++ ["docs"; "MASTG"; "tests"] ++ r)
         = Some (File (mastg_page "tests" r c)).
Proof.
  intros Hcwd Hname Hs Hrun. unfold structure_mastg in Hrun. cbn [app] in Hrun.
  apply (mastg_copies_inv cwd Hcwd Hname) in Hrun
    as (repo & s0 & s5 & Hloc & Hrepo & Hs5 & _ & Hbeta & _ & Hrun); [| exact Hs].
  apply (mastg_top_inv cwd Hcwd Hname repo) in Hrun
    as (s7 & Hs7 & _ & _ & Hrest & Hrun); [| exact Hrepo | exact Hs5].
  pose proof (proj1 (mastg_finish_inv cwd Hcwd _ s7 s' u Hs7 Hrun)) as Hfixed.
  exists repo, s0. split; [exact Hloc |]. intros r c Hr Hc Hfree.
  destruct (directory_not_top cwd "tests" r ltac:(discriminate) eq_refl) as [Hq Hq'].
  now rewrite Hfixed, (Hrest _ Hq Hq'), (Hbeta r c Hr Hc Hfree).
Qed.

Lemma structure_mastg_beta_tests_witness :
  exists s',
    structure_mastg ["site"] ["docs"] {| files := example_tree_beta; log := [] |}
    = Return (tt, s')
    /\ files s' !! ["site"; "docs"; "MASTG"; "tests"; "android"; "t.md"]
       = Some (File "beta t")
    /\ files s' !! ["site"; "docs"; "MASTG"; "tests"; "android"; "b.md"]
       = Some (File "beta b").
Proof.
  assert (Hvalue : returned (structure_mastg ["site"] ["docs"]
                               {| files := example_tree_beta; log := [] |}) = true)
    by (vm_compute; reflexivity).
  destruct (structure_mastg ["site"] ["docs"] {| files := example_tree_beta; log := [] |})
    as [[[] s']|e] eqn:Hrun; [| discriminate Hvalue].
  exists s'. split; [reflexivity |].
  destruct (structure_mastg_beta_tests ["site"] {| files := example_tree_beta; log := [] |}
              s' tt) as (repo & s0 & Hloc & Hpages).
  - plain.
  - unfold repositories. plain.
  - apply check_sound_sound. vm_compute. reflexivity.
  - exact Hrun.
  - assert (Hrepo : value_of (locate_external_repo ["site"] "mastg"
                                {| files := example_tree_beta; log := [] |})
                    = Some ["repos"; "mastg"]) by (vm_compute; reflexivity).
    rewrite Hloc in Hrepo. injection Hrepo as ->. cbn [files] in Hpages. split.
    + etransitivity; [apply (Hpages ["android"; "t.md"] "beta t") | vm_compute; reflexivity].
      * discriminate.
      * vm_compute. reflexivity.
      * vm_compute. discriminate.
    + etransitivity; [apply (Hpages ["android"; "b.md"] "beta b") | vm_compute; reflexivity].
      * discriminate.
      * vm_compute. reflexivity.
      * vm_compute. discriminate.
Defined.

(** X28. The images.  When [structure_mastg] returns, a regular file
    below [Images] in the directory the index page is taken from stands
    at the same relative path below [docs/assets/Images], unless a
    directory stood at that path. *)
Theorem structure_mastg_images (cwd : list string) (s s' : state) (u : unit) :
  ".." ∉ cwd -> name cwd ∉ repositories -> sound (files s) ->
  structure_mastg cwd ["docs"] s = Return (u, s') ->
  exists repo s0,
    locate_external_repo cwd "mastg" s = Return (repo, s0)
    /\ forall r c, r <> [] ->
         files s !! (resolve cwd (document_dir cwd repo (files s) ++ ["Images"]) ++ r)
         = Some (File c) ->
         files s !! (cwd ++ ["docs"; "assets"; "Images"] ++ r) <> Some Dir ->
         files s' !! (cwd ++ ["docs"; "assets"; "Images"] ++ r) = Some (File c).
Proof.
  intros Hcwd Hname Hs Hrun. unfold structure_mastg in Hrun. cbn [app] in Hrun.
  apply (mastg_copies_inv cwd Hcwd Hname) in Hrun
    as (repo & s0 & s5 & Hloc & Hrepo & Hs5 & _ & _ & Hsame & Hrun); [| exact Hs].
  apply (mastg_top_inv cwd Hcwd Hname repo) in Hrun
    as (s7 & Hs7 & _ & _ & Hrest & Hrun); [| exact Hrepo | exact Hs5].
  pose proof (proj2 (mastg_finish_inv cwd Hcwd _ s7 s' u Hs7 Hrun)) as Himages.
  exists repo, s0. split; [exact Hloc |]. intros r c Hr Hc Hfree.
  assert (Hplain : ".." ∉ ["Images"]) by plain.
  apply (Himages r c Hr).
  - destruct (mastg_document_not_top cwd Hcwd Hname repo (files s5) Hrepo ["Images"] r Hplain)
      as [Hq Hq'].
    rewrite (Hrest _ Hq (fun nm _ => Hq' nm)).
    now rewrite (mastg_document_below cwd Hcwd Hname repo (files s) (files s5) Hrepo Hsame
                   ["Images"] r Hplain).
  - rewrite Hrest, Hsame; [exact Hfree | | | | |].
    + intros [H _]. apply prefix_app_inv in H. cbn [app] in H.
      apply prefix_cons_inv_2, prefix_cons_inv_1 in H. discriminate.
    + intros [H _]. apply prefix_length in H. rewrite !length_app in H.
      destruct r; [contradiction | simpl in H; lia].
    + intros d _ H. apply prefix_app_inv in H. cbn [app] in H.
      apply prefix_cons_inv_2, prefix_cons_inv_1 in H. discriminate.
    + intros [H | H]; apply app_inv_head in H; discriminate H.
    + intros nm _ [H | H]; apply app_inv_head in H; discriminate H.
Qed.

Lemma structure_mastg_images_witness :
  exists s',
    structure_mastg ["site"] ["docs"] {| files := example_tree; log := [] |}
    = Return (tt, s')
    /\ files s' !! ["site"; "docs"; "assets"; "Images"; "x.png"] = Some (File "PNG").
Proof.
  assert (Hvalue : returned (structure_mastg ["site"] ["docs"]
                               {| files := example_tree; log := [] |}) = true)
    by (vm_compute; reflexivity).
  destruct (structure_mastg ["site"] ["docs"] {| files := example_tree; log := [] |})
    as [[[] s']|e] eqn:Hrun; [| discriminate Hvalue].
  exists s'. split; [reflexivity |].
  destruct (structure_mastg_images ["site"] {| files := example_tree; log := [] |} s' tt)
    as (repo & s0 & Hloc & Hpages).
  - plain.
  - unfold repositories. plain.
  - exact example_tree_sound.
  - exact Hrun.
  - assert (Hrepo : value_of (locate_external_repo ["site"] "mastg"
                                {| files := example_tree; log := [] |})
                    = Some ["repos"; "mastg"]) by (vm_compute; reflexivity).
    rewrite Hloc in Hrepo. injection Hrepo as ->. cbn [files] in Hpages.
    apply (Hpages ["x.png"] "PNG").
    + discriminate.
    + vm_compute. reflexivity.
    + vm_compute. discriminate.
Defined.

(** X29. The images of the verification standard.  When
    [structure_masvs] returns, a regular file below [Document/images] in
    the repository stands at the same relative path below
    [docs/assets/MASVS/Images], unless a directory stood at that path. *)
Theorem structure_masvs_images (cwd : list string) (s s' : state) (repo : Path) :
  ".." ∉ cwd -> name cwd ∉ repositories -> sound (files s) ->
  structure_masvs cwd ["docs"] s = Return (repo, s') ->
  forall r c, r <> [] ->
    files s !! (resolve cwd (repo ++ ["Document"; "images"]) ++ r) = Some (File c) ->
    files s !! (cwd ++ ["docs"; "assets"; "MASVS"; "Images"] ++ r) <> Some Dir ->
    files s' !! (cwd ++ ["docs"; "assets"; "MASVS"; "Images"] ++ r) = Some (File c).
Proof.
  intros Hcwd Hname Hs Hrun r c Hr Hc Hfree.
  unfold structure_masvs in Hrun. cbn [app] in Hrun.
  apply bind_inv in Hrun as (repo' & s0 & Hloc & Hrun).
  pose proof (locate_value cwd "masvs" s s0 repo' Hloc) as Hrepo.
  destruct (post_locate cwd (fun _ => False) (fun _ => False) "masvs" s repo' s0 Hs Hloc)
    as (Hsame & _ & Hs0).
  assert (E0 : files s0 = files s).
  { apply map_eq. intros q. apply Hsame. intros []. }
  apply bind_inv in Hrun as (u1 & s1 & Hcopy1 & Hrun).
  apply bind_inv in Hrun as (u2 & s2 & Hcopy2 & Hrun).
  apply bind_inv in Hrun as (u3 & s3 & Hmk & Hrun).
  apply bind_inv in Hrun as (u4 & s4 & Htree & Hrun).
  apply bind_inv in Hrun as (l1 & s4' & Hglob1 & Hrun).
  apply bind_inv in Hrun as (u5 & s5 & Hloop1 & Hrun).
  apply bind_inv in Hrun as (l2 & s5' & Hglob2 & Hrun).
  apply bind_inv in Hrun as (u6 & s6 & Hloop2 & Hret).
  unfold ret in Hret. injection Hret as <- <-.
  set (I := cwd ++ ["docs"; "assets"; "MASVS"; "Images"]).
  assert (Hplace : cwd ++ ["docs"; "assets"; "MASVS"; "Images"] ++ r = I ++ r)
    by apply app_assoc.
  rewrite Hplace in *.
  assert (Hlonger : ~ upto I (I ++ r)).
  { intros [H _]. apply prefix_length in H. rewrite !length_app in H.
    destruct r; [contradiction | simpl in H; lia]. }
  assert (Hnot : forall rel, ~ (cwd ++ "docs" :: "MASVS" :: rel) `prefix_of` (I ++ r)).
  { intros rel H. unfold I in H. rewrite <- app_assoc in H. apply prefix_app_inv in H.
    cbn [app] in H. apply prefix_cons_inv_2, prefix_cons_inv_1 in H. discriminate. }
  assert (Hnot' : forall rel, ~ upto (cwd ++ "docs" :: "MASVS" :: rel) (I ++ r)).
  { intros rel [H _]. unfold I in H. rewrite <- app_assoc in H. apply prefix_app_inv in H.
    cbn [app] in H. apply prefix_cons_inv_2, prefix_cons_inv_1 in H. discriminate. }
  (* the states on the way *)
  assert (Hmasvs : "masvs" ∈ repositories) by (unfold repositories; listed).
  destruct (sound_clean_and_copy cwd Hcwd _ _ s0 u1 s1 Hs0 Hcopy1) as (_ & _ & Hs1).
  destruct (sound_clean_and_copy cwd Hcwd _ _ s1 u2 s2 Hs1 Hcopy2) as (_ & _ & Hs2).
  destruct (clean_and_copy_inv cwd Hcwd (repo' ++ ["Document"]) ["docs"; "MASVS"]
              ltac:(discriminate) ltac:(plain)
              (source_apart cwd Hcwd Hname "masvs" repo' ["Document"] ["MASVS"]
                 Hmasvs Hrepo ltac:(plain)) s0 s1 u1 Hs0 Hcopy1)
    as (_ & _ & _ & _ & Hout1).
  destruct (clean_and_copy_inv cwd Hcwd (repo' ++ ["controls"]) ["docs"; "MASVS"; "controls"]
              ltac:(discriminate) ltac:(plain)
              (source_apart cwd Hcwd Hname "masvs" repo' ["controls"] ["MASVS"; "controls"]
                 Hmasvs Hrepo ltac:(plain)) s1 s2 u2 Hs1 Hcopy2)
    as (_ & _ & _ & _ & Hout2).
  destruct (post_mkdir_at cwd Hcwd (upto I) (fun _ => True)
              ["docs"; "assets"; "MASVS"; "Images"] ltac:(plain)
              (fun q H => H) s2 u3 s3 Hs2 Hmk) as (Hframe3 & _ & Hs3).
  destruct (post_copytree_at cwd Hcwd (fun q => under I q \/ upto I q)
              (fun _ => True) (resolve cwd ["docs"; "MASVS"; "images"])
              ["docs"; "assets"; "MASVS"; "Images"] ltac:(plain)
              (fun q H => or_introl H) (fun q H => or_intror H) s3 u4 s4 Hs3 Htree)
    as (_ & _ & Hs4).
  assert (Hbase : ".." ∉ ["docs"; "MASVS"]) by plain.
  assert (Hstrict : ~ strict (cwd ++ ["docs"; "MASVS"]) (I ++ r)).
  { intros [H _]. now apply (Hnot []). }
  lazymatch type of Hloop1 with
  | for_each _ ?body _ = _ =>
      destruct (rglob_loop_inv cwd ["docs"; "MASVS"] is_md body
                  (fun r c => Some (replace "images/"
                     (if contains "controls" (str_of_path (["docs"; "MASVS"] ++ r))
                      then "../../../assets/MASVS/Images/" else "../../assets/MASVS/Images/")
                     (universal_newlines c)))
                  s4 s4' s5 l1 u5 Hbase Hs4) as [_ Hrest1];
      [| exact Hglob1 | exact Hloop1 |]
  end.
  { intros r0 x x' u Hbody. cbn [app] in *.
    destruct (contains "controls" _);
      apply replace_in_file_inv in Hbody as (c0 & Hc0 & E); eauto. }
  assert (Hs5 : sound (files s5)).
  { destruct (rglob_inv cwd is_md _ s4 s4' l1 Hglob1 Hs4) as (-> & _ & _).
    refine (proj2 (proj2 (post_for_each (fun _ => True) (fun _ => True) l1 _ _
                            s4 u5 s5 Hs4 Hloop1))).
    intros p _. destruct (contains "controls" (str_of_path p));
      now apply post_replace_in_file. }
  destruct (rglob_loop_inv cwd ["docs"; "MASVS"] is_control_md (prettify_control cwd)
              (fun r c => match control_page (stem (["docs"; "MASVS"] ++ r))
                                  (universal_newlines c) with
                          | Return c' => Some c'
                          | Raise _ => None
                          end)
              s5 s5' s6 l2 u6 Hbase Hs5) as [_ Hrest2];
    [| exact Hglob2 | exact Hloop2 |].
  { intros r0 x x' u Hbody.
    apply prettify_control_inv in Hbody as (c0 & c' & Hc0 & Hpage & E).
    exists c0, c'. cbn [app] in *. now rewrite Hpage. }
  rewrite (Hrest2 _ Hstrict), (Hrest1 _ Hstrict).
  (* the copy of the images *)
  apply fs_update_inv in Htree as [Htree _].
  rewrite (resolve_plain cwd ["docs"; "assets"; "MASVS"; "Images"]) in Htree by plain.
  rewrite (resolve_plain cwd ["docs"; "MASVS"; "images"]) in Htree by plain.
  fold I in Htree.
  apply copytree_inv in Htree as (_ & _ & _ & t1 & Hmk1 & _ & ->).
  apply mkdir_p_inv in Hmk1 as (_ & _ & Hkept).
  assert (Hdest : files s3 !! (I ++ r) = files s !! (I ++ r)).
  { rewrite (Hframe3 _ Hlonger), Hout2, Hout1, E0;
      [reflexivity | apply Hnot | apply Hnot' | apply Hnot | apply Hnot']. }
  assert (Hsource : files s3 !! ((cwd ++ ["docs"; "MASVS"; "images"]) ++ r) = Some (File c)).
  { rewrite Hframe3.
    - rewrite <- app_assoc.
      change (cwd ++ ["docs"; "MASVS"; "images"] ++ r)
        with (cwd ++ ["docs"; "MASVS"] ++ "images" :: r).
      rewrite (masvs_copied cwd Hcwd Hname repo' s0 s1 s2 u1 u2 ("images" :: r)
                 Hrepo Hs0 Hcopy1 Hcopy2 ltac:(discriminate)).
      cbn [masvs_source String.eqb Ascii.eqb Bool.eqb]. rewrite E0.
      change ["Document"; "images"] with (["Document"] ++ ["images"]) in Hc.
      rewrite app_assoc, resolve_app, <- app_assoc in Hc by plain. exact Hc.
    - intros [H _]. unfold I in H. rewrite <- app_assoc in H. apply prefix_app_inv in H.
      cbn [app] in H. apply prefix_cons_inv_2, prefix_cons_inv_1 in H. discriminate. }
  apply lookup_union_Some_l. apply lookup_copied_onto.
  - now rewrite lookup_subtree.
  - apply bool_decide_eq_false. rewrite (Hkept _ Hlonger), Hdest. exact Hfree.
Qed.

Lemma structure_masvs_images_witness :
  exists s',
    structure_masvs ["site"] ["docs"] {| files := example_tree; log := [] |}
    = Return (["repos"; "masvs"], s')
    /\ files s' !! ["site"; "docs"; "assets"; "MASVS"; "Images"; "l.png"] = Some (File "PNG").
Proof.
  assert (Hvalue : value_of (structure_masvs ["site"] ["docs"]
                               {| files := example_tree; log := [] |})
                   = Some ["repos"; "masvs"]) by (vm_compute; reflexivity).
  destruct (structure_masvs ["site"] ["docs"] {| files := example_tree; log := [] |})
    as [[repo s']|e] eqn:Hrun; [| discriminate Hvalue].
  injection Hvalue as ->. exists s'. split; [reflexivity |].
  apply (structure_masvs_images ["site"] {| files := example_tree; log := [] |} s'
           ["repos"; "masvs"]) with (r := ["l.png"]).
  - plain.
  - unfold repositories. plain.
  - exact example_tree_sound.
  - exact Hrun.
  - discriminate.
  - vm_compute. reflexivity.
  - vm_compute. discriminate.
Defined.

(** ** A missing repository *)

Section Missing.

Variable cwd : list string.
Hypothesis cwd_plain : ".." ∉ cwd.
Hypothesis cwd_name : name cwd ∉ repositories.

Lemma locate_raises (nm : string) (s : state) :
  (forall c, c ∈ candidates nm -> files s !! resolve cwd c <> Some Dir) ->
  exists e, locate_external_repo cwd nm s = Raise e.
Proof.
  intros Hnone. destruct (locate_external_repo_unfold cwd nm s) as [messages ->].
  rewrite find_none_of; [eauto |].
  intros c Hc. apply bool_decide_eq_false, Hnone. now apply list_elem_of_In.
Qed.

Lemma raises_bind {A B} (m : M A) (k : A -> M B) (s : state) :
  (exists e, m s = Raise e) -> exists e, bind m k s = Raise e.
Proof. intros [e H]. exists e. unfold bind. now rewrite H. Qed.

(** The candidates of a repository are no place a merge writes to. *)
Lemma candidates_kept (W : region) {A} (c : M A) (nm : string) (s s1 : state) (a : A) :
  (forall q, W q -> exists rel, under (cwd ++ "docs" :: rel) q \/ upto (cwd ++ "docs" :: rel) q) ->
  post W (fun _ => True) c -> sound (files s) -> c s = Return (a, s1) ->
  nm ∈ repositories ->
  (forall c, c ∈ candidates nm -> files s !! resolve cwd c <> Some Dir) ->
  sound (files s1)
  /\ (forall c, c ∈ candidates nm -> files s1 !! resolve cwd c <> Some Dir).
Proof.
  intros HW Hpost Hs Hrun Hnm Hnone.
  destruct (Hpost s a s1 Hs Hrun) as (Hframe & _ & Hs1). split; [exact Hs1 |].
  intros c0 Hc0. rewrite Hframe; [now apply Hnone |].
  intros Hq. apply HW in Hq as (rel & Hq).
  pose proof (source_apart cwd cwd_plain cwd_name nm c0 [] rel Hnm Hc0 ltac:(plain)) as Ha.
  rewrite app_nil_r in Ha.
  pose proof (S_not_under cwd c0 ("docs" :: rel) Ha []) as H1.
  pose proof (S_not_upto cwd c0 ("docs" :: rel) Ha []) as H2.
  rewrite app_nil_r in H1, H2. destruct Hq as [Hq | Hq]; auto.
Qed.

End Missing.

(** X30. A build without one of its repositories.  When none of the
    three candidate locations of [mastg], of [maswe] or of [masvs] is a
    directory, [on_pre_build] raises and no configuration comes back:
    the merges that run first do not make up for a missing repository. *)
Theorem on_pre_build_missing_repository (cwd : list string) (nm : string)
    (config : Config) (s : state) :
  ".." ∉ cwd -> name cwd ∉ repositories -> sound (files s) ->
  nm ∈ repositories ->
  (forall c, c ∈ candidates nm -> files s !! resolve cwd c <> Some Dir) ->
  exists e, on_pre_build cwd config s = Raise e.
Proof.
  intros Hcwd Hname Hs Hnm Hnone. unfold on_pre_build.
  destruct (structure_mastg cwd ["docs"] s) as [[u1 s1]|e] eqn:H1;
    [| apply raises_bind; eauto].
  assert (Hfirst : nm <> "mastg").
  { intros ->. unfold structure_mastg in H1. apply bind_inv in H1 as (repo & s0 & Hloc & _).
    destruct (locate_raises cwd "mastg" s Hnone) as [e He]. congruence. }
  destruct (candidates_kept cwd Hcwd Hname
              (fun q => under (cwd ++ ["docs"; "MASTG"]) q \/ upto (cwd ++ ["docs"; "MASTG"]) q
                        \/ under (cwd ++ ["docs"; "assets"; "Images"]) q
                        \/ upto (cwd ++ ["docs"; "assets"; "Images"]) q)
              (structure_mastg cwd ["docs"]) nm s s1 u1) as [Hs1 Hnone1]; try assumption.
  { intros q [H | [H | [H | H]]]; eauto. }
  { apply (post_structure_mastg cwd Hcwd Hname); auto. }
  unfold bind at 1. rewrite H1.
  destruct (structure_maswe cwd ["docs"] s1) as [[repo2 s2]|e] eqn:H2;
    [| apply raises_bind; eauto].
  assert (Hsecond : nm <> "maswe").
  { intros ->. unfold structure_maswe in H2. apply bind_inv in H2 as (repo & s0 & Hloc & _).
    destruct (locate_raises cwd "maswe" s1 Hnone1) as [e He]. congruence. }
  destruct (candidates_kept cwd Hcwd Hname
              (fun q => under (cwd ++ ["docs"; "MASWE"]) q \/ upto (cwd ++ ["docs"; "MASWE"]) q)
              (structure_maswe cwd ["docs"]) nm s1 s2 repo2) as [Hs2 Hnone2]; try assumption.
  { intros q [H | H]; eauto. }
  { apply (post_structure_maswe cwd Hcwd Hname); auto. }
  unfold bind at 1. rewrite H2.
  assert (Hthird : nm = "masvs").
  { unfold repositories in Hnm.
    repeat (apply elem_of_cons in Hnm as [-> | Hnm]; [congruence |]).
    now apply elem_of_nil in Hnm. }
  subst nm. apply raises_bind. unfold structure_masvs. apply raises_bind.
  now apply locate_raises.
Qed.

Lemma on_pre_build_missing_repository_witness :
  exists e,
    on_pre_build ["site"] {| extra := ∅; terms := None |}
      {| files := example_tree_stale; log := [] |} = Raise e.
Proof.
  apply (on_pre_build_missing_repository ["site"] "maswe").
  - plain.
  - unfold repositories. plain.
  - apply check_sound_sound. vm_compute. reflexivity.
  - unfold repositories. listed.
  - intros c Hc. unfold candidates in Hc.
    repeat (apply elem_of_cons in Hc as [-> | Hc]; [vm_compute; discriminate |]).
    now apply elem_of_nil in Hc.
Defined.
